(* ===== verification/_CoqProject ===== *)
-Q . S2P
Prelude.v
Effects.v
Amounts.v
HexUtils.v
Text.v
Fees.v
Args.v
Mapping.v
MappingFacts.v
MappingSpec.v
Types.v
Convert.v
RateLimiter.v
World.v
Helpers.v
Rows.v
Peers.v
CardanoSwap.v
Payments.v
CardanoOfframp.v
Bounds.v
Recovery.v
Background.v
Api.v
Router.v
Compose.v
Shell.v
Listing.v
ShellSafety.v
Startup.v
Wallet.v
WalletSafety.v
Metrics.v
Events.v
Disk.v
Node.v
Pool.v
PoolSafety.v
Persistence.v
Gate.v
Validity.v
EndToEnd.v
Sweep.v
Mock.v
Scenarios.v
Boots.v
UnitTests.v
NetworkTests.v
IntegrationTests.v
