(* ===== verification/Prelude.v ===== *)
(** * Cardano Lightning relay: a verification development

    The relay swaps Bitcoin on Lightning for cBTC on Cardano and back.  It is an LDK
    node with a SQLite database of swaps, a client of the Cardano pool contract, a
    REST API, and monitors that cancel what has expired.  This library translates
    the relay's own logic into Rocq and proves what makes it correct.  The Rust
    sources are under [src/src].

    ** How the program is modelled

    A handler of the relay is an [async] function.  [Effects] gives such functions a
    type, [Prog]: a tree of atomic steps on the state the handlers share and of
    requests to code outside the repository.  [World] says what the shared state is
    ([Relay]: the database, the two payment tables, the rate limiter, each behind a
    mutex in the source) and what the requests are ([Req]: the Cardano operator, LDK,
    the disk, the clocks, the timers, [tokio::spawn]).  Third-party functions without
    effects (BOLT11 and bech32 parsing, display of hashes, SHA-256) are the fields of
    the class [Externals]; the operator is the class [CardanoOperator], an
    environment that answers every request the class [Env].  [exec] runs one handler
    alone against an environment and records its requests and their answers.
    [Pool] interleaves handlers; [Compose] runs one component's programs on top of
    another's, and [Node] uses it to put the handlers on top of the on-chain client and
    both under the start-up sequence.

    Integers are [Z] with the wrap-around of their width written out where the source
    computes ([Prelude]); an [f64] is a [spec_float] ([Fees]).  Panics are outcomes:
    [panic = "abort"] is set for every profile.  Of what is printed, the listings of the
    shell, its help and the messages of channel events are modelled ([Listing]).

    ** Files

    - [Prelude]: results, machine integers, strings, lists.
    - [Effects]: programs, runs, weakest preconditions over all answers.
    - [Amounts], [HexUtils], [Text], [Types], [Fees], [Args]: [amounts.rs],
      [hex_utils.rs]; the string functions of the Rust library; [types.rs]; the fee
      estimation of [esplora.rs], [bitcoind_client.rs] and [convert.rs]; [args.rs].
    - [Mapping]: the database of [mapping.rs], as two tables of rows with text
      statuses; [MappingFacts]: its invariant [db_wf] and the effect of each statement
      on a row; [MappingSpec]: the abstract database and the refinement.
    - [RateLimiter]: the limiter of [api.rs].
    - [World], [Helpers], [Rows]: the shared state and requests; the retry loops of
      [helpers.rs]; loops over rows.
    - [Peers]: connecting to peers and opening channels ([cli/peer_cmds.rs],
      [cli/channel_cmds.rs], the reconnection task of [background.rs], the connection
      task of [events.rs]).
    - [CardanoSwap], [Payments], [CardanoOfframp], [Recovery], [Background], [Api],
      [Metrics], [Events]: [cardano_swap.rs], [cli/payment_cmds.rs],
      [cardano_offramp.rs], [recovery.rs], [background.rs] with
      [cli/cardano_cmds.rs], [api.rs] and its metrics, [events.rs]; [Bounds]: how much
      the settling handlers ask and wait.
    - [Router]: the routes, layers, extractors and statuses around the handlers of
      [api.rs].
    - [Shell], [ShellSafety]: the command loop of [cli/mod.rs]; [Listing]: what the
      listing commands print.
    - [Convert], [Wallet], [WalletSafety]: the chain client of [bitcoind_client.rs]
      with its two backends, bitcoind's RPC (the answers converted in [convert.rs])
      and Esplora with BDK ([esplora.rs], [bdk_wallet.rs]).  They have requests and a
      state of their own; [World] sees them as the requests [RCreateFundingTx],
      [RWalletBalance] and [RHandleBump], the first two of which [Node] answers by them.
    - [Startup]: the settings, the recovery sequence and the shutdown of [main.rs];
      [Disk]: the payment tables, the graph, the scorer and the log on disk ([disk.rs],
      [main.rs]); [Sweep]: the migration of [sweep.rs]; [Compose], [Node]: composition of
      components, and [start_ldk] of [main.rs] from the command line to shutdown.
    - [Pool], [PoolSafety], [Persistence], [Validity]: the interleaving semantics, its
      safety theorems and the invariants of the database; [Gate]: recovery at start-up while
      other tasks run; [EndToEnd]: one swap and one
      offramp from the request to the settlement, with anything in between.
    - [Mock], [Scenarios], [Boots]: the test suite's [MockOperator], the theorems
      instantiated in its world, an executable scheduler, three races, and start-ups
      that are evaluated.
    - [UnitTests], [IntegrationTests]: the repository's tests as boolean definitions,
      which the model passes; those that race two threads pass in every interleaving.
      [NetworkTests]: the tests that need Signet or the clock, as programs that return in
      every environment of which the stated behaviour holds.

    Definitions keep the names of the source; a handler that the source writes in one
    piece is sometimes cut where it commits to something ([fulfill_owned],
    [pay_offramp], [create_swap]).

    ** What is proved

    - The database refines two maps of typed records, whatever statements are made
      ([MappingSpec]), and its expiry queries are exact.
    - Each handler, run alone against any environment, does on every branch what it
      is for: which row it changes and how, which requests it makes for which row,
      that it records the hash of a submission exactly when one was accepted, when it
      panics ([CardanoSwap], [CardanoOfframp], [Recovery], [Background], [Api],
      [Events], [Payments]).  Every handler terminates: a [Prog] is inductive; the
      settling handlers do so within a bounded number of requests and time ([Bounds]).
    - In every interleaving of handlers, monitors, shell sessions, restarts and
      recoveries, at most one task acts on-chain for a claimed payment and at most one
      deposit request pays an offramp ([PoolSafety]).  The proofs give each task a
      ghost phase that says what it has won and show that the phases stay compatible
      with the row.  In the same interleavings the database stays well formed, no row
      is lost, no row's terms change ([Persistence]), and every row is one that passed
      all checks of its request ([Validity]), so that an offramp that is taken for payment
      can be paid.
    - A swap that was granted and whose payment was claimed is fulfilled, and an offramp that
      was granted, deposited and paid is collected, when the operator answers and the row
      was left alone; other tasks and restarts may come between the stages, and the client
      reads the outcome under the hash or id it was given ([EndToEnd]).
    - Of an HTTP request: which handler it reaches, that only [POST] changes anything and
      that the pool is out of reach without the operator's token ([Router]).
    - Start-up proceeds in order: with a stored channel manager, the node talks to peers
      only when every channel on disk is synchronised and watched; and a channel is funded
      end to end, by the handler on top of the client ([Node]).  When the recovery of
      offramps has returned, no offramp is being verified or paid, in every interleaving of
      recovery with LDK's events and everything else that may run before the first deposit
      request ([Gate]).
    - The recovery sequence leaves nothing half done, the payment tables survive a
      restart, the node keeps its seed and the wallet its descriptors; the old outputs are
      migrated completely, and none of them is lost whichever operation fails ([Startup],
      [Disk], [WalletSafety], [Sweep]).
    - The shell makes only the requests of the commands that were typed, and ends
      ([ShellSafety]); payments to offers are confirmed first ([Shell]).
    - A funding transaction is complete when LDK gets it, the backend the environment
      asks for is the only one that wallet operations, feerate lookups and broadcasts use (the
      polling of bitcoind's estimates goes on with either), and LDK may spend exactly the
      wallet's segwit outputs ([WalletSafety]).
    - What the compare-and-set does not protect is shown by reachable executions
      ([Scenarios]): one cBTC transaction paying two offramps, one invoice in two
      offramps of which the paid one is not completed, and a cancellation that
      overtakes a payment; that a crash during a payment forfeits it ([Recovery]).
    - The limiter's bound and that its eviction cannot be observed; exactness of the
      amount conversion; bounds of the fee table; round trips of the hexadecimal
      codec, of the command line, of the [.env] file, of a swap request with its
      status, and of the listing of payments with the tables.

    ** Bounds and fuel

    The retry loops recurse on the number of attempts the source passes, the
    cancellation loops on the list of entries.  The shell's loop has one unit of fuel
    per line of input and one more, and [ShellSafety.shell_terminates] proves that it
    never runs out and that more makes no difference; the loop that reads descriptors
    has the length of the file, each descriptor taking at least a byte; formatting a
    number in hexadecimal has 16 digits, enough for a [usize].  The endless tasks
    (monitors, reconnection, announcement, wallet sync) are modelled by one iteration,
    which a [Pool] may start at any time; a connection attempt polls as often as its
    connection stays open, a number that comes with the answer.

    ** What is assumed

    Of the answers of the environment, everything is possible that the types of the requests
    allow.  These types, and the steps on the shared state, leave out the following.

    - A SQLite statement fails only by a conflict of primary keys ([SwapDb.insert] and
      [SwapDb.insert_offramp] say so).  Any other error of SQLite is unwrapped by [mapping.rs]
      and, with [panic = "abort"], ends the process: in [Pool] that is a restart, which may
      come between any two steps; in the theorems about a single run it does not happen.  The
      two counts of active rows, whose errors the API turns into an answer, succeed as well.
    - The clock is past 1970 ([RNow] answers a natural number), so that the [unwrap] of
      [current_timestamp_ms] does not panic.
    - The display of a payment hash is ASCII ([payment_hash_hex], a law of [Externals]): LDK
      displays it in hexadecimal.
    - In [Node] the tasks that [start_ldk] spawns make no steps of their own; they run in
      [Pool], and [Gate] relates them to recovery.  In [Pool] a deposit request and the
      recovery of offramps are not in flight together, since the API is bound after it.
    - In [Sweep], a removal of a directory that fails leaves it as it was.

    ** What is not modelled

    LDK objects that [main.rs] only constructs and passes on (router, gossip sync, onion
    messenger, peer manager, and the closure that hands events to [events.rs]), its
    dummy signal handler, and the block source of [bitcoind_client.rs], which forwards
    to LDK's RPC client; serialisation by LDK's macros ([types.rs], the network graph and
    the scorer), which are parameters; HTTP transport, percent decoding and JSON parsing
    ([axum], [tower], [reqwest], [serde_json]); single lines that commands print about
    their progress, and log lines.  The routing of [axum] that [Router] uses (literal and
    parameter segments, the method of a route, the body limit) is its documented behaviour. *)

From stdpp Require Export base option list strings gmap pretty numbers sorting.
From Stdlib Require Export ZArith.

#[global] Open Scope Z_scope.
#[global] Set Default Goal Selector "!".

(** ** Rust's [Result] *)

Inductive result (A E : Type) : Type :=
| Ok (a : A)
| Err (e : E).
Arguments Ok {_ _} a.
Arguments Err {_ _} e.

Definition is_ok {A E} (r : result A E) : bool :=
  match r with Ok _ => true | Err _ => false end.

(** [Result::ok] *)
Definition res_ok {A E} (r : result A E) : option A :=
  match r with Ok a => Some a | Err _ => None end.

(** [Result::map_err] *)
Definition map_err {A E F} (f : E -> F) (r : result A E) : result A F :=
  match r with Ok a => Ok a | Err e => Err (f e) end.

(** [Option::ok_or_else] *)
Definition ok_or {A E} (o : option A) (e : E) : result A E :=
  match o with Some a => Ok a | None => Err e end.

#[global] Instance result_eq_dec {A E} `{EqDecision A, EqDecision E} :
  EqDecision (result A E).
Proof. solve_decision. Defined.

(** ** Machine integers

    Rust integers are kept as [Z]; the release profile of the crate has no
    overflow checks, so arithmetic wraps around at the width of the type. *)

Definition i64_min : Z := - 2 ^ 63.
Definition i64_max : Z := 2 ^ 63 - 1.
Definition u64_max : Z := 2 ^ 64 - 1.
Definition u32_max : Z := 2 ^ 32 - 1.

Definition in_i64 (z : Z) : Prop := i64_min <= z <= i64_max.
Definition in_u64 (z : Z) : Prop := 0 <= z <= u64_max.
Definition in_u32 (z : Z) : Prop := 0 <= z <= u32_max.

Definition wrap_i64 (z : Z) : Z := (z + 2 ^ 63) mod 2 ^ 64 - 2 ^ 63.
Definition wrap_u64 (z : Z) : Z := z mod 2 ^ 64.
Definition wrap_u32 (z : Z) : Z := z mod 2 ^ 32.
Definition wrap_u8 (z : Z) : Z := z mod 2 ^ 8.

Definition i64_add (a b : Z) : Z := wrap_i64 (a + b).
Definition u64_add (a b : Z) : Z := wrap_u64 (a + b).
(** [u64::checked_mul] *)
Definition u64_checked_mul (a b : Z) : option Z :=
  if a * b <=? u64_max then Some (a * b) else None.

Ltac unfold_ints :=
  unfold in_i64, in_u64, in_u32, i64_add, u64_add, wrap_i64, wrap_u64, wrap_u32, wrap_u8,
    i64_min, i64_max, u64_max, u32_max in *.

Lemma wrap_i64_id (z : Z) : in_i64 z -> wrap_i64 z = z.
Proof. unfold_ints. intros H. rewrite Z.mod_small; lia. Qed.

Lemma wrap_i64_range (z : Z) : in_i64 (wrap_i64 z).
Proof. unfold_ints. pose proof (Z.mod_pos_bound (z + 2 ^ 63) (2 ^ 64) ltac:(lia)). lia. Qed.

Lemma wrap_u64_id (z : Z) : in_u64 z -> wrap_u64 z = z.
Proof. unfold_ints. intros H. rewrite Z.mod_small; lia. Qed.

Lemma wrap_u64_range (z : Z) : in_u64 (wrap_u64 z).
Proof. unfold_ints. pose proof (Z.mod_pos_bound z (2 ^ 64) ltac:(lia)). lia. Qed.

Lemma i64_add_id (a b : Z) : in_i64 (a + b) -> i64_add a b = a + b.
Proof. apply wrap_i64_id. Qed.

(** ** Strings

    A Rust [&str] is its UTF-8 bytes: [String.length] is [str::len]. *)

#[local] Arguments String.append : simpl nomatch.

(** [str::starts_with] *)
Definition starts_with (s pre : string) : bool := String.prefix pre s.

(** [str::strip_prefix] *)
Fixpoint strip_prefix (pre s : string) : option string :=
  match pre, s with
  | EmptyString, _ => Some s
  | String a pre', String b s' => if Ascii.eqb a b then strip_prefix pre' s' else None
  | String _ _, EmptyString => None
  end.

(** [str::contains] with a string pattern *)
Fixpoint str_contains (s pat : string) : bool :=
  String.prefix pat s ||
  match s with
  | EmptyString => false
  | String _ s' => str_contains s' pat
  end.

Definition str_is_empty (s : string) : bool :=
  match s with EmptyString => true | _ => false end.

(** [str::parse] for an unsigned integer type: an optional [+], then at least one
    digit, and a value that fits. *)
Fixpoint parse_digits (max acc : Z) (s : string) : option Z :=
  match s with
  | EmptyString => Some acc
  | String c s' =>
      let d := Z.of_N (Ascii.N_of_ascii c) - 48 in
      if (0 <=? d) && (d <=? 9) && (acc * 10 + d <=? max)
      then parse_digits max (acc * 10 + d) s' else None
  end.

Definition parse_uint (max : Z) (s : string) : option Z :=
  match s with
  | EmptyString => None
  | String c s' =>
      if Z.of_N (Ascii.N_of_ascii c) =? 43 then (if str_is_empty s' then None else parse_digits max 0 s')
      else parse_digits max 0 s
  end.

(** [&s[..n]]: [None] is the panic when [n] is out of bounds or inside a character, whose
    bytes after the first are those from 128 to 191. *)
Definition continues (c : Ascii.ascii) : bool :=
  let b := Ascii.N_of_ascii c in (128 <=? b)%N && (b <? 192)%N.
Definition slice_to (n : nat) (s : string) : option string :=
  if (n <=? String.length s)%nat && negb (from_option continues false (String.get n s))
  then Some (String.substring 0 n s) else None.

Fixpoint is_ascii (s : string) : bool :=
  match s with
  | EmptyString => true
  | String c s => (Ascii.N_of_ascii c <? 128)%N && is_ascii s
  end.

Lemma is_ascii_get s n c : is_ascii s = true -> String.get n s = Some c -> continues c = false.
Proof.
  revert n. induction s as [|a s IH]; intros n; cbn; [by destruct n|].
  intros [Ha Hs]%andb_true_iff. destruct n as [|n]; cbn; [|by apply IH]. intros [= <-].
  unfold continues. apply N.ltb_lt in Ha. by rewrite (proj2 (N.leb_gt _ _) Ha).
Qed.

Lemma slice_to_ascii n s : is_ascii s = true -> (n <= String.length s)%nat -> is_Some (slice_to n s).
Proof.
  intros Hs Hn. unfold slice_to. rewrite (proj2 (Nat.leb_le _ _) Hn).
  destruct (String.get n s) as [c|] eqn:E; cbn; [|eauto]. rewrite (is_ascii_get _ _ _ Hs E). eauto.
Qed.

Lemma strip_prefix_Some (pre s rest : string) :
  strip_prefix pre s = Some rest <-> s = pre +:+ rest.
Proof.
  revert s. induction pre as [|a pre IH]; intros s; simpl; [split; congruence|].
  destruct s as [|b s]; [split; congruence|].
  destruct (Ascii.eqb_spec a b) as [->|Hne]; [rewrite IH|]; split; congruence.
Qed.

Lemma prefix_app (pre s : string) : String.prefix pre (pre +:+ s) = true.
Proof. induction pre as [|a pre IH]; simpl; [by destruct s|]. by destruct (Ascii.ascii_dec a a). Qed.

Lemma prefix_spec (pre s : string) :
  String.prefix pre s = true <-> exists rest, s = pre +:+ rest.
Proof.
  split; [|by intros [rest ->]; apply prefix_app].
  revert s. induction pre as [|a pre IH]; intros [|b s]; simpl; intros H; try done;
    try by eexists.
  destruct (Ascii.ascii_dec a b); [|done]. subst. destruct (IH _ H) as [rest ->]. by exists rest.
Qed.

Lemma str_contains_mid (a pat b : string) : str_contains (a +:+ pat +:+ b) pat = true.
Proof.
  induction a as [|x a IH]; simpl.
  - pose proof (prefix_app pat b) as H. by destruct (pat +:+ b); simpl in *; rewrite H.
  - rewrite IH. by rewrite orb_true_r.
Qed.

Lemma string_app_nil_r (a : string) : a +:+ EmptyString = a.
Proof. induction a as [|c a IH]; cbn; [done|]. by rewrite IH. Qed.

Lemma string_app_assoc (a b c : string) : (a +:+ b) +:+ c = a +:+ (b +:+ c).
Proof. induction a as [|x a IH]; simpl; [done|]. by rewrite IH. Qed.

Lemma string_length_app (a b : string) :
  String.length (a +:+ b) = (String.length a + String.length b)%nat.
Proof. induction a as [|x a IH]; simpl; [done|]. by rewrite IH. Qed.

(** ** Lists *)

#[global] Arguments Nat.ltb : simpl never.


Section find.
Context {A : Type}.
Implicit Types (f g : A -> bool) (l : list A).

Lemma find_app f l k :
    find f (l ++ k) = match find f l with Some x => Some x | None => find f k end.
Proof. induction l as [|x l IH]; simpl; [done|]. by destruct (f x). Qed.

Lemma find_ext f g l : (forall x, x ∈ l -> f x = g x) -> find f l = find g l.
Proof.
    induction l as [|x l IH]; intros H; simpl; [done|].
    rewrite <- (H x) by set_solver. destruct (f x); [done|]. apply IH. set_solver.
Qed.

Lemma find_map {B} (h : B -> A) (k : list B) f :
    find f (map h k) = h <$> find (fun x => f (h x)) k.
Proof. induction k as [|x k IH]; simpl; [done|]. by destruct (f (h x)). Qed.

Lemma find_Some_elem f l x : find f l = Some x -> x ∈ l /\ f x = true.
Proof. intros H. apply find_some in H as [H ?]. by rewrite list_elem_of_In. Qed.

Lemma find_None_elem f l : find f l = None <-> forall x, x ∈ l -> f x = false.
Proof.
    split.
    - intros H x Hx. apply list_elem_of_In in Hx. by eapply find_none.
    - induction l as [|x l IH]; intros H; simpl; [done|].
      rewrite (H x) by set_solver. apply IH. set_solver.
Qed.
End find.
