(* ===== verification/Effects.v ===== *)
(** * Effectful programs

    The relay's handlers are [async] functions.  Between two [.await] points a
    handler runs without interruption, and each access to shared state (the
    SQLite connection, the payment tables, the rate limiter) happens under a
    mutex that is released before the next [.await].  A handler is therefore a
    tree of atomic steps on the shared state ([Local]) and of requests to the
    outside world ([Call]): the Cardano client, LDK, the clock, timers.

    The type is inductive, so every handler it can express terminates: the
    retry loops of the source are bounded [for] loops, and the two endless
    monitor loops are modelled by one iteration each.

    [run] executes one handler alone against an environment that answers its
    requests; the interleaving semantics of several handlers is in [Pool]. *)

From S2P Require Import Prelude.

Section Prog.
Context {St : Type} {Req : Type} {resp : Req -> Type}.

Inductive Prog (A : Type) : Type :=
  | Ret (a : A)
  | Local {X : Type} (f : St -> X * St) (k : X -> Prog A)
  | Call (r : Req) (k : resp r -> Prog A)
  | Panic (msg : string).

Arguments Ret {A} a.
Arguments Local {A X} f k.
Arguments Call {A} r k.
Arguments Panic {A} msg.

Fixpoint bind {A B} (p : Prog A) (f : A -> Prog B) : Prog B :=
    match p with
    | Ret a => f a
    | Local g k => Local g (fun x => bind (k x) f)
    | Call r k => Call r (fun x => bind (k x) f)
    | Panic m => Panic m
    end.

  (** The [?] operator on a handler that returns a [Result]. *)
Definition bind_try {A B E} (p : Prog (result A E)) (f : A -> Prog (result B E)) :
    Prog (result B E) :=
    bind p (fun r => match r with Ok a => f a | Err e => Ret (Err e) end).

Definition local {X} (f : St -> X * St) : Prog X := Local f Ret.
  (** A read-only critical section. *)
Definition reads {X} (f : St -> X) : Prog X := Local (fun s => (f s, s)) Ret.
Definition call (r : Req) : Prog (resp r) := Call r Ret.

  (** ** Running one handler alone *)

Inductive outcome (A : Type) : Type :=
  | Done (a : A)
  | Panicked (msg : string).
Arguments Done {A} a.
Arguments Panicked {A} msg.

  (** An answered request. *)
Definition event : Type := {r : Req & resp r}.

Record run_result (W A : Type) : Type := RunResult {
    out : outcome A;
    fin : St;
    world : W;
    log : list event;
  }.
Arguments RunResult {W A} _ _ _ _.
Arguments out {W A} _.
Arguments fin {W A} _.
Arguments world {W A} _.
Arguments log {W A} _.

Context {W : Type} (env : forall r : Req, W -> resp r * W).

Definition log_cons {A} (e : event) (r : run_result W A) : run_result W A :=
    RunResult (out r) (fin r) (world r) (e :: log r).

Fixpoint run {A} (p : Prog A) (s : St) (w : W) : run_result W A :=
    match p with
    | Ret a => RunResult (Done a) s w []
    | Local f k => run (k (f s).1) (f s).2 w
    | Call r k => log_cons (existT r (env r w).1) (run (k (env r w).1) s (env r w).2)
    | Panic m => RunResult (Panicked m) s w []
    end.

Definition log_app {A} (l : list event) (r : run_result W A) : run_result W A :=
    RunResult (out r) (fin r) (world r) (l ++ log r).

Definition run_then {A B} (r : run_result W A) (f : A -> Prog B) : run_result W B :=
    match out r with
    | Done a => log_app (log r) (run (f a) (fin r) (world r))
    | Panicked m => RunResult (Panicked m) (fin r) (world r) (log r)
    end.

Lemma log_app_cons {A} e l (r : run_result W A) :
    log_app (e :: l) r = log_cons e (log_app l r).
Proof. done. Qed.

Lemma log_app_nil {A} (r : run_result W A) : log_app [] r = r.
Proof. by destruct r. Qed.

Lemma run_bind {A B} (p : Prog A) (f : A -> Prog B) s w :
    run (bind p f) s w = run_then (run p s w) f.
Proof.
    revert s w. induction p as [a|X g k IH|r k IH|m]; intros s w; simpl.
    - unfold run_then. simpl. by rewrite log_app_nil.
    - apply IH.
    - rewrite IH. unfold run_then. simpl. by destruct (out _).
    - done.
Qed.

Lemma bind_assoc {A B C} (p : Prog A) (f : A -> Prog B) (g : B -> Prog C) s w :
    run (bind (bind p f) g) s w = run (bind p (fun a => bind (f a) g)) s w.
Proof.
    revert s w. induction p as [a|X h k IH|r k IH|m]; intros s w; simpl; try done.
    by rewrite IH.
Qed.

Lemma bind_ret_r {A} (p : Prog A) s w : run (bind p Ret) s w = run p s w.
Proof.
    revert s w. induction p as [a|X h k IH|r k IH|m]; intros s w; simpl; try done.
    by rewrite IH.
Qed.

  (** ** Predicates on the steps of a program

      [steps_ok P Q p]: whatever the state and the answers are, every atomic step
      of [p] is in [P], and every request it makes is in [Q]. *)

Fixpoint steps_ok (P : St -> St -> Prop) (Q : Req -> Prop) {A} (p : Prog A) : Prop :=
    match p with
    | Ret _ => True
    | Local f k => forall s, P s (f s).2 /\ steps_ok P Q (k (f s).1)
    | Call r k => Q r /\ forall x, steps_ok P Q (k x)
    | Panic _ => True
    end.

Lemma steps_ok_bind P Q {A B} (p : Prog A) (f : A -> Prog B) :
    steps_ok P Q p -> (forall a, steps_ok P Q (f a)) -> steps_ok P Q (bind p f).
Proof.
    intros Hp Hf. induction p as [a|X g k IH|r k IH|m]; simpl in *; try done.
    - intros s. split; [apply Hp|]. apply IH, Hp.
    - split; [apply Hp|]. intros x. apply IH, Hp.
Qed.

Lemma steps_ok_run P Q `{!Reflexive P} `{!Transitive P} {A} (p : Prog A) s w :
    steps_ok P Q p -> P s (fin (run p s w)) /\ Forall (fun e => Q (projT1 e)) (log (run p s w)).
Proof.
    intros H. revert s w. induction p as [a|X g k IH|r k IH|m]; intros s w; simpl in *.
    - done.
    - destruct (H s) as [H1 H2]. destruct (IH _ H2 (g s).2 w). split; [by etrans|done].
    - destruct H as [H1 H2]. destruct (IH (env r w).1 (H2 _) s (env r w).2).
      split; [done|]. by constructor.
    - done.
Qed.

Lemma steps_ok_mono (P P' : St -> St -> Prop) (Q Q' : Req -> Prop) {A} (p : Prog A) :
    (forall s s', P s s' -> P' s s') -> (forall r, Q r -> Q' r) ->
    steps_ok P Q p -> steps_ok P' Q' p.
Proof.
    intros HP HQ H. induction p as [a|X g k IH|r k IH|m]; simpl in *; try done.
    - intros s. destruct (H s). eauto.
    - destruct H. eauto.
Qed.

(** ** Weakest preconditions over all answers

    [wp p s l Q]: from state [s] with the log [l] so far, whatever the requests of
    [p] are answered, [Q] holds of the outcome, the final state and the log. *)

Fixpoint wp {A} (p : Prog A) (s : St) (l : list event)
  (Q : outcome A -> St -> list event -> Prop) : Prop :=
  match p with
  | Ret a => Q (Done a) s l
  | Local f k => wp (k (f s).1) (f s).2 l Q
  | Call r k => forall x, wp (k x) s (l ++ [existT r x]) Q
  | Panic m => Q (Panicked m) s l
  end.

Lemma wp_run {A} (p : Prog A) s l w Q :
  wp p s l Q -> Q (out (run p s w)) (fin (run p s w)) (l ++ log (run p s w)).
Proof.
  revert s l w. induction p as [a|X g k IH|r k IH|m]; intros s l w H; simpl in *.
  - by rewrite app_nil_r.
  - by apply IH.
  - specialize (IH (env r w).1 s (l ++ [existT r (env r w).1]) (env r w).2 (H _)).
    by rewrite <- app_assoc in IH.
  - by rewrite app_nil_r.
Qed.

Lemma wp_mono {A} (p : Prog A) s l (Q Q' : outcome A -> St -> list event -> Prop) :
  (forall o s' l', Q o s' l' -> Q' o s' l') -> wp p s l Q -> wp p s l Q'.
Proof.
  intros HQ. revert s l. induction p as [a|X g k IH|r k IH|m]; intros s l H; simpl in *; eauto.
Qed.

Lemma wp_and {A} (p : Prog A) s l (Q Q' : outcome A -> St -> list event -> Prop) :
  wp p s l Q -> wp p s l Q' -> wp p s l (fun o s' l' => Q o s' l' /\ Q' o s' l').
Proof.
  revert s l. induction p as [a|X g k IH|r k IH|m]; intros s l H H'; simpl in *; eauto.
Qed.

(** What was logged before a program starts. *)
Lemma wp_frame {A} (p : Prog A) s l l1 (Q : outcome A -> St -> list event -> Prop) :
  wp p s l1 (fun o s' l' => Q o s' (l ++ l')) -> wp p s (l ++ l1) Q.
Proof.
  revert s l1. induction p as [a|X g k IH|r k IH|m]; intros s l1 H; simpl in *; eauto.
  intros x. rewrite <- app_assoc. apply IH, H.
Qed.

Lemma wp_assoc {A B C} (p : Prog A) (f : A -> Prog B) (g : B -> Prog C) s l Q :
  wp (bind p (fun a => bind (f a) g)) s l Q -> wp (bind (bind p f) g) s l Q.
Proof.
  revert s l. induction p as [a|X h k IH|r k IH|m]; intros s l H; simpl in *; auto.
Qed.

Lemma wp_extends {A} (p : Prog A) s l : wp p s l (fun _ _ l' => exists l1, l' = l ++ l1).
Proof.
  revert s l. induction p as [a|X g k IH|r k IH|m]; intros s l; simpl; try (exists []; by rewrite app_nil_r);
    [apply IH|]. intros x. eapply wp_mono; [|apply IH]. cbn. intros _ _ l' [l1 ->].
  exists (existT r x :: l1). by rewrite <- app_assoc.
Qed.

(** A postcondition that always holds. *)
Lemma wp_any {A} (p : Prog A) s l (Q : outcome A -> St -> list event -> Prop) :
  (forall o s' l', Q o s' l') -> wp p s l Q.
Proof. intros HQ. revert s l. induction p; intros s l; simpl; auto. Qed.

Definition wp_cont {A B} (f : A -> Prog B) (Q : outcome B -> St -> list event -> Prop)
  (o : outcome A) (s : St) (l : list event) : Prop :=
  match o with Done a => wp (f a) s l Q | Panicked m => Q (Panicked m) s l end.

Lemma wp_bind {A B} (p : Prog A) (f : A -> Prog B) s l Q :
  wp p s l (wp_cont f Q) -> wp (bind p f) s l Q.
Proof.
  revert s l. induction p as [a|X g k IH|r k IH|m]; intros s l H; simpl in *; eauto.
Qed.

(** A program all of whose steps satisfy [P] and requests satisfy [R]. *)
Lemma wp_steps_ok P R `{!Reflexive P} `{!Transitive P} {A} (p : Prog A) s l Q :
  steps_ok P R p ->
  (forall o s' l', P s s' -> Forall (fun e : event => R (projT1 e)) l' -> Q o s' (l ++ l')) ->
  wp p s l Q.
Proof.
  revert s l Q. induction p as [a|X g k IH|r k IH|m]; intros s l Q H HQ; simpl in *.
  - rewrite <- (app_nil_r l). by apply HQ.
  - destruct (H s) as [H1 H2]. apply IH; [done|]. intros o s' l' Hs Hl. apply HQ; [by etrans|done].
  - destruct H as [H1 H2]. intros x. apply IH; [done|]. intros o s' l' Hs Hl.
    rewrite <- app_assoc. apply HQ; [done|]. by constructor.
  - rewrite <- (app_nil_r l). by apply HQ.
Qed.

(** The same, of the requests alone. *)
Lemma wp_requests R {A} (p : Prog A) s l Q :
  steps_ok (fun _ _ => True) R p ->
  (forall o s' l', Forall (fun e : event => R (projT1 e)) l' -> Q o s' (l ++ l')) ->
  wp p s l Q.
Proof.
  intros Hp HQ. assert (Reflexive (fun _ _ : St => True)) by done.
  assert (Transitive (fun _ _ : St => True)) by done.
  refine (wp_steps_ok (fun _ _ => True) R p s l Q Hp _). auto.
Qed.

(** [returns Q p]: whatever the state and the answers are, [p] panics or its result is
    in [Q]. *)
Fixpoint returns {A} (Q : A -> Prop) (p : Prog A) : Prop :=
  match p with
  | Ret a => Q a
  | Local f k => forall s, returns Q (k (f s).1)
  | Call r k => forall x, returns Q (k x)
  | Panic _ => True
  end.

Lemma returns_bind {A B} (Q : B -> Prop) (p : Prog A) (f : A -> Prog B) :
  (forall a, returns Q (f a)) -> returns Q (bind p f).
Proof. intros Hf. induction p as [a|X g k IH|r k IH|m]; cbn; auto. Qed.

Lemma returns_run {A} (Q : A -> Prop) (p : Prog A) s w :
  returns Q p -> match out (run p s w) with Done a => Q a | Panicked _ => True end.
Proof.
  revert s w. induction p as [a|X g k IH|r k IH|m]; intros s w Hp; cbn in *; try done; by apply IH.
Qed.

Lemma steps_ok_bind_returns P R {A B} (Q : A -> Prop) (p : Prog A) (f : A -> Prog B) :
  steps_ok P R p -> returns Q p -> (forall a, Q a -> steps_ok P R (f a)) -> steps_ok P R (bind p f).
Proof.
  intros Hp Hq Hf. induction p as [a|X g k IH|r k IH|m]; cbn in *; try done; auto.
  - intros s. destruct (Hp s). auto.
  - destruct Hp. auto.
Qed.

(** Continuations that agree on the results of [p]. *)
Lemma run_bind_ext {A B} (Q : A -> Prop) (p : Prog A) (f g : A -> Prog B) s w :
  returns Q p -> (forall a s' w', Q a -> run (f a) s' w' = run (g a) s' w') ->
  run (bind p f) s w = run (bind p g) s w.
Proof.
  intros Hp Hfg. rewrite !run_bind. unfold run_then. pose proof (returns_run Q p s w Hp) as HQ.
  destruct (out (run p s w)); [|done]. by rewrite Hfg.
Qed.

(** A program that only makes requests, all of them in [R]: it cannot panic. *)
Fixpoint calls_ok (R : Req -> Prop) {A} (p : Prog A) : Prop :=
  match p with
  | Ret _ => True
  | Call r k => R r /\ forall x, calls_ok R (k x)
  | Local _ _ | Panic _ => False
  end.

Lemma calls_ok_bind R {A B} (p : Prog A) (k : A -> Prog B) :
  calls_ok R p -> (forall a, calls_ok R (k a)) -> calls_ok R (bind p k).
Proof.
  intros Hp Hk. induction p as [a|X f g IH|r g IH|m]; cbn in *; try done; auto.
  destruct Hp as [Hr Hp]. auto.
Qed.

Lemma calls_ok_call (R : Req -> Prop) {A} (r : Req) (k : resp r -> Prog A) :
  R r -> (forall x, calls_ok R (k x)) -> calls_ok R (bind (call r) k).
Proof. by split. Qed.

Lemma calls_ok_mono (R R' : Req -> Prop) {A} (p : Prog A) :
  (forall r, R r -> R' r) -> calls_ok R p -> calls_ok R' p.
Proof.
  intros HR H. induction p as [a|X f g IH|r g IH|m]; cbn in *; try done.
  destruct H. auto.
Qed.

Lemma steps_ok_calls P R {A} (p : Prog A) : calls_ok R p -> steps_ok P R p.
Proof.
  induction p as [a|X f g IH|r g IH|m]; cbn; try done. intros [Hr H]. auto.
Qed.

Lemma run_calls R {A} (p : Prog A) s w :
  calls_ok R p -> fin (run p s w) = s /\ exists a, out (run p s w) = Done a.
Proof.
  revert w. induction p as [a|X f g IH|r g IH|m]; intros w H; cbn in *; try done; eauto.
  destruct H as [_ H]. apply IH, H.
Qed.

(** A program that finishes, followed by another. *)
Lemma run_bind_done {A B} (p : Prog A) (f : A -> Prog B) s w a :
  out (run p s w) = Done a ->
  fin (run (bind p f) s w) = fin (run (f a) (fin (run p s w)) (world (run p s w))) /\
  out (run (bind p f) s w) = out (run (f a) (fin (run p s w)) (world (run p s w))).
Proof. intros E. rewrite run_bind. unfold run_then. by rewrite E. Qed.

(** A run in which a request outside [R] is made after a program that makes none. *)
Lemma run_reach P R `{!Reflexive P} `{!Transitive P} {A B} (p : Prog A) (f : A -> Prog B) s w :
  steps_ok P R p -> ~ Forall (fun e => R (projT1 e)) (log (run (bind p f) s w)) ->
  let r := run p s w in
  exists a, out r = Done a /\ P s (fin r) /\
    run (bind p f) s w = log_app (log r) (run (f a) (fin r) (world r)) /\
    ~ Forall (fun e => R (projT1 e)) (log (run (f a) (fin r) (world r))).
Proof.
  intros Hp Hn. cbn zeta. destruct (steps_ok_run P R p s w Hp) as [HP HR].
  rewrite run_bind in *. unfold run_then in *. destruct (out (run p s w)) as [a|m]; [|done].
  exists a. split_and!; [done..|]. intros Hf. apply Hn. cbn. by apply Forall_app.
Qed.

Lemma wp_calls R {A} (p : Prog A) s l Q :
  calls_ok R p ->
  (forall a l', Forall (fun e : event => R (projT1 e)) l' -> Q (Done a) s (l ++ l')) ->
  wp p s l Q.
Proof.
  revert l. induction p as [a|X f g IH|r g IH|m]; intros l H HQ; cbn in *; try done.
  - rewrite <- (app_nil_r l). apply HQ. constructor.
  - destruct H as [Hr H]. intros x. apply IH; [done|]. intros a l' Hl'.
    rewrite <- app_assoc. apply HQ. by constructor.
Qed.
End Prog.

Arguments Prog {St Req} resp A.
Arguments Ret {St Req resp A} a.
Arguments Local {St Req resp A X} f k.
Arguments Call {St Req resp A} r k.
Arguments Panic {St Req resp A} msg.
Arguments outcome A : clear implicits.
Arguments Done {A} a.
Arguments Panicked {A} msg.
Arguments event {Req} resp.
Arguments RunResult {St Req resp W A} _ _ _ _.
Arguments out {St Req resp W A} _.
Arguments fin {St Req resp W A} _.
Arguments world {St Req resp W A} _.
Arguments log {St Req resp W A} _.

Declare Scope prog_scope.
Delimit Scope prog_scope with prog.
Notation "'let*' x := p 'in' k" := (bind p (fun x => k))
  (at level 10, x name, p at level 100, k at level 200) : prog_scope.
Notation "'let*' ' x := p 'in' k" := (bind p (fun x => k))
  (at level 10, x strict pattern, p at level 100, k at level 200) : prog_scope.
Notation "'try*' x := p 'in' k" := (bind_try p (fun x => k))
  (at level 10, x name, p at level 100, k at level 200) : prog_scope.
Notation "'try*' ' x := p 'in' k" := (bind_try p (fun x => k))
  (at level 10, x strict pattern, p at level 100, k at level 200) : prog_scope.
Notation "p ;; k" := (bind p (fun _ => k))
  (at level 100, k at level 200, right associativity) : prog_scope.
