(* ===== verification/Amounts.v ===== *)
(** * Amounts ([src/src/amounts.rs])

    Conversion of cBTC base units to Lightning millisatoshis. *)

From S2P Require Import Prelude.

Definition MSATS_PER_CBTC_BASE_UNIT : Z := 1000.

(** [amount_cbtc as u64] is the identity once the amount is known positive; the
    cast is written out as the wrap-around it is. *)
Definition cbtc_to_msat (amount_cbtc : Z) : option Z :=
  if amount_cbtc <=? 0 then None
  else u64_checked_mul (wrap_u64 amount_cbtc) MSATS_PER_CBTC_BASE_UNIT.

Lemma cbtc_to_msat_Some (a m : Z) :
  in_i64 a -> cbtc_to_msat a = Some m <-> 0 < a /\ m = a * 1000 /\ m <= u64_max.
Proof.
  intros Ha. unfold cbtc_to_msat, u64_checked_mul, MSATS_PER_CBTC_BASE_UNIT.
  destruct (Z.leb_spec a 0); [split; [done|lia]|].
  rewrite wrap_u64_id by (unfold_ints; lia).
  destruct (Z.leb_spec (a * 1000) u64_max); split; intros; simplify_eq; try lia.
  f_equal; lia.
Qed.

Lemma cbtc_to_msat_None (a : Z) :
  in_i64 a -> cbtc_to_msat a = None <-> a <= 0 \/ u64_max < a * 1000.
Proof.
  intros Ha. unfold cbtc_to_msat, u64_checked_mul, MSATS_PER_CBTC_BASE_UNIT.
  destruct (Z.leb_spec a 0); [intuition (done || lia)|].
  rewrite wrap_u64_id by (unfold_ints; lia).
  destruct (Z.leb_spec (a * 1000) u64_max); intuition (done || lia).
Qed.

(** The conversion of any [i64] amount of cBTC base units succeeds exactly on the
    positive amounts whose product with 1000 fits in 64 bits; it is then the exact
    product, no overflow can pass unnoticed, and distinct amounts stay distinct. *)
Lemma cbtc_to_msat_exact (a : Z) :
  in_i64 a ->
  match cbtc_to_msat a with
  | Some m => 0 < a /\ m = a * 1000 /\ in_u64 m /\
      (forall b, in_i64 b -> cbtc_to_msat b = Some m -> b = a)
  | None => a <= 0 \/ u64_max < a * 1000
  end.
Proof.
  intros Ha. destruct (cbtc_to_msat a) as [m|] eqn:E; [|by apply cbtc_to_msat_None].
  apply cbtc_to_msat_Some in E as (? & -> & ?); [|done]. split_and!; [done|done|unfold_ints; lia|].
  intros b Hb (_ & ? & _)%cbtc_to_msat_Some; [lia|done].
Qed.

Lemma cbtc_to_msat_exact_witness :
  in_i64 i64_max /\ u64_max < i64_max * 1000 /\ cbtc_to_msat 18446744073709551 = Some 18446744073709551000.
Proof.
  assert (in_i64 i64_max) as H by (vm_compute; split; discriminate).
  split; [exact H|]. split; [|reflexivity].
  pose proof (cbtc_to_msat_exact i64_max H) as Hx. vm_compute in Hx |- *.
  destruct Hx as [Hx|Hx]; [by destruct Hx|exact Hx].
Defined.
