(* ===== verification/HexUtils.v ===== *)
(** * Hexadecimal strings ([src/src/hex_utils.rs]) *)

From S2P Require Import Prelude.

Definition byte_of (c : Ascii.ascii) : Z := Z.of_N (Ascii.N_of_ascii c).

(** The [match] on one character of [to_vec]: [c - b'A' + 10] and its siblings. *)
Definition nibble (c : Ascii.ascii) : option Z :=
  let c := byte_of c in
  if (65 <=? c) && (c <=? 70) then Some (c - 65 + 10)
  else if (97 <=? c) && (c <=? 102) then Some (c - 97 + 10)
  else if (48 <=? c) && (c <=? 57) then Some (c - 48)
  else None.

(** The loop of [to_vec]: [idx] is the position, [b] the [u8] accumulator. *)
Fixpoint to_vec_loop (hex : string) (idx b : Z) (out : list Z) : option (list Z) :=
  match hex with
  | EmptyString => Some out
  | String c rest =>
      let b := wrap_u8 (Z.shiftl b 4) in
      match nibble c with
      | None => None
      | Some v =>
          let b := Z.lor b v in
          if Z.land idx 1 =? 1 then to_vec_loop rest (idx + 1) 0 (out ++ [b])
          else to_vec_loop rest (idx + 1) b out
      end
  end.

Definition to_vec (hex : string) : option (list Z) := to_vec_loop hex 0 0 [].

(** [write!("{:02x}", v)] *)
Definition hex_digit (n : Z) : Ascii.ascii :=
  Ascii.ascii_of_N (Z.to_N (if n <? 10 then 48 + n else 87 + n)).

Fixpoint hex_str (value : list Z) : string :=
  match value with
  | [] => EmptyString
  | v :: rest => String (hex_digit (v / 16)) (String (hex_digit (v mod 16)) (hex_str rest))
  end.

(** [PublicKey::from_slice] is secp256k1's: a parameter. *)
Section pubkey.
Context {PublicKey : Type} (from_slice : list Z -> option PublicKey).

Definition to_compressed_pubkey (hex : string) : option PublicKey :=
    if negb (String.length hex =? 33 * 2)%nat then None
    else match to_vec (String.substring 0 (33 * 2) hex) with
         | Some data => from_slice data
         | None => None
         end.
End pubkey.

(** ** Lemmas *)

#[local] Arguments String.append : simpl nomatch.

Definition is_byte (b : Z) : Prop := 0 <= b < 256.

Fixpoint all_nibbles (s : string) : bool :=
  match s with
  | EmptyString => true
  | String c s => match nibble c with Some _ => all_nibbles s | None => false end
  end.

Lemma byte_of_range c : 0 <= byte_of c < 256.
Proof. unfold byte_of. pose proof (Ascii.N_ascii_bounded c). lia. Qed.

Lemma byte_of_ascii n : 0 <= n < 256 -> byte_of (Ascii.ascii_of_N (Z.to_N n)) = n.
Proof. intros H. unfold byte_of. rewrite Ascii.N_ascii_embedding; lia. Qed.

Lemma nibble_hex_digit n : 0 <= n < 16 -> nibble (hex_digit n) = Some n.
Proof.
  intros H. assert (n ∈ [0;1;2;3;4;5;6;7;8;9;10;11;12;13;14;15]) as Hn.
  { rewrite !elem_of_cons. lia. }
  repeat (apply elem_of_cons in Hn as [->|Hn]; [done|]). by apply not_elem_of_nil in Hn.
Qed.

Lemma nibble_range c v : nibble c = Some v -> 0 <= v < 16.
Proof.
  unfold nibble. pose proof (byte_of_range c). repeat case_match; intros; simplify_eq; lia.
Qed.

Lemma join_nibbles h l :
  0 <= h < 16 -> 0 <= l < 16 -> Z.lor (wrap_u8 (Z.shiftl h 4)) l = 16 * h + l.
Proof.
  intros Hh Hl. unfold wrap_u8. rewrite Z.shiftl_mul_pow2 by lia.
  rewrite Z.mod_small by lia.
  pose proof (Z.add_lor_land (h * 2 ^ 4) l) as E.
  enough (Z.land (h * 2 ^ 4) l = 0) by lia. apply Z.bits_inj'. intros n Hn. rewrite Z.land_spec, Z.bits_0.
  destruct (Z.lt_ge_cases n 4).
  - by rewrite Z.mul_pow2_bits_low by lia.
  - rewrite (Z.bits_above_log2 l); [by rewrite andb_false_r|lia|].
    destruct (Z.eq_dec l 0) as [->|]; [simpl; lia|]. apply Z.log2_lt_pow2; [lia|].
    apply Z.lt_le_trans with (2 ^ 4); [lia|]. by apply Z.pow_le_mono_r.
Qed.

Lemma land_1_even k : Z.land (2 * k) 1 = 0.
Proof. change 1 with (Z.ones 1). rewrite Z.land_ones by lia. rewrite Z.mul_comm. by apply Z.mod_mul. Qed.
Lemma land_1_odd k : Z.land (2 * k + 1) 1 = 1.
Proof.
  change 1 with (Z.ones 1) at 2. rewrite Z.land_ones by lia.
  rewrite Z.add_comm, Z.mul_comm. by rewrite Z.mod_add by lia.
Qed.

(** Two hexadecimal characters at an even position contribute one byte. *)
Lemma to_vec_loop_pair a b rest k out h l :
  nibble a = Some h -> nibble b = Some l ->
  to_vec_loop (String a (String b rest)) (2 * k) 0 out
  = to_vec_loop rest (2 * (k + 1)) 0 (out ++ [16 * h + l]).
Proof.
  intros Ha Hb. pose proof (nibble_range _ _ Ha). pose proof (nibble_range _ _ Hb).
  cbn [to_vec_loop]. rewrite Ha, Hb, land_1_even, land_1_odd. simpl (0 =? 1). simpl (1 =? 1). cbv iota.
  replace (wrap_u8 (Z.shiftl 0 4)) with 0 by done. rewrite Z.lor_0_l.
  rewrite join_nibbles by done. f_equal. lia.
Qed.

Lemma to_vec_loop_hex_str bs rest k out :
  Forall is_byte bs ->
  to_vec_loop (hex_str bs +:+ rest) (2 * k) 0 out
  = to_vec_loop rest (2 * (k + Z.of_nat (length bs))) 0 (out ++ bs).
Proof.
  intros H. revert k out. induction H as [|b bs Hb _ IH]; intros k out.
  - rewrite app_nil_r. simpl. f_equal. lia.
  - unfold is_byte in Hb. cbn [hex_str]. rewrite !(eq_refl : String _ _ +:+ _ = String _ (_ +:+ _)).
    rewrite (to_vec_loop_pair _ _ _ _ _ (b / 16) (b mod 16)).
    + rewrite IH, <- app_assoc. simpl. rewrite <- Z.div_mod by lia. f_equal. lia.
    + apply nibble_hex_digit. split; [apply Z.div_pos; lia|apply Z.div_lt_upper_bound; lia].
    + apply nibble_hex_digit. apply Z.mod_pos_bound. lia.
Qed.

Lemma string_app_empty s : s +:+ EmptyString = s.
Proof. induction s as [|c s IH]; simpl; [done|]. by rewrite IH. Qed.

Lemma hex_str_length bs : String.length (hex_str bs) = (2 * length bs)%nat.
Proof. induction bs as [|b bs IH]; simpl; [done|]. rewrite IH. lia. Qed.

Lemma hex_str_nibbles bs : Forall is_byte bs -> all_nibbles (hex_str bs) = true.
Proof.
  induction 1 as [|b bs Hb _ IH]; simpl; [done|]. unfold is_byte in Hb.
  rewrite nibble_hex_digit by (split; [apply Z.div_pos; lia|apply Z.div_lt_upper_bound; lia]).
  rewrite nibble_hex_digit by (apply Z.mod_pos_bound; lia). done.
Qed.

Lemma to_vec_bytes bs : Forall is_byte bs -> to_vec (hex_str bs) = Some bs.
Proof.
  intros Hb. unfold to_vec. rewrite <- (string_app_empty (hex_str bs)).
  exact (to_vec_loop_hex_str bs EmptyString 0 [] Hb).
Qed.

(** [to_vec] is a left inverse of [hex_str]: the bytes printed as lower-case
    hexadecimal are read back. *)
Lemma to_vec_hex_str bs : Forall is_byte bs -> to_vec (hex_str bs) = Some bs.
Proof. apply to_vec_bytes. Qed.

Lemma to_vec_hex_str_witness : to_vec "00ff7b" = Some [0; 255; 123].
Proof. apply (to_vec_hex_str [0; 255; 123]). repeat constructor; unfold is_byte; lia. Defined.

(** [to_vec] fails exactly on a character that is not hexadecimal, at any
    position, and yields half as many bytes as characters. *)
Lemma to_vec_loop_total hex idx b out :
  0 <= idx ->
  match to_vec_loop hex idx b out with
  | Some bs => all_nibbles hex = true /\
      length bs = (length out + Z.to_nat ((Z.of_nat (String.length hex) + idx `mod` 2) `div` 2))%nat
  | None => all_nibbles hex = false
  end.
Proof.
  revert idx b out. induction hex as [|c hex IH]; intros idx b out Hidx; cbn [to_vec_loop all_nibbles].
  - split; [done|]. cbn. pose proof (Z.mod_pos_bound idx 2 ltac:(lia)).
    rewrite Z.div_small by lia. lia.
  - destruct (nibble c) as [v|]; [|done].
    assert (Z.land idx 1 = idx `mod` 2) as -> by (apply (Z.land_ones idx 1); lia).
    pose proof (Z.mod_pos_bound idx 2 ltac:(lia)) as Hm.
    assert ((idx + 1) `mod` 2 = 1 - idx `mod` 2) as Hs.
    { rewrite <- Zplus_mod_idemp_l. assert (idx `mod` 2 = 0 \/ idx `mod` 2 = 1) as [->| ->] by lia; done. }
    destruct (Z.eqb_spec (idx `mod` 2) 1) as [E|E].
    + specialize (IH (idx + 1) 0 (out ++ [Z.lor (wrap_u8 (b ≪ 4)) v]) ltac:(lia)).
      destruct (to_vec_loop _ _ _ _) as [bs|]; [|done]. destruct IH as [-> ->]. split; [done|].
      rewrite length_app, Hs, E. cbn [length String.length]. change (1 - 1) with 0.
      replace (Z.of_nat (S (String.length hex)) + 1) with (Z.of_nat (String.length hex) + 0 + 1 * 2) by lia.
      rewrite Z.div_add by lia.
      pose proof (Z.div_pos (Z.of_nat (String.length hex) + 0) 2 ltac:(lia) ltac:(lia)).
      lia.
    + specialize (IH (idx + 1) (Z.lor (wrap_u8 (b ≪ 4)) v) out ltac:(lia)).
      destruct (to_vec_loop _ _ _ _) as [bs|]; [|done]. destruct IH as [-> ->]. split; [done|].
      rewrite Hs. cbn [String.length]. do 3 f_equal. lia.
Qed.

(** [to_vec] returns [None] exactly when some character is not hexadecimal, and
    otherwise half as many bytes as there are characters, rounded down: a trailing
    odd digit is dropped without an error. *)
Lemma to_vec_length hex :
  match to_vec hex with
  | Some bs => all_nibbles hex = true /\ length bs = Nat.div (String.length hex) 2
  | None => all_nibbles hex = false
  end.
Proof.
  pose proof (to_vec_loop_total hex 0 0 [] ltac:(lia)) as H. unfold to_vec.
  destruct (to_vec_loop _ _ _ _) as [bs|]; [|done]. destruct H as [-> ->]. split; [done|].
  cbn [length Nat.add]. rewrite Z.add_0_r, <- (Nat2Z.inj_div _ 2). apply Nat2Z.id.
Qed.
