(* ===== verification/Text.v ===== *)
(** * Text, as Rust's standard library handles it

    The functions of [str] that the command line, the [.env] file, the cookie file
    and the shell use.  A string is its UTF-8 bytes. *)

From S2P Require Import Prelude.

(** ** String splitting, as the standard library does it *)

(** [str::split] with a character *)
Fixpoint split_on (c : Ascii.ascii) (s : string) : list string :=
  match s with
  | EmptyString => [""]
  | String a s' =>
      if Ascii.eqb a c then "" :: split_on c s'
      else match split_on c s' with
           | x :: xs => String a x :: xs
           | [] => [String a ""]
           end
  end%string.

(** [str::splitn(2, c)]: the parts before and after the first [c] *)
Fixpoint split_once (c : Ascii.ascii) (s : string) : option (string * string) :=
  match s with
  | EmptyString => None
  | String a s' =>
      if Ascii.eqb a c then Some (""%string, s')
      else match split_once c s' with
           | Some (x, y) => Some (String a x, y)
           | None => None
           end
  end.

(** [str::rsplitn(2, c)]: the parts before and after the last [c] *)
Fixpoint rsplit_once (c : Ascii.ascii) (s : string) : option (string * string) :=
  match s with
  | EmptyString => None
  | String a s' =>
      match rsplit_once c s' with
      | Some (x, y) => Some (String a x, y)
      | None => if Ascii.eqb a c then Some (""%string, s') else None
      end
  end.

Definition chr (n : nat) : Ascii.ascii := Ascii.ascii_of_nat n.
Definition LF := chr 10.
Definition CR := chr 13.
Definition COLON := chr 58.
Definition EQUALS := chr 61.
Definition AT := chr 64.

(** [line.strip_suffix('\r').unwrap_or(line)] *)
Fixpoint strip_cr (s : string) : string :=
  match s with
  | EmptyString => EmptyString
  | String a EmptyString => if Ascii.eqb a CR then EmptyString else s
  | String a s' => String a (strip_cr s')
  end.

(** [str::lines]: a line ends with a line feed, which a carriage return may precede;
    what follows the last line feed is a line unless it is empty. *)
Fixpoint ended_lines (parts : list string) : list string :=
  match parts with
  | [] => []
  | [x] => if str_is_empty x then [] else [x]
  | x :: xs => strip_cr x :: ended_lines xs
  end.

Definition lines (s : string) : list string := ended_lines (split_on LF s).

(** ** Signed integers

    [str::parse::<i64>]: an optional sign, then at least one digit. *)
Definition MINUS := chr 45.

Definition parse_i64 (s : string) : option Z :=
  match s with
  | String c s' =>
      if Ascii.eqb c MINUS
      then if str_is_empty s' then None else Z.opp <$> parse_digits (2 ^ 63) 0 s'
      else parse_uint i64_max s
  | EmptyString => None
  end.

(** ** White space

    The length in bytes of the white-space character a string starts with, [0] when
    it starts with another one: [char::is_whitespace] is Unicode's White_Space. *)
Definition codes (s : string) : list N := Ascii.N_of_ascii <$> String.list_ascii_of_string s.

Definition ws_codes (l : list N) : nat :=
  match l with
  | b :: l' =>
      if ((9 <=? b) && (b <=? 13) || (b =? 32))%N then 1
      else match l' with
           | b' :: l'' =>
               if ((b =? 0xC2) && ((b' =? 0x85) || (b' =? 0xA0)))%N then 2
               else match l'' with
                    | b'' :: _ =>
                        if ((b =? 0xE1) && (b' =? 0x9A) && (b'' =? 0x80)
                            || (b =? 0xE2) && (b' =? 0x80)
                               && ((0x80 <=? b'') && (b'' <=? 0x8A) || (b'' =? 0xA8)
                                   || (b'' =? 0xA9) || (b'' =? 0xAF))
                            || (b =? 0xE2) && (b' =? 0x81) && (b'' =? 0x9F)
                            || (b =? 0xE3) && (b' =? 0x80) && (b'' =? 0x80))%N
                        then 3 else 0
                    | [] => 0
                    end
           | [] => 0
           end
  | [] => 0
  end%nat.

Definition ws_len (s : string) : nat := ws_codes (codes s).

(** [str::split_whitespace]: [skip] bytes of a white-space character are still to be
    passed over, [cur] is the word read so far. *)
Definition flush_word (cur : string) (rest : list string) : list string :=
  if str_is_empty cur then rest else cur :: rest.

Fixpoint split_ws (skip : nat) (cur s : string) : list string :=
  match s with
  | EmptyString => flush_word cur []
  | String c s' =>
      match skip with
      | S k => split_ws k cur s'
      | O => match ws_len s with
             | O => split_ws 0 (cur +:+ String c "") s'
             | S k => flush_word cur (split_ws k "" s')
             end
      end
  end.

Definition split_whitespace (s : string) : list string := split_ws 0 "" s.

(** [str::trim]: the bytes between the leading and the trailing white space. *)
Fixpoint leading_ws (skip : nat) (s : string) : nat :=
  match s with
  | EmptyString => O
  | String _ s' =>
      match skip with
      | S k => S (leading_ws k s')
      | O => match ws_len s with O => O | S k => S (leading_ws k s') end
      end
  end.

Fixpoint last_word_end (skip pos last : nat) (s : string) : nat :=
  match s with
  | EmptyString => last
  | String _ s' =>
      match skip with
      | S k => last_word_end k (S pos) last s'
      | O => match ws_len s with
             | O => last_word_end 0 (S pos) (S pos) s'
             | S k => last_word_end k (S pos) last s'
             end
      end
  end.

Definition trim (s : string) : string :=
  let from := leading_ws 0 s in String.substring from (last_word_end 0 0 0 s - from) s.

(** ** Words separated by spaces are read back *)

#[local] Arguments String.append : simpl nomatch.

(** A character that no white space starts with, whatever follows it. *)
Definition plain_char (c : Ascii.ascii) : bool :=
  ((33 <=? Ascii.N_of_ascii c) && (Ascii.N_of_ascii c <=? 126))%N.

Fixpoint plain (s : string) : bool :=
  match s with EmptyString => true | String c s' => plain_char c && plain s' end.

Definition word (s : string) : Prop := s <> EmptyString /\ plain s = true.

Fixpoint unwords (ws : list string) : string :=
  match ws with
  | [] => EmptyString
  | [w] => w
  | w :: ws => w +:+ " " +:+ unwords ws
  end.

Lemma ws_len_plain c s : plain_char c = true -> ws_len (String c s) = O.
Proof.
  unfold plain_char, ws_len, codes. cbn. intros [H1%N.leb_le H2%N.leb_le]%andb_true_iff.
  assert (((9 <=? Ascii.N_of_ascii c) && (Ascii.N_of_ascii c <=? 13)
    || (Ascii.N_of_ascii c =? 32))%N = false) as ->.
  { apply orb_false_iff. rewrite andb_false_iff, !N.leb_gt, N.eqb_neq. lia. }
  assert (forall v, (126 < v)%N -> (Ascii.N_of_ascii c =? v)%N = false) as Hne.
  { intros v Hv. apply N.eqb_neq. lia. }
  destruct (_ <$> String.list_ascii_of_string s) as [|b l]; [done|].
  rewrite !Hne by lia. cbn. by destruct l.
Qed.

Lemma string_app_nil (s : string) : s +:+ "" = s.
Proof. induction s as [|c s IH]; cbn; [done|]. by rewrite IH. Qed.

Lemma split_ws_plain w cur s :
  plain w = true -> split_ws 0 cur (w +:+ s) = split_ws 0 (cur +:+ w) s.
Proof.
  revert cur. induction w as [|c w IH]; intros cur; cbn; [by rewrite string_app_nil|].
  intros [Hc Hw]%andb_true_iff. pose proof (ws_len_plain c (w +:+ s) Hc) as E.
  unfold ws_len, codes in *. cbn in *. rewrite E, IH by done. by rewrite string_app_assoc.
Qed.

Lemma split_ws_space cur s : split_ws 0 cur (" " +:+ s) = flush_word cur (split_ws 0 "" s).
Proof. done. Qed.

Lemma split_whitespace_unwords ws : Forall word ws -> split_whitespace (unwords ws) = ws.
Proof.
  unfold split_whitespace. induction ws as [|w ws IH]; intros Hw; [done|].
  apply Forall_cons in Hw as [[Hne Hp] Hws]. destruct ws as [|w' ws].
  - cbn [unwords]. rewrite <- (string_app_nil w) at 1. rewrite split_ws_plain by done. cbn. by destruct w.
  - change (unwords (w :: w' :: ws)) with (w +:+ " " +:+ unwords (w' :: ws)).
    rewrite split_ws_plain by done. rewrite split_ws_space, IH by done. by destruct w.
Qed.
