(* ===== verification/Fees.v ===== *)
(** * Fee estimation ([src/src/esplora.rs], [src/src/bitcoind_client.rs],
    [src/src/convert.rs])

    The fee table shared with LDK and its two writers: the Esplora client, which
    clamps the estimates it is given, and the polling loop of the bitcoind client.
    An [f64] is a [spec_float] of the Standard Library, with the operations at
    binary64's precision and exponent range; HTTP and JSON decoding are outside.

    [None] is a panic: [HashMap::get(..).unwrap()] on a missing key, [unwrap] of a
    failed RPC, or a failed [assert_eq!]. *)

From S2P Require Import Prelude.
From Stdlib Require Import SpecFloat.

(** ** Double precision numbers *)

Abbreviation f64 := spec_float.
Definition f64_mul : f64 -> f64 -> f64 := SFmul 53 1024.
Definition f64_div : f64 -> f64 -> f64 := SFdiv 53 1024.

Definition f64_is_finite (x : f64) : bool :=
  match x with S754_zero _ | S754_finite _ _ _ => true | _ => false end.

Definition f64_zero : f64 := S754_zero false.
Definition f64_4 : f64 := S754_finite false 4503599627370496 (-50).
Definition f64_250 : f64 := S754_finite false 8796093022208000 (-45).
Definition f64_1e8 : f64 := S754_finite false 6710886400000000 (-26).

(** An [f64] with an integral value, as [f64::ceil] and [f64::round] return: such a
    value is always representable. *)
Inductive integral := IInt (z : Z) | IInf (negative : bool) | INan.

Definition signed (s : bool) (z : Z) : Z := if s then - z else z.

(** The least integer not below [z / 2^k], and the nearest one, ties away from
    zero, for a non-negative [z]. *)
Definition ceil_div (z k : Z) : Z := - ((- z) / 2 ^ k).
Definition round_div (z k : Z) : Z := (2 * z + 2 ^ k) / 2 ^ (k + 1).

Definition f64_ceil (x : f64) : integral :=
  match x with
  | S754_zero _ => IInt 0
  | S754_infinity s => IInf s
  | S754_nan => INan
  | S754_finite s m e =>
      IInt (if 0 <=? e then signed s (Z.pos m) * 2 ^ e else ceil_div (signed s (Z.pos m)) (- e))
  end.

Definition f64_round (x : f64) : integral :=
  match x with
  | S754_zero _ => IInt 0
  | S754_infinity s => IInf s
  | S754_nan => INan
  | S754_finite s m e =>
      IInt (signed s (if 0 <=? e then Z.pos m * 2 ^ e else round_div (Z.pos m) (- e)))
  end.

(** The saturating cast [as u32]. *)
Definition as_u32 (x : integral) : Z :=
  match x with
  | IInt z => Z.max 0 (Z.min z u32_max)
  | IInf negative => if negative then 0 else u32_max
  | INan => 0
  end.

(** [x >= y as f64] for an integer [y]. *)
Definition integral_ge (x : integral) (y : Z) : bool :=
  match x with IInt z => y <=? z | IInf negative => negb negative | INan => false end.

(** ** Targets and the table *)

Inductive ConfirmationTarget :=
| MaximumFeeEstimate | UrgentOnChainSweep | MinAllowedAnchorChannelRemoteFee
| MinAllowedNonAnchorChannelRemoteFee | AnchorChannelFee | NonAnchorChannelFee
| ChannelCloseMinimum | OutputSpendingFee.

#[global] Instance ConfirmationTarget_eq_dec : EqDecision ConfirmationTarget.
Proof. solve_decision. Defined.
#[global] Instance ConfirmationTarget_countable : Countable ConfirmationTarget.
Proof.
  refine (inj_countable'
    (fun t => match t with
              | MaximumFeeEstimate => 0%nat | UrgentOnChainSweep => 1%nat
              | MinAllowedAnchorChannelRemoteFee => 2%nat
              | MinAllowedNonAnchorChannelRemoteFee => 3%nat | AnchorChannelFee => 4%nat
              | NonAnchorChannelFee => 5%nat | ChannelCloseMinimum => 6%nat
              | OutputSpendingFee => 7%nat
              end)
    (fun n => match n with
              | 0 => MaximumFeeEstimate | 1 => UrgentOnChainSweep
              | 2 => MinAllowedAnchorChannelRemoteFee
              | 3 => MinAllowedNonAnchorChannelRemoteFee | 4 => AnchorChannelFee
              | 5 => NonAnchorChannelFee | 6 => ChannelCloseMinimum
              | _ => OutputSpendingFee
              end%nat) _).
  by intros [].
Defined.

Abbreviation FeeTable := (gmap ConfirmationTarget Z).

Definition MIN_FEERATE : Z := 253.
Definition DEFAULT_NORMAL_MAX_FEERATE_SAT_PER_KWU : Z := 5000.
Definition DEFAULT_HIGH_PRIORITY_MAX_FEERATE_SAT_PER_KWU : Z := 50000.

(** The table both clients start with. *)
Definition initial_fees : FeeTable :=
  <[OutputSpendingFee := MIN_FEERATE]> (<[ChannelCloseMinimum := MIN_FEERATE]>
  (<[NonAnchorChannelFee := 2000]> (<[AnchorChannelFee := MIN_FEERATE]>
  (<[MinAllowedNonAnchorChannelRemoteFee := MIN_FEERATE]>
  (<[MinAllowedAnchorChannelRemoteFee := MIN_FEERATE]>
  (<[UrgentOnChainSweep := 5000]> (<[MaximumFeeEstimate := 50000]> ∅))))))).

(** [fees.get(&target).unwrap().store(v, ..)] *)
Definition store (target : ConfirmationTarget) (v : Z) (fees : FeeTable) : option FeeTable :=
  match fees !! target with Some _ => Some (<[target := v]> fees) | None => None end.

(** ** Esplora *)

(** [v.parse::<u32>()] *)
Definition max_feerate_sat_per_kwu_from_value (value : option string) : Z :=
  match value ≫= parse_uint u32_max with
  | Some v => if MIN_FEERATE <=? v then v else DEFAULT_NORMAL_MAX_FEERATE_SAT_PER_KWU
  | None => DEFAULT_NORMAL_MAX_FEERATE_SAT_PER_KWU
  end.

Definition high_priority_max_feerate_sat_per_kwu (normal_max_sat_kwu : Z) : Z :=
  Z.max normal_max_sat_kwu DEFAULT_HIGH_PRIORITY_MAX_FEERATE_SAT_PER_KWU.

Definition raw_sat_vb_to_sat_kwu (sat_vb : f64) : Z :=
  if negb (f64_is_finite sat_vb) || SFleb sat_vb f64_zero then MIN_FEERATE
  else
    let rounded_up := f64_ceil (f64_mul sat_vb f64_250) in
    if integral_ge rounded_up u32_max then u32_max else as_u32 rounded_up.

Definition sat_vb_to_sat_kwu_clamped (sat_vb : f64) (max_sat_kwu : Z) : Z :=
  let max_sat_kwu := Z.max max_sat_kwu MIN_FEERATE in
  let converted := raw_sat_vb_to_sat_kwu sat_vb in
  Z.min (Z.max converted MIN_FEERATE) max_sat_kwu.

Record FeeEstimateUpdate := mkUpdate {
  target : ConfirmationTarget;
  source_blocks : string;
  raw_sat_vb : f64;
  converted_sat_kwu : Z;
  assigned_sat_kwu : Z;
  was_clamped : bool;
}.

Definition apply_fee (target : ConfirmationTarget) (source_blocks : string) (raw_sat_vb : f64)
  (max_sat_kwu : Z) (st : FeeTable * list FeeEstimateUpdate) :
  option (FeeTable * list FeeEstimateUpdate) :=
  let '(fees, updates) := st in
  let converted_sat_kwu := Z.max (raw_sat_vb_to_sat_kwu raw_sat_vb) MIN_FEERATE in
  let assigned_sat_kwu := sat_vb_to_sat_kwu_clamped raw_sat_vb max_sat_kwu in
  fees ← store target assigned_sat_kwu fees;
  Some (fees, updates ++ [mkUpdate target source_blocks raw_sat_vb converted_sat_kwu
                            assigned_sat_kwu (negb (assigned_sat_kwu =? converted_sat_kwu))]).

Definition apply_fee_estimates (fees : FeeTable) (estimates : gmap string f64)
  (normal_max_sat_kwu : Z) : option (FeeTable * list FeeEstimateUpdate) :=
  let high_priority_max_sat_kwu := high_priority_max_feerate_sat_per_kwu normal_max_sat_kwu in
  st ← match estimates !! "1"%string with
       | Some rate =>
           apply_fee MaximumFeeEstimate "1" rate high_priority_max_sat_kwu (fees, [])
           ≫= apply_fee UrgentOnChainSweep "1" rate high_priority_max_sat_kwu
       | None => Some (fees, [])
       end;
  st ← match estimates !! "6"%string with
       | Some rate =>
           apply_fee NonAnchorChannelFee "6" rate normal_max_sat_kwu st
           ≫= apply_fee ChannelCloseMinimum "6" rate normal_max_sat_kwu
       | None => Some st
       end;
  match estimates !! "25"%string with
  | Some rate => apply_fee OutputSpendingFee "25" rate normal_max_sat_kwu st
  | None => Some st
  end.

(** ** bitcoind *)

(** The fields of [estimatesmartfee]'s and [getmempoolinfo]'s answers that are read. *)
Record MempoolInfo := mkMempool { maxmempool : option Z; mempoolminfee : option f64 }.

(** BTC per kvB to satoshi per kWU. *)
Definition feerate_sat_per_kw (feerate_btc_per_kvbyte : f64) : Z :=
  as_u32 (f64_round (f64_div (f64_mul feerate_btc_per_kvbyte f64_1e8) f64_4)).

(** [TryInto<FeeResponse>] of the ["feerate"] field. *)
Definition fee_response (feerate : option f64) : option Z := feerate_sat_per_kw <$> feerate.

(** [TryInto<MempoolMinFeeResponse>], with its [assert_eq!]. *)
Definition mempool_response (j : MempoolInfo) : option (option Z) :=
  if decide (maxmempool j = Some 300000000) then Some (feerate_sat_per_kw <$> mempoolminfee j)
  else None.

(** [match resp.feerate_sat_per_kw { Some(feerate) => max(feerate, MIN_FEERATE), None => d }] *)
Definition floor_or (d : Z) (feerate : option Z) : Z :=
  match feerate with Some f => Z.max f MIN_FEERATE | None => d end.

(** [rpc_client.call_method(..).await.unwrap()] *)
Definition unwrap {A} (r : result A string) : option A := res_ok r.

(** The stores at the end of a round. *)
Definition store_estimates (mempoolmin_estimate background_estimate normal_estimate high_prio_estimate
  very_high_prio_estimate : Z) (fees : FeeTable) : option FeeTable :=
  fees ← store MaximumFeeEstimate very_high_prio_estimate fees;
  fees ← store UrgentOnChainSweep high_prio_estimate fees;
  fees ← store MinAllowedAnchorChannelRemoteFee mempoolmin_estimate fees;
  fees ← store MinAllowedNonAnchorChannelRemoteFee (wrap_u32 (background_estimate - 250)) fees;
  fees ← store AnchorChannelFee background_estimate fees;
  fees ← store NonAnchorChannelFee normal_estimate fees;
  fees ← store ChannelCloseMinimum background_estimate fees;
  store OutputSpendingFee background_estimate fees.

(** One iteration of the polling loop, from the answers to its five requests. *)
Definition poll_for_fee_estimates (mempool : result MempoolInfo string)
  (smart144 smart18 smart6 smart2 : result (option f64) string) (fees : FeeTable) :
  option FeeTable :=
  mempool ← unwrap mempool ≫= mempool_response;
  let mempoolmin_estimate := floor_or MIN_FEERATE mempool in
  r ← unwrap smart144;
  let background_estimate := floor_or MIN_FEERATE (fee_response r) in
  r ← unwrap smart18;
  let normal_estimate := floor_or 2000 (fee_response r) in
  r ← unwrap smart6;
  let high_prio_estimate := floor_or 5000 (fee_response r) in
  r ← unwrap smart2;
  let very_high_prio_estimate := floor_or 50000 (fee_response r) in
  store_estimates mempoolmin_estimate background_estimate normal_estimate high_prio_estimate
    very_high_prio_estimate fees.

(** [FeeEstimator for BitcoindClient]: the Esplora client's table when there is one. *)
Definition get_est_sat_per_1000_weight (esplora : option FeeTable) (fees : FeeTable)
  (t : ConfirmationTarget) : option Z :=
  match esplora with Some fees => fees !! t | None => fees !! t end.

#[global] Arguments apply_fee : simpl never.

(** ** Facts *)

(** A table with every target, and every value at least [low]. *)
Definition complete (low : Z) (fees : FeeTable) : Prop :=
  forall t, exists v, fees !! t = Some v /\ low <= v <= u32_max.

Lemma store_complete low t v fees :
  complete low fees -> low <= v <= u32_max ->
  store t v fees = Some (<[t := v]> fees) /\ complete low (<[t := v]> fees).
Proof.
  intros Hc Hv. split.
  - unfold store. by destruct (Hc t) as (? & -> & _).
  - intros t'. destruct (decide (t = t')) as [->|Hne].
    + exists v. by rewrite lookup_insert_eq.
    + rewrite lookup_insert_ne by done. apply Hc.
Qed.

Lemma ceil_div_spec z k : 0 <= k -> (ceil_div z k - 1) * 2 ^ k < z <= ceil_div z k * 2 ^ k.
Proof.
  intros Hk. unfold ceil_div. pose proof (Z.pow_pos_nonneg 2 k ltac:(lia) Hk) as Hp.
  pose proof (Z.mul_div_le (- z) (2 ^ k) Hp). pose proof (Z.mul_succ_div_gt (- z) (2 ^ k) Hp). nia.
Qed.

Lemma as_u32_range x : 0 <= as_u32 x <= u32_max.
Proof. destruct x as [z|[]|]; unfold as_u32, u32_max; lia. Qed.

Lemma raw_range sat_vb : 0 <= raw_sat_vb_to_sat_kwu sat_vb <= u32_max.
Proof.
  unfold raw_sat_vb_to_sat_kwu. destruct (_ || _); [unfold MIN_FEERATE, u32_max; lia|].
  destruct (integral_ge _ _); [unfold u32_max; lia|apply as_u32_range].
Qed.

Lemma clamped_range sat_vb max :
  max <= u32_max ->
  MIN_FEERATE <= sat_vb_to_sat_kwu_clamped sat_vb max <= Z.max max MIN_FEERATE /\
  sat_vb_to_sat_kwu_clamped sat_vb max <= u32_max.
Proof.
  pose proof (raw_range sat_vb). unfold sat_vb_to_sat_kwu_clamped, MIN_FEERATE, u32_max in *. lia.
Qed.

Lemma floor_or_range d f :
  MIN_FEERATE <= d <= u32_max -> MIN_FEERATE <= floor_or d (fee_response f) <= u32_max.
Proof.
  destruct f as [x|]; cbn; [|done]. pose proof (as_u32_range (f64_round (f64_div (f64_mul x f64_1e8) f64_4))).
  unfold feerate_sat_per_kw, MIN_FEERATE, u32_max in *. lia.
Qed.

(** ** Theorems *)

(** The Esplora estimate a target is taken from, and its cap. *)
Definition source (t : ConfirmationTarget) : option string :=
  match t with
  | MaximumFeeEstimate | UrgentOnChainSweep => Some "1"
  | NonAnchorChannelFee | ChannelCloseMinimum => Some "6"
  | OutputSpendingFee => Some "25"
  | _ => None
  end%string.

Definition cap (max : Z) (t : ConfirmationTarget) : Z :=
  match t with
  | MaximumFeeEstimate | UrgentOnChainSweep => high_priority_max_feerate_sat_per_kwu max
  | _ => max
  end.

(** What an update records about the table it was made on. *)
Definition update_ok (max : Z) (u : FeeEstimateUpdate) : Prop :=
  assigned_sat_kwu u = sat_vb_to_sat_kwu_clamped (raw_sat_vb u) (cap max (target u)) /\
  (was_clamped u = true <-> assigned_sat_kwu u < converted_sat_kwu u).

Definition new_update (t : ConfirmationTarget) (b : string) (rate : f64) (max : Z) :
  FeeEstimateUpdate :=
  let conv := Z.max (raw_sat_vb_to_sat_kwu rate) MIN_FEERATE in
  let a := sat_vb_to_sat_kwu_clamped rate (cap max t) in
  mkUpdate t b rate conv a (negb (a =? conv)).

Lemma new_update_ok t b rate max : update_ok max (new_update t b rate max).
Proof.
  split; [done|]. cbn. unfold sat_vb_to_sat_kwu_clamped. rewrite negb_true_iff, Z.eqb_neq. lia.
Qed.

Lemma apply_fee_spec t b rate max fees ups :
  complete MIN_FEERATE fees -> 0 <= max <= u32_max ->
  apply_fee t b rate (cap max t) (fees, ups)
  = Some (<[t := sat_vb_to_sat_kwu_clamped rate (cap max t)]> fees, ups ++ [new_update t b rate max]) /\
  complete MIN_FEERATE (<[t := sat_vb_to_sat_kwu_clamped rate (cap max t)]> fees).
Proof.
  intros Hc Hm. assert (cap max t <= u32_max) as Hcap.
  { destruct t; cbn; unfold high_priority_max_feerate_sat_per_kwu,
      DEFAULT_HIGH_PRIORITY_MAX_FEERATE_SAT_PER_KWU, u32_max in *; lia. }
  pose proof (clamped_range rate _ Hcap) as [? ?].
  destruct (store_complete MIN_FEERATE t (sat_vb_to_sat_kwu_clamped rate (cap max t)) fees)
    as [E Hc']; [done|lia|]. split; [|done]. unfold apply_fee. by rewrite E.
Qed.

(** One target's part of [apply_fee_estimates]. *)
Definition fee_step (estimates : gmap string f64) (max : Z) (t : ConfirmationTarget) (b : string)
  (st : FeeTable * list FeeEstimateUpdate) : option (FeeTable * list FeeEstimateUpdate) :=
  match estimates !! b with
  | Some rate => apply_fee t b rate (cap max t) st
  | None => Some st
  end.

Lemma apply_fee_estimates_steps fees estimates max :
  apply_fee_estimates fees estimates max =
  (st ← fee_step estimates max MaximumFeeEstimate "1" (fees, []);
   st ← fee_step estimates max UrgentOnChainSweep "1" st;
   st ← fee_step estimates max NonAnchorChannelFee "6" st;
   st ← fee_step estimates max ChannelCloseMinimum "6" st;
   fee_step estimates max OutputSpendingFee "25" st).
Proof.
  unfold apply_fee_estimates, fee_step. cbn [cap].
  destruct (estimates !! "1"%string), (estimates !! "6"%string), (estimates !! "25"%string); cbn;
    repeat (match goal with |- context [apply_fee ?t ?b ?r ?c ?st] =>
              destruct (apply_fee t b r c st) as [?|] end; cbn); done.
Qed.

Lemma fee_step_spec estimates max t b fees ups :
  complete MIN_FEERATE fees -> 0 <= max <= u32_max -> Forall (update_ok max) ups ->
  exists fees' ups', fee_step estimates max t b (fees, ups) = Some (fees', ups') /\
    complete MIN_FEERATE fees' /\ Forall (update_ok max) ups' /\
    forall t', fees' !! t' =
      if decide (t' = t) then
        match estimates !! b with
        | Some rate => Some (sat_vb_to_sat_kwu_clamped rate (cap max t))
        | None => fees !! t
        end
      else fees !! t'.
Proof.
  intros Hf Hm Hu. unfold fee_step. destruct (estimates !! b) as [rate|].
  - destruct (apply_fee_spec t b rate max fees ups Hf Hm) as [-> Hf']. eexists _, _.
    split; [done|]. split; [done|].
    split; [apply Forall_app_2; [done|by apply Forall_singleton, new_update_ok]|].
    intros t'. case_decide; [subst; by rewrite lookup_insert_eq|by rewrite lookup_insert_ne].
  - eexists _, _. split; [done|]. split; [done|]. split; [done|]. intros t'. by case_decide; subst.
Qed.

(** Applying Esplora's estimates to a complete fee table never panics.  Each
    target whose block count has an estimate gets that estimate, converted and
    clamped to between 253 and the target's cap; the targets without one, the
    anchor fee and the remote minimums included, keep their value; the table stays
    complete and above LDK's minimum; and an update is reported as clamped exactly
    when the cap lowered it. *)
Lemma esplora_estimates_applied fees estimates max :
  complete MIN_FEERATE fees -> 0 <= max <= u32_max ->
  exists fees' ups,
    apply_fee_estimates fees estimates max = Some (fees', ups) /\
    complete MIN_FEERATE fees' /\ Forall (update_ok max) ups /\
    forall t, fees' !! t =
      match source t ≫= (estimates !!.) with
      | Some rate => Some (sat_vb_to_sat_kwu_clamped rate (cap max t))
      | None => fees !! t
      end.
Proof.
  intros Hc Hm. rewrite apply_fee_estimates_steps.
  destruct (fee_step_spec estimates max MaximumFeeEstimate "1" fees []) as (f1 & u1 & -> & C1 & U1 & L1);
    [done..|constructor|]. cbn [mbind option_bind].
  destruct (fee_step_spec estimates max UrgentOnChainSweep "1" f1 u1) as (f2 & u2 & -> & C2 & U2 & L2);
    [done..|]. cbn [mbind option_bind].
  destruct (fee_step_spec estimates max NonAnchorChannelFee "6" f2 u2) as (f3 & u3 & -> & C3 & U3 & L3);
    [done..|]. cbn [mbind option_bind].
  destruct (fee_step_spec estimates max ChannelCloseMinimum "6" f3 u3) as (f4 & u4 & -> & C4 & U4 & L4);
    [done..|]. cbn [mbind option_bind].
  destruct (fee_step_spec estimates max OutputSpendingFee "25" f4 u4) as (f5 & u5 & -> & C5 & U5 & L5);
    [done..|].
  exists f5, u5. split; [done|]. split; [done|]. split; [done|].
  intros []; rewrite L5; cbn; rewrite ?L4; cbn; rewrite ?L3; cbn; rewrite ?L2; cbn; rewrite ?L1; done.
Qed.

Lemma initial_complete : complete MIN_FEERATE initial_fees.
Proof. intros []; (eexists; split; [reflexivity|]; vm_compute; split; discriminate). Qed.

(** 4.001 sat/vB for the 6-block target, 30 for the next block. *)
Definition demo_estimates : gmap string f64 :=
  <["6"%string := S754_finite false 4504725527277339 (-50)]>
  (<["1"%string := S754_finite false 8444249301319680 (-48)]> ∅).

Lemma esplora_estimates_applied_witness :
  exists fees', fst <$> apply_fee_estimates initial_fees demo_estimates 5000 = Some fees' /\
    fees' !! MaximumFeeEstimate = Some 7500 /\ fees' !! NonAnchorChannelFee = Some 1001 /\
    fees' !! OutputSpendingFee = Some 253.
Proof.
  destruct (esplora_estimates_applied initial_fees demo_estimates 5000)
    as (fees' & ups & -> & _ & _ & Hl);
    [exact initial_complete|vm_compute; split; discriminate|].
  exists fees'. split; [reflexivity|]. rewrite !Hl. vm_compute. auto.
Defined.

(** The conversion of a positive finite estimate never rounds its double-precision
    product with 250 down: the result is the least integer not below the product,
    unless it saturates at [u32::MAX]. *)
Lemma sat_kwu_rounds_up sat_vb m e :
  f64_is_finite sat_vb = true -> SFleb sat_vb f64_zero = false ->
  f64_mul sat_vb f64_250 = S754_finite false m e ->
  let r := raw_sat_vb_to_sat_kwu sat_vb in
  r = u32_max \/
  (0 <= e /\ r = Z.pos m * 2 ^ e) \/ (e < 0 /\ (r - 1) * 2 ^ (- e) < Z.pos m <= r * 2 ^ (- e)).
Proof.
  intros Hfin Hpos Hm. cbn zeta. unfold raw_sat_vb_to_sat_kwu. rewrite Hfin, Hpos, Hm. cbn.
  destruct (u32_max <=? _) eqn:Hge; [by left|]. right.
  destruct (Z.leb_spec 0 e) as [He|He]; [left|right]; (split; [done|]).
  - assert (0 <= Z.pos m * 2 ^ e) by (pose proof (Z.pow_nonneg 2 e ltac:(lia)); nia). lia.
  - pose proof (ceil_div_spec (Z.pos m) (- e) ltac:(lia)) as Hc.
    assert (0 <= ceil_div (Z.pos m) (- e)).
    { pose proof (Z.pow_pos_nonneg 2 (- e) ltac:(lia) ltac:(lia)). nia. }
    rewrite Z.max_r, Z.min_l by lia. exact Hc.
Qed.

(** 4.001 sat/vB is 1000.25 sat/kWU. *)
Lemma sat_kwu_rounds_up_witness :
  let r := raw_sat_vb_to_sat_kwu (S754_finite false 4504725527277339 (-50)) in
  r = 1001 /\ (r - 1) * 2 ^ 43 < 8798292045463553 <= r * 2 ^ 43.
Proof.
  assert (raw_sat_vb_to_sat_kwu (S754_finite false 4504725527277339 (-50)) = 1001) as Er
    by (vm_compute; reflexivity).
  cbn zeta. split; [exact Er|].
  destruct (sat_kwu_rounds_up (S754_finite false 4504725527277339 (-50)) 8798292045463553 (-43))
    as [E|[[E _]|[_ E]]]; [vm_compute; reflexivity..| | |exact E].
  - rewrite Er in E. discriminate E.
  - by destruct E.
Defined.

(** What makes a round panic. *)
Definition poll_fails (mempool : result MempoolInfo string)
  (smart : list (result (option f64) string)) : Prop :=
  match mempool with Ok j => maxmempool j <> Some 300000000 | Err _ => True end \/
  exists e, Err e ∈ smart.

(** The feerates of a finished round, from the background estimate [bg]. *)
Definition polled (bg : Z) (fees : FeeTable) : Prop :=
  MIN_FEERATE <= bg <= u32_max /\
  fees !! MinAllowedNonAnchorChannelRemoteFee = Some (bg - 250) /\
  (forall t, t ∈ [AnchorChannelFee; ChannelCloseMinimum; OutputSpendingFee] ->
     fees !! t = Some bg) /\
  (forall t, t <> MinAllowedNonAnchorChannelRemoteFee ->
     exists v, fees !! t = Some v /\ MIN_FEERATE <= v <= u32_max).

(** The eight stores of a round, on a table that has every target. *)
Lemma poll_stores (very_high high mempool bg normal : Z) fees :
  complete 0 fees -> MIN_FEERATE <= very_high <= u32_max -> MIN_FEERATE <= high <= u32_max ->
  MIN_FEERATE <= mempool <= u32_max -> MIN_FEERATE <= bg <= u32_max ->
  MIN_FEERATE <= normal <= u32_max ->
  exists fees', polled bg fees' /\ store_estimates mempool bg normal high very_high fees = Some fees'.
Proof.
  intros Hc H1 H2 H3 H4 H5. unfold store_estimates, MIN_FEERATE in *.
  assert (wrap_u32 (bg - 250) = bg - 250) as ->.
  { unfold wrap_u32. apply Z.mod_small. unfold u32_max in *. lia. }
  eexists. split; cycle 1.
  { repeat (edestruct store_complete as [E Hc2]; [exact Hc|split|rewrite E; clear E Hc;
      rename Hc2 into Hc; cbn [mbind option_bind]]; [lia..|]).
    reflexivity. }
  clear Hc. split_and!; [unfold MIN_FEERATE; lia| |by simplify_map_eq| |].
  - unfold MIN_FEERATE; lia.
  - intros t Ht. rewrite !elem_of_cons, elem_of_nil in Ht.
    destruct Ht as [->|[->|[->|[]]]]; by simplify_map_eq.
  - intros [] Hne; try done; (eexists; split; [by simplify_map_eq|unfold MIN_FEERATE; lia]).
Qed.

(** C40: one round of bitcoind polling panics exactly when an RPC failed or the node's
    mempool limit is not the default; otherwise it replaces the whole table.  Every feerate
    is then a [u32] of at least 253, except the minimum allowed for a non-anchor remote, which
    is 250 below the background estimate and does not wrap around. *)
Theorem bitcoind_poll_bounds mempool smart144 smart18 smart6 smart2 fees :
  complete 0 fees ->
  match poll_for_fee_estimates mempool smart144 smart18 smart6 smart2 fees with
  | None => poll_fails mempool [smart144; smart18; smart6; smart2]
  | Some fees' =>
      ~ poll_fails mempool [smart144; smart18; smart6; smart2] /\ exists bg, polled bg fees'
  end.
Proof.
  intros Hc. unfold poll_for_fee_estimates, poll_fails.
  destruct mempool as [j|e]; cbn [unwrap res_ok mbind option_bind]; [|by left]. unfold mempool_response.
  destruct (decide (maxmempool j = _)) as [Hj|Hj]; cbn [mbind option_bind]; [|by left].
  destruct smart144 as [r1|e]; cbn [unwrap res_ok mbind option_bind]; [|right; exists e; set_solver].
  destruct smart18 as [r2|e]; cbn [unwrap res_ok mbind option_bind]; [|right; exists e; set_solver].
  destruct smart6 as [r3|e]; cbn [unwrap res_ok mbind option_bind]; [|right; exists e; set_solver].
  destruct smart2 as [r4|e]; cbn [unwrap res_ok mbind option_bind]; [|right; exists e; set_solver].
  destruct (poll_stores (floor_or 50000 (fee_response r4)) (floor_or 5000 (fee_response r3))
    (floor_or MIN_FEERATE (fee_response (mempoolminfee j))) (floor_or MIN_FEERATE (fee_response r1))
    (floor_or 2000 (fee_response r2)) fees Hc) as (fees' & Hp & E); [by apply floor_or_range..|].
  unfold fee_response in E |- *. cbn [mbind option_bind] in E |- *. rewrite E.
  split; [|by eexists]. intros [?|(e & He)]; [done|]. set_solver.
Qed.

Lemma bitcoind_poll_bounds_witness :
  exists fees' bg, poll_for_fee_estimates (Ok (mkMempool (Some 300000000) None))
    (Ok None) (Ok None) (Ok None) (Ok (Some f64_4)) initial_fees = Some fees' /\ polled bg fees'.
Proof.
  pose proof (bitcoind_poll_bounds (Ok (mkMempool (Some 300000000) None))
    (Ok None) (Ok None) (Ok None) (Ok (Some f64_4)) initial_fees) as Hp.
  destruct (poll_for_fee_estimates _ _ _ _ _ _) as [fees'|] eqn:E; [|by vm_compute in E].
  destruct Hp as [_ [bg Hb]].
  - intros []; (eexists; split; [reflexivity|]; vm_compute; split; discriminate).
  - exists fees', bg. split; [reflexivity|exact Hb].
Defined.
