(* ===== verification/Args.v ===== *)
(** * Start-up arguments ([src/src/args.rs])

    The command line, the environment variables, the home directory and the file
    system are parameters, and so is the parser of LDK's socket addresses.  What is
    printed is not modelled. *)

From S2P Require Import Prelude HexUtils Text.

(** [Path::join] with a relative or absolute path, on Unix *)
Fixpoint ends_with_slash (s : string) : bool :=
  match s with
  | EmptyString => false
  | String a EmptyString => Ascii.eqb a (chr 47)
  | String _ s' => ends_with_slash s'
  end.

Definition join (dir path : string) : string :=
  if starts_with path "/" || str_is_empty dir then path
  else if ends_with_slash dir then dir +:+ path else dir +:+ "/" +:+ path.

(** ** What the process is started with *)

Record Process := mkProcess {
  args : list string;                          (** [env::args()], the program first *)
  env_var : string -> option string;           (** [env::var(..).ok()] *)
  home_dir : option string;
  read_to_string : string -> option string;    (** [fs::read_to_string(..).ok()] *)
}.

Inductive Network := Testnet | RegtestNet | SignetNet | Mainnet.

Record CardanoRelayConfig := mkCardanoConfig {
  blockfrost_url : string;
  blockfrost_key : string;
  skey_path : string;
  cfg_script_address : string;
  script_cbor_path : string;
  cbtc_policy_id : string;
  cbtc_asset_name : string;
  cfg_operator_address : string;
  operator_pkh : string;
}.

(** [Ok], [Err(())] and a panic. *)
Inductive startup (A : Type) :=
| Started (a : A)
| Refused
| Aborted (msg : string).
Arguments Started {A} a.
Arguments Refused {A}.
Arguments Aborted {A} msg.

Definition startup_bind {A B} (r : startup A) (f : A -> startup B) : startup B :=
  match r with Started a => f a | Refused => Refused | Aborted m => Aborted m end.
Declare Scope startup_scope.
Notation "'let!' x := r 'in' k" := (startup_bind r (fun x => k))
  (at level 10, x name, r at level 100, k at level 200) : startup_scope.
Notation "'let!' ' x := r 'in' k" := (startup_bind r (fun x => k))
  (at level 10, x strict pattern, r at level 100, k at level 200) : startup_scope.
Open Scope startup_scope.

(** [Result<_, ()>] *)
Definition startup_ok {A} (r : option A) : startup A :=
  match r with Some a => Started a | None => Refused end.

(** ** RPC credentials *)

Definition DEFAULT_BITCOIN_DATADIR : string := ".bitcoin".
Definition BITCOIND_RPC_USER_KEY : string := "RPC_USER".
Definition BITCOIND_RPC_PASSWORD_KEY : string := "RPC_PASSWORD".

Definition parse_rpc_auth (rpc_auth : string) : option (string * string) :=
  match split_on COLON rpc_auth with
  | [user; password] => Some (user, password)
  | _ => None
  end.

Definition get_cookie_path (p : Process) (data_dir : option (string * bool))
  (network : option Network) (cookie_file_name : option string) : option string :=
  data_dir_path ← match data_dir with
                  | Some (dir, true) => home ← home_dir p; Some (join home dir)
                  | Some (dir, false) => Some dir
                  | None => home ← home_dir p; Some (join home DEFAULT_BITCOIN_DATADIR)
                  end;
  let data_dir_path_with_net :=
    match network with
    | Some Testnet => join data_dir_path "testnet3"
    | Some RegtestNet => join data_dir_path "regtest"
    | Some SignetNet => join data_dir_path "signet"
    | _ => data_dir_path
    end in
  Some (join data_dir_path_with_net (default ".cookie"%string cookie_file_name)).

Definition get_rpc_auth_from_cookie (p : Process) (data_dir : option (string * bool))
  (network : option Network) (cookie_file_name : option string) : option (string * string) :=
  cookie_path ← get_cookie_path p data_dir network cookie_file_name;
  cookie_contents ← read_to_string p cookie_path;
  parse_rpc_auth cookie_contents.

Definition get_rpc_auth_from_env_vars (p : Process) : option (string * string) :=
  match env_var p BITCOIND_RPC_USER_KEY, env_var p BITCOIND_RPC_PASSWORD_KEY with
  | Some username, Some password => Some (username, password)
  | _, _ => None
  end.

(** The loop of [parse_env_file] over the lines. *)
Fixpoint parse_env_lines (ls : list string) (m : gmap string string) :
  option (gmap string string) :=
  match ls with
  | [] => Some m
  | line :: ls =>
      match split_once EQUALS line with
      | Some (k, v) => parse_env_lines ls (<[k := v]> m)
      | None => None
      end
  end.

Definition parse_env_file (p : Process) (env_file_name : option string) :
  option (gmap string string) :=
  env_file_contents ← read_to_string p (default ".env"%string env_file_name);
  parse_env_lines (lines env_file_contents) ∅.

Definition get_rpc_auth_from_env_file (p : Process) (env_file_name : option string) :
  option (string * string) :=
  env_file_map ← parse_env_file p env_file_name;
  match env_file_map !! BITCOIND_RPC_USER_KEY, env_file_map !! BITCOIND_RPC_PASSWORD_KEY with
  | Some username, Some password => Some (username, password)
  | _, _ => None
  end.

(** ** The command line *)

(** [env::var(key).unwrap_or_else(|_| panic!(..))] *)
Definition required (p : Process) (key : string) : startup string :=
  match env_var p key with
  | Some v => Started v
  | None => Aborted ("CARDANO_ENABLED=true but " +:+ key +:+ " not set")
  end.

Definition cardano_enabled (p : Process) : bool :=
  match env_var p "CARDANO_ENABLED" with
  | Some v => String.eqb v "1" || String.eqb v "true"
  | None => false
  end.

Definition cardano_config (p : Process) : startup (option CardanoRelayConfig) :=
  if cardano_enabled p then
    let! skey_path := required p "CARDANO_SKEY_PATH" in
    let! script_address := required p "CARDANO_SCRIPT_ADDRESS" in
    let! script_cbor_path := required p "CARDANO_SCRIPT_CBOR_PATH" in
    let! cbtc_policy_id := required p "CARDANO_CBTC_POLICY_ID" in
    let! cbtc_asset_name := required p "CARDANO_CBTC_ASSET_NAME" in
    let! operator_address := required p "CARDANO_OPERATOR_ADDRESS" in
    let! operator_pkh := required p "CARDANO_OPERATOR_PKH" in
    let blockfrost_url :=
      default "http://localhost:8080/api/v1/"%string (env_var p "CARDANO_BLOCKFROST_URL") in
    let blockfrost_key := default "local"%string (env_var p "CARDANO_BLOCKFROST_KEY") in
    Started (Some (mkCardanoConfig blockfrost_url blockfrost_key skey_path script_address
      script_cbor_path cbtc_policy_id cbtc_asset_name operator_address operator_pkh))
  else Started None.

Definition parse_network (arg : option string) : startup Network :=
  match arg with
  | None => Started Testnet
  | Some net =>
      if String.eqb net "testnet" then Started Testnet
      else if String.eqb net "regtest" then Started RegtestNet
      else if String.eqb net "signet" then Started SignetNet
      else Aborted ("Unsupported network provided. Options are: `regtest`, `testnet`, and `signet`. Got "
                      +:+ net)
  end.

(** The alias, padded with zeros to 32 bytes. *)
Definition node_name (arg : option string) : startup (list Z) :=
  match arg with
  | Some s =>
      if (32 <? String.length s)%nat then Aborted "Node Alias can not be longer than 32 bytes"
      else Started (map byte_of (String.list_ascii_of_string s)
                      ++ replicate (32 - String.length s) 0)
  | None => Started (replicate 32 0)
  end.

Section startup.
Context {SocketAddress : Type} (socket_from_str : string -> option SocketAddress).

Record LdkUserInfo := mkUserInfo {
  bitcoind_rpc_username : string;
  bitcoind_rpc_password : string;
  bitcoind_rpc_host : string;
  bitcoind_rpc_port : Z;
  ldk_storage_dir_path : string;
  ldk_peer_listening_port : Z;
  ldk_announced_listen_addr : list SocketAddress;
  ldk_announced_node_name : list Z;
  network : Network;
  cardano : option CardanoRelayConfig;
}.

Fixpoint listen_addrs (rest : list string) : startup (list SocketAddress) :=
  match rest with
  | [] => Started []
  | s :: rest =>
      match socket_from_str s with
      | Some sa => let! sas := listen_addrs rest in Started (sa :: sas)
      | None => Aborted "Failed to parse announced-listen-addr into a socket address"
      end
  end.

Definition rpc_auth (p : Process) (given : option string) (network : Network) :
  startup (string * string) :=
  match given with
  | None =>
      match get_rpc_auth_from_env_vars p with
      | Some auth => Started auth
      | None =>
          match get_rpc_auth_from_env_file p None with
          | Some auth => Started auth
          | None => startup_ok (get_rpc_auth_from_cookie p None (Some network) None)
          end
      end
  | Some auth => startup_ok (parse_rpc_auth auth)
  end.

Definition parse_startup_args (p : Process) : startup LdkUserInfo :=
  match args p with
  | _ :: bitcoind_rpc_info :: ldk_storage_dir_path :: rest =>
      let '(given_auth, rpc_path) :=
        match rsplit_once AT bitcoind_rpc_info with
        | Some (auth, path) => (Some auth, path)
        | None => (None, bitcoind_rpc_info)
        end in
      match split_on COLON rpc_path with
      | [bitcoind_rpc_host; port] =>
          match parse_uint 65535 port with
          | None => Aborted "called `Result::unwrap()` on an `Err` value"
          | Some bitcoind_rpc_port =>
              let '(ldk_peer_listening_port, rest) :=
                match rest with
                | arg :: rest' =>
                    match parse_uint 65535 arg with
                    | Some port => (port, rest')
                    | None => (9735, rest)
                    end
                | [] => (9735, [])
                end in
              let! network := parse_network (head rest) in
              let! '(username, password) := rpc_auth p given_auth network in
              let! name := node_name (head (tail rest)) in
              let! addrs := listen_addrs (tail (tail rest)) in
              let! cardano := cardano_config p in
              Started (mkUserInfo username password bitcoind_rpc_host bitcoind_rpc_port
                ldk_storage_dir_path ldk_peer_listening_port addrs name network cardano)
          end
      | _ => Refused
      end
  | _ => Refused
  end.
End startup.

#[global] Arguments mkUserInfo {SocketAddress} _ _ _ _ _ _ _ _ _ _.

(** ** Facts about splitting *)

#[local] Arguments Ascii.eqb : simpl never.
#[local] Arguments String.append : simpl nomatch.

Fixpoint has_char (c : Ascii.ascii) (s : string) : bool :=
  match s with EmptyString => false | String a s' => Ascii.eqb a c || has_char c s' end.

Lemma has_char_app c s t : has_char c (s +:+ t) = has_char c s || has_char c t.
Proof. induction s as [|a s IH]; cbn; [done|]. by rewrite <- orb_assoc, <- IH. Qed.

Lemma split_on_none c s : has_char c s = false -> split_on c s = [s].
Proof.
  induction s as [|a s IH]; cbn; [done|]. intros [-> Hs]%orb_false_iff. by rewrite IH.
Qed.

Lemma split_on_app c s t :
  has_char c s = false -> split_on c (s +:+ String c t) = s :: split_on c t.
Proof.
  induction s as [|a s IH]; cbn; [by rewrite Ascii.eqb_refl|].
  intros [-> Hs]%orb_false_iff. by rewrite IH.
Qed.

Lemma split_once_app c s t :
  has_char c s = false -> split_once c (s +:+ String c t) = Some (s, t).
Proof.
  induction s as [|a s IH]; cbn; [by rewrite Ascii.eqb_refl|].
  intros [-> Hs]%orb_false_iff. by rewrite IH.
Qed.

Lemma rsplit_once_none c s : has_char c s = false -> rsplit_once c s = None.
Proof. induction s as [|a s IH]; cbn; [done|]. intros [-> Hs]%orb_false_iff. by rewrite IH. Qed.

Lemma rsplit_once_app c s t :
  has_char c t = false -> rsplit_once c (s +:+ String c t) = Some (s, t).
Proof.
  intros Ht. induction s as [|a s IH]; cbn.
  - by rewrite rsplit_once_none, Ascii.eqb_refl by done.
  - by rewrite IH.
Qed.

Lemma parse_rpc_auth_app u p :
  has_char COLON u = false -> has_char COLON p = false ->
  parse_rpc_auth (u +:+ ":" +:+ p) = Some (u, p).
Proof.
  intros Hu Hp. unfold parse_rpc_auth.
  change (":" +:+ p) with (String COLON p). by rewrite split_on_app, split_on_none.
Qed.

(** A character that is in no number. *)
Definition not_numeric (c : Ascii.ascii) : Prop :=
  let d := Z.of_N (Ascii.N_of_ascii c) in (d < 48 \/ 57 < d) /\ d <> 43.

Lemma parse_digits_chars c max acc s n :
  not_numeric c -> parse_digits max acc s = Some n -> has_char c s = false.
Proof.
  intros Hc. revert acc. induction s as [|a s IH]; cbn; intros acc Hp; [done|].
  destruct (_ && _) eqn:E; [|done]. rewrite (IH _ Hp), orb_false_r.
  apply Ascii.eqb_neq. intros ->. unfold not_numeric in Hc. lia.
Qed.

Lemma parse_uint_chars c max s n :
  not_numeric c -> parse_uint max s = Some n -> has_char c s = false.
Proof.
  intros Hc. destruct s as [|a s]; [done|]. cbn [parse_uint].
  destruct (Z.eqb_spec (Z.of_N (Ascii.N_of_ascii a)) 43) as [Ha|Ha].
  - destruct (str_is_empty s); [done|]. intros Hp. cbn.
    rewrite (parse_digits_chars _ _ _ _ _ Hc Hp), orb_false_r.
    apply Ascii.eqb_neq. intros ->. unfold not_numeric in Hc. lia.
  - by apply parse_digits_chars.
Qed.

Lemma listen_addrs_mapM {SA} (f : string -> option SA) addrs sas :
  mapM f addrs = Some sas -> listen_addrs f addrs = Started sas.
Proof.
  revert sas. induction addrs as [|a addrs IH]; intros sas; cbn; [by intros [= <-]|].
  destruct (f a) as [sa|]; cbn; [|done]. destruct (mapM f addrs) as [l|]; cbn; [|done].
  intros [= <-]. by rewrite (IH l).
Qed.

(** A full command line is read back as what it was assembled from: the RPC user,
    password, host and port, the storage directory, the listening port, the network,
    the alias padded to 32 bytes and the announced addresses.  The user name, the
    password and the host must be free of colons; the password may contain [@]. *)
Lemma startup_command_line {SA} (f : string -> option SA) p prog user pass host port rpc_port dir
  peer peer_port net netv alias addrs sas c :
  args p = [prog; user +:+ ":" +:+ pass +:+ "@" +:+ host +:+ ":" +:+ port; dir; peer; net; alias]
           ++ addrs ->
  has_char COLON user = false -> has_char COLON pass = false ->
  has_char COLON host = false -> has_char AT host = false ->
  parse_uint 65535 port = Some rpc_port -> parse_uint 65535 peer = Some peer_port ->
  parse_network (Some net) = Started netv -> (String.length alias <= 32)%nat ->
  mapM f addrs = Some sas -> cardano_config p = Started c ->
  parse_startup_args f p = Started (mkUserInfo user pass host rpc_port dir peer_port sas
    (map byte_of (String.list_ascii_of_string alias) ++ replicate (32 - String.length alias) 0)
    netv c).
Proof.
  intros Ha Hu Hp Hh Hh' Hport Hpeer Hnet Hal Hs Hc. unfold parse_startup_args. rewrite Ha. cbn [app].
  assert (not_numeric COLON /\ not_numeric AT) as [NC NA] by (unfold not_numeric; vm_compute; split; split; try discriminate; by right).
  replace (user +:+ ":" +:+ pass +:+ "@" +:+ host +:+ ":" +:+ port)
    with ((user +:+ ":" +:+ pass) +:+ String AT (host +:+ String COLON port))
    by (by rewrite string_app_assoc).
  rewrite rsplit_once_app.
  2: { rewrite has_char_app, Hh'. cbn [has_char]. by rewrite (parse_uint_chars AT _ _ _ NA Hport). }
  rewrite split_on_app, split_on_none, Hport, Hpeer by (done || by eapply parse_uint_chars).
  cbn [head tail startup_bind]. rewrite Hnet. cbn [startup_bind rpc_auth].
  rewrite parse_rpc_auth_app by done. cbn [startup_ok startup_bind].
  unfold node_name. rewrite (proj2 (Nat.ltb_ge _ _) Hal). cbn [startup_bind].
  rewrite (listen_addrs_mapM f addrs sas Hs). cbn [startup_bind]. by rewrite Hc.
Qed.

Definition demo_process : Process :=
  mkProcess ["ldk"; "user:p@ss@localhost:18443"; "/data"; "9736"; "regtest"; "relay"; "1.2.3.4:9736"]
    (fun _ => None) None (fun _ => None).

Lemma startup_command_line_witness :
  parse_startup_args (SocketAddress := string) Some demo_process
  = Started (mkUserInfo "user" "p@ss" "localhost" 18443 "/data" 9736 ["1.2.3.4:9736"%string]
      ([114; 101; 108; 97; 121] ++ replicate 27 0) RegtestNet None).
Proof.
  apply (startup_command_line Some demo_process "ldk" "user" "p@ss" "localhost" "18443" 18443 "/data"
    "9736" 9736 "regtest" RegtestNet "relay" ["1.2.3.4:9736"%string] ["1.2.3.4:9736"%string] None);
    try reflexivity. cbn. lia.
Defined.

(** ** The [.env] file *)

(** The text of a [.env] file with the given bindings. *)
Fixpoint env_text (kvs : list (string * string)) : string :=
  match kvs with
  | [] => ""
  | (k, v) :: kvs => k +:+ String EQUALS v +:+ String LF (env_text kvs)
  end.

Definition env_binding_ok (kv : string * string) : Prop :=
  has_char EQUALS kv.1 = false /\ has_char LF kv.1 = false /\ has_char LF kv.2 = false /\
  strip_cr kv.2 = kv.2.

Lemma split_on_cons c s : exists x xs, split_on c s = x :: xs.
Proof.
  destruct s as [|a s]; cbn; [by eexists _, _|]. destruct (Ascii.eqb a c); [by eexists _, _|].
  destruct (split_on c s); by eexists _, _.
Qed.

Lemma strip_cr_binding k v : strip_cr v = v -> strip_cr (k +:+ String EQUALS v) = k +:+ String EQUALS v.
Proof.
  intros Hv. induction k as [|a k IH].
  - cbn. destruct v as [|b v]; [done|]. by rewrite Hv.
  - cbn [String.append]. destruct (k +:+ String EQUALS v) as [|b s] eqn:E.
    + by destruct k.
    + cbn [strip_cr] in *. by rewrite IH.
Qed.

Lemma lines_env_text kvs :
  Forall env_binding_ok kvs ->
  lines (env_text kvs) = (fun kv => kv.1 +:+ String EQUALS kv.2) <$> kvs.
Proof.
  unfold lines. induction 1 as [|[k v] kvs (H1 & H2 & H3 & H4) _ IH]; [done|]. cbn [fst snd] in *.
  cbn [env_text fmap list_fmap fst snd].
  replace (k +:+ String EQUALS v +:+ String LF (env_text kvs))
    with ((k +:+ String EQUALS v) +:+ String LF (env_text kvs)) by (by rewrite string_app_assoc).
  rewrite split_on_app by (rewrite has_char_app, H2; cbn; by rewrite H3).
  rewrite <- IH. destruct (split_on_cons LF (env_text kvs)) as (x & xs & ->).
  cbn [ended_lines]. by rewrite strip_cr_binding.
Qed.

Lemma parse_env_lines_bindings kvs m :
  Forall env_binding_ok kvs ->
  parse_env_lines ((fun kv => kv.1 +:+ String EQUALS kv.2) <$> kvs) m
  = Some (list_to_map (reverse kvs) ∪ m).
Proof.
  intros H. revert m. induction H as [|[k v] kvs (H1 & _) _ IH]; intros m; cbn [fmap list_fmap].
  - cbn. by rewrite map_empty_union.
  - cbn [parse_env_lines fst snd]. rewrite split_once_app by done. rewrite IH.
    rewrite reverse_cons, list_to_map_app. cbn.
    by rewrite insert_empty, <- map_union_assoc, <- insert_union_singleton_l.
Qed.

(** A [.env] file written as [key=value] lines is read back as its bindings, the
    last one of a key winning, and the RPC credentials are taken from it when it has
    both keys. *)
Lemma env_file_roundtrip p kvs :
  read_to_string p ".env" = Some (env_text kvs) -> Forall env_binding_ok kvs ->
  let m : gmap string string := list_to_map (reverse kvs) in
  parse_env_file p None = Some m /\
  get_rpc_auth_from_env_file p None =
    match m !! BITCOIND_RPC_USER_KEY, m !! BITCOIND_RPC_PASSWORD_KEY with
    | Some user, Some pass => Some (user, pass)
    | _, _ => None
    end.
Proof.
  intros Hr Hk. cbn zeta.
  assert (parse_env_file p None = Some (list_to_map (reverse kvs))) as E.
  { unfold parse_env_file. cbn [default]. unfold default, from_option, id. rewrite Hr. cbn [mbind option_bind].
    rewrite lines_env_text, parse_env_lines_bindings by done. by rewrite map_union_empty. }
  split; [done|]. unfold get_rpc_auth_from_env_file. by rewrite E.
Qed.

Definition demo_env : list (string * string) :=
  [("RPC_USER", "old"); ("RPC_PASSWORD", "a=b"); ("RPC_USER", "new")]%string.

Lemma env_file_roundtrip_witness :
  get_rpc_auth_from_env_file (mkProcess [] (fun _ => None) None (fun _ => Some (env_text demo_env))) None
  = Some ("new", "a=b")%string.
Proof.
  destruct (env_file_roundtrip
    (mkProcess [] (fun _ => None) None (fun _ => Some (env_text demo_env))) demo_env) as [_ ->];
    [reflexivity|repeat constructor|vm_compute; reflexivity].
Defined.
