(* ===== verification/Mapping.v ===== *)
(** * SwapDb: the swap and offramp tables ([src/src/mapping.rs])

    The SQLite database is two tables.  A table is the list of its rows in the
    order of their rowid: [swap_mappings] has a [TEXT] primary key, so its rows
    stay in insertion order; [offramp_mappings] has an [INTEGER PRIMARY KEY],
    which is the rowid, so its rows are ordered by [offramp_id].  The status
    column is text, as in the schema; [row_to_swap] and [row_to_offramp] parse it.

    Each operation is one SQL statement run under the connection's mutex, hence
    a function on the database.  An operation whose [execute] may violate the
    primary key returns [false] for the error on which the source panics. *)

From S2P Require Import Prelude.

Module SwapStatus.
Inductive t := Pending | Fulfilling | Completed | Failed | Expired.

#[global] Instance eq_dec : EqDecision t.
Proof. solve_decision. Defined.

Definition as_str (s : t) : string :=
  match s with
  | Pending => "pending"
  | Fulfilling => "fulfilling"
  | Completed => "completed"
  | Failed => "failed"
  | Expired => "expired"
  end.

Definition from_str (s : string) : t :=
  if String.eqb s "pending" then Pending
  else if String.eqb s "fulfilling" then Fulfilling
  else if String.eqb s "completed" then Completed
  else if String.eqb s "failed" then Failed
  else if String.eqb s "expired" then Expired
  else Failed.

(** [format!("{:?}", status)], the derived [Debug]. *)
Definition debug (s : t) : string :=
  match s with
  | Pending => "Pending"
  | Fulfilling => "Fulfilling"
  | Completed => "Completed"
  | Failed => "Failed"
  | Expired => "Expired"
  end.
End SwapStatus.

Module OfframpStatus.
Inductive t :=
  | AwaitingDeposit | PendingVerification | PayingLightning
  | DepositingToPool | Completed | Failed.

#[global] Instance eq_dec : EqDecision t.
Proof. solve_decision. Defined.

Definition as_str (s : t) : string :=
  match s with
  | AwaitingDeposit => "awaiting_deposit"
  | PendingVerification => "pending_verification"
  | PayingLightning => "paying_lightning"
  | DepositingToPool => "depositing_to_pool"
  | Completed => "completed"
  | Failed => "failed"
  end.

Definition from_str (s : string) : t :=
  if String.eqb s "awaiting_deposit" then AwaitingDeposit
  else if String.eqb s "pending_verification" then PendingVerification
  else if String.eqb s "paying_lightning" then PayingLightning
  else if String.eqb s "depositing_to_pool" then DepositingToPool
  else if String.eqb s "completed" then Completed
  else if String.eqb s "failed" then Failed
  else Failed.

Definition debug (s : t) : string :=
  match s with
  | AwaitingDeposit => "AwaitingDeposit"
  | PendingVerification => "PendingVerification"
  | PayingLightning => "PayingLightning"
  | DepositingToPool => "DepositingToPool"
  | Completed => "Completed"
  | Failed => "Failed"
  end.
End OfframpStatus.

(** ** Rows and mappings

    A row of a table and the struct read from it differ only in the type of the
    status: the text of the column, or the parsed enum. *)

Module Swap.
Record t_of (S : Type) := mk {
    payment_hash : string;
    invoice_id : Z;
    amount_cbtc : Z;
    cardano_address : string;
    status : S;
    created_at : Z;
    expires_at : Z;
    cardano_tx_hash : option string;
    create_tx_hash : option string;
  }.
Arguments mk {S} _ _ _ _ _ _ _ _ _.
Arguments payment_hash {S} _.
Arguments invoice_id {S} _.
Arguments amount_cbtc {S} _.
Arguments cardano_address {S} _.
Arguments status {S} _.
Arguments created_at {S} _.
Arguments expires_at {S} _.
Arguments cardano_tx_hash {S} _.
Arguments create_tx_hash {S} _.

  (** [SET status = s, cardano_tx_hash = tx] *)
Definition set_status {S S'} (s : S') (tx : option string) (r : t_of S) : t_of S' :=
    mk (payment_hash r) (invoice_id r) (amount_cbtc r) (cardano_address r) s
       (created_at r) (expires_at r) tx (create_tx_hash r).

Definition with_status {S S'} (s : S') (r : t_of S) : t_of S' :=
    set_status s (cardano_tx_hash r) r.
End Swap.
Abbreviation SwapMapping := (Swap.t_of SwapStatus.t).
Abbreviation SwapRow := (Swap.t_of string).

Module Offramp.
Record t_of (S : Type) := mk {
    offramp_id : Z;
    bolt11 : string;
    payment_hash : string;
    amount_cbtc : Z;
    cbtc_tx_hash : string;
    status : S;
    created_at : Z;
    lightning_preimage : option string;
    deposit_tx_hash : option string;
    error_message : option string;
    cardano_offramp_tx_hash : option string;
    refund_address : string;
    expires_at : Z;
  }.
Arguments mk {S} _ _ _ _ _ _ _ _ _ _ _ _ _.
Arguments offramp_id {S} _.
Arguments bolt11 {S} _.
Arguments payment_hash {S} _.
Arguments amount_cbtc {S} _.
Arguments cbtc_tx_hash {S} _.
Arguments status {S} _.
Arguments created_at {S} _.
Arguments lightning_preimage {S} _.
Arguments deposit_tx_hash {S} _.
Arguments error_message {S} _.
Arguments cardano_offramp_tx_hash {S} _.
Arguments refund_address {S} _.
Arguments expires_at {S} _.

Definition set {S S'} (tx : string) (s : S') (pre dep err : option string) (r : t_of S) :
    t_of S' :=
    mk (offramp_id r) (bolt11 r) (payment_hash r) (amount_cbtc r) tx s (created_at r)
       pre dep err (cardano_offramp_tx_hash r) (refund_address r) (expires_at r).

Definition with_status {S S'} (s : S') (r : t_of S) : t_of S' :=
    set (cbtc_tx_hash r) s (lightning_preimage r) (deposit_tx_hash r) (error_message r) r.

Definition with_cbtc_tx {S} (tx : string) (r : t_of S) : t_of S :=
    set tx (status r) (lightning_preimage r) (deposit_tx_hash r) (error_message r) r.

  (** [SET status = s, preimage = COALESCE(?, preimage), ...] *)
Definition coalesce {S S'} (s : S') (pre dep err : option string) (r : t_of S) : t_of S' :=
    set (cbtc_tx_hash r) s (from_option Some (lightning_preimage r) pre)
      (from_option Some (deposit_tx_hash r) dep) (from_option Some (error_message r) err) r.
End Offramp.
Abbreviation OfframpMapping := (Offramp.t_of OfframpStatus.t).
Abbreviation OfframpRow := (Offramp.t_of string).

Definition row_to_swap (r : SwapRow) : SwapMapping :=
  Swap.with_status (SwapStatus.from_str (Swap.status r)) r.

Definition row_to_offramp (r : OfframpRow) : OfframpMapping :=
  Offramp.with_status (OfframpStatus.from_str (Offramp.status r)) r.

(** [UPDATE ... SET f WHERE P]: the updated rows, and how many matched. *)
Definition sql_update {R} (P : R -> bool) (f : R -> R) (rows : list R) : Z * list R :=
  (Z.of_nat (length (List.filter P rows)), map (fun r => if P r then f r else r) rows).

#[global] Arguments sql_update : simpl never.

(** [ORDER BY created_at DESC LIMIT n]; a negative limit is no limit. *)
Definition sql_limit {R} (limit : Z) (rows : list R) : list R :=
  if limit <? 0 then rows else take (Z.to_nat limit) rows.
Definition later_first {R} (key : R -> Z) (a b : R) : Prop := key b <= key a.
#[global] Instance later_first_dec {R} (key : R -> Z) : RelDecision (later_first key).
Proof. intros a b. unfold later_first. apply _. Defined.

Definition sql_order_desc {R} (key : R -> Z) (rows : list R) : list R :=
  merge_sort (later_first key) rows.

(** [SELECT status, COUNT( * ) ... GROUP BY status] *)
Definition sql_group_count {R} (key : R -> string) (rows : list R) : list (string * Z) :=
  (fun s => (s, Z.of_nat (length (List.filter (fun r => String.eqb (key r) s) rows))))
    <$> merge_sort String.le (remove_dups (key <$> rows)).

(** [INSERT] into a table whose rowid is [key]: rows stay ordered by key. *)
Fixpoint insert_by {R} (key : R -> Z) (r : R) (rows : list R) : list R :=
  match rows with
  | [] => [r]
  | x :: xs => if key r <? key x then r :: x :: xs else x :: insert_by key r xs
  end.

(** ** The operations of [SwapDb] *)

Module SwapDb.

Record t := mk {
  swap_mappings : list SwapRow;
  offramp_mappings : list OfframpRow;
}.

Definition on_swaps (f : list SwapRow -> Z * list SwapRow) (db : t) : Z * t :=
  ((f (swap_mappings db)).1, mk (f (swap_mappings db)).2 (offramp_mappings db)).
Definition on_offramps (f : list OfframpRow -> Z * list OfframpRow) (db : t) : Z * t :=
  ((f (offramp_mappings db)).1, mk (swap_mappings db) (f (offramp_mappings db)).2).

Definition has_hash {S} (h : string) (r : Swap.t_of S) : bool :=
  String.eqb (Swap.payment_hash r) h.
Definition has_id {S} (id : Z) (r : Offramp.t_of S) : bool := Offramp.offramp_id r =? id.

(** [CREATE TABLE IF NOT EXISTS]: opening keeps the rows already in the file. *)
Definition open_ (file : option t) : t :=
  match file with Some db => db | None => mk [] [] end.

(** The [INSERT] names eight columns: [cardano_tx_hash] is left [NULL]. *)
Definition insert (m : SwapMapping) (db : t) : bool * t :=
  if existsb (has_hash (Swap.payment_hash m)) (swap_mappings db) then (false, db)
  else (true, mk (swap_mappings db ++
                    [Swap.set_status (SwapStatus.as_str (Swap.status m)) None m])
                 (offramp_mappings db)).

Definition get_by_payment_hash (h : string) (db : t) : option SwapMapping :=
  row_to_swap <$> find (has_hash h) (swap_mappings db).

Definition update_status (h : string) (s : SwapStatus.t) (tx : option string) (db : t) : t :=
  (on_swaps (sql_update (has_hash h) (Swap.set_status (SwapStatus.as_str s) tx)) db).2.

Definition transition_status (h : string) (expected new : SwapStatus.t) (tx : option string)
  (db : t) : bool * t :=
  let '(rows, db') :=
    on_swaps (sql_update
      (fun r => has_hash h r && String.eqb (Swap.status r) (SwapStatus.as_str expected))
      (Swap.set_status (SwapStatus.as_str new) tx)) db in
  (0 <? rows, db').

Definition get_expired_pending (now_ms : Z) (db : t) : list SwapMapping :=
  row_to_swap <$>
    List.filter (fun r => String.eqb (Swap.status r) "pending" && (Swap.expires_at r <? now_ms))
      (swap_mappings db).

(** The [INSERT] names ten columns: the preimage, the deposit hash and the error
    message are left [NULL]. *)
Definition insert_offramp (m : OfframpMapping) (db : t) : bool * t :=
  if existsb (has_id (Offramp.offramp_id m)) (offramp_mappings db) then (false, db)
  else (true, mk (swap_mappings db)
                 (insert_by Offramp.offramp_id
                    (Offramp.set (Offramp.cbtc_tx_hash m)
                       (OfframpStatus.as_str (Offramp.status m)) None None None m)
                    (offramp_mappings db))).

Definition get_offramp_by_id (id : Z) (db : t) : option OfframpMapping :=
  row_to_offramp <$> find (has_id id) (offramp_mappings db).

Definition get_offramp_by_payment_hash (h : string) (db : t) : option OfframpMapping :=
  row_to_offramp <$>
    find (fun r => String.eqb (Offramp.payment_hash r) h) (offramp_mappings db).

Definition get_offramp_by_cbtc_tx (tx : string) (db : t) : option OfframpMapping :=
  row_to_offramp <$>
    find (fun r => String.eqb (Offramp.cbtc_tx_hash r) tx &&
                   negb (String.eqb (Offramp.cbtc_tx_hash r) ""))
      (offramp_mappings db).

Definition update_offramp_status (id : Z) (s : OfframpStatus.t)
  (preimage deposit_tx_hash error_message : option string) (db : t) : t :=
  (on_offramps (sql_update (has_id id)
     (Offramp.coalesce (OfframpStatus.as_str s) preimage deposit_tx_hash error_message)) db).2.

Definition transition_offramp_status (id : Z) (expected new : OfframpStatus.t) (db : t) :
  bool * t :=
  let '(rows, db') :=
    on_offramps (sql_update
      (fun r => has_id id r && String.eqb (Offramp.status r) (OfframpStatus.as_str expected))
      (Offramp.with_status (OfframpStatus.as_str new))) db in
  (0 <? rows, db').

Definition update_offramp_cbtc_tx (id : Z) (tx : string) (db : t) : t :=
  (on_offramps (sql_update (has_id id) (Offramp.with_cbtc_tx tx)) db).2.

Definition transition_offramp_with_cbtc_tx (id : Z) (tx : string)
  (expected new : OfframpStatus.t) (db : t) : bool * t :=
  let '(rows, db') :=
    on_offramps (sql_update
      (fun r => has_id id r && String.eqb (Offramp.status r) (OfframpStatus.as_str expected))
      (fun r => Offramp.with_status (OfframpStatus.as_str new) (Offramp.with_cbtc_tx tx r))) db in
  (0 <? rows, db').

Definition get_expired_offramps (now_ms : Z) (db : t) : list OfframpMapping :=
  row_to_offramp <$>
    List.filter (fun r =>
        (String.eqb (Offramp.status r) "awaiting_deposit" ||
         String.eqb (Offramp.status r) "failed")
        && (0 <? Offramp.expires_at r) && (Offramp.expires_at r <? now_ms))
      (offramp_mappings db).

Definition list_recent_swaps (limit : Z) (db : t) : list SwapMapping :=
  row_to_swap <$> sql_limit limit (sql_order_desc Swap.created_at (swap_mappings db)).

Definition list_recent_offramps (limit : Z) (db : t) : list OfframpMapping :=
  row_to_offramp <$> sql_limit limit (sql_order_desc Offramp.created_at (offramp_mappings db)).

Definition get_swap_counts (db : t) : list (string * Z) :=
  sql_group_count Swap.status (swap_mappings db).

Definition get_offramp_counts (db : t) : list (string * Z) :=
  sql_group_count Offramp.status (offramp_mappings db).

(** [COUNT( * )] over a readable table does not fail, so the [Err] branch of the
    source (an SQLite I/O error) is not reachable here. *)
Definition count_active_swaps (db : t) : result Z string :=
  Ok (Z.of_nat (length (List.filter (fun r =>
        existsb (String.eqb (Swap.status r)) ["pending"; "fulfilling"])
      (swap_mappings db)))).

Definition count_active_offramps (db : t) : result Z string :=
  Ok (Z.of_nat (length (List.filter (fun r =>
        existsb (String.eqb (Offramp.status r))
          ["awaiting_deposit"; "pending_verification"; "paying_lightning"; "depositing_to_pool"])
      (offramp_mappings db)))).

Definition get_by_status (s : SwapStatus.t) (db : t) : list SwapMapping :=
  row_to_swap <$>
    List.filter (fun r => String.eqb (Swap.status r) (SwapStatus.as_str s)) (swap_mappings db).

Definition get_offramps_by_status (s : OfframpStatus.t) (db : t) : list OfframpMapping :=
  row_to_offramp <$>
    List.filter (fun r => String.eqb (Offramp.status r) (OfframpStatus.as_str s))
      (offramp_mappings db).

(** [SELECT COALESCE(MAX(offramp_id), 0) + 1]: SQLite turns an integer overflow
    into a [REAL], which does not read back as an [i64], hence the default [1]. *)
Definition next_offramp_id (db : t) : Z :=
  let m := match Offramp.offramp_id <$> offramp_mappings db with
           | [] => 0
           | id :: ids => foldr Z.max id ids
           end in
  if m + 1 <=? i64_max then m + 1 else 1.

End SwapDb.
