(* ===== verification/MappingFacts.v ===== *)
(** * Facts about SwapDb

    The invariant [db_wf] of the two tables, the lookup equations of every
    operation (database [swapdb] of rewriting hints), and the abstraction of the
    database to a pair of finite maps. *)

From S2P Require Import Prelude Mapping.
Import SwapDb.

Create HintDb swapdb.
Create Rewrite HintDb swapdb.

(** ** Status columns *)

Lemma swap_status_roundtrip s : SwapStatus.from_str (SwapStatus.as_str s) = s.
Proof. by destruct s. Qed.

Lemma offramp_status_roundtrip s : OfframpStatus.from_str (OfframpStatus.as_str s) = s.
Proof. by destruct s. Qed.

#[global] Instance swap_as_str_inj : Inj (=) (=) SwapStatus.as_str.
Proof. intros s s' H. by rewrite <- (swap_status_roundtrip s), H, swap_status_roundtrip. Qed.

#[global] Instance offramp_as_str_inj : Inj (=) (=) OfframpStatus.as_str.
Proof. intros s s' H. by rewrite <- (offramp_status_roundtrip s), H, offramp_status_roundtrip. Qed.

#[export] Hint Rewrite swap_status_roundtrip offramp_status_roundtrip : swapdb.

(** ** The invariant *)

Definition swap_row_ok (r : SwapRow) : Prop := exists s, Swap.status r = SwapStatus.as_str s.
Definition offramp_row_ok (r : OfframpRow) : Prop :=
  exists s, Offramp.status r = OfframpStatus.as_str s.

Record db_wf (db : SwapDb.t) : Prop := {
  wf_swap_keys : NoDup (Swap.payment_hash <$> swap_mappings db);
  wf_swap_status : Forall swap_row_ok (swap_mappings db);
  wf_offramp_keys : StronglySorted Z.lt (Offramp.offramp_id <$> offramp_mappings db);
  wf_offramp_status : Forall offramp_row_ok (offramp_mappings db);
}.

(** ** Generic lemmas on [UPDATE] and [INSERT] *)

Section update.
Context {R : Type}.
Implicit Types (P Q : R -> bool) (rows : list R).

Lemma find_sql_update P Q f rows :
  (forall r, Q (f r) = Q r) ->
  find Q (sql_update P f rows).2 = (fun r => if P r then f r else r) <$> find Q rows.
Proof.
  intros H. unfold sql_update. cbn. rewrite find_map. f_equal. apply find_ext. intros r _. by destruct (P r).
Qed.

Lemma sql_update_key {K} (key : R -> K) P f rows :
  (forall r, key (f r) = key r) -> key <$> (sql_update P f rows).2 = key <$> rows.
Proof.
  intros H. unfold sql_update. cbn.
  induction rows as [|r rows IH]; [done|]. cbn. f_equal; [|exact IH]. by destruct (P r).
Qed.

Lemma sql_update_Forall (T : R -> Prop) P f rows :
  (forall r, T r -> T (f r)) -> Forall T rows -> Forall T (sql_update P f rows).2.
Proof.
  intros H HT. unfold sql_update. cbn. induction HT as [|r rows Hr _ IH]; simpl; constructor; [|done].
  destruct (P r); auto.
Qed.

(** A guarded [UPDATE] on a unique key is a compare-and-set: it matches a row
    exactly when the row of the key satisfies the guard [c], it then acts as the
    unguarded [UPDATE], and otherwise it changes nothing. *)
Lemma sql_update_guarded Q c f rows :
  (forall x y, x ∈ rows -> y ∈ rows -> Q x = true -> Q y = true -> x = y) ->
  let hit := from_option c false (find Q rows) in
  (0 <? (sql_update (fun r => Q r && c r) f rows).1) = hit /\
  (sql_update (fun r => Q r && c r) f rows).2 = if hit then (sql_update Q f rows).2 else rows.
Proof.
  unfold sql_update. cbn. induction rows as [|r rows IH]; intros Hu; [done|]. cbn.
  destruct (Q r) eqn:Qr; cbn.
  - assert (forall x, x ∈ rows -> Q x = true -> x = r) as Hr by (intros x ??; apply Hu; set_solver).
    destruct (c r) eqn:cr; cbn.
    + split; [done|]. f_equal. apply map_ext_in. intros x Hx%list_elem_of_In.
      destruct (Q x) eqn:Qx; [|done]. by rewrite (Hr x Hx Qx), cr.
    + assert (List.filter (fun r => Q r && c r) rows = [] /\
              map (fun r => if Q r && c r then f r else r) rows = rows) as [-> ->]; [|done].
      clear -Hr cr. induction rows as [|y rows IH]; [done|]. cbn.
      destruct (Q y) eqn:Qy; cbn.
      * rewrite (Hr y) by set_solver. rewrite cr. destruct IH as [-> ->]; [set_solver|done].
      * destruct IH as [-> ->]; [set_solver|done].
  - destruct IH as [IH1 IH2]; [intros; apply Hu; set_solver|]. split; [done|].
    rewrite IH2. by destruct (from_option c false (find Q rows)).
Qed.

Lemma find_insert_by (key : R -> Z) Q r rows :
  find Q (insert_by key r rows) = find Q (r :: rows) \/
  (exists x, find Q rows = Some x /\ find Q (insert_by key r rows) = Some x).
Proof.
  induction rows as [|x rows IH]; simpl; [by left|].
  destruct (key r <? key x); [by left|]. simpl. destruct (Q x) eqn:E; [right; eauto|].
  destruct IH as [IH|(y & Hy & IH)]; [left|right; eauto].
  by rewrite IH.
Qed.

Lemma elem_insert_by (key : R -> Z) r rows x :
  x ∈ insert_by key r rows <-> x = r \/ x ∈ rows.
Proof.
  induction rows as [|y rows IH]; simpl; [set_solver|].
  destruct (key r <? key y); [set_solver|]. rewrite elem_of_cons, IH. set_solver.
Qed.

Lemma insert_by_sorted (key : R -> Z) r rows :
  StronglySorted Z.lt (key <$> rows) -> (forall x, x ∈ rows -> key x <> key r) ->
  StronglySorted Z.lt (key <$> insert_by key r rows).
Proof.
  induction rows as [|y rows IH]; intros Hs Hne; cbn in *.
  { repeat constructor. }
  apply StronglySorted_inv in Hs as [Hs Hy].
  destruct (Z.ltb_spec (key r) (key y)) as [Hlt|Hge]; cbn.
  - constructor; [by constructor|]. constructor; [done|].
    eapply Forall_impl; [exact Hy|]. simpl. lia.
  - constructor; [apply IH; [done|set_solver]|].
    apply Forall_fmap, Forall_forall. intros x Hx. apply elem_insert_by in Hx as [->|Hx]; simpl.
    + assert (key y <> key r) by (apply Hne; set_solver). lia.
    + rewrite Forall_fmap, Forall_forall in Hy. by apply Hy.
Qed.
End update.

Lemma NoDup_key_unique {R K} (key : R -> K) (rows : list R) x y :
  NoDup (key <$> rows) -> x ∈ rows -> y ∈ rows -> key x = key y -> x = y.
Proof.
  induction rows as [|r rows IH]; cbn; intros Hnd Hx Hy E; [set_solver|].
  apply NoDup_cons in Hnd as [Hr Hnd].
  apply elem_of_cons in Hx as [->|Hx], Hy as [->|Hy]; try done.
  - exfalso. apply Hr. rewrite E. by apply list_elem_of_fmap_2.
  - exfalso. apply Hr. rewrite <- E. by apply list_elem_of_fmap_2.
  - by apply IH.
Qed.

Lemma StronglySorted_lt_NoDup (l : list Z) : StronglySorted Z.lt l -> NoDup l.
Proof.
  induction 1 as [|x l _ IH Hx]; constructor; [|done].
  intros Hin. rewrite Forall_forall in Hx. specialize (Hx _ Hin). lia.
Qed.

Lemma has_hash_spec {S} h (r : Swap.t_of S) : has_hash h r = true <-> Swap.payment_hash r = h.
Proof. apply String.eqb_eq. Qed.

Lemma has_id_spec {S} id (r : Offramp.t_of S) : has_id id r = true <-> Offramp.offramp_id r = id.
Proof. apply Z.eqb_eq. Qed.

(** ** Lookups after each operation *)

Lemma get_update_status h s tx db h' :
  get_by_payment_hash h' (update_status h s tx db)
  = (if String.eqb h h' then Swap.set_status s tx <$> get_by_payment_hash h db
     else get_by_payment_hash h' db).
Proof.
  unfold get_by_payment_hash, update_status. cbn. rewrite find_sql_update by done.
  destruct (String.eqb_spec h h') as [<-|Hne].
  - destruct (find _ _) as [r|] eqn:E; cbn; [|done].
    apply find_Some_elem in E as [_ Er]. rewrite Er. unfold row_to_swap. cbn.
    by rewrite swap_status_roundtrip.
  - destruct (find (has_hash h') _) as [r|] eqn:E; cbn; [|done].
    apply find_Some_elem in E as [_ Er%has_hash_spec].
    destruct (has_hash h r) eqn:Eh; [apply has_hash_spec in Eh; congruence|done].
Qed.

Lemma insert_conflict m db :
  (insert m db).1 = false <-> is_Some (get_by_payment_hash (Swap.payment_hash m) db).
Proof.
  unfold insert, get_by_payment_hash. rewrite fmap_is_Some.
  destruct (existsb _ _) eqn:E; simpl.
  - split; [intros _|done]. apply existsb_exists in E as (r & Hr & Eq).
    destruct (find _ _) as [x|] eqn:F; [done|].
    eapply find_none in F; [|done]. congruence.
  - split; [done|]. intros [x Hx]. apply find_some in Hx as [Hx Eq].
    assert (existsb (has_hash (Swap.payment_hash m)) (swap_mappings db) = true) as E'
      by (apply existsb_exists; eauto). congruence.
Qed.

Lemma insert_conflict_db m db : (insert m db).1 = false -> (insert m db).2 = db.
Proof. unfold insert. by destruct (existsb _ _). Qed.

Lemma get_insert m db h :
  (insert m db).1 = true ->
  get_by_payment_hash h (insert m db).2
  = (if String.eqb (Swap.payment_hash m) h
     then Some (Swap.set_status (Swap.status m) None m)
     else get_by_payment_hash h db).
Proof.
  intros Hok. assert (get_by_payment_hash (Swap.payment_hash m) db = None) as Hn.
  { apply eq_None_not_Some. rewrite <- insert_conflict, Hok. done. }
  unfold insert in *. destruct (existsb _ _); [done|]. unfold get_by_payment_hash in *.
  cbn [snd swap_mappings]. rewrite find_app.
  destruct (String.eqb_spec (Swap.payment_hash m) h) as [<-|Hne].
  - apply fmap_None in Hn. rewrite Hn. simpl. unfold has_hash. simpl.
    rewrite String.eqb_refl. simpl. unfold row_to_swap. simpl. by rewrite swap_status_roundtrip.
  - destruct (find (has_hash h) _); [done|]. simpl. unfold has_hash. simpl.
    by rewrite (proj2 (String.eqb_neq _ _) Hne).
Qed.

Lemma swap_row_unique db h x y :
  db_wf db -> x ∈ swap_mappings db -> y ∈ swap_mappings db ->
  has_hash h x = true -> has_hash h y = true -> x = y.
Proof.
  intros Hwf Hx Hy Ex%has_hash_spec Ey%has_hash_spec.
  eapply NoDup_key_unique; [apply wf_swap_keys, Hwf|done..|congruence].
Qed.

Lemma swap_row_status db r s :
  db_wf db -> r ∈ swap_mappings db ->
  String.eqb (Swap.status r) (SwapStatus.as_str s) = bool_decide (Swap.status (row_to_swap r) = s).
Proof.
  intros Hwf Hr. pose proof (wf_swap_status db Hwf) as H. rewrite Forall_forall in H.
  destruct (H r Hr) as [s' Hs]. cbn. rewrite Hs, swap_status_roundtrip. by destruct s, s'.
Qed.

(** The guarded [UPDATE] is a compare-and-set on the row of the key. *)
Lemma transition_status_spec h e n tx db :
  db_wf db ->
  transition_status h e n tx db
  = (if decide (Swap.status <$> get_by_payment_hash h db = Some e)
     then (true, update_status h n tx db) else (false, db)).
Proof.
  intros Hwf. unfold transition_status, update_status, get_by_payment_hash, on_swaps. cbn.
  destruct (sql_update_guarded (has_hash h)
    (fun r => String.eqb (Swap.status r) (SwapStatus.as_str e))
    (Swap.set_status (SwapStatus.as_str n) tx) (swap_mappings db)) as [-> ->].
  { intros x y. by apply swap_row_unique. }
  destruct (find _ _) as [r|] eqn:E; cbn; [|by destruct db].
  apply find_Some_elem in E as [Hr _]. rewrite (swap_row_status db) by done.
  case_bool_decide; case_decide; simplify_eq/=; try done; by destruct db.
Qed.

(** *** Offramps *)

(** Any [UPDATE] on the row of an id, read back through a lookup that the update
    preserves. *)
Lemma find_offramp_update id f (Q : OfframpRow -> bool) rows :
  (forall r, Q (f r) = Q r) ->
  row_to_offramp <$> find Q (sql_update (has_id id) f rows).2
  = (fun r => row_to_offramp (if has_id id r then f r else r)) <$> find Q rows.
Proof. intros H. rewrite find_sql_update by done. by destruct (find Q rows). Qed.

Lemma row_to_offramp_coalesce s pre dep err r :
  row_to_offramp (Offramp.coalesce (OfframpStatus.as_str s) pre dep err r)
  = Offramp.coalesce s pre dep err (row_to_offramp r).
Proof. unfold row_to_offramp, Offramp.coalesce. cbn. by rewrite offramp_status_roundtrip. Qed.

Lemma row_to_offramp_with_status s r :
  row_to_offramp (Offramp.with_status (OfframpStatus.as_str s) r)
  = Offramp.with_status s (row_to_offramp r).
Proof. unfold row_to_offramp, Offramp.with_status. cbn. by rewrite offramp_status_roundtrip. Qed.

(** Lookup by id after an [UPDATE] that keeps the ids. *)
Lemma get_offramp_update id f g db id' :
  (forall r, Offramp.offramp_id (f r) = Offramp.offramp_id r) ->
  (forall r, row_to_offramp (f r) = g (row_to_offramp r)) ->
  get_offramp_by_id id' (on_offramps (sql_update (has_id id) f) db).2
  = (if id =? id' then g <$> get_offramp_by_id id db else get_offramp_by_id id' db).
Proof.
  intros Hid Hg. unfold get_offramp_by_id. cbn.
  rewrite find_offramp_update by (intros r; unfold has_id; by rewrite Hid).
  destruct (Z.eqb_spec id id') as [<-|Hne].
  - destruct (find _ _) as [r|] eqn:E; cbn; [|done].
    apply find_Some_elem in E as [_ ->]. by rewrite Hg.
  - destruct (find (has_id id') _) as [r|] eqn:E; cbn; [|done].
    apply find_Some_elem in E as [_ Er%has_id_spec].
    destruct (has_id id r) eqn:Eh; [apply has_id_spec in Eh; congruence|done].
Qed.

(** Lookup by payment hash after an [UPDATE] that keeps the payment hashes. *)
Lemma get_offramp_hash_update id f g db h :
  (forall r, Offramp.payment_hash (f r) = Offramp.payment_hash r) ->
  (forall r, row_to_offramp (f r) = g (row_to_offramp r)) ->
  get_offramp_by_payment_hash h (on_offramps (sql_update (has_id id) f) db).2
  = (fun m => if has_id id m then g m else m) <$> get_offramp_by_payment_hash h db.
Proof.
  intros Hh Hg. unfold get_offramp_by_payment_hash. cbn.
  rewrite find_offramp_update by (intros r; by rewrite Hh).
  destruct (find _ _) as [r|] eqn:E; cbn; [|done]. f_equal.
  change (has_id id (row_to_offramp r)) with (has_id id r). destruct (has_id id r); [apply Hg|done].
Qed.

Lemma get_update_offramp_status id s pre dep err db id' :
  get_offramp_by_id id' (update_offramp_status id s pre dep err db)
  = (if id =? id' then Offramp.coalesce s pre dep err <$> get_offramp_by_id id db
     else get_offramp_by_id id' db).
Proof. apply get_offramp_update; [done|]. intros r. apply row_to_offramp_coalesce. Qed.

Lemma get_hash_update_offramp_status id s pre dep err db h :
  get_offramp_by_payment_hash h (update_offramp_status id s pre dep err db)
  = (fun m => if has_id id m then Offramp.coalesce s pre dep err m else m)
      <$> get_offramp_by_payment_hash h db.
Proof. apply get_offramp_hash_update; [done|]. intros r. apply row_to_offramp_coalesce. Qed.

Lemma get_update_offramp_cbtc_tx id tx db id' :
  get_offramp_by_id id' (update_offramp_cbtc_tx id tx db)
  = (if id =? id' then Offramp.with_cbtc_tx tx <$> get_offramp_by_id id db
     else get_offramp_by_id id' db).
Proof. by apply get_offramp_update. Qed.

Definition set_offramp_status (id : Z) (s : OfframpStatus.t) (db : t) : t :=
  (on_offramps (sql_update (has_id id) (Offramp.with_status (OfframpStatus.as_str s))) db).2.

Definition set_offramp_cbtc_status (id : Z) (tx : string) (s : OfframpStatus.t) (db : t) : t :=
  (on_offramps (sql_update (has_id id) (fun r =>
     Offramp.with_status (OfframpStatus.as_str s) (Offramp.with_cbtc_tx tx r))) db).2.

Lemma get_set_offramp_status id s db id' :
  get_offramp_by_id id' (set_offramp_status id s db)
  = (if id =? id' then Offramp.with_status s <$> get_offramp_by_id id db
     else get_offramp_by_id id' db).
Proof. apply get_offramp_update; [done|]. intros r. apply row_to_offramp_with_status. Qed.

Lemma get_set_offramp_cbtc_status id tx s db id' :
  get_offramp_by_id id' (set_offramp_cbtc_status id tx s db)
  = (if id =? id' then (fun m => Offramp.with_status s (Offramp.with_cbtc_tx tx m))
                         <$> get_offramp_by_id id db
     else get_offramp_by_id id' db).
Proof.
  apply (get_offramp_update id _ (fun m => Offramp.with_status s (Offramp.with_cbtc_tx tx m)));
    [done|]. intros r. by rewrite row_to_offramp_with_status.
Qed.

Lemma offramp_row_unique db id x y :
  db_wf db -> x ∈ offramp_mappings db -> y ∈ offramp_mappings db ->
  has_id id x = true -> has_id id y = true -> x = y.
Proof.
  intros Hwf Hx Hy Ex%has_id_spec Ey%has_id_spec.
  eapply NoDup_key_unique; [apply StronglySorted_lt_NoDup, wf_offramp_keys, Hwf|done..|congruence].
Qed.

Lemma offramp_row_status db r s :
  db_wf db -> r ∈ offramp_mappings db ->
  String.eqb (Offramp.status r) (OfframpStatus.as_str s)
  = bool_decide (Offramp.status (row_to_offramp r) = s).
Proof.
  intros Hwf Hr. pose proof (wf_offramp_status db Hwf) as H. rewrite Forall_forall in H.
  destruct (H r Hr) as [s' Hs]. cbn. rewrite Hs, offramp_status_roundtrip. by destruct s, s'.
Qed.

(** Both guarded transitions on offramps are compare-and-sets. *)
Lemma offramp_cas f id e db :
  db_wf db ->
  (let '(rows, db') :=
     on_offramps (sql_update
       (fun r => has_id id r && String.eqb (Offramp.status r) (OfframpStatus.as_str e)) f) db in
   (0 <? rows, db'))
  = (if decide (Offramp.status <$> get_offramp_by_id id db = Some e)
     then (true, (on_offramps (sql_update (has_id id) f) db).2) else (false, db)).
Proof.
  intros Hwf. unfold get_offramp_by_id, on_offramps. cbn.
  destruct (sql_update_guarded (has_id id)
    (fun r => String.eqb (Offramp.status r) (OfframpStatus.as_str e)) f
    (offramp_mappings db)) as [-> ->].
  { intros x y. by apply offramp_row_unique. }
  destruct (find _ _) as [r|] eqn:E; cbn; [|by destruct db].
  apply find_Some_elem in E as [Hr _]. rewrite (offramp_row_status db) by done.
  case_bool_decide; case_decide; simplify_eq/=; try done; by destruct db.
Qed.

Lemma transition_offramp_status_spec id e n db :
  db_wf db ->
  transition_offramp_status id e n db
  = (if decide (Offramp.status <$> get_offramp_by_id id db = Some e)
     then (true, set_offramp_status id n db) else (false, db)).
Proof. apply offramp_cas. Qed.

Lemma transition_offramp_with_cbtc_tx_spec id tx e n db :
  db_wf db ->
  transition_offramp_with_cbtc_tx id tx e n db
  = (if decide (Offramp.status <$> get_offramp_by_id id db = Some e)
     then (true, set_offramp_cbtc_status id tx n db) else (false, db)).
Proof. apply offramp_cas. Qed.

Lemma insert_offramp_conflict m db :
  (insert_offramp m db).1 = false <-> is_Some (get_offramp_by_id (Offramp.offramp_id m) db).
Proof.
  unfold insert_offramp, get_offramp_by_id. rewrite fmap_is_Some.
  destruct (existsb _ _) eqn:E; simpl.
  - split; [intros _|done]. apply existsb_exists in E as (r & Hr & Eq).
    destruct (find _ _) as [x|] eqn:F; [done|].
    eapply find_none in F; [|done]. congruence.
  - split; [done|]. intros [x Hx]. apply find_some in Hx as [Hx Eq].
    assert (existsb (has_id (Offramp.offramp_id m)) (offramp_mappings db) = true) as E'
      by (apply existsb_exists; eauto). congruence.
Qed.

Lemma insert_offramp_conflict_db m db :
  (insert_offramp m db).1 = false -> (insert_offramp m db).2 = db.
Proof. unfold insert_offramp. by destruct (existsb _ _). Qed.

(** What the [INSERT] stores of a mapping. *)
Definition stored_offramp (m : OfframpMapping) : OfframpMapping :=
  Offramp.set (Offramp.cbtc_tx_hash m) (Offramp.status m) None None None m.

Lemma get_insert_offramp m db id :
  (insert_offramp m db).1 = true ->
  get_offramp_by_id id (insert_offramp m db).2
  = (if Offramp.offramp_id m =? id then Some (stored_offramp m) else get_offramp_by_id id db).
Proof.
  intros Hok. assert (get_offramp_by_id (Offramp.offramp_id m) db = None) as Hn.
  { apply eq_None_not_Some. rewrite <- insert_offramp_conflict, Hok. done. }
  unfold insert_offramp in *. destruct (existsb _ _); [done|]. unfold get_offramp_by_id in *.
  apply fmap_None in Hn. cbn [snd offramp_mappings].
  set (row := Offramp.set _ _ _ _ _ m).
  assert (row_to_offramp row = stored_offramp m) as Hrow.
  { unfold row_to_offramp, row, stored_offramp. cbn. by rewrite offramp_status_roundtrip. }
  destruct (find_insert_by Offramp.offramp_id (has_id id) row (offramp_mappings db))
    as [->|(x & Hx & ->)].
  - cbn. unfold has_id at 1. change (Offramp.offramp_id row) with (Offramp.offramp_id m).
    destruct (Z.eqb_spec (Offramp.offramp_id m) id); [by rewrite <- Hrow|done].
  - destruct (Z.eqb_spec (Offramp.offramp_id m) id) as [<-|]; [|by rewrite Hx].
    congruence.
Qed.

(** ** Every operation preserves the invariant *)

Lemma swap_row_ok_set s tx (r : SwapRow) : swap_row_ok (Swap.set_status (SwapStatus.as_str s) tx r).
Proof. by exists s. Qed.
#[export] Hint Resolve swap_row_ok_set : swapdb.

Lemma wf_open file : (forall db, file = Some db -> db_wf db) -> db_wf (open_ file).
Proof. destruct file as [db|]; [auto|]. intros _. split; constructor. Qed.

Lemma wf_update_swaps P f db :
  (forall r, Swap.payment_hash (f r) = Swap.payment_hash r) -> (forall r, swap_row_ok (f r)) ->
  db_wf db -> db_wf (on_swaps (sql_update P f) db).2.
Proof.
  intros Hk Hf [H1 H2 H3 H4]. split; cbn; try done.
  - by rewrite sql_update_key.
  - apply sql_update_Forall; auto.
Qed.

Lemma wf_update_offramps P f db :
  (forall r, Offramp.offramp_id (f r) = Offramp.offramp_id r) ->
  (forall r, offramp_row_ok r -> offramp_row_ok (f r)) ->
  db_wf db -> db_wf (on_offramps (sql_update P f) db).2.
Proof.
  intros Hk Hf [H1 H2 H3 H4]. split; cbn; try done.
  - by rewrite sql_update_key.
  - apply sql_update_Forall; auto.
Qed.

Lemma wf_update_status h s tx db : db_wf db -> db_wf (update_status h s tx db).
Proof. apply wf_update_swaps; [done|]. intros r. by exists s. Qed.

Lemma wf_transition_status h e n tx db : db_wf db -> db_wf (transition_status h e n tx db).2.
Proof. intros H. apply wf_update_swaps; [done| |done]. intros r. by exists n. Qed.

Lemma wf_insert m db : db_wf db -> db_wf (insert m db).2.
Proof.
  intros [H1 H2 H3 H4]. unfold insert. destruct (existsb _ _) eqn:E; [done|].
  split; cbn; try done.
  - rewrite fmap_app, NoDup_app. split; [done|]. split; [|apply NoDup_singleton].
    intros h (r & Eh & Hr)%list_elem_of_fmap Hs%list_elem_of_singleton. cbn in Hs.
    apply list_elem_of_In in Hr.
    assert (existsb (has_hash (Swap.payment_hash m)) (swap_mappings db) = true) as E'.
    { apply existsb_exists. exists r. split; [done|]. apply has_hash_spec. congruence. }
    congruence.
  - apply Forall_app. split; [done|]. constructor; [by eexists|constructor].
Qed.

Lemma wf_update_offramp_status id s pre dep err db :
  db_wf db -> db_wf (update_offramp_status id s pre dep err db).
Proof. apply wf_update_offramps; [done|]. intros r _. by exists s. Qed.

Lemma wf_transition_offramp_status id e n db :
  db_wf db -> db_wf (transition_offramp_status id e n db).2.
Proof. intros H. apply wf_update_offramps; [done| |done]. intros r _. by exists n. Qed.

Lemma wf_transition_offramp_with_cbtc_tx id tx e n db :
  db_wf db -> db_wf (transition_offramp_with_cbtc_tx id tx e n db).2.
Proof. intros H. apply wf_update_offramps; [done| |done]. intros r _. by exists n. Qed.

Lemma wf_update_offramp_cbtc_tx id tx db : db_wf db -> db_wf (update_offramp_cbtc_tx id tx db).
Proof. apply wf_update_offramps; [done|]. intros r [s Hs]. by exists s. Qed.

Lemma wf_insert_offramp m db : db_wf db -> db_wf (insert_offramp m db).2.
Proof.
  intros [H1 H2 H3 H4]. unfold insert_offramp. destruct (existsb _ _) eqn:E; [done|].
  split; cbn; try done.
  - apply insert_by_sorted; [done|]. intros x Hx%list_elem_of_In Hid. cbn in Hid.
    assert (existsb (has_id (Offramp.offramp_id m)) (offramp_mappings db) = true) as E'.
    { apply existsb_exists. exists x. split; [done|]. by apply has_id_spec. }
    congruence.
  - apply Forall_forall. intros r Hr. apply elem_insert_by in Hr as [->|Hr]; [by eexists|].
    rewrite Forall_forall in H4. auto.
Qed.

#[export] Hint Resolve wf_open wf_update_status wf_transition_status wf_insert
  wf_update_offramp_status wf_transition_offramp_status wf_transition_offramp_with_cbtc_tx
  wf_update_offramp_cbtc_tx wf_insert_offramp : swapdb.

(** ** The database as a pair of finite maps *)

Definition swaps_map (db : t) : gmap string SwapMapping :=
  list_to_map ((fun r => (Swap.payment_hash r, row_to_swap r)) <$> swap_mappings db).

Definition offramps_map (db : t) : gmap Z OfframpMapping :=
  list_to_map ((fun r => (Offramp.offramp_id r, row_to_offramp r)) <$> offramp_mappings db).

Lemma lookup_swaps_map db h : swaps_map db !! h = get_by_payment_hash h db.
Proof.
  unfold swaps_map, get_by_payment_hash. induction (swap_mappings db) as [|r rows IH]; cbn; [done|].
  rewrite lookup_insert, IH. destruct (has_hash h r) eqn:E.
  - apply has_hash_spec in E. by rewrite decide_True.
  - rewrite decide_False; [done|]. intros E'%has_hash_spec. congruence.
Qed.

Lemma lookup_offramps_map db id : offramps_map db !! id = get_offramp_by_id id db.
Proof.
  unfold offramps_map, get_offramp_by_id.
  induction (offramp_mappings db) as [|r rows IH]; cbn; [done|].
  rewrite lookup_insert, IH. destruct (has_id id r) eqn:E.
  - apply has_id_spec in E. by rewrite decide_True.
  - rewrite decide_False; [done|]. intros E'%has_id_spec. congruence.
Qed.

(** An operation on one table leaves the map of the other alone. *)
Lemma swaps_map_on_offramps f db : swaps_map (on_offramps f db).2 = swaps_map db.
Proof. done. Qed.

Lemma elem_get_swap db r :
  db_wf db -> r ∈ swap_mappings db -> get_by_payment_hash (Swap.payment_hash r) db = Some (row_to_swap r).
Proof.
  intros Hwf Hr. unfold get_by_payment_hash.
  destruct (find _ _) as [x|] eqn:E.
  - apply find_Some_elem in E as [Hx Ex].
    rewrite (swap_row_unique db (Swap.payment_hash r) x r); try done. by apply has_hash_spec.
  - rewrite find_None_elem in E. specialize (E r Hr). unfold has_hash in E.
    by rewrite String.eqb_refl in E.
Qed.

Lemma elem_get_offramp db r :
  db_wf db -> r ∈ offramp_mappings db ->
  get_offramp_by_id (Offramp.offramp_id r) db = Some (row_to_offramp r).
Proof.
  intros Hwf Hr. unfold get_offramp_by_id.
  destruct (find _ _) as [x|] eqn:E.
  - apply find_Some_elem in E as [Hx Ex].
    rewrite (offramp_row_unique db (Offramp.offramp_id r) x r); try done. by apply has_id_spec.
  - rewrite find_None_elem in E. specialize (E r Hr). unfold has_id in E.
    by rewrite Z.eqb_refl in E.
Qed.

Lemma get_swap_elem db h m :
  get_by_payment_hash h db = Some m ->
  exists r, r ∈ swap_mappings db /\ m = row_to_swap r /\ Swap.payment_hash m = h.
Proof.
  intros (r & E & ->)%fmap_Some. apply find_Some_elem in E as [Hr Er%has_hash_spec]. eauto.
Qed.

Lemma get_offramp_elem db id m :
  get_offramp_by_id id db = Some m ->
  exists r, r ∈ offramp_mappings db /\ m = row_to_offramp r /\ Offramp.offramp_id m = id.
Proof.
  intros (r & E & ->)%fmap_Some. apply find_Some_elem in E as [Hr Er%has_id_spec]. eauto.
Qed.

(** A row found by payment hash is the row of its id. *)
Lemma get_hash_get_id db h m :
  db_wf db -> get_offramp_by_payment_hash h db = Some m ->
  get_offramp_by_id (Offramp.offramp_id m) db = Some m.
Proof.
  intros Hwf (r & E & ->)%fmap_Some. apply find_Some_elem in E as [Hr _].
  by apply elem_get_offramp.
Qed.

Lemma wf_set_offramp_status id s db : db_wf db -> db_wf (set_offramp_status id s db).
Proof. apply wf_update_offramps; [done|]. intros r _. by exists s. Qed.
Lemma wf_set_offramp_cbtc_status id tx s db :
  db_wf db -> db_wf (set_offramp_cbtc_status id tx s db).
Proof. apply wf_update_offramps; [done|]. intros r _. by exists s. Qed.
#[export] Hint Resolve wf_set_offramp_status wf_set_offramp_cbtc_status : swapdb.

(** ** Changes of one row

    [swap_row h m db db'] and [offramp_row id m db db']: from [db] to [db'] the only
    row of the table that may have changed is the named one, and it is now [m]. *)
Definition swap_row (h : string) (m : SwapMapping) (db db' : t) : Prop :=
  get_by_payment_hash h db' = Some m /\
  forall h', h' <> h -> get_by_payment_hash h' db' = get_by_payment_hash h' db.

Definition offramp_row (id : Z) (m : OfframpMapping) (db db' : t) : Prop :=
  get_offramp_by_id id db' = Some m /\
  forall id', id' <> id -> get_offramp_by_id id' db' = get_offramp_by_id id' db.

Lemma swap_row_refl h m db : get_by_payment_hash h db = Some m -> swap_row h m db db.
Proof. done. Qed.

Lemma swap_row_update h m db db' st tx :
  swap_row h m db db' -> swap_row h (Swap.set_status st tx m) db (update_status h st tx db').
Proof.
  intros [H1 H2]. split.
  - by rewrite get_update_status, String.eqb_refl, H1.
  - intros h' Hne. rewrite get_update_status, (proj2 (String.eqb_neq _ _) (not_eq_sym Hne)). auto.
Qed.

Lemma offramp_row_refl id m db : get_offramp_by_id id db = Some m -> offramp_row id m db db.
Proof. done. Qed.

Lemma offramp_row_step id m db db' db'' f :
  (forall j, get_offramp_by_id j db'' = if id =? j then f <$> get_offramp_by_id id db'
                                        else get_offramp_by_id j db') ->
  offramp_row id m db db' -> offramp_row id (f m) db db''.
Proof.
  intros E [H1 H2]. split.
  - by rewrite E, Z.eqb_refl, H1.
  - intros id' Hne. rewrite E, (proj2 (Z.eqb_neq _ _) (not_eq_sym Hne)). auto.
Qed.

Lemma offramp_row_update id m db db' st pre dep err :
  offramp_row id m db db' ->
  offramp_row id (Offramp.coalesce st pre dep err m) db (update_offramp_status id st pre dep err db').
Proof. apply offramp_row_step. intros j. apply get_update_offramp_status. Qed.

Lemma offramp_row_set id m db db' st :
  offramp_row id m db db' ->
  offramp_row id (Offramp.with_status st m) db (set_offramp_status id st db').
Proof. apply offramp_row_step. intros j. apply get_set_offramp_status. Qed.

Lemma offramp_row_set_cbtc id m db db' tx st :
  offramp_row id m db db' ->
  offramp_row id (Offramp.with_status st (Offramp.with_cbtc_tx tx m)) db
    (set_offramp_cbtc_status id tx st db').
Proof.
  apply (offramp_row_step _ _ _ _ _ (fun m => Offramp.with_status st (Offramp.with_cbtc_tx tx m))).
  intros j. apply get_set_offramp_cbtc_status.
Qed.
#[export] Hint Resolve swap_row_refl swap_row_update offramp_row_refl offramp_row_update
  offramp_row_set offramp_row_set_cbtc : swapdb.

#[global] Arguments set_offramp_status : simpl never.
#[global] Arguments set_offramp_cbtc_status : simpl never.
#[global] Arguments SwapDb.get_by_payment_hash : simpl never.
#[global] Arguments SwapDb.update_status : simpl never.
#[global] Arguments SwapDb.transition_status : simpl never.
#[global] Arguments SwapDb.insert : simpl never.
#[global] Arguments SwapDb.get_offramp_by_id : simpl never.
#[global] Arguments SwapDb.get_offramp_by_payment_hash : simpl never.
#[global] Arguments SwapDb.get_offramp_by_cbtc_tx : simpl never.
#[global] Arguments SwapDb.update_offramp_status : simpl never.
#[global] Arguments SwapDb.transition_offramp_status : simpl never.
#[global] Arguments SwapDb.transition_offramp_with_cbtc_tx : simpl never.
#[global] Arguments SwapDb.insert_offramp : simpl never.
#[global] Arguments SwapDb.update_offramp_cbtc_tx : simpl never.
