(* ===== verification/MappingSpec.v ===== *)
(** * SwapDb against its specification

    The contract of [SwapDb]: two finite maps, from payment hash to swap and from
    offramp id to offramp, with compare-and-set transitions.  [DbOp] is the list of
    its state-changing statements, [apply_op] runs one on the tables and [spec_op]
    on the maps; the refinement theorem relates the two over any sequence. *)

From S2P Require Import Prelude Mapping MappingFacts.
Import SwapDb.

Inductive DbOp :=
| OpInsert (m : SwapMapping)
| OpUpdateStatus (h : string) (s : SwapStatus.t) (tx : option string)
| OpTransitionStatus (h : string) (expected new : SwapStatus.t) (tx : option string)
| OpInsertOfframp (m : OfframpMapping)
| OpUpdateOfframpStatus (id : Z) (s : OfframpStatus.t) (pre dep err : option string)
| OpTransitionOfframp (id : Z) (expected new : OfframpStatus.t)
| OpUpdateOfframpCbtcTx (id : Z) (tx : string)
| OpTransitionOfframpCbtcTx (id : Z) (tx : string) (expected new : OfframpStatus.t).

(** The answer is [true] where the statement returns nothing. *)
Definition apply_op (o : DbOp) (db : t) : bool * t :=
  match o with
  | OpInsert m => insert m db
  | OpUpdateStatus h s tx => (true, update_status h s tx db)
  | OpTransitionStatus h e n tx => transition_status h e n tx db
  | OpInsertOfframp m => insert_offramp m db
  | OpUpdateOfframpStatus id s pre dep err => (true, update_offramp_status id s pre dep err db)
  | OpTransitionOfframp id e n => transition_offramp_status id e n db
  | OpUpdateOfframpCbtcTx id tx => (true, update_offramp_cbtc_tx id tx db)
  | OpTransitionOfframpCbtcTx id tx e n => transition_offramp_with_cbtc_tx id tx e n db
  end.

Fixpoint apply_ops (os : list DbOp) (db : t) : list bool * t :=
  match os with
  | [] => ([], db)
  | o :: os => let '(b, db) := apply_op o db in
               let '(bs, db) := apply_ops os db in (b :: bs, db)
  end.

(** ** The specification *)

Record spec := mkSpec {
  swaps : gmap string SwapMapping;
  offramps : gmap Z OfframpMapping;
}.

(** Compare-and-set of the row at [k]. *)
Definition cas {K A} `{Countable K} (k : K) (guard : A -> bool) (f : A -> A) (m : gmap K A) :
  bool * gmap K A :=
  match m !! k with
  | Some a => if guard a then (true, <[k := f a]> m) else (false, m)
  | None => (false, m)
  end.

(** Insertion of a fresh key. *)
Definition add {K A} `{Countable K} (k : K) (a : A) (m : gmap K A) : bool * gmap K A :=
  match m !! k with Some _ => (false, m) | None => (true, <[k := a]> m) end.

Definition on_swap_spec (f : gmap string SwapMapping -> bool * gmap string SwapMapping)
  (sp : spec) : bool * spec :=
  ((f (swaps sp)).1, mkSpec (f (swaps sp)).2 (offramps sp)).
Definition on_offramp_spec (f : gmap Z OfframpMapping -> bool * gmap Z OfframpMapping)
  (sp : spec) : bool * spec :=
  ((f (offramps sp)).1, mkSpec (swaps sp) (f (offramps sp)).2).

Definition spec_op (o : DbOp) (sp : spec) : bool * spec :=
  match o with
  | OpInsert m =>
      on_swap_spec (add (Swap.payment_hash m) (Swap.set_status (Swap.status m) None m)) sp
  | OpUpdateStatus h s tx =>
      on_swap_spec (fun m => (true, alter (Swap.set_status s tx) h m)) sp
  | OpTransitionStatus h e n tx =>
      on_swap_spec (cas h (fun m => bool_decide (Swap.status m = e)) (Swap.set_status n tx)) sp
  | OpInsertOfframp m =>
      on_offramp_spec (add (Offramp.offramp_id m) (stored_offramp m)) sp
  | OpUpdateOfframpStatus id s pre dep err =>
      on_offramp_spec (fun m => (true, alter (Offramp.coalesce s pre dep err) id m)) sp
  | OpTransitionOfframp id e n =>
      on_offramp_spec (cas id (fun m => bool_decide (Offramp.status m = e)) (Offramp.with_status n)) sp
  | OpUpdateOfframpCbtcTx id tx =>
      on_offramp_spec (fun m => (true, alter (Offramp.with_cbtc_tx tx) id m)) sp
  | OpTransitionOfframpCbtcTx id tx e n =>
      on_offramp_spec (cas id (fun m => bool_decide (Offramp.status m = e))
        (fun m => Offramp.with_status n (Offramp.with_cbtc_tx tx m))) sp
  end.

Fixpoint spec_ops (os : list DbOp) (sp : spec) : list bool * spec :=
  match os with
  | [] => ([], sp)
  | o :: os => let '(b, sp) := spec_op o sp in
               let '(bs, sp) := spec_ops os sp in (b :: bs, sp)
  end.

(** The abstraction function. *)
Definition abs (db : t) : spec := mkSpec (swaps_map db) (offramps_map db).

(** ** The simulation *)

Lemma apply_op_wf o db : db_wf db -> db_wf (apply_op o db).2.
Proof. destruct o; cbn [apply_op snd]; auto with swapdb. Qed.

Lemma apply_ops_wf os db : db_wf db -> db_wf (apply_ops os db).2.
Proof.
  revert db. induction os as [|o os IH]; intros db Hwf; cbn; [done|].
  pose proof (apply_op_wf o db Hwf) as H1. destruct (apply_op o db) as [b db1].
  specialize (IH db1 H1). by destruct (apply_ops os db1).
Qed.

(** An update of the row at [k] is [alter] on the map. *)
Lemma alter_ext {K A} `{Countable K} (f : A -> A) k (m m' : gmap K A) :
  (forall j, m' !! j = if decide (k = j) then f <$> m !! k else m !! j) -> m' = alter f k m.
Proof.
  intros E. apply map_eq. intros j. rewrite E. destruct (decide (k = j)) as [<-|Hne].
  - by rewrite lookup_alter_eq.
  - by rewrite lookup_alter_ne.
Qed.

Lemma cas_alter {K A B} `{Countable K} `{EqDecision B} (k : K) (g : A -> B) e f (m : gmap K A) :
  cas k (fun a => bool_decide (g a = e)) f m
  = if decide (g <$> m !! k = Some e) then (true, alter f k m) else (false, m).
Proof.
  unfold cas. destruct (m !! k) as [a|] eqn:E; cbn; [|done].
  destruct (decide _) as [[= He]|Hne]; case_bool_decide; try congruence.
  f_equal. apply alter_ext. intros j. destruct (decide (k = j)) as [<-|].
  - by rewrite lookup_insert_eq, E.
  - by rewrite lookup_insert_ne.
Qed.

Lemma swaps_map_update h s tx db :
  swaps_map (update_status h s tx db) = alter (Swap.set_status s tx) h (swaps_map db).
Proof.
  apply alter_ext. intros j. rewrite !lookup_swaps_map, get_update_status.
  destruct (String.eqb_spec h j); by case_decide.
Qed.

Lemma offramps_map_alter f id db db' :
  (forall j, get_offramp_by_id j db' = if id =? j then f <$> get_offramp_by_id id db
                                        else get_offramp_by_id j db) ->
  offramps_map db' = alter f id (offramps_map db).
Proof.
  intros E. apply alter_ext. intros j. rewrite !lookup_offramps_map, E.
  destruct (Z.eqb_spec id j); by case_decide.
Qed.

Lemma swaps_map_insert m db :
  abs (insert m db).2 = (spec_op (OpInsert m) (abs db)).2 /\
  (insert m db).1 = (spec_op (OpInsert m) (abs db)).1.
Proof.
  cbn. unfold add. rewrite lookup_swaps_map. pose proof (insert_conflict m db) as Hc.
  destruct (get_by_payment_hash _ db) as [x|] eqn:E; cbn.
  - assert ((insert m db).1 = false) as Hf by (by apply Hc).
    by rewrite (insert_conflict_db _ _ Hf), Hf.
  - destruct (insert m db).1 eqn:Hok; [|by destruct Hc as [[? ?] _]]. split; [|done].
    unfold abs. f_equal; [|unfold insert; by destruct (existsb _ _)].
    apply map_eq. intros j. rewrite lookup_swaps_map, get_insert by done. rewrite lookup_insert, lookup_swaps_map.
    destruct (String.eqb_spec (Swap.payment_hash m) j); by case_decide.
Qed.

Lemma offramps_map_insert m db :
  abs (insert_offramp m db).2 = (spec_op (OpInsertOfframp m) (abs db)).2 /\
  (insert_offramp m db).1 = (spec_op (OpInsertOfframp m) (abs db)).1.
Proof.
  cbn. unfold add. rewrite lookup_offramps_map. pose proof (insert_offramp_conflict m db) as Hc.
  destruct (get_offramp_by_id _ db) as [x|] eqn:E; cbn.
  - assert ((insert_offramp m db).1 = false) as Hf by (by apply Hc).
    by rewrite (insert_offramp_conflict_db _ _ Hf), Hf.
  - destruct (insert_offramp m db).1 eqn:Hok; [|by destruct Hc as [[? ?] _]]. split; [|done].
    unfold abs. f_equal; [unfold insert_offramp; by destruct (existsb _ _)|].
    apply map_eq. intros j. rewrite lookup_offramps_map, get_insert_offramp by done.
    rewrite lookup_insert, lookup_offramps_map.
    destruct (Z.eqb_spec (Offramp.offramp_id m) j); by case_decide.
Qed.

Lemma apply_op_refines o db :
  db_wf db ->
  (apply_op o db).1 = (spec_op o (abs db)).1 /\ abs (apply_op o db).2 = (spec_op o (abs db)).2.
Proof.
  intros Hwf. destruct o; cbn [apply_op].
  - destruct (swaps_map_insert m db). done.
  - split; [done|]. unfold abs. cbn. by rewrite swaps_map_update.
  - cbn. rewrite cas_alter, lookup_swaps_map, transition_status_spec by done.
    case_decide; [|done]. split; [done|]. unfold abs. cbn. by rewrite swaps_map_update.
  - destruct (offramps_map_insert m db). done.
  - split; [done|]. apply (f_equal (mkSpec _)), offramps_map_alter. intros j. apply get_update_offramp_status.
  - cbn. rewrite cas_alter, lookup_offramps_map, transition_offramp_status_spec by done.
    case_decide; [|done]. split; [done|].
    apply (f_equal (mkSpec _)), offramps_map_alter. intros j. apply get_set_offramp_status.
  - split; [done|]. apply (f_equal (mkSpec _)), offramps_map_alter. intros j. apply get_update_offramp_cbtc_tx.
  - cbn. rewrite cas_alter, lookup_offramps_map, transition_offramp_with_cbtc_tx_spec by done.
    case_decide; [|done]. split; [done|].
    apply (f_equal (mkSpec _)), offramps_map_alter. intros j. apply get_set_offramp_cbtc_status.
Qed.

(** C3: over any sequence of the state-changing operations of [SwapDb], run on
    well-formed tables, every answer is the one of the specification on finite
    maps, the tables stay well formed, and they represent the specification's
    maps at the end. *)
Theorem swap_db_refines os db :
  db_wf db ->
  (apply_ops os db).1 = (spec_ops os (abs db)).1 /\
  abs (apply_ops os db).2 = (spec_ops os (abs db)).2 /\ db_wf (apply_ops os db).2.
Proof.
  revert db. induction os as [|o os IH]; intros db Hwf; cbn; [done|].
  pose proof (apply_op_wf o db Hwf) as H1. destruct (apply_op_refines o db Hwf) as [E1 E2].
  destruct (apply_op o db) as [b db1], (spec_op o (abs db)) as [b' sp1]. cbn in *. subst.
  destruct (IH db1 H1) as (E3 & E4 & H2).
  destruct (apply_ops os db1), (spec_ops os (abs db1)). cbn in *. subst. auto.
Qed.

(** ** Queries *)

Lemma elem_filter_swaps (P : SwapRow -> bool) (Q : SwapMapping -> Prop) db m :
  db_wf db -> (forall r, r ∈ swap_mappings db -> P r = true <-> Q (row_to_swap r)) ->
  m ∈ (row_to_swap <$> List.filter P (swap_mappings db)) <->
  get_by_payment_hash (Swap.payment_hash m) db = Some m /\ Q m.
Proof.
  intros Hwf HQ. rewrite list_elem_of_fmap. split.
  - intros (r & -> & Hr). apply list_elem_of_In, filter_In in Hr as [Hr HP].
    apply list_elem_of_In in Hr. split; [by apply elem_get_swap|by apply HQ].
  - intros [(r & Hr & E & _)%get_swap_elem Hm]. exists r. split; [done|].
    apply list_elem_of_In, filter_In. split; [by apply list_elem_of_In|]. apply HQ; congruence.
Qed.

Lemma elem_filter_offramps (P : OfframpRow -> bool) (Q : OfframpMapping -> Prop) db m :
  db_wf db -> (forall r, r ∈ offramp_mappings db -> P r = true <-> Q (row_to_offramp r)) ->
  m ∈ (row_to_offramp <$> List.filter P (offramp_mappings db)) <->
  get_offramp_by_id (Offramp.offramp_id m) db = Some m /\ Q m.
Proof.
  intros Hwf HQ. rewrite list_elem_of_fmap. split.
  - intros (r & -> & Hr). apply list_elem_of_In, filter_In in Hr as [Hr HP].
    apply list_elem_of_In in Hr. split; [by apply elem_get_offramp|by apply HQ].
  - intros [(r & Hr & E & _)%get_offramp_elem Hm]. exists r. split; [done|].
    apply list_elem_of_In, filter_In. split; [by apply list_elem_of_In|]. apply HQ; congruence.
Qed.

Lemma get_by_status_spec s db m :
  db_wf db ->
  m ∈ get_by_status s db <->
  get_by_payment_hash (Swap.payment_hash m) db = Some m /\ Swap.status m = s.
Proof.
  intros Hwf. apply (elem_filter_swaps _ (fun m => Swap.status m = s)); [done|].
  intros r Hr. rewrite (swap_row_status db) by done. apply bool_decide_eq_true.
Qed.

Lemma get_offramps_by_status_spec s db m :
  db_wf db ->
  m ∈ get_offramps_by_status s db <->
  get_offramp_by_id (Offramp.offramp_id m) db = Some m /\ Offramp.status m = s.
Proof.
  intros Hwf. apply (elem_filter_offramps _ (fun m => Offramp.status m = s)); [done|].
  intros r Hr. rewrite (offramp_row_status db) by done. apply bool_decide_eq_true.
Qed.

Lemma get_expired_pending_spec now db m :
  db_wf db ->
  m ∈ get_expired_pending now db <->
  get_by_payment_hash (Swap.payment_hash m) db = Some m /\
  Swap.status m = SwapStatus.Pending /\ Swap.expires_at m < now.
Proof.
  intros Hwf. apply (elem_filter_swaps _
    (fun m => Swap.status m = SwapStatus.Pending /\ Swap.expires_at m < now)); [done|].
  intros r Hr. rewrite andb_true_iff, Z.ltb_lt.
  pose proof (swap_row_status db r SwapStatus.Pending Hwf Hr) as E. cbn [SwapStatus.as_str] in E.
  by rewrite E, bool_decide_eq_true.
Qed.

Lemma get_expired_offramps_spec now db m :
  db_wf db ->
  m ∈ get_expired_offramps now db <->
  get_offramp_by_id (Offramp.offramp_id m) db = Some m /\
  (Offramp.status m = OfframpStatus.AwaitingDeposit \/ Offramp.status m = OfframpStatus.Failed) /\
  0 < Offramp.expires_at m < now.
Proof.
  intros Hwf. apply (elem_filter_offramps _ (fun m =>
    (Offramp.status m = OfframpStatus.AwaitingDeposit \/ Offramp.status m = OfframpStatus.Failed) /\
    0 < Offramp.expires_at m < now)); [done|].
  intros r Hr. rewrite !andb_true_iff, orb_true_iff, !Z.ltb_lt.
  pose proof (offramp_row_status db r OfframpStatus.AwaitingDeposit Hwf Hr) as E1.
  pose proof (offramp_row_status db r OfframpStatus.Failed Hwf Hr) as E2.
  cbn [OfframpStatus.as_str] in E1, E2. rewrite E1, E2, !bool_decide_eq_true. cbn. tauto.
Qed.

(** The two expiry queries of the background monitors return exactly the rows
    they are for: the pending swaps whose expiry has passed, and the offramps that
    await a deposit or have failed, with a positive expiry that has passed. *)
Lemma expiry_queries_exact now db :
  db_wf db ->
  (forall m, m ∈ get_expired_pending now db <->
     exists h, get_by_payment_hash h db = Some m /\
       Swap.status m = SwapStatus.Pending /\ Swap.expires_at m < now) /\
  (forall m, m ∈ get_expired_offramps now db <->
     exists id, get_offramp_by_id id db = Some m /\
       (Offramp.status m = OfframpStatus.AwaitingDeposit \/
        Offramp.status m = OfframpStatus.Failed) /\
       0 < Offramp.expires_at m < now).
Proof.
  intros Hwf. split; intros m.
  - rewrite get_expired_pending_spec by done. split; [by eauto|].
    intros (h & Hg & ?). destruct (get_swap_elem _ _ _ Hg) as (_ & _ & _ & ->). done.
  - rewrite get_expired_offramps_spec by done. split; [by eauto|].
    intros (id & Hg & ?). destruct (get_offramp_elem _ _ _ Hg) as (_ & _ & _ & ->). done.
Qed.

Lemma foldr_max_ge (d z : Z) zs : z ∈ (d :: zs) -> z <= foldr Z.max d zs.
Proof.
  revert z. induction zs as [|x zs IH]; intros z Hz; cbn.
  - apply list_elem_of_singleton in Hz as ->. lia.
  - rewrite !elem_of_cons in Hz. destruct Hz as [->|[->|Hz]]; [|lia|].
    + specialize (IH d ltac:(set_solver)). lia.
    + specialize (IH z ltac:(set_solver)). lia.
Qed.

(** [next_offramp_id] is a fresh id as long as the table holds no id equal to
    the largest [i64]; when it does, the query overflows into a [REAL] and the
    default [1] is returned, whether or not it is taken. *)
Lemma next_offramp_id_fresh db :
  db_wf db -> (forall r, r ∈ offramp_mappings db -> Offramp.offramp_id r < i64_max) ->
  get_offramp_by_id (next_offramp_id db) db = None.
Proof.
  intros Hwf Hmax. destruct (get_offramp_by_id _ db) as [m|] eqn:E; [|done].
  apply get_offramp_elem in E as (r & Hr & -> & E). change (Offramp.offramp_id r = next_offramp_id db) in E.
  exfalso. unfold next_offramp_id in E. set (ids := Offramp.offramp_id <$> offramp_mappings db) in *.
  assert (Offramp.offramp_id r ∈ ids) as Hin by (by apply list_elem_of_fmap_2).
  assert (forall z, z ∈ ids -> z < i64_max) as Hids.
  { intros z (x & -> & Hx)%list_elem_of_fmap. by apply Hmax. }
  destruct ids as [|d zs]; [by apply elem_of_nil in Hin|].
  pose proof (foldr_max_ge d _ zs Hin) as Hle.
  assert (foldr Z.max d zs ∈ d :: zs) as Hm.
  { clear. induction zs as [|x zs IH]; cbn; [set_solver|].
    destruct (Z.max_spec x (foldr Z.max d zs)) as [[_ ->]|[_ ->]]; set_solver. }
  apply Hids in Hm. destruct (_ <=? _) eqn:Ele; lia.
Qed.

(** ** A concrete database *)

Definition demo_swap : SwapMapping :=
  Swap.mk "aa" 7 5000 "addr_test1user" SwapStatus.Pending 1000 9000 None (Some "create").
Definition demo_offramp : OfframpMapping :=
  Offramp.mk 3 "lnbcrt1" "bb" 4000 "" OfframpStatus.AwaitingDeposit 1000 None None None
    (Some "create") "pkh" 9000.
Definition demo_db : t :=
  (apply_ops [OpInsert demo_swap; OpInsertOfframp demo_offramp] (open_ None)).2.

Lemma demo_db_wf : db_wf demo_db.
Proof. apply apply_ops_wf, wf_open. done. Qed.

(** Two racing transitions on the demo database: the second one loses. *)
Definition demo_race : list DbOp :=
  [OpTransitionStatus "aa" SwapStatus.Pending SwapStatus.Fulfilling None;
   OpTransitionStatus "aa" SwapStatus.Pending SwapStatus.Fulfilling None;
   OpTransitionOfframp 3 OfframpStatus.AwaitingDeposit OfframpStatus.PendingVerification].

Lemma swap_db_refines_witness :
  (apply_ops demo_race demo_db).1 = [true; false; true] /\
  (apply_ops demo_race demo_db).1 = (spec_ops demo_race (abs demo_db)).1.
Proof.
  split; [vm_compute; reflexivity|]. apply (swap_db_refines demo_race demo_db). exact demo_db_wf.
Defined.

Lemma expiry_queries_exact_witness :
  demo_swap ∈ get_expired_pending 9001 demo_db /\ get_expired_pending 9000 demo_db = [].
Proof.
  split; [|vm_compute; reflexivity].
  apply (expiry_queries_exact 9001 demo_db demo_db_wf). exists "aa"%string.
  split; [vm_compute; reflexivity|]. split; [reflexivity|]. cbn. lia.
Defined.

Lemma next_offramp_id_fresh_witness :
  next_offramp_id demo_db = 4 /\ get_offramp_by_id (next_offramp_id demo_db) demo_db = None.
Proof.
  split; [vm_compute; reflexivity|]. apply (next_offramp_id_fresh demo_db demo_db_wf).
  intros r Hr. change (r ∈ [Offramp.set "" "awaiting_deposit"%string None None None demo_offramp]) in Hr.
  apply list_elem_of_singleton in Hr as ->. vm_compute. reflexivity.
Defined.
