(* ===== verification/Types.v ===== *)
(** * Payment bookkeeping types ([src/src/types.rs])

    Hashes, preimages, secrets and payment ids are byte strings, kept as lists of
    [Z].  The type aliases of the file, which only instantiate LDK's generics,
    have no counterpart. *)

From S2P Require Import Prelude.

Abbreviation bytes := (list Z).

Module HTLCStatus.
Inductive t := Pending | Succeeded | Failed.

#[global] Instance eq_dec : EqDecision t.
Proof. solve_decision. Defined.
End HTLCStatus.

(** [MillisatAmount(pub Option<u64>)] *)
Definition MillisatAmount : Type := option Z.

(** [impl Display for MillisatAmount] *)
Definition millisat_display (a : MillisatAmount) : string :=
  match a with Some amt => pretty amt | None => "unknown" end.

Record PaymentInfo := mkPaymentInfo {
  preimage : option bytes;
  secret : option bytes;
  status : HTLCStatus.t;
  amt_msat : MillisatAmount;
}.

#[global] Instance PaymentInfo_eq_dec : EqDecision PaymentInfo.
Proof. solve_decision. Defined.

(** Both storages are one [HashMap]; the inbound one is keyed by payment hash, the
    outbound one by payment id. *)
Abbreviation InboundPaymentInfoStorage := (gmap bytes PaymentInfo).
Abbreviation OutboundPaymentInfoStorage := (gmap bytes PaymentInfo).

Definition set_payment_status (s : HTLCStatus.t) (p : PaymentInfo) : PaymentInfo :=
  mkPaymentInfo (preimage p) (secret p) s (amt_msat p).
