(* ===== verification/Convert.v ===== *)
(** * Answers of bitcoind ([src/src/convert.rs])

    The JSON values bitcoind answers with and the conversions into the structs the
    client works with.  A conversion runs inside [RpcClient::call_method]; its own
    [unwrap]s panic, which is [None] here, while [Err] is an error the caller sees. *)

From S2P Require Import Prelude Effects HexUtils Text Fees Args Types.
From Stdlib Require Import SpecFloat.

(** ** JSON values ([serde_json::Value])

    A number is an integer between [i64::MIN] and [u64::MAX], or an [f64]; an object is
    the list of its members. *)

Inductive Json :=
| JNull
| JBool (b : bool)
| JInt (z : Z)
| JFloat (x : f64)
| JStr (s : string)
| JArr (l : list Json)
| JObj (members : list (string * Json)).

Fixpoint assoc {A} (k : string) (l : list (string * A)) : option A :=
  match l with
  | [] => None
  | (k', a) :: l => if String.eqb k k' then Some a else assoc k l
  end.

(** [value[key]]: [Null] for a missing key, and for a value that is no object. *)
Definition json_get (j : Json) (key : string) : Json :=
  match j with JObj members => default JNull (assoc key members) | _ => JNull end.

(** [z as f64] *)
Definition f64_of_Z (z : Z) : f64 := binary_normalize 53 1024 z 0 false.

Definition as_str (j : Json) : option string := match j with JStr s => Some s | _ => None end.
Definition as_bool (j : Json) : option bool := match j with JBool b => Some b | _ => None end.
Definition as_array (j : Json) : option (list Json) :=
  match j with JArr l => Some l | _ => None end.
Definition as_i64 (j : Json) : option Z :=
  match j with JInt z => if z <=? i64_max then Some z else None | _ => None end.
Definition as_u64 (j : Json) : option Z :=
  match j with JInt z => if 0 <=? z then Some z else None | _ => None end.
Definition as_f64 (j : Json) : option f64 :=
  match j with JInt z => Some (f64_of_Z z) | JFloat x => Some x | _ => None end.
Definition is_null (j : Json) : bool := match j with JNull => true | _ => false end.

(** [std::io::Error]: its text, and the error it was made from, if any ([get_ref]). *)
Record IoError := mkIoError { io_display : string; io_inner : option string }.

(** [io::Error::new(kind, e)] *)
Definition io_error (e : string) : IoError := mkIoError e (Some e).

(** ** The bitcoin crate

    Addresses, transactions and amounts are the bitcoin crate's; only what the relay
    calls is named.  Hashes and scripts are bytes. *)

Record WitnessProgram := mkProgram {
  program : bytes;
  is_p2wpkh : bool;
  is_p2tr : bool;
}.

Class BitcoinLib := {
  Address : Type;
  address_from_str : string -> option Address;
  require_network : Network -> Address -> bool;
  address_from_script : bytes -> Network -> result Address string;
  address_display : Address -> string;
  script_pubkey : Address -> bytes;
  witness_program : Address -> option WitnessProgram;
  wpubkey_hash : bytes -> option bytes;           (** [WPubkeyHash::from_slice] *)
  xonly_public_key : bytes -> option bytes;       (** [XOnlyPublicKey::from_slice] *)
  script_is_p2wpkh : bytes -> bool;
  script_is_p2tr : bytes -> bool;
  txid_from_str : string -> option bytes;
  block_hash_from_str : string -> option bytes;
  amount_from_btc : f64 -> result Z string;       (** [Amount::from_btc], in satoshi *)
  Transaction : Type;
  serialize : Transaction -> bytes;               (** [encode::serialize] *)
  deserialize : bytes -> result Transaction string; (** the whole input *)
  consensus_decode : bytes -> option Transaction; (** a prefix of the input *)
  Psbt : Type;
  unsigned_tx : Psbt -> Transaction;
  extract_tx : Psbt -> result Transaction string;
}.

Section convert.
Context `{BitcoinLib}.

(** ** The conversions *)

Abbreviation converts A := (option (result A IoError)).

Record FundedTx := mkFunded { changepos : Z; funded_hex : string }.
Definition to_funded (j : Json) : converts FundedTx :=
  changepos ← as_i64 (json_get j "changepos");
  hex ← as_str (json_get j "hex");
  Some (Ok (mkFunded changepos hex)).

(** [RawTx] and [NewAddress] wrap a string. *)
Definition to_raw (j : Json) : converts string := s ← as_str j; Some (Ok s).
Definition to_new_address (j : Json) : converts string := s ← as_str j; Some (Ok s).

Record SignedTx := mkSigned { signed_complete : bool; signed_hex : string }.
Definition to_signed (j : Json) : converts SignedTx :=
  hex ← as_str (json_get j "hex");
  complete ← as_bool (json_get j "complete");
  Some (Ok (mkSigned complete hex)).

(** [errored] and [feerate_sat_per_kw] *)
Definition to_fee_response (j : Json) : converts (bool * option Z) :=
  Some (Ok (negb (is_null (json_get j "errors")), fee_response (as_f64 (json_get j "feerate")))).

Definition to_mempool (j : Json) : converts (bool * option Z) :=
  let errored := negb (is_null (json_get j "errors")) in
  feerate ← mempool_response (mkMempool (as_u64 (json_get j "maxmempool"))
                                (as_f64 (json_get j "mempoolminfee")));
  Some (Ok (errored, feerate)).

Record BlockchainInfo := mkInfo {
  latest_height : Z;
  latest_blockhash : bytes;
  chain : string;
}.
Definition to_blockchain_info (j : Json) : converts BlockchainInfo :=
  height ← as_u64 (json_get j "blocks");
  hash ← as_str (json_get j "bestblockhash") ≫= block_hash_from_str;
  chain ← as_str (json_get j "chain");
  Some (Ok (mkInfo height hash chain)).

Record ListUnspentUtxo := mkUnspent {
  un_txid : bytes;
  un_vout : Z;
  un_amount : Z;
  un_address : Address;
}.

Definition to_unspent_utxo (utxo : Json) : option ListUnspentUtxo :=
  txid ← as_str (json_get utxo "txid") ≫= txid_from_str;
  vout ← as_u64 (json_get utxo "vout");
  btc ← as_f64 (json_get utxo "amount");
  sats ← res_ok (amount_from_btc btc);
  address ← as_str (json_get utxo "address") ≫= address_from_str;
  Some (mkUnspent txid (wrap_u32 vout) sats address).

Definition to_list_unspent (j : Json) : converts (list ListUnspentUtxo) :=
  utxos ← as_array j;
  l ← mapM to_unspent_utxo utxos;
  Some (Ok l).

(** [WalletBalance]: the one conversion whose failures are errors, not panics. *)
Definition to_wallet_balance (j : Json) : converts Z :=
  match as_f64 j with
  | None => Some (Err (io_error "getbalance did not return a number"))
  | Some btc => Some (map_err io_error (amount_from_btc btc))
  end.
End convert.
