(* ===== verification/RateLimiter.v ===== *)
(** * The API's rate limiter ([src/src/api.rs], [RateLimiter])

    [Instant]s and [Duration]s are nanoseconds; [Instant::duration_since]
    saturates at zero. *)

From S2P Require Import Prelude.

Inductive IpAddr := V4 (addr : N) | V6 (addr : N).

#[global] Instance IpAddr_eq_dec : EqDecision IpAddr.
Proof. solve_decision. Defined.
#[global] Instance IpAddr_countable : Countable IpAddr.
Proof.
  refine (inj_countable' (fun ip => match ip with V4 a => inl a | V6 a => inr a end)
            (fun x => match x with inl a => V4 a | inr a => V6 a end) _).
  by intros [].
Defined.

Record RateLimiter := mkLimiter {
  requests : gmap IpAddr (Z * Z);   (** count ([u32]) and start of the window *)
  max_per_window : Z;               (** [u32] *)
  window : Z;
}.

Definition limiter_new (max_per_window window_secs : Z) : RateLimiter :=
  mkLimiter ∅ max_per_window (window_secs * 1000000000).

Definition duration_since (now ts : Z) : Z := Z.max 0 (now - ts).

(** The eviction of expired entries once more than 1000 are held. *)
Definition evict (now : Z) (l : RateLimiter) : gmap IpAddr (Z * Z) :=
  if bool_decide (1000 < Z.of_nat (size (requests l)))
  then filter (fun kv => duration_since now kv.2.2 <= window l) (requests l)
  else requests l.

Definition check (ip : IpAddr) (now : Z) (l : RateLimiter) : bool * RateLimiter :=
  let requests := evict now l in
  let entry := default (0, now) (requests !! ip) in
  let store e := mkLimiter (<[ip := e]> requests) (max_per_window l) (window l) in
  if window l <? duration_since now entry.2 then (true, store (1, now))
  else if entry.1 <? max_per_window l then (true, store (entry.1 + 1, entry.2))
  else (false, store entry).

#[global] Arguments check : simpl never.

(** ** Reference: one window per address, nothing ever evicted *)

(** One request at time [now] against an address' window. *)
Definition window_step (max window now : Z) (st : option (Z * Z)) : bool * (Z * Z) :=
  let entry := default (0, now) st in
  if window <? duration_since now entry.2 then (true, (1, now))
  else if entry.1 <? max then (true, (entry.1 + 1, entry.2))
  else (false, entry).

(** The times at which requests are accepted. *)
Fixpoint accepted (max window : Z) (ts : list Z) (st : option (Z * Z)) : list Z :=
  match ts with
  | [] => []
  | now :: ts =>
      let '(ok, e) := window_step max window now st in
      (if ok then [now] else []) ++ accepted max window ts (Some e)
  end.

(** Below a thousand entries a check is one step on the address' own window. *)
Lemma check_small ip now l :
  Z.of_nat (size (requests l)) <= 1000 ->
  check ip now l =
  let '(ok, e) := window_step (max_per_window l) (window l) now (requests l !! ip) in
  (ok, mkLimiter (<[ip := e]> (requests l)) (max_per_window l) (window l)).
Proof.
  intros Hs. unfold check, evict, window_step. rewrite bool_decide_false by lia.
  destruct (_ <? _); [done|]. by destruct (_ <? max_per_window l).
Qed.

(** A sequence of checks on the limiter: which requests were accepted. *)
Fixpoint run_checks (reqs : list (IpAddr * Z)) (l : RateLimiter) : list (IpAddr * Z) :=
  match reqs with
  | [] => []
  | (ip, now) :: reqs =>
      let '(ok, l) := check ip now l in
      (if ok then [(ip, now)] else []) ++ run_checks reqs l
  end.

Definition times_of (ip : IpAddr) (reqs : list (IpAddr * Z)) : list Z :=
  omap (fun r => if decide (r.1 = ip) then Some r.2 else None) reqs.

(** The times of a sequence never decrease: [Instant] is monotone. *)
Definition monotone (from : Z) (ts : list Z) : Prop :=
  Forall (fun t => from <= t) ts /\ StronglySorted Z.le ts.

Lemma monotone_cons from t ts : monotone from (t :: ts) -> from <= t /\ monotone t ts.
Proof. intros [H1 H2]. inversion H1; inversion H2; subst. done. Qed.

Lemma monotone_weaken from from' ts : from <= from' -> monotone from' ts -> monotone from ts.
Proof. intros H [H1 H2]. split; [|done]. eapply Forall_impl; [exact H1|]. cbn. intros. lia. Qed.

Lemma monotone_times_of ip from reqs : monotone from (snd <$> reqs) -> monotone from (times_of ip reqs).
Proof.
  revert from. induction reqs as [|[ip' t] reqs IH]; intros from H; cbn; [done|].
  apply monotone_cons in H as [Hf H]. cbn in Hf. specialize (IH t H). case_decide; cbn.
  - destruct IH as [H1 H2]. split; constructor; try done.
    eapply Forall_impl; [exact H1|]. cbn. intros. lia.
  - by apply (monotone_weaken _ t).
Qed.

(** ** Eviction is not observable

    The limiter represents the reference windows [ws] at time [now]: an entry it
    no longer holds is one whose window is over. *)
Definition represents (now : Z) (l : RateLimiter) (ws : gmap IpAddr (Z * Z)) : Prop :=
  forall ip, requests l !! ip = ws !! ip \/
    (requests l !! ip = None /\ exists e, ws !! ip = Some e /\ window l < duration_since now e.2).

Lemma represents_later now now' l ws : now <= now' -> represents now l ws -> represents now' l ws.
Proof.
  intros Hle H ip. destruct (H ip) as [?|(? & e & ? & Hw)]; [by left|right].
  split; [done|]. exists e. split; [done|]. unfold duration_since in *. lia.
Qed.

Lemma represents_evict now l ws :
  represents now l ws ->
  represents now (mkLimiter (evict now l) (max_per_window l) (window l)) ws.
Proof.
  intros H ip. cbn. unfold evict. case_bool_decide; [|by apply H].
  rewrite map_lookup_filter. destruct (H ip) as [E|[-> ?]]; [|by right].
  rewrite E. destruct (ws !! ip) as [e|]; cbn; [|by left].
  case_guard as Hg; cbn in *; [by left|right]. split; [done|]. exists e. split; [done|]. lia.
Qed.

Lemma check_represents ip now l ws :
  1 <= max_per_window l -> 0 <= window l -> represents now l ws ->
  let '(ok, e) := window_step (max_per_window l) (window l) now (ws !! ip) in
  (check ip now l).1 = ok /\ max_per_window (check ip now l).2 = max_per_window l /\
  window (check ip now l).2 = window l /\ represents now (check ip now l).2 (<[ip := e]> ws).
Proof.
  intros Hmax Hwin H%represents_evict. unfold check, window_step. cbn zeta.
  set (rq := evict now l) in *. assert (forall e,
    represents now (mkLimiter (<[ip:=e]> rq) (max_per_window l) (window l)) (<[ip:=e]> ws)) as Hins.
  { intros e ip'. cbn. rewrite !lookup_insert. case_decide; [by left|]. apply H. }
  destruct (H ip) as [E|(E & e & Ee & Hw)]; cbn in E.
  - rewrite E. cbn. destruct (_ <? _); [|destruct (_ <? max_per_window l)]; cbn; auto.
  - rewrite E, Ee. cbn in *. unfold duration_since in *.
    rewrite Z.sub_diag, (proj2 (Z.ltb_lt (window l) _) Hw).
    rewrite (proj2 (Z.ltb_ge (window l) _)), (proj2 (Z.ltb_lt 0 _)) by lia. cbn; auto.
Qed.

Lemma run_checks_reference ip reqs now l ws :
  1 <= max_per_window l -> 0 <= window l -> represents now l ws -> monotone now (snd <$> reqs) ->
  times_of ip (run_checks reqs l)
  = accepted (max_per_window l) (window l) (times_of ip reqs) (ws !! ip).
Proof.
  revert now l ws. induction reqs as [|[ip' t] reqs IH]; intros now l ws Hmax Hwin Hrep Hmon; [done|].
  apply monotone_cons in Hmon as [Hle Hmon]. cbn in Hle.
  apply (represents_later _ t) in Hrep; [|done].
  pose proof (check_represents ip' t l ws Hmax Hwin Hrep) as Hc. cbn [run_checks].
  destruct (window_step _ _ t (ws !! ip')) as [ok e] eqn:Es.
  destruct (check ip' t l) as [ok' l']. cbn in Hc. destruct Hc as (-> & Em & Ew & Hrep').
  unfold times_of at 1. rewrite omap_app. fold (times_of ip (run_checks reqs l')).
  rewrite (IH t l' (<[ip' := e]> ws)) by (try done; congruence || lia).
  rewrite Em, Ew, lookup_insert. unfold times_of at 2. cbn. case_decide as Hip; cbn.
  - subst ip'. rewrite Es. destruct ok; cbn; [by rewrite decide_True|done].
  - destruct ok; cbn; [by rewrite decide_False|done].
Qed.

(** ** How many requests a window admits *)

Definition in_span (t window x : Z) : bool := (t <=? x) && (x <=? t + window).
Definition count_in (t window : Z) (ts : list Z) : Z :=
  Z.of_nat (length (List.filter (in_span t window) ts)).

Lemma count_in_cons t w x ts :
  count_in t w (x :: ts) = (if in_span t w x then 1 else 0) + count_in t w ts.
Proof. unfold count_in. cbn. destruct (in_span t w x); cbn; lia. Qed.

(** One request of the reference, seen from its window start [s] and count [c]. *)
Lemma window_step_cases max w c s now :
  s <= now ->
  window_step max w now (Some (c, s)) =
    if w <? now - s then (true, (1, now))
    else if c <? max then (true, (c + 1, s)) else (false, (c, s)).
Proof. intros. unfold window_step, duration_since. cbn. by rewrite Z.max_r by lia. Qed.

Lemma accepted_incl max w ts st x : x ∈ accepted max w ts st -> x ∈ ts.
Proof.
  revert st. induction ts as [|t ts IH]; intros st; cbn [accepted]; [done|].
  destruct (window_step max w t st) as [[] e]; cbn; rewrite ?elem_of_cons; naive_solver.
Qed.

Lemma count_in_after max w t ts st now :
  t + w < now -> monotone now ts -> count_in t w (accepted max w ts st) = 0.
Proof.
  intros Ht [Hm _]. unfold count_in. destruct (List.filter _ _) as [|x xs] eqn:E; [done|].
  assert (In x (List.filter (in_span t w) (accepted max w ts st))) as Hx by (rewrite E; by left).
  apply filter_In in Hx as [Hx%list_elem_of_In%accepted_incl Hs].
  rewrite Forall_forall in Hm. specialize (Hm x Hx). unfold in_span in Hs. lia.
Qed.

(** Within the current window only the remaining budget can be accepted. *)
Lemma accepted_same_window max w t s c ts now :
  s <= now -> t <= s -> 0 <= c <= max -> monotone now ts ->
  count_in t w (accepted max w ts (Some (c, s))) <= max - c.
Proof.
  revert s c now. induction ts as [|x ts IH]; intros s c now Hs Ht Hc Hm; cbn [accepted].
  { unfold count_in. cbn. lia. }
  apply monotone_cons in Hm as [Hx Hm]. rewrite window_step_cases by lia.
  destruct (Z.ltb_spec w (x - s)); [|destruct (Z.ltb_spec c max)]; cbn [app].
  - rewrite count_in_cons, (count_in_after _ _ _ _ _ x) by (done || lia). unfold in_span.
    destruct (Z.leb_spec x (t + w)); rewrite ?andb_false_r; lia.
  - rewrite count_in_cons. specialize (IH s (c + 1) x ltac:(lia) ltac:(lia) ltac:(lia) Hm).
    destruct (in_span t w x); lia.
  - apply (IH s c x); done || lia.
Qed.

(** A span of one window's length meets at most two windows. *)
Lemma accepted_span max w t s c ts now :
  1 <= max -> s <= now -> 0 <= c <= max -> monotone now ts ->
  count_in t w (accepted max w ts (Some (c, s))) <= 2 * max - (if t <=? now then c else 0).
Proof.
  intros Hmax. revert s c now. induction ts as [|x ts IH]; intros s c now Hs Hc Hm; cbn [accepted].
  { unfold count_in. cbn. destruct (t <=? now); lia. }
  apply monotone_cons in Hm as [Hx Hm]. rewrite window_step_cases by lia.
  destruct (Z.ltb_spec w (x - s)); [|destruct (Z.ltb_spec c max)]; cbn [app].
  - rewrite count_in_cons. unfold in_span at 1. destruct (Z.leb_spec t x); cbn [andb].
    + pose proof (accepted_same_window max w t x 1 ts x ltac:(lia) ltac:(lia) ltac:(lia) Hm).
      destruct (x <=? t + w), (t <=? now); lia.
    + specialize (IH x 1 x ltac:(lia) ltac:(lia) Hm). destruct (t <=? x), (Z.leb_spec t now); lia.
  - rewrite count_in_cons. specialize (IH s (c + 1) x ltac:(lia) ltac:(lia) Hm). unfold in_span at 1.
    destruct (Z.leb_spec t x), (Z.leb_spec t now); cbn [andb]; try destruct (x <=? t + w); lia.
  - specialize (IH s c x ltac:(lia) ltac:(lia) Hm). destruct (Z.leb_spec t x), (Z.leb_spec t now); lia.
Qed.

Lemma accepted_span_new max w t ts now :
  1 <= max -> 0 <= w -> monotone now ts -> count_in t w (accepted max w ts None) <= 2 * max.
Proof.
  intros Hmax Hw Hm. destruct ts as [|x ts]; [unfold count_in; cbn; lia|].
  apply monotone_cons in Hm as [_ Hm].
  pose proof (accepted_span max w t x 0 (x :: ts) x Hmax ltac:(lia) ltac:(lia)) as H.
  replace (accepted max w (x :: ts) None) with (accepted max w (x :: ts) (Some (0, x))) by done.
  assert (monotone x (x :: ts)) as Hm'.
  { destruct Hm. split; constructor; done || lia. }
  specialize (H Hm'). destruct (t <=? x); lia.
Qed.

(** *** A limiter configured with zero

    It is not closed: the first request after the end of a window is accepted whatever the
    limit.  Eviction is then observable, so the reference does not help; accepted requests
    are more than a window apart all the same. *)

(** What a check does to the entry of another address: nothing, or eviction. *)
Lemma check_other ip ip' now l e :
  ip' <> ip -> requests (check ip' now l).2 !! ip = Some e -> requests l !! ip = Some e.
Proof.
  intros Hne. assert (evict now l !! ip = Some e -> requests l !! ip = Some e) as He.
  { unfold evict. case_bool_decide; [|done]. by intros [? _]%map_lookup_filter_Some. }
  unfold check. cbn zeta. destruct (_ <? _); [|destruct (_ <? max_per_window l)]; cbn;
    by rewrite lookup_insert_ne.
Qed.

(** A check of the address itself with a limit of zero: it is accepted only when the entry's
    window is over, and the entry then starts at this request. *)
Lemma check_zero ip now l :
  max_per_window l = 0 -> 0 <= window l -> (forall e, requests l !! ip = Some e -> 0 <= e.1) ->
  max_per_window (check ip now l).2 = 0 /\ window (check ip now l).2 = window l /\
  ((exists e, requests l !! ip = Some e /\ window l < duration_since now e.2 /\
      (check ip now l).1 = true /\ requests (check ip now l).2 !! ip = Some (1, now)) \/
   ((check ip now l).1 = false /\ exists c s, requests (check ip now l).2 !! ip = Some (c, s) /\
      0 <= c /\ (s = now \/ requests l !! ip = Some (c, s)))).
Proof.
  intros Hmax Hwin Hpos.
  assert (forall e, evict now l !! ip = Some e -> requests l !! ip = Some e) as He.
  { intros e. unfold evict. case_bool_decide; [|done]. by intros [? _]%map_lookup_filter_Some. }
  unfold check. cbn zeta. rewrite Hmax. destruct (evict now l !! ip) as [[c s]|] eqn:E; cbn.
  - pose proof (Hpos _ (He _ eq_refl)) as Hc. cbn in Hc. rewrite (proj2 (Z.ltb_ge c 0)) by lia.
    destruct (Z.ltb_spec (window l) (duration_since now s)); cbn; rewrite lookup_insert_eq; naive_solver.
  - unfold duration_since. rewrite Z.sub_diag, (proj2 (Z.ltb_ge _ _)) by lia. cbn.
    rewrite lookup_insert_eq. naive_solver.
Qed.

(** The entry of the address has a count, and its window starts at [from] or later. *)
Definition starts_from (from : Z) (ip : IpAddr) (l : RateLimiter) : Prop :=
  max_per_window l = 0 /\ 0 <= window l /\
  forall e, requests l !! ip = Some e -> 0 <= e.1 /\ from <= e.2.

Lemma check_keeps_limits ip now l :
  max_per_window (check ip now l).2 = max_per_window l /\ window (check ip now l).2 = window l.
Proof. unfold check. cbn zeta. by destruct (_ <? _); [|destruct (_ <? max_per_window l)]. Qed.

(** One request: it is accepted only more than a window after the start of the entry, and
    the entry starts no earlier afterwards. *)
Lemma check_starts_from from ip ip' now l :
  starts_from from ip l -> from <= now ->
  starts_from from ip (check ip' now l).2 /\ window (check ip' now l).2 = window l /\
  (ip' = ip -> (check ip' now l).1 = true ->
     from + window l < now /\ starts_from now ip (check ip' now l).2).
Proof.
  intros (Hmax & Hwin & Hs) Hnow. destruct (check_keeps_limits ip' now l) as [Em Ew].
  destruct (decide (ip' = ip)) as [->|Hne].
  - destruct (check_zero ip now l Hmax Hwin) as (_ & _ & Hcase); [intros e He; apply (Hs e He)|].
    unfold starts_from. rewrite Em, Ew, Hmax.
    destruct Hcase as [([c s] & Ee & Hd & Hok & E)|(Hok & c & s & E & Hc & Hcase)]; rewrite E.
    + destruct (Hs _ Ee). unfold duration_since in Hd. cbn in *. naive_solver lia.
    + rewrite Hok. split; [|split; [done|by intros ?]]. split; [done|]. split; [done|].
      intros ? [= <-]. cbn. destruct Hcase as [->|Hl%Hs]; [done|]. cbn in Hl. lia.
  - split; [|by split]. split; [by rewrite Em|]. split; [by rewrite Ew|].
    intros e He%check_other; [by apply Hs|done].
Qed.

Lemma zero_span_over from ip t reqs now l :
  starts_from from ip l -> from <= now -> t <= from -> monotone now (snd <$> reqs) ->
  count_in t (window l) (times_of ip (run_checks reqs l)) = 0.
Proof.
  revert from now l. induction reqs as [|[ip' x] reqs IH]; intros from now l Hl Hnow Ht Hm; [done|].
  apply monotone_cons in Hm as [Hx Hm]. cbn in Hx.
  destruct (check_starts_from from ip ip' x l Hl ltac:(lia)) as (Hl' & Ew & Hacc).
  specialize (IH from x _ Hl' ltac:(lia) Ht Hm). cbn [run_checks].
  destruct (check ip' x l) as [ok l']. cbn in *. unfold times_of. rewrite omap_app.
  fold (times_of ip (run_checks reqs l')). rewrite Ew in IH.
  destruct ok; cbn; [|done]. case_decide as Hip; cbn; [|done].
  destruct (Hacc Hip eq_refl) as [Hlate _]. rewrite count_in_cons, IH. unfold in_span.
  rewrite (proj2 (Z.leb_gt x _)), andb_false_r by lia. done.
Qed.

Lemma zero_span from ip t reqs now l :
  starts_from from ip l -> from <= now -> monotone now (snd <$> reqs) ->
  count_in t (window l) (times_of ip (run_checks reqs l)) <= 1.
Proof.
  revert from now l. induction reqs as [|[ip' x] reqs IH]; intros from now l Hl Hnow Hm.
  { unfold count_in. cbn. lia. }
  apply monotone_cons in Hm as [Hx Hm]. cbn in Hx.
  destruct (check_starts_from from ip ip' x l Hl ltac:(lia)) as (Hl' & Ew & Hacc).
  specialize (IH from x _ Hl' ltac:(lia) Hm). cbn [run_checks].
  pose proof (fun Hip Hok Ht => zero_span_over x ip t reqs x _ (proj2 (Hacc Hip Hok)) (Z.le_refl x) Ht Hm) as H0.
  destruct (check ip' x l) as [ok l']. cbn in *. unfold times_of. rewrite omap_app.
  fold (times_of ip (run_checks reqs l')). rewrite Ew in *.
  destruct ok; cbn; [|done]. case_decide as Hip; cbn; [|done]. rewrite count_in_cons. unfold in_span.
  destruct (Z.leb_spec t x) as [Ht|]; cbn; [|done]. rewrite (H0 Hip eq_refl Ht). by destruct (_ <=? _).
Qed.

(** C23: the eviction of stale entries is not observable.  For a limiter that
    admits at least one request per window, over any sequence of requests at
    non-decreasing times, the requests of an address that are accepted are those
    that a limiter with one private window per address and no eviction accepts. *)
Theorem eviction_unobservable max secs ip reqs now :
  1 <= max -> 0 <= secs -> monotone now (snd <$> reqs) ->
  times_of ip (run_checks reqs (limiter_new max secs))
  = accepted max (secs * 1000000000) (times_of ip reqs) None.
Proof.
  intros Hmax Hsecs Hm.
  rewrite (run_checks_reference ip reqs now _ ∅); try done; [cbn; lia|].
  intros ip'. by left.
Qed.

(** C22: in any span of time as long as the window, the limiter accepts at most twice
    [max_per_window] requests of an address, whatever the other addresses do; with the limit
    0, which the environment may set, it accepts at most one. *)
Theorem rate_bound max secs ip reqs now t :
  0 <= max -> 0 <= secs -> monotone now (snd <$> reqs) ->
  count_in t (secs * 1000000000) (times_of ip (run_checks reqs (limiter_new max secs)))
  <= Z.max 1 (2 * max).
Proof.
  intros Hmax Hsecs Hm. destruct (decide (max = 0)) as [->|].
  { apply (zero_span now ip t reqs now (limiter_new 0 secs)); [|lia|done].
    split; [done|]. split; [cbn; lia|]. cbn. by intros e ?%lookup_empty_Some. }
  etrans; [|apply Z.le_max_r].
  rewrite (run_checks_reference ip reqs now _ ∅); try done; [|cbn; lia..|intros ip'; by left].
  apply (accepted_span_new _ _ _ _ now); [cbn; lia|cbn; lia|]. by apply monotone_times_of.
Qed.

Definition demo_ip : IpAddr := V4 2130706433.
Definition demo_reqs : list (IpAddr * Z) :=
  (fun t => (demo_ip, t)) <$> [0; 1; 2; 60000000001; 60000000002].

Lemma demo_reqs_monotone : monotone 0 (snd <$> demo_reqs).
Proof. split; cbn; repeat (constructor; try lia). Qed.

(** The limiter after a sequence of checks. *)
Definition limiter_after (reqs : list (IpAddr * Z)) (l : RateLimiter) : RateLimiter :=
  foldl (fun l r => (check r.1 r.2 l).2) l reqs.

(** A thousand other addresses make a request each, then [demo_ip] makes three, and one more
    when all windows are over. *)
Definition crowd : list (IpAddr * Z) := (fun i => (V4 (N.of_nat i), 0)) <$> seq 1 1000.
Definition crowded_reqs : list (IpAddr * Z) :=
  crowd ++ [(demo_ip, 1); (demo_ip, 2); (demo_ip, 3); (demo_ip, 60000000002)].

Lemma monotone_constant (xs : list Z) ys :
  Forall (eq 0) xs -> monotone 0 ys -> monotone 0 (xs ++ ys).
Proof.
  induction 1 as [|x xs <- _ IH]; [done|]. intros [H1 H2]%IH. split; by constructor.
Qed.

Lemma crowded_reqs_monotone : monotone 0 (snd <$> crowded_reqs).
Proof.
  unfold crowded_reqs. rewrite fmap_app. apply monotone_constant.
  - unfold crowd. rewrite <- list_fmap_compose. apply Forall_fmap, Forall_true. done.
  - split; cbn; repeat (constructor; try lia).
Qed.

(** The last check evicts the thousand and one entries; what is accepted is as without. *)
Lemma eviction_unobservable_witness :
  size (requests (limiter_after (take 1003 crowded_reqs) (limiter_new 2 60))) = 1001%nat /\
  size (requests (limiter_after crowded_reqs (limiter_new 2 60))) = 1%nat /\
  times_of demo_ip (run_checks crowded_reqs (limiter_new 2 60)) = [1; 2; 60000000002].
Proof.
  split; [vm_compute; reflexivity|]. split; [vm_compute; reflexivity|].
  rewrite (eviction_unobservable 2 60 demo_ip crowded_reqs 0).
  - vm_compute. reflexivity.
  - lia.
  - lia.
  - exact crowded_reqs_monotone.
Defined.

Lemma rate_bound_witness :
  count_in 1 60000000000 (times_of demo_ip (run_checks demo_reqs (limiter_new 2 60))) <= 4.
Proof.
  apply (rate_bound 2 60 demo_ip demo_reqs 0); [lia|lia|exact demo_reqs_monotone].
Defined.

(** A limiter configured with [max_per_window = 0] does not block everything:
    an address is refused until its window ends, and its next request is accepted. *)
Lemma zero_limit_still_admits ip now :
  0 <= now ->
  times_of ip (run_checks [(ip, now); (ip, now + 60000000001)] (limiter_new 0 60))
  = [now + 60000000001].
Proof.
  intros Hnow. cbn [run_checks]. rewrite check_small by done. cbn [limiter_new requests].
  rewrite lookup_empty. unfold window_step, duration_since. cbn. rewrite Z.sub_diag.
  change (60 * 1000000000 <? 0 `max` 0) with false. cbn.
  rewrite check_small by (cbn; rewrite map_size_insert_None; done). cbn.
  rewrite lookup_insert_eq. unfold window_step, duration_since. cbn.
  rewrite (proj2 (Z.ltb_lt _ _)) by lia. cbn. by rewrite decide_True.
Qed.

Lemma zero_limit_still_admits_witness :
  times_of demo_ip (run_checks [(demo_ip, 5); (demo_ip, 5 + 60000000001)] (limiter_new 0 60))
  = [60000000006].
Proof. apply (zero_limit_still_admits demo_ip 5). lia. Defined.
