(* ===== verification/World.v ===== *)
(** * The relay's shared state and the outside world

    [Relay] is what the handlers share: the swap database, the two payment tables
    and the rate limiter, each behind its own mutex.  [Req] is everything a
    handler asks of code outside this repository: the methods of the
    [CardanoOperator] trait and of [OperatorAgent] ([src/src/cardano_ops.rs] and
    the calls in [background.rs], [api.rs], [cardano_offramp.rs],
    [cli/cardano_cmds.rs]), the LDK channel manager, the key-value store, the
    clocks and the timers.

    [Externals] collects the pure third-party functions the handlers call. *)

From S2P Require Import Prelude Effects Mapping Types RateLimiter.

(** ** Data of the Cardano client

    The fields of the client's structs, as the repository constructs and reads
    them. *)

Module Invoice.
Record t := mk {
  invoice_id : Z;
  amount : Z;
  owner : string;
  timestamp : Z;
  expires_at : Z;
}.
End Invoice.

Module ChainOfframp.
Record t := mk {
  offramp_id : Z;
  amount : Z;
  payment_hash : string;
  refund_address : string;
  expires_at : Z;
}.
End ChainOfframp.

Module ChainState.
Record t := mk {
  total_liquidity : Z;
  reserved : Z;
  last_invoice_id : Z;
  invoices : list Invoice.t;
  last_offramp_id : Z;
  offramps : list ChainOfframp.t;
}.
End ChainState.

(** The fields of LDK's [ChannelDetails] that the code reads. *)
Module ChannelDetails.
Record t := mk {
  channel_id : string;
  counterparty : bytes;
  is_channel_ready : bool;
  channel_value_satoshis : Z;
  outbound_capacity_msat : Z;
  inbound_capacity_msat : Z;
  is_usable : bool;
  is_announced : bool;
}.
End ChannelDetails.

(** The configuration [open_channel] overrides LDK's defaults with. *)
Module ChannelConfig.
Record t := mk {
  their_to_self_delay : Z;
  announce_for_forwarding : bool;
  negotiate_anchors_zero_fee_htlc_tx : bool;
}.
End ChannelConfig.

(** [lightning::ln::msgs::SocketAddress]: the variants the code names, and the others
    with the text they resolve from. *)
Inductive NodeAddress := OnionV2 | OnionV3 | Clearnet (address : string).

(** What the code reads of a node of the network graph. *)
Module GraphNode.
Record t := mk {
  as_pubkey : option bytes;                  (** [NodeId::as_pubkey] *)
  supports_dns_resolution : bool;
  supports_onion_messages : bool;
  has_announcement : bool;                   (** [announcement_info] is there *)
}.
End GraphNode.

(** [lightning::offers::offer::Amount] *)
Inductive OfferAmount := BitcoinAmount (amount_msats : Z) | CurrencyAmount.

(** [lightning::sign::SpendableOutputDescriptor] with the value of its output, and
    the status of an output tracked by the sweeper. *)
Inductive SpendableOutputDescriptor :=
| StaticOutput (value : Z)
| DelayedPaymentOutput (value : Z)
| StaticPaymentOutput (value : Z).

Inductive OutputSpendStatus :=
| PendingInitialBroadcast | PendingFirstConfirmation | PendingThresholdConfirmations.

Record TrackedSpendableOutput := mkTracked {
  descriptor : SpendableOutputDescriptor;
  spend_status : OutputSpendStatus;
}.

(** The variants of [lightning_invoice::Currency] the code names; [OtherCurrency]
    is the [_] of its match. *)
Inductive Currency := Bitcoin | BitcoinTestnet | Regtest | Signet | OtherCurrency.

(** ** Third-party functions *)

Class Externals := {
  (** [CardanoError] and its [Display]. *)
  CardanoError : Type;
  error_display : CardanoError -> string;
  (** [State::available] *)
  available : ChainState.t -> Z;
  (** The operator's configuration: [operator_address] of the trait. *)
  operator_address : string;
  (** [Bolt11Invoice::from_str] (an error is its [Debug] text) and accessors. *)
  Bolt11Invoice : Type;
  bolt11_from_str : string -> result Bolt11Invoice string;
  bolt11_to_string : Bolt11Invoice -> string;
  invoice_payment_hash : Bolt11Invoice -> bytes;
  invoice_payment_secret : Bolt11Invoice -> bytes;
  invoice_currency : Bolt11Invoice -> Currency;
  currency_debug : Currency -> string;
  amount_milli_satoshis : Bolt11Invoice -> option Z;
  (** [Display] of [PaymentHash], of [sha256::Hash] and of [PaymentPreimage]. *)
  payment_hash_display : bytes -> string;
  payment_hash_hex h : is_ascii (payment_hash_display h) = true;
  sha256_display : bytes -> string;
  preimage_display : bytes -> string;
  (** [bech32::decode] (the variant is not used), [Vec::<u8>::from_base32] and
      [hex::encode]. *)
  bech32_decode : string -> result (string * list Z) string;
  from_base32 : list Z -> result bytes string;
  hex_encode : bytes -> string;
  (** [Sha256::hash] *)
  sha256 : bytes -> bytes;
  (** [Description::new] fails on texts too long for a BOLT11 field. *)
  description_fits : string -> bool;
  (** [PublicKey::from_slice] and [PublicKey::from_str]; a key is its 33 bytes. *)
  pubkey_from_slice : bytes -> option bytes;
  pubkey_from_str : string -> option bytes;
  (** [Offer::from_str], [Offer::amount] and [HumanReadableName::from_encoded]. *)
  Offer : Type;
  offer_from_str : string -> option Offer;
  offer_amount : Offer -> option OfferAmount;
  HumanReadableName : Type;
  hrn_from_encoded : string -> option HumanReadableName;
}.

(** The tasks handed to [tokio::spawn] by the event handler. *)
Inductive Spawned :=
| SpawnFulfillSwap (payment_hash : string)
| SpawnCompleteOfframp (payment_hash preimage : string)
| SpawnOfframpPaymentFailed (payment_hash : string)
| SpawnConnect (node_id : bytes) (addresses : list NodeAddress).

(** ** Requests *)

Section requests.
Context `{Externals}.

(** The methods of [trait CardanoOperator], then those of [OperatorAgent] that
    are called directly. *)
Inductive OpReq :=
| QueryState
| CreateInvoice (amount : Z) (owner_pkh : string) (timestamp expires_at : Z)
| FulfillInvoice (invoice : Invoice.t) (owner_address : string)
| CreateOfframp (amount : Z) (payment_hash refund_address : string) (expires_at : Z)
| FulfillOfframp (offramp : ChainOfframp.t)
| CancelOfframp (offramp_id : Z)
| SendCbtc (target_address : string) (amount : Z)
| SubmitTx (tx_hex : string)
| CancelInvoice (invoice_id : Z)
| VerifyCbtcReceived (cbtc_tx_hash : string) (amount : Z)
| Deposit (amount : Z)
| Withdraw (amount : Z).

Definition op_resp (r : OpReq) : Type :=
  result match r with
         | QueryState => ChainState.t
         | CreateInvoice _ _ _ _ | CreateOfframp _ _ _ _ => Z * string
         | VerifyCbtcReceived _ _ => bool
         | _ => string
         end CardanoError.

Inductive Req :=
| ROp (r : OpReq)
(** [ChannelManager::create_bolt11_invoice] (errors are their [Debug] text) *)
| RCreateBolt11 (amount_msats : Z) (expiry_secs : Z) (description : option string)
(** [ChannelManager::pay_for_bolt11_invoice] *)
| RPayBolt11 (invoice : Bolt11Invoice) (payment_id : bytes) (amount_msats : option Z)
(** [ChannelManager::send_spontaneous_payment] *)
| RSendSpontaneous (payment_preimage payment_id payee : bytes) (amount_msat : Z)
(** [EntropySource::get_secure_random_bytes] *)
| RRandomBytes
(** [ChannelManager::list_channels], the sweeper's tracked outputs, and the wallet
    balance bitcoind reports *)
| RListChannels
| RTrackedOutputs
| RWalletBalance
(** Channel management on behalf of LDK's events *)
| RCreateFundingTx (output_script : bytes) (value_satoshis : Z)
| RFundingGenerated (temporary_channel_id counterparty tx : bytes)
| RAcceptChannel (temporary_channel_id counterparty : bytes) (user_channel_id : Z)
| RTrackOutputs (outputs : list SpendableOutputDescriptor)
| RHandleBump (event : bytes)
(** [ChannelManager::claim_funds] *)
| RClaimFunds (payment_preimage : bytes)
(** [FilesystemStore::write] of an encoded payment table *)
| RWriteInbound (payments : InboundPaymentInfoStorage)
| RWriteOutbound (payments : OutboundPaymentInfoStorage)
(** [SystemTime::now().duration_since(UNIX_EPOCH).unwrap()], in milliseconds: the answer is
    a natural number, so a clock set before 1970, on which the [unwrap] panics, is left
    out; [Instant::now()] *)
| RNow
| RInstant
(** [tokio::time::sleep] *)
| RSleep (secs : Z)
(** [tokio::time::timeout]: how many requests of the inner future are answered before
    the deadline, or [None] when it finishes in time *)
| RTimeout (secs : Z)
(** [tokio::spawn] of a handler, recorded by name and argument *)
| RSpawn (task : Spawned)
(** [PeerManager]: [peer_by_node_id], [disconnect_by_node_id],
    [broadcast_node_announcement] *)
| RPeerByNodeId (node_id : bytes)
| RDisconnect (node_id : bytes)
| RBroadcastAnnouncement (name : bytes) (addresses : list string)
(** The flag [main.rs] sets when the process shuts down *)
| RStopped
(** [lightning_net_tokio::connect_outbound]: [Some n] is a connection whose future
    stays pending for [n] polls *)
| RConnectOutbound (node_id : bytes) (address : string)
| RSleepMs (millis : Z)
(** [ToSocketAddrs::to_socket_addrs] *)
| RResolve (address : NodeAddress)
(** [ChannelManager::create_channel], [close_channel] and
    [force_close_broadcasting_latest_txn] *)
| RCreateChannel (node_id : bytes) (value_satoshis push_msat user_channel_id : Z)
    (config : ChannelConfig.t)
| RCloseChannel (channel_id node_id : bytes)
| RForceClose (channel_id node_id : bytes) (reason : string)
(** Offers: [create_offer_builder], [OfferBuilder::build], [pay_for_offer],
    [pay_for_offer_from_human_readable_name] *)
| RCreateOfferBuilder
| RBuildOffer (amount_msats : option Z)
| RPayForOffer (offer : Offer) (amount_msats : option Z) (payment_id : bytes)
| RPayForHrn (name : HumanReadableName) (amount_msats : Z) (payment_id : bytes)
    (dns_resolvers : list bytes)
(** The network graph: its nodes in the order of [unordered_iter], and the announced
    addresses of one node *)
| RGraphNodes
| RNodeAddresses (node_id : bytes)
(** [message_signing::sign] *)
| RSignMessage (message : bytes).

Definition resp (r : Req) : Type :=
  match r with
  | ROp r => op_resp r
  | RCreateBolt11 _ _ _ => result Bolt11Invoice string
  | RPayBolt11 _ _ _ => result unit string
  | RSendSpontaneous _ _ _ _ => result unit string
  | RRandomBytes => bytes
  | RListChannels => list ChannelDetails.t
  | RTrackedOutputs => list TrackedSpendableOutput
  | RWalletBalance => Z
  | RCreateFundingTx _ _ => result bytes string
  | RFundingGenerated _ _ _ => result unit string
  | RAcceptChannel _ _ _ => result unit string
  | RTrackOutputs _ => result unit string
  | RHandleBump _ => unit
  | RClaimFunds _ => unit
  | RWriteInbound _ | RWriteOutbound _ => result unit string
  | RNow => N
  | RInstant => Z
  | RSleep _ => unit
  | RTimeout _ => option nat
  | RSpawn _ => unit
  | RPeerByNodeId _ => bool
  | RDisconnect _ => unit
  | RBroadcastAnnouncement _ _ => unit
  | RStopped => bool
  | RConnectOutbound _ _ => option nat
  | RSleepMs _ => unit
  | RResolve _ => result (list string) string
  | RCreateChannel _ _ _ _ _ => result unit string
  | RCloseChannel _ _ => result unit string
  | RForceClose _ _ _ => result unit string
  | RCreateOfferBuilder => result unit string
  | RBuildOffer _ => result string string
  | RPayForOffer _ _ _ => result unit string
  | RPayForHrn _ _ _ _ => result unit string
  | RGraphNodes => list GraphNode.t
  | RNodeAddresses _ => option (option (list NodeAddress))
  | RSignMessage _ => string
  end.
End requests.

(** ** Shared state *)

Record Relay := mkRelay {
  swap_db : SwapDb.t;
  inbound_payments : InboundPaymentInfoStorage;
  outbound_payments : OutboundPaymentInfoStorage;
  rate_limiter : RateLimiter;
}.

Definition set_db (s : Relay) (db : SwapDb.t) : Relay :=
  mkRelay db (inbound_payments s) (outbound_payments s) (rate_limiter s).
Definition set_inbound (s : Relay) (m : InboundPaymentInfoStorage) : Relay :=
  mkRelay (swap_db s) m (outbound_payments s) (rate_limiter s).
Definition set_outbound (s : Relay) (m : OutboundPaymentInfoStorage) : Relay :=
  mkRelay (swap_db s) (inbound_payments s) m (rate_limiter s).
Definition set_limiter (s : Relay) (l : RateLimiter) : Relay :=
  mkRelay (swap_db s) (inbound_payments s) (outbound_payments s) l.

Section relay.
Context `{Externals}.

(** A handler of the relay. *)
Definition relay_prog (A : Type) : Type := @Prog Relay Req resp A.

(** [let conn = self.conn.lock().unwrap(); ...]: one statement on the database.  Statements
    do not fail, a primary key that is taken apart ([db_expect]).  In the source a statement
    that SQLite cannot execute is an [expect] and aborts the process before it has an
    effect, which in [Pool] is a restart at that step; of the two counts of active rows, the
    only statements whose error is returned, the result is [Ok]. *)
Definition db_op {A} (f : SwapDb.t -> A * SwapDb.t) : relay_prog A :=
  local (fun s => let '(x, db) := f (swap_db s) in (x, set_db s db)).
Definition db_read {A} (f : SwapDb.t -> A) : relay_prog A := reads (fun s => f (swap_db s)).
Definition db_write (f : SwapDb.t -> SwapDb.t) : relay_prog unit := db_op (fun db => (tt, f db)).

(** [conn.execute(...).expect(msg)] *)
Definition db_expect (f : SwapDb.t -> bool * SwapDb.t) (msg : string) : relay_prog unit :=
  bind (db_op f) (fun ok => if ok then Ret tt else Panic msg).

Definition op (r : OpReq) : relay_prog (op_resp r) := call (ROp r).

(** [helpers::current_timestamp_ms]: the cast [as i64] wraps. *)
Definition current_timestamp_ms : relay_prog Z := bind (call RNow) (fun ms => Ret (wrap_i64 (Z.of_N ms))).

Definition sleep (secs : Z) : relay_prog unit := call (RSleep secs).

(** [fs_store.write(...).await.unwrap()] *)
Definition write_inbound (m : InboundPaymentInfoStorage) : relay_prog unit :=
  bind (call (RWriteInbound m))
    (fun r => match r with Ok _ => Ret tt | Err e => Panic e end).
Definition write_outbound (m : OutboundPaymentInfoStorage) : relay_prog unit :=
  bind (call (RWriteOutbound m))
    (fun r => match r with Ok _ => Ret tt | Err e => Panic e end).

(** A future that is dropped when [tokio::time::timeout] expires: [n] of its requests
    were answered, and it is waiting for the answer to the next one, which has been
    sent. *)
Fixpoint truncate {A} (n : nat) (p : relay_prog A) : relay_prog (option A) :=
  match p with
  | Ret a => Ret (Some a)
  | Panic m => Panic m
  | Local f k => Local f (fun x => truncate n (k x))
  | Call r k =>
      match n with
      | O => Call r (fun _ => Ret None)
      | S n => Call r (fun x => truncate n (k x))
      end
  end.

(** [tokio::time::timeout(secs, p).await]: [None] is [Err(Elapsed)]. *)
Definition timeout {A} (secs : Z) (p : relay_prog A) : relay_prog (option A) :=
  bind (call (RTimeout secs))
    (fun cut => match cut with
                | None => bind p (fun a => Ret (Some a))
                | Some n => truncate n p
                end).

Definition spawn (t : Spawned) : relay_prog unit := call (RSpawn t).
End relay.

(** ** The trait and its environments

    [CardanoOperator W] is the trait, with the operator's hidden state [W]
    threaded through: a method may answer differently on every call. *)

Class CardanoOperator `{Externals} (W : Type) := {
  operate : forall r : OpReq, W -> op_resp r * W;
}.

(** An environment answers every request of the relay. *)
Class Env `{Externals} (W : Type) := {
  answer : forall r : Req, W -> resp r * W;
}.

(** Run a handler against an environment. *)
Definition exec `{Externals} {W} `{!Env W} {A} (p : relay_prog A) (s : Relay) (w : W) :
  @run_result Relay Req resp W A := run answer p s w.

(** The operator requests of a run, in order. *)
Definition op_log `{Externals} (l : list (event resp)) : list OpReq :=
  omap (fun e => match projT1 e with ROp r => Some r | _ => None end) l.

#[global] Arguments db_op : simpl never.
#[global] Arguments db_read : simpl never.
#[global] Arguments db_write : simpl never.

(** ** Weakest preconditions of the primitives *)

Section wp.
Context `{Externals}.
Implicit Types (s : Relay) (l : list (event resp)).

Lemma wp_db_read {A B} (f : SwapDb.t -> A) (k : A -> relay_prog B) s l Q :
  wp (k (f (swap_db s))) s l Q -> wp (bind (db_read f) k) s l Q.
Proof. done. Qed.

Lemma wp_db_op {A B} (f : SwapDb.t -> A * SwapDb.t) (k : A -> relay_prog B) s l Q :
  wp (k (f (swap_db s)).1) (set_db s (f (swap_db s)).2) l Q -> wp (bind (db_op f) k) s l Q.
Proof. unfold db_op. simpl. by destruct (f (swap_db s)). Qed.

Lemma wp_db_write {B} (f : SwapDb.t -> SwapDb.t) (k : unit -> relay_prog B) s l Q :
  wp (k tt) (set_db s (f (swap_db s))) l Q -> wp (bind (db_write f) k) s l Q.
Proof. done. Qed.

Lemma wp_db_write_ret (f : SwapDb.t -> SwapDb.t) s l (Q : outcome unit -> Relay -> _ -> Prop) :
  Q (Done tt) (set_db s (f (swap_db s))) l -> wp (db_write f) s l Q.
Proof. done. Qed.

Lemma wp_db_expect {B} (f : SwapDb.t -> bool * SwapDb.t) msg (k : unit -> relay_prog B) s l Q :
  (if (f (swap_db s)).1 then wp (k tt) (set_db s (f (swap_db s)).2) l Q
   else Q (Panicked msg) (set_db s (f (swap_db s)).2) l) ->
  wp (bind (db_expect f msg) k) s l Q.
Proof. unfold db_expect, db_op. simpl. by destruct (f (swap_db s)) as [[] db]. Qed.

Lemma wp_call {B} r (k : resp r -> relay_prog B) s l Q :
  (forall x, wp (k x) s (l ++ [existT r x]) Q) -> wp (bind (call r) k) s l Q.
Proof. done. Qed.

Lemma wp_op {B} r (k : op_resp r -> relay_prog B) s l Q :
  (forall x, wp (k x) s (l ++ [existT (ROp r) x]) Q) -> wp (bind (op r) k) s l Q.
Proof. done. Qed.

Lemma wp_now {B} (k : Z -> relay_prog B) s l Q :
  (forall t, wp (k (wrap_i64 (Z.of_N t))) s (l ++ [existT RNow t]) Q) ->
  wp (bind current_timestamp_ms k) s l Q.
Proof. done. Qed.

(** The same steps for a run against an environment. *)
Lemma exec_db_read {W} `{!Env W} {A B} (f : SwapDb.t -> A) (k : A -> relay_prog B) s (w : W) :
  exec (bind (db_read f) k) s w = exec (k (f (swap_db s))) s w.
Proof. done. Qed.
Lemma exec_db_op {W} `{!Env W} {A B} (f : SwapDb.t -> A * SwapDb.t) (k : A -> relay_prog B) s (w : W) :
  exec (bind (db_op f) k) s w = exec (k (f (swap_db s)).1) (set_db s (f (swap_db s)).2) w.
Proof. unfold db_op, exec. simpl. by destruct (f (swap_db s)). Qed.
Lemma exec_db_write {W} `{!Env W} {B} (f : SwapDb.t -> SwapDb.t) (k : unit -> relay_prog B) s (w : W) :
  exec (bind (db_write f) k) s w = exec (k tt) (set_db s (f (swap_db s))) w.
Proof. done. Qed.
Lemma exec_db_write_ret {W} `{!Env W} (f : SwapDb.t -> SwapDb.t) s (w : W) :
  exec (db_write f) s w = RunResult (Done tt) (set_db s (f (swap_db s))) w [].
Proof. done. Qed.
Lemma exec_call {W} `{!Env W} {B} r (k : resp r -> relay_prog B) s (w : W) :
  exec (bind (call r) k) s w
  = log_cons (existT r (answer r w).1) (exec (k (answer r w).1) s (answer r w).2).
Proof. done. Qed.
Lemma exec_op {W} `{!Env W} {B} r (k : op_resp r -> relay_prog B) s (w : W) :
  exec (bind (op r) k) s w
  = log_cons (existT (ROp r) (answer (ROp r) w).1)
      (exec (k (answer (ROp r) w).1) s (answer (ROp r) w).2).
Proof. done. Qed.
Lemma exec_now {W} `{!Env W} {B} (k : Z -> relay_prog B) s (w : W) :
  exec (bind current_timestamp_ms k) s w
  = log_cons (existT RNow (answer RNow w).1)
      (exec (k (wrap_i64 (Z.of_N (answer RNow w).1))) s (answer RNow w).2).
Proof. done. Qed.
Lemma exec_ret {W} `{!Env W} {A} (a : A) s (w : W) :
  exec (Ret a) s w = RunResult (Done a) s w [].
Proof. done. Qed.

(** A postcondition of every execution follows from the weakest precondition. *)
Lemma wp_exec {W} `{!Env W} {A} (p : relay_prog A) s (w : W) Q :
  wp p s [] Q -> Q (out (exec p s w)) (fin (exec p s w)) (log (exec p s w)).
Proof. apply (wp_run answer p s [] w Q). Qed.

Lemma op_log_app l l' : op_log (l ++ l') = op_log l ++ op_log l'.
Proof. apply omap_app. Qed.
Lemma op_log_op l r x : op_log (l ++ [existT (ROp r) x]) = op_log l ++ [r].
Proof. by rewrite op_log_app. Qed.
Lemma op_log_now l t : op_log (l ++ [existT RNow t]) = op_log l.
Proof. rewrite op_log_app. apply app_nil_r. Qed.
Lemma op_log_sleep l n t : op_log (l ++ [existT (RSleep n) t]) = op_log l.
Proof. rewrite op_log_app. apply app_nil_r. Qed.
End wp.

Create Rewrite HintDb oplog.
#[export] Hint Rewrite @op_log_op @op_log_now @op_log_sleep @op_log_app : oplog.


(** Step a weakest precondition through the primitive at its head. *)
Ltac wp_step :=
  lazymatch goal with
  | |- wp (bind (bind _ _) _) _ _ _ => apply wp_bind
  | |- wp (bind (db_read _) _) _ _ _ => apply wp_db_read
  | |- wp (bind (db_write _) _) _ _ _ => apply wp_db_write
  | |- wp (bind (db_op _) _) _ _ _ => apply wp_db_op
  | |- wp (bind (db_expect _ _) _) _ _ _ => apply wp_db_expect
  | |- wp (db_write _) _ _ _ => apply wp_db_write_ret
  | |- wp (bind (op _) _) _ _ _ => apply wp_op; intros ?
  | |- wp (bind current_timestamp_ms _) _ _ _ => apply wp_now; intros ?
  | |- wp (Ret _) _ _ _ => simpl
  | |- wp (Panic _) _ _ _ => simpl
  end.
