(* ===== verification/Helpers.v ===== *)
(** * Retry helpers ([src/src/helpers.rs])

    Both helpers are [for attempt in 0..max_attempts] loops; the recursion is on
    the number of attempts left.  [println!] output is not modelled. *)

From S2P Require Import Prelude Effects Mapping Types RateLimiter World.
Open Scope prog_scope.

Definition is_retryable_submit_err (err_str : string) : bool :=
  str_contains err_str "BadInputs"
  || str_contains err_str "already been included"
  || str_contains err_str "ConwayMempoolFailure".

Section helpers.
Context `{Externals}.

(** One run of the loop body is one [build_and_submit()]; [attempt] counts up as
    [n] counts down. *)
Fixpoint submit_loop {T} (context : string) (max_attempts : nat) (delay : Z)
  (build_and_submit : relay_prog (result T CardanoError))
  (n attempt : nat) (last_err : string) : relay_prog (result T string) :=
  match n with
  | O => Ret (Err (context +:+ ": failed after " +:+ pretty (Z.of_nat max_attempts)
                     +:+ " attempts: " +:+ last_err))
  | S n =>
      (if (0 <? attempt)%nat then sleep delay else Ret tt) ;;
      let* r := build_and_submit in
      match r with
      | Ok v => Ret (Ok v)
      | Err e =>
          let err_str := error_display e in
          if negb (is_retryable_submit_err err_str)
          then Ret (Err (context +:+ ": non-retryable error: " +:+ err_str))
          else submit_loop context max_attempts delay build_and_submit n (S attempt) err_str
      end
  end.

Definition submit_contract_tx_with_retry {T} (context : string) (max_attempts : nat) (delay : Z)
  (build_and_submit : relay_prog (result T CardanoError)) : relay_prog (result T string) :=
  submit_loop context max_attempts delay build_and_submit max_attempts 0 "".

Fixpoint query_loop {T} (max_attempts : nat) (delay : Z) (context : string)
  (find_fn : ChainState.t -> option T) (n attempt : nat) : relay_prog (result T string) :=
  match n with
  | O => Ret (Err (context +:+ ": not found in on-chain state after "
                     +:+ pretty (Z.of_nat max_attempts) +:+ " attempts"))
  | S n =>
      let again :=
        if (attempt <? max_attempts - 1)%nat then sleep delay else Ret tt in
      let* r := op QueryState in
      match r with
      | Ok state =>
          match find_fn state with
          | Some item => Ret (Ok item)
          | None => again ;; query_loop max_attempts delay context find_fn n (S attempt)
          end
      | Err e =>
          if (attempt <? max_attempts - 1)%nat
          then sleep delay ;; query_loop max_attempts delay context find_fn n (S attempt)
          else Ret (Err ("state query failed after " +:+ pretty (Z.of_nat max_attempts)
                           +:+ " attempts: " +:+ error_display e))
      end
  end.

Definition query_state_with_retry {T} (max_attempts : nat) (delay : Z) (context : string)
  (find_fn : ChainState.t -> option T) : relay_prog (result T string) :=
  query_loop max_attempts delay context find_fn max_attempts 0.
End helpers.

#[global] Arguments submit_contract_tx_with_retry : simpl never.
#[global] Arguments query_state_with_retry : simpl never.

(** ** What the retry loops do

    The log of a run is observed through partial functions on answered requests. *)

Section observe.
Context `{Externals}.

(** The state a successful [query_state] returned. *)
Definition queried (e : event resp) : option ChainState.t :=
  match e with existT (ROp QueryState) (Ok st) => Some st | _ => None end.

(** The transaction hash a successful [submit_tx] returned. *)
Definition submitted (e : event resp) : option string :=
  match e with existT (ROp (SubmitTx _)) (Ok hash) => Some hash | _ => None end.

(** The requests a computation makes are all in [R], it leaves the shared state
    alone, and what it observes is [g v] when it returns [Ok v] and nothing when it
    returns an error. *)
Definition effect_spec {T E X} (p : relay_prog (result T E)) (R : Req -> Prop)
  (obs : event resp -> option X) (g : T -> list X) : Prop :=
  forall s l, wp p s l (fun o s' l' =>
    s' = s /\ exists r l1, o = Done r /\ l' = l ++ l1 /\
      Forall (fun e : event resp => R (projT1 e)) l1 /\
      omap obs l1 = match r with Ok v => g v | Err _ => [] end).

Lemma wp_effect_spec {T E X} (p : relay_prog (result T E)) R (obs : event resp -> option X) g s l Q :
  effect_spec p R obs g ->
  (forall r l1, Forall (fun e : event resp => R (projT1 e)) l1 ->
     omap obs l1 = match r with Ok v => g v | Err _ => [] end -> Q (Done r) s (l ++ l1)) ->
  wp p s l Q.
Proof.
  intros Hp HQ. eapply wp_mono; [|apply Hp]. cbn.
  intros o s' l' (-> & r & l1 & -> & -> & H1 & H2). by apply HQ.
Qed.

(** The retry loop inherits the effects of its body: failed attempts leave no
    observation, and it stops at the first success. *)
Lemma submit_effect_spec {T X} ctx max delay (body : relay_prog (result T CardanoError)) R
  (obs : event resp -> option X) g :
  effect_spec body R obs g -> R (RSleep delay) ->
  (forall x, obs (existT (RSleep delay) x) = None) ->
  effect_spec (submit_contract_tx_with_retry ctx max delay body) R obs g.
Proof.
  intros Hb HR Hobs. unfold submit_contract_tx_with_retry.
  generalize ""%string as le, 0%nat as at_. generalize max at 2 as n. intros n.
  induction n as [|n IH]; intros le at_ s l; cbn.
  { split; [done|]. eexists _, []. by rewrite app_nil_r. }
  apply wp_bind. eapply wp_mono with (Q := fun o s' l' => o = Done tt /\ s' = s /\ exists l0,
    l' = l ++ l0 /\ Forall (fun e : event resp => R (projT1 e)) l0 /\ omap obs l0 = []).
  - intros o s' l' (-> & -> & l0 & -> & H0 & E0). cbn. apply wp_bind.
    eapply wp_effect_spec; [done|]. intros r l1 H1 E1. cbn. destruct r as [v|e]; cbn.
    + split; [done|]. eexists _, (l0 ++ l1). rewrite app_assoc, omap_app, E0, E1, Forall_app. done.
    + destruct (negb _); cbn.
      * split; [done|]. eexists _, (l0 ++ l1). rewrite app_assoc, omap_app, E0, E1, Forall_app. done.
      * eapply wp_effect_spec; [apply IH|]. intros r2 l2 H2 E2. split; [done|].
        eexists _, (l0 ++ l1 ++ l2). rewrite !omap_app, E0, E1, E2, !Forall_app, !app_assoc. done.
  - destruct (0 <? at_)%nat; cbn.
    + intros []. split; [done|]. split; [done|]. eexists. split; [done|].
      split; [by apply Forall_singleton|]. cbn. by rewrite Hobs.
    + split; [done|]. split; [done|]. exists []. by rewrite app_nil_r.
Qed.

(** A success of the loop is a success of its last attempt: what [P] says of the log of a
    successful body holds of the end of the loop's log. *)
Lemma wp_submit_last {T} ctx max delay (body : relay_prog (result T CardanoError))
  (P : T -> list (event resp) -> Prop) s l :
  (forall s l, wp body s l (fun o s' l' => s' = s /\ exists r l1, o = Done r /\ l' = l ++ l1 /\
     forall v, r = Ok v -> P v l1)) ->
  wp (submit_contract_tx_with_retry ctx max delay body) s l (fun o s' l' =>
    s' = s /\ exists r l1, o = Done r /\ l' = l ++ l1 /\
      forall v, r = Ok v -> exists l0 l2, l1 = l0 ++ l2 /\ P v l2).
Proof.
  intros Hb. unfold submit_contract_tx_with_retry.
  generalize ""%string as le, 0%nat as at_. generalize max at 2 as n. intros n.
  revert l. induction n as [|n IH]; intros l le at_; cbn.
  { split; [done|]. eexists _, []. by rewrite app_nil_r. }
  apply wp_bind. eapply wp_mono with (Q := fun o s' l' => o = Done tt /\ s' = s /\ exists l0, l' = l ++ l0).
  - intros o s' l' (-> & -> & l0 & ->). cbn. apply wp_bind. eapply wp_mono; [|apply Hb]. cbn.
    intros o s' l' (-> & r & l1 & -> & -> & HP). cbn. destruct r as [v|e]; cbn.
    + split; [done|]. exists (Ok v), (l0 ++ l1). rewrite app_assoc. split_and!; [done..|].
      intros v' [= <-]. eauto.
    + destruct (negb _); cbn.
      * split; [done|]. eexists _, (l0 ++ l1). by rewrite app_assoc.
      * eapply wp_mono; [|apply IH]. cbn. intros o s' l' (-> & r & l2 & -> & -> & HP2).
        split; [done|]. exists r, (l0 ++ l1 ++ l2). rewrite !app_assoc. split_and!; [done..|].
        intros v Hv. destruct (HP2 v Hv) as (l3 & l4 & -> & ?). exists (l0 ++ l1 ++ l3), l4.
        by rewrite !app_assoc.
  - destruct (0 <? at_)%nat; cbn; [intros []; eauto|]. split; [done|]. split; [done|].
    exists []. by rewrite app_nil_r.
Qed.

(** The closures that are retried build a transaction, which submits nothing, and
    submit it. *)
Lemma build_submit_spec (build : relay_prog (result string CardanoError)) (R : Req -> Prop) :
  (forall tx, R (ROp (SubmitTx tx))) ->
  effect_spec build R submitted (fun _ => []) ->
  effect_spec (bind_try build (fun tx => op (SubmitTx tx))) R submitted (fun hash => [hash]).
Proof.
  intros HR Hb s l. unfold bind_try. apply wp_bind. eapply wp_effect_spec; [exact Hb|].
  intros [tx|e] l1 H1 E1; cbn.
  - intros x. split; [done|]. exists x, (l1 ++ [existT (ROp (SubmitTx tx)) x]).
    rewrite app_assoc, omap_app, E1, Forall_app. repeat split; [done|by apply Forall_singleton, HR|].
    by destruct x.
  - split; [done|]. by exists (Err e), l1.
Qed.

(** The same for a closure that also returns the id the operator chose. *)
Lemma create_submit_spec (build : relay_prog (result (Z * string) CardanoError)) (R : Req -> Prop) :
  (forall tx, R (ROp (SubmitTx tx))) ->
  effect_spec build R submitted (fun _ => []) ->
  effect_spec (bind_try build (fun '(id, tx) =>
    bind_try (op (SubmitTx tx)) (fun hash => Ret (Ok (id, hash))))) R submitted
    (fun '(_, hash) => [hash]).
Proof.
  intros HR Hb s l. unfold bind_try at 1. apply wp_bind. eapply wp_effect_spec; [exact Hb|].
  intros [[id tx]|e] l1 H1 E1; cbn.
  - intros x. destruct x as [hash|e]; cbn; (split; [done|]).
    + exists (Ok (id, hash)). eexists (l1 ++ [_]). rewrite app_assoc, omap_app, E1, Forall_app.
      repeat split; [done|by apply Forall_singleton, HR].
    + exists (Err e). eexists (l1 ++ [_]). rewrite app_assoc, omap_app, E1, Forall_app.
      repeat split; [done|by apply Forall_singleton, HR].
  - split; [done|]. by exists (Err e), l1.
Qed.

Definition is_query (delay : Z) (r : Req) : Prop := r = ROp QueryState \/ r = RSleep delay.

(** What a query loop says about the states it saw. *)
Definition found_in {T} (find_fn : ChainState.t -> option T) (r : result T string)
  (sts : list ChainState.t) : Prop :=
  match r with
  | Ok item => exists st, st ∈ sts /\ find_fn st = Some item
  | Err _ => forall st, st ∈ sts -> find_fn st = None
  end.

(** The log so far of a query loop that has found nothing. *)
Definition misses {T} (delay : Z) (find_fn : ChainState.t -> option T) (l : list (event resp)) :
  Prop :=
  Forall (fun e : event resp => is_query delay (projT1 e)) l /\
  forall st, st ∈ omap queried l -> find_fn st = None.

Lemma misses_snoc {T} delay (find_fn : ChainState.t -> option T) l (e : event resp) :
  misses delay find_fn l -> is_query delay (projT1 e) ->
  (forall st, queried e = Some st -> find_fn st = None) -> misses delay find_fn (l ++ [e]).
Proof.
  intros [H1 H2] He Hq. split; [apply Forall_app_2; [done|by apply Forall_singleton]|].
  intros st. rewrite omap_app, elem_of_app. intros [?|Hin]; [auto|]. cbn in Hin.
  destruct (queried e) as [st'|] eqn:E; [|set_solver].
  apply list_elem_of_singleton in Hin as ->. auto.
Qed.

Lemma wp_query {T} max delay ctx (find_fn : ChainState.t -> option T) s l Q :
  (forall r l', Forall (fun e : event resp => is_query delay (projT1 e)) l' ->
     found_in find_fn r (omap queried l') -> Q (Done r) s (l ++ l')) ->
  wp (query_state_with_retry max delay ctx find_fn) s l Q.
Proof.
  unfold query_state_with_retry. intros HQ.
  assert (forall n at_ l0, misses delay find_fn l0 ->
    wp (query_loop max delay ctx find_fn n at_) s (l ++ l0) Q) as Hgen.
  2: { rewrite <- (app_nil_r l). apply Hgen. split; [constructor|set_solver]. }
  assert (is_query delay (ROp QueryState)) as Hq by (by left).
  induction n as [|n IH]; intros at_ l0 H0; cbn.
  { destruct H0. by apply HQ. }
  intros [st|e].
  - destruct (find_fn st) as [item|] eqn:E; cbn.
    + rewrite <- app_assoc. apply HQ.
      * apply Forall_app_2; [apply H0|by apply Forall_singleton].
      * exists st. split; [|done]. rewrite omap_app, elem_of_app. right. cbn. set_solver.
    + assert (misses delay find_fn (l0 ++ [existT (ROp QueryState) (Ok st)])) as H1.
      { apply misses_snoc; [done..|]. intros st' [= <-]. done. }
      destruct (at_ <? max - 1)%nat; cbn; [intros []|]; rewrite <- !app_assoc, ?(app_assoc l0).
      * apply IH, misses_snoc; [done|by right|done].
      * by apply IH.
  - assert (misses delay find_fn (l0 ++ [existT (ROp QueryState) (Err e)])) as H1.
    { by apply misses_snoc. }
    destruct (at_ <? max - 1)%nat; cbn; [intros []|]; rewrite <- !app_assoc, ?(app_assoc l0).
    + apply IH, misses_snoc; [done|by right|done].
    + destruct H1. by apply HQ.
Qed.
End observe.

(** ** The loops only make requests *)

Section calls.
Context `{Externals}.

Lemma calls_ok_submit {T} R ctx n delay (body : relay_prog (result T CardanoError)) :
  R (RSleep delay) -> calls_ok R body ->
  calls_ok R (submit_contract_tx_with_retry ctx n delay body).
Proof.
  intros Hs Hb. unfold submit_contract_tx_with_retry. generalize ""%string as le, 0%nat as at_.
  generalize n at 2 as m. induction m as [|m IH]; intros le at_; cbn; [done|].
  apply calls_ok_bind; [destruct (0 <? at_)%nat; cbn; auto|]. intros _.
  apply calls_ok_bind; [done|]. intros [v|e]; [done|]. destruct (negb _); [done|apply IH].
Qed.

Lemma calls_ok_query {T} (R : Req -> Prop) n delay ctx (find_fn : ChainState.t -> option T) :
  R (RSleep delay) -> R (ROp QueryState) ->
  calls_ok R (query_state_with_retry n delay ctx find_fn).
Proof.
  intros Hs Hq. unfold query_state_with_retry. generalize 0%nat as at_. generalize n at 2 as m.
  induction m as [|m IH]; intros at_; cbn; [done|]. split; [done|]. intros [st'|e].
  - destruct (find_fn st'); [done|]. apply calls_ok_bind; [destruct (_ <? _)%nat; cbn; auto|]. auto.
  - destruct (_ <? _)%nat; cbn; auto.
Qed.
End calls.

(** ** Runs in which the first attempt succeeds *)

Section exec.
Context `{Externals} {W : Type} `{!Env W}.

Lemma exec_query_found {T B} n delay ctx (find_fn : ChainState.t -> option T) st item
  (k : result T string -> relay_prog B) s (w : W) :
  (answer (ROp QueryState) w).1 = Ok st -> find_fn st = Some item ->
  exec (bind (query_state_with_retry (S n) delay ctx find_fn) k) s w
  = log_cons (existT (ROp QueryState) (Ok st))
      (exec (k (Ok item)) s (answer (ROp QueryState) w).2).
Proof. intros Eq Hf. unfold exec, query_state_with_retry. cbn in *. by rewrite Eq, Hf. Qed.

Lemma exec_submit_first {T B} n delay ctx (body : relay_prog (result T CardanoError)) v s' w' l'
  (k : result T string -> relay_prog B) s (w : W) :
  exec body s w = RunResult (Done (Ok v)) s' w' l' ->
  exec (bind (submit_contract_tx_with_retry ctx (S n) delay body) k) s w
  = log_app l' (exec (k (Ok v)) s' w').
Proof.
  intros E. unfold exec in *. rewrite run_bind. unfold run_then.
  unfold submit_contract_tx_with_retry. cbn [submit_loop].
  change (0 <? 0)%nat with false. cbn. rewrite run_bind, E.
  unfold run_then. cbn. by rewrite app_nil_r.
Qed.
End exec.

(** Solve the [effect_spec] of a single operator request that is not a submission. *)
Ltac op_spec :=
  let x := fresh "x" in
  intros ? ? x; split; [done|]; exists x; eexists [_]; repeat split;
  [by apply Forall_singleton | by destruct x].

(** Close a goal that every logged request satisfies a predicate. *)
Ltac log_forall :=
  cbn; repeat first [apply Forall_cons_2 | apply Forall_app_2]; try done; try by apply Forall_nil.
(** Compute an observation of a log from those of its parts. *)
Ltac log_omap :=
  cbn; rewrite ?omap_app;
  repeat match goal with E : omap _ _ = _ |- _ => rewrite E; clear E end; done.
