(* ===== verification/Rows.v ===== *)
(** * Loops over the rows of a table

    Recovery and the expiry monitors read a list of rows and treat each in turn,
    with requests to the operator in between: [for mapping in &rows { ... }]. *)

From S2P Require Import Prelude Effects Mapping MappingFacts MappingSpec Types RateLimiter World.
Import SwapDb.

Fixpoint for_each `{Externals} {A} (xs : list A) (body : A -> relay_prog unit) : relay_prog unit :=
  match xs with
  | [] => Ret tt
  | x :: xs => bind (body x) (fun _ => for_each xs body)
  end.

#[global] Arguments for_each : simpl never.

Lemma calls_for_each `{Externals} {A} (R : Req -> Prop) (xs : list A) (body : A -> relay_prog unit) :
  (forall x, x ∈ xs -> calls_ok R (body x)) -> calls_ok R (for_each xs body).
Proof.
  unfold for_each. induction xs as [|x xs IH]; intros Hb; [done|].
  apply calls_ok_bind; [apply Hb; set_solver|]. intros _. apply IH. set_solver.
Qed.

Lemma steps_for_each `{Externals} {A} P R (xs : list A) (body : A -> relay_prog unit) :
  (forall x, steps_ok P R (body x)) -> steps_ok P R (for_each xs body).
Proof.
  unfold for_each. intros Hb. induction xs as [|x xs IH]; [done|]. by apply steps_ok_bind.
Qed.

Section rows.
Context `{Externals} {K M : Type} (key : M -> K) (get : K -> t -> option M).

(** One iteration: it changes no row but its own, which becomes [x'] with
    [R x x' seg], where [seg] are the requests it made. *)
Definition row_step (R : M -> M -> list (event resp) -> Prop) (x : M) (s : Relay)
  (l : list (event resp)) (o : outcome unit) (s' : Relay) (l' : list (event resp)) : Prop :=
  o = Done tt /\ db_wf (swap_db s') /\ s' = set_db s (swap_db s') /\
  (forall k, k <> key x -> get k (swap_db s') = get k (swap_db s)) /\
  exists x' seg, l' = l ++ seg /\ get (key x) (swap_db s') = Some x' /\ R x x' seg.

(** The whole loop over [xs]: every row treated once, the others untouched, and
    the log is made of the segments of the iterations. *)
Definition rows_done (R : M -> M -> list (event resp) -> Prop) (xs : list M) (s : Relay)
  (s' : Relay) (l : list (event resp)) : Prop :=
  db_wf (swap_db s') /\ s' = set_db s (swap_db s') /\
  (forall k, k ∉ (key <$> xs) -> get k (swap_db s') = get k (swap_db s)) /\
  exists segs, l = concat segs /\
    Forall2 (fun x seg => exists x', get (key x) (swap_db s') = Some x' /\ R x x' seg) xs segs.

Lemma set_db_set_db s db db' : set_db (set_db s db) db' = set_db s db'.
Proof. done. Qed.

Lemma wp_for_rows R (body : M -> relay_prog unit) xs s l Q :
  db_wf (swap_db s) -> NoDup (key <$> xs) ->
  (forall x, x ∈ xs -> get (key x) (swap_db s) = Some x) ->
  (forall x s1 l1, x ∈ xs -> db_wf (swap_db s1) -> get (key x) (swap_db s1) = Some x ->
     wp (body x) s1 l1 (row_step R x s1 l1)) ->
  (forall s' l1, rows_done R xs s s' l1 -> Q (Done tt) s' (l ++ l1)) ->
  wp (for_each xs body) s l Q.
Proof.
  revert s l Q. induction xs as [|x xs IH]; intros s l Q Hwf Hnd Hget Hbody HQ.
  { cbn. rewrite <- (app_nil_r l). apply HQ. split; [done|].
    split; [by destruct s|]. split; [done|]. exists []. by split; [|constructor]. }
  unfold for_each; fold (@for_each _ M). rewrite fmap_cons in Hnd. apply NoDup_cons in Hnd as [Hx Hnd].
  assert (forall y, y ∈ xs -> key y <> key x) as Hne.
  { intros y Hy E. apply Hx. rewrite <- E. by apply list_elem_of_fmap_2. }
  apply wp_bind. eapply wp_mono; [|apply (Hbody x); [set_solver|done|apply Hget; set_solver]].
  intros o s1 l1 (-> & Hwf1 & Hs1 & Hoth & x' & seg & -> & Hx' & HR). cbn [wp_cont].
  apply IH; [done|done| | |].
  { intros y Hy. rewrite Hoth by auto. apply Hget. set_solver. }
  { intros y s2 l2 Hy. apply Hbody. set_solver. }
  intros s2 l2 (Hwf2 & Hs2 & Hoth2 & segs & -> & Hsegs). rewrite <- app_assoc. apply HQ.
  split; [done|]. split; [by rewrite Hs2, Hs1|]. split.
  - intros k Hk. rewrite fmap_cons, not_elem_of_cons in Hk. rewrite Hoth2, Hoth by tauto. done.
  - exists (seg :: segs). split; [done|]. constructor; [|done].
    exists x'. split; [|done]. by rewrite Hoth2.
Qed.
End rows.

(** A finished loop, seen from one of its rows. *)
Lemma rows_done_elem `{Externals} {K M} (key : M -> K) get R xs s s' l x :
  rows_done key get R xs s s' l -> x ∈ xs ->
  exists x' a seg b, l = a ++ seg ++ b /\ get (key x) (swap_db s') = Some x' /\ R x x' seg.
Proof.
  intros (_ & _ & _ & segs & -> & HF) Hx.
  apply list_elem_of_lookup in Hx as [i Hi].
  destruct (Forall2_lookup_l _ _ _ _ _ HF Hi) as (seg & Hseg & x' & Hx' & HR).
  exists x', (concat (take i segs)), seg, (concat (drop (S i) segs)).
  split; [|done]. rewrite <- (take_drop_middle segs i seg Hseg) at 1.
  by rewrite concat_app.
Qed.

(** Every request of a finished loop comes from one of its iterations. *)
Lemma rows_done_requests `{Externals} {K M} (key : M -> K) get R xs s s' l (P : event resp -> Prop) :
  (forall x x' seg, x ∈ xs -> R x x' seg -> Forall P seg) ->
  rows_done key get R xs s s' l -> Forall P l.
Proof.
  intros HP (_ & _ & _ & segs & -> & HF). apply Forall_concat.
  induction HF as [|x seg xs segs (x' & _ & HR) _ IH]; constructor.
  - eapply HP; [|done]. set_solver.
  - apply IH. intros y y' sg Hy. apply HP. set_solver.
Qed.

(** ** The rows the queries return *)

Lemma filter_sublist_key {R K} (key : R -> K) P (rows : list R) :
  NoDup (key <$> rows) -> NoDup (key <$> List.filter P rows).
Proof.
  induction rows as [|r rows IH]; cbn; [done|]. rewrite NoDup_cons. intros [Hr Hnd].
  destruct (P r); cbn; [|auto]. constructor; [|auto].
  intros (x & E & Hx)%list_elem_of_fmap. apply Hr. rewrite E. apply list_elem_of_fmap_2.
  apply list_elem_of_In in Hx. apply filter_In in Hx as [Hx _]. by apply list_elem_of_In.
Qed.

Lemma swap_rows_NoDup P db :
  db_wf db -> NoDup (Swap.payment_hash <$> (row_to_swap <$> List.filter P (swap_mappings db))).
Proof.
  intros Hwf. rewrite <- list_fmap_compose. apply (filter_sublist_key Swap.payment_hash).
  apply (wf_swap_keys db Hwf).
Qed.

Lemma offramp_rows_NoDup P db :
  db_wf db -> NoDup (Offramp.offramp_id <$> (row_to_offramp <$> List.filter P (offramp_mappings db))).
Proof.
  intros Hwf. rewrite <- list_fmap_compose. apply (filter_sublist_key Offramp.offramp_id).
  apply StronglySorted_lt_NoDup, wf_offramp_keys, Hwf.
Qed.
