(* ===== verification/Peers.v ===== *)
(** * Peers and channels ([src/src/cli/peer_cmds.rs], [src/src/cli/channel_cmds.rs],
    [src/src/background.rs], the connection task of [src/src/events.rs])

    Connecting is a loop around a future that ends when the connection is closed: the
    answer to [RConnectOutbound] says for how many polls of ten milliseconds it stays
    pending.  A connection that neither closes nor finishes its handshake is not
    expressible; LDK closes such connections. *)

From S2P Require Import Prelude Effects HexUtils Text Mapping Types RateLimiter World Rows.
Open Scope prog_scope.

Section peers.
Context `{Externals}.

(** The loop of [do_connect_peer]. *)
Fixpoint await_peer (pubkey : bytes) (polls : nat) : relay_prog (result unit unit) :=
  match polls with
  | O => Ret (Err tt)
  | S polls =>
      call (RSleepMs 10) ;;
      let* known := call (RPeerByNodeId pubkey) in
      if known : bool then Ret (Ok tt) else await_peer pubkey polls
  end.

Definition do_connect_peer (pubkey : bytes) (peer_addr : string) : relay_prog (result unit unit) :=
  let* c := call (RConnectOutbound pubkey peer_addr) in
  match c with
  | Some polls => await_peer pubkey polls
  | None => Ret (Err tt)
  end.

Definition connect_peer_if_necessary (pubkey : bytes) (peer_addr : string) :
  relay_prog (result unit unit) :=
  let* known := call (RPeerByNodeId pubkey) in
  if known : bool then Ret (Ok tt) else do_connect_peer pubkey peer_addr.

Definition do_disconnect_peer (pubkey : bytes) : relay_prog (result unit unit) :=
  let* chans := call RListChannels in
  if existsb (fun c => bool_decide (ChannelDetails.counterparty c = pubkey)) chans
  then Ret (Err tt)
  else
    let* known := call (RPeerByNodeId pubkey) in
    if negb known then Ret (Err tt)
    else call (RDisconnect pubkey) ;; Ret (Ok tt).

(** The text before and after the first [@]; a second [@] ends the address. *)
Definition pubkey_and_addr (s : string) : option string * option string :=
  let parts := split_on AT s in (parts !! 0%nat, parts !! 1%nat).

Definition compressed_pubkey : string -> option bytes := to_compressed_pubkey pubkey_from_slice.

Definition parse_peer_info (peer_pubkey_and_ip_addr : string) :
  relay_prog (result (bytes * string) string) :=
  match pubkey_and_addr peer_pubkey_and_ip_addr with
  | (_, None) =>
      Ret (Err "ERROR: incorrectly formatted peer info. Should be formatted as: `pubkey@host:port`")
  | (pubkey, Some peer_addr_str) =>
      let* peer_addr := call (RResolve (Clearnet peer_addr_str)) in
      match head <$> res_ok peer_addr with
      | None | Some None =>
          Ret (Err "ERROR: couldn't parse pubkey@host:port into a socket address")
      | Some (Some addr) =>
          match pubkey ≫= compressed_pubkey with
          | None => Ret (Err "ERROR: unable to parse given pubkey for node")
          | Some pk => Ret (Ok (pk, addr))
          end
      end
  end.

Definition open_channel (peer_pubkey : bytes) (channel_amt_sat : Z)
  (announce_for_forwarding with_anchors : bool) : relay_prog (result unit unit) :=
  let config := ChannelConfig.mk 2016 announce_for_forwarding with_anchors in
  let* r := call (RCreateChannel peer_pubkey channel_amt_sat 0 0 config) in
  match r with Ok _ => Ret (Ok tt) | Err _ => Ret (Err tt) end.

Definition close_channel (channel_id counterparty_node_id : bytes) : relay_prog unit :=
  let* _ := call (RCloseChannel channel_id counterparty_node_id) in Ret tt.

Definition force_close_channel (channel_id counterparty_node_id : bytes) : relay_prog unit :=
  let* _ := call (RForceClose channel_id counterparty_node_id "Manually force-closed") in Ret tt.

(** ** Background tasks *)

Definition non_onion (a : NodeAddress) : option NodeAddress :=
  match a with OnionV2 | OnionV3 => None | _ => Some a end.

(** The body of the loop of [reconnect_peers], for one disconnected peer: every
    resolved address is dialled, also after one of them has connected. *)
Definition reconnect_peer (node_id : bytes) : relay_prog unit :=
  let* node := call (RNodeAddresses node_id) in
  let addrs := match node with Some (Some l) => omap non_onion l | _ => [] end in
  for_each addrs (fun addr =>
    let* sockaddrs := call (RResolve addr) in
    match sockaddrs with
    | Err _ => Ret tt
    | Ok sockaddrs =>
        for_each sockaddrs (fun sockaddr => let* _ := do_connect_peer node_id sockaddr in Ret tt)
    end).

(** The filter is lazy: a peer is looked up when the loop reaches it.  The result says
    whether the task goes on. *)
Fixpoint reconnect_loop (node_ids : list bytes) : relay_prog bool :=
  match node_ids with
  | [] => Ret true
  | node_id :: rest =>
      let* known := call (RPeerByNodeId node_id) in
      if known : bool then reconnect_loop rest
      else
        let* stop := call RStopped in
        if stop : bool then Ret false
        else reconnect_peer node_id ;; reconnect_loop rest
  end.

Definition reconnect_peers_tick : relay_prog bool :=
  let* chans := call RListChannels in
  reconnect_loop (map ChannelDetails.counterparty chans).

Definition broadcast_node_announcement_tick (announced_node_name : bytes)
  (announced_listen_addr : list string) : relay_prog unit :=
  let* chans := call RListChannels in
  if existsb ChannelDetails.is_announced chans
  then call (RBroadcastAnnouncement announced_node_name announced_listen_addr)
  else Ret tt.

(** The task spawned for [Event::ConnectionNeeded]: it ends at the first address that
    leads to a connection. *)
Fixpoint connect_any (node_id : bytes) (sockaddrs : list string) : relay_prog bool :=
  match sockaddrs with
  | [] => Ret false
  | addr :: rest =>
      let* r := connect_peer_if_necessary node_id addr in
      if is_ok r then Ret true else connect_any node_id rest
  end.

Fixpoint connection_needed (node_id : bytes) (addresses : list NodeAddress) : relay_prog unit :=
  match addresses with
  | [] => Ret tt
  | address :: rest =>
      let* r := call (RResolve address) in
      match r with
      | Ok sockaddrs =>
          let* connected := connect_any node_id sockaddrs in
          if connected : bool then Ret tt else connection_needed node_id rest
      | Err _ => connection_needed node_id rest
      end
  end.
End peers.

(** ** What a connection attempt observes *)

Section facts.
Context `{Externals}.

(** The peer manager knew the peer. *)
Definition known (pk : bytes) (e : event resp) : Prop :=
  match e with existT (RPeerByNodeId k) b => k = pk /\ b = true | _ => False end.

Definition dial_request (pk : bytes) (addrs : list string) (r : Req) : Prop :=
  match r with
  | RPeerByNodeId k => k = pk
  | RConnectOutbound k a => k = pk /\ a ∈ addrs
  | RSleepMs n => n = 10
  | _ => False
  end.

(** An attempt has succeeded exactly when its last request found the peer, and no
    earlier one did. *)
Definition attempted (pk : bytes) (ok : bool) (l : list (event resp)) : Prop :=
  if ok then exists l0, l = l0 ++ [existT (RPeerByNodeId pk) true] /\ Forall (fun e => ~ known pk e) l0
  else Forall (fun e => ~ known pk e) l.

Lemma attempted_app pk ok l1 l2 :
  Forall (fun e => ~ known pk e) l1 -> attempted pk ok l2 -> attempted pk ok (l1 ++ l2).
Proof.
  intros H1 H2. destruct ok; cbn in *; [|by apply Forall_app_2].
  destruct H2 as (l0 & -> & H0). exists (l1 ++ l0). rewrite app_assoc. split; [done|].
  by apply Forall_app_2.
Qed.

Lemma attempted_cons pk ok e l : ~ known pk e -> attempted pk ok l -> attempted pk ok (e :: l).
Proof. intros He. apply (attempted_app pk ok [e]). by apply Forall_singleton. Qed.

Definition dials (pk : bytes) (addrs : list string) (l : list (event resp)) : Prop :=
  Forall (fun e : event resp => dial_request pk addrs (projT1 e)) l.

Definition attempt_spec (pk : bytes) (addrs : list string) (p : relay_prog (result unit unit)) : Prop :=
  forall s l (Q : outcome (result unit unit) -> Relay -> list (event resp) -> Prop),
    (forall r l', dials pk addrs l' -> attempted pk (is_ok r) l' -> Q (Done r) s (l ++ l')) ->
    wp p s l Q.

Lemma attempt_step pk addrs r (k : resp r -> relay_prog (result unit unit)) :
  dial_request pk addrs r -> (forall x, ~ known pk (existT r x)) ->
  (forall x, attempt_spec pk addrs (k x)) -> attempt_spec pk addrs (bind (call r) k).
Proof.
  intros Hr Hx Hk s l Q HQ x. apply Hk. intros v l' Hd Ha. rewrite <- app_assoc. apply HQ.
  - by apply Forall_cons.
  - by apply attempted_cons.
Qed.

(** A look-up of the peer ends the attempt when the peer is there. *)
Lemma attempt_lookup pk addrs p :
  attempt_spec pk addrs p ->
  attempt_spec pk addrs
    (bind (call (RPeerByNodeId pk)) (fun b : bool => if b then Ret (Ok tt) else p)).
Proof.
  intros Hp s l Q HQ [].
  - cbn. apply HQ; [by apply Forall_singleton|]. cbn. by exists [].
  - apply Hp. intros v l' Hd Ha. rewrite <- app_assoc. apply HQ.
    + by apply Forall_cons.
    + apply attempted_cons; [|done]. by intros [].
Qed.

Lemma attempt_fail pk addrs : attempt_spec pk addrs (Ret (Err tt)).
Proof. intros s l Q HQ. cbn. rewrite <- (app_nil_r l). apply HQ; constructor. Qed.

Lemma attempt_await pk addrs n : attempt_spec pk addrs (await_peer pk n).
Proof.
  induction n as [|n IH]; cbn; [apply attempt_fail|].
  apply (attempt_step pk addrs (RSleepMs 10)); [done|by intros ? []|]. intros _. by apply attempt_lookup.
Qed.

Lemma attempt_do_connect pk addrs a : a ∈ addrs -> attempt_spec pk addrs (do_connect_peer pk a).
Proof.
  intros Ha. apply attempt_step; [done|by intros ? []|]. intros [n|]; [apply attempt_await|apply attempt_fail].
Qed.

Lemma attempt_connect pk addrs a :
  a ∈ addrs -> attempt_spec pk addrs (connect_peer_if_necessary pk a).
Proof. intros Ha. by apply attempt_lookup, attempt_do_connect. Qed.

Lemma dials_mono pk addrs addrs' l : addrs ⊆ addrs' -> dials pk addrs l -> dials pk addrs' l.
Proof.
  intros Hs Hd. eapply Forall_impl; [exact Hd|]. intros [r x]. destruct r; cbn; try done. set_solver.
Qed.

Lemma wp_connect_any pk addrs s l Q :
  (forall b l', dials pk addrs l' -> attempted pk b l' -> Q (Done b) s (l ++ l')) ->
  wp (connect_any pk addrs) s l Q.
Proof.
  assert (forall rest l0, rest ⊆ addrs -> dials pk addrs l0 -> Forall (fun e => ~ known pk e) l0 ->
    (forall b l', dials pk addrs l' -> attempted pk b l' -> Q (Done b) s (l ++ l')) ->
    wp (connect_any pk rest) s (l ++ l0) Q) as Hgen.
  2: { intros HQ. rewrite <- (app_nil_r l). apply Hgen; [done|constructor|constructor|done]. }
  induction rest as [|a rest IH]; intros l0 Hsub Hd Hk HQ; cbn [connect_any]; [by apply HQ|].
  apply wp_bind, (attempt_connect pk addrs a); [set_solver|]. intros r l' Hd' Ha.
  rewrite <- app_assoc. destruct r as [u|u]; cbn in *.
  - apply HQ; [by apply Forall_app_2|]. by apply (attempted_app pk true).
  - apply IH; [set_solver|by apply Forall_app_2|by apply Forall_app_2|done].
Qed.

(** Every address dialled for [pk] is one that a look-up among [addresses] returned. *)
Definition sourced (pk : bytes) (addresses : list NodeAddress) (l : list (event resp)) : Prop :=
  forall e, e ∈ l ->
    match projT1 e with
    | RResolve a => a ∈ addresses
    | RConnectOutbound k a => k = pk /\ exists address found,
        address ∈ addresses /\ existT (RResolve address) (Ok found) ∈ l /\ a ∈ found
    | RPeerByNodeId k => k = pk
    | RSleepMs n => n = 10
    | _ => False
    end.

Lemma sourced_nil pk addresses : sourced pk addresses [].
Proof. intros e He. set_solver. Qed.

Lemma sourced_app_l pk addresses l l' e :
  e ∈ l -> sourced pk addresses l ->
  match projT1 e with
  | RResolve a => a ∈ addresses
  | RConnectOutbound k a => k = pk /\ exists address found,
      address ∈ addresses /\ existT (RResolve address) (Ok found) ∈ l ++ l' /\ a ∈ found
  | RPeerByNodeId k => k = pk
  | RSleepMs n => n = 10
  | _ => False
  end.
Proof.
  intros He Hl. specialize (Hl e He). destruct (projT1 e); try done.
  destruct Hl as (-> & ad & found & Had & Hin & Ha). split; [done|]. exists ad, found.
  split_and!; [done| |done]. apply elem_of_app. by left.
Qed.

Lemma sourced_resolve pk addresses l a x :
  a ∈ addresses -> sourced pk addresses l -> sourced pk addresses (l ++ [existT (RResolve a) x]).
Proof.
  intros Ha Hl e [He| ->%list_elem_of_singleton]%elem_of_app; [|done]. by apply sourced_app_l.
Qed.

Lemma sourced_dials pk addresses l a found l' :
  a ∈ addresses -> sourced pk addresses l -> dials pk found l' ->
  sourced pk addresses ((l ++ [existT (RResolve a) (Ok found)]) ++ l').
Proof.
  intros Ha Hl Hd e [He|He]%elem_of_app.
  - apply (sourced_resolve _ _ _ _ (Ok found) Ha) in Hl. by apply sourced_app_l.
  - pose proof (proj1 (Forall_forall _ _) Hd e He) as Hr. cbn beta in Hr.
    destruct (projT1 e); cbn in Hr; try done.
    destruct Hr as [-> Hin]. split; [done|]. exists a, found.
    split_and!; [done| |done]. rewrite !elem_of_app, list_elem_of_singleton. tauto.
Qed.

Lemma wp_connection_needed pk addresses s l Q :
  (forall b l', sourced pk addresses l' -> attempted pk b l' -> Q (Done tt) s (l ++ l')) ->
  wp (connection_needed pk addresses) s l Q.
Proof.
  intros HQ. assert (forall rest l0, rest ⊆ addresses -> sourced pk addresses l0 ->
    Forall (fun e => ~ known pk e) l0 -> wp (connection_needed pk rest) s (l ++ l0) Q) as Hgen.
  2: { rewrite <- (app_nil_r l). apply Hgen; [done|apply sourced_nil|constructor]. }
  induction rest as [|a rest IH]; intros l0 Hsub Hs Hk; cbn; [by apply (HQ false)|].
  assert (a ∈ addresses) as Ha by set_solver.
  assert (forall x, Forall (fun e => ~ known pk e) (l0 ++ [existT (RResolve a) x])) as Hk'.
  { intros x. apply Forall_app_2; [done|]. apply Forall_singleton. by intros []. }
  intros [found|e]; rewrite <- app_assoc.
  - apply wp_bind, wp_connect_any. intros b l' Hd Hatt. rewrite <- (app_assoc l).
    assert (sourced pk addresses ((l0 ++ [existT (RResolve a) (Ok found)]) ++ l')) as Hs'
      by (by apply sourced_dials).
    destruct b; cbn.
    + apply (HQ true); [done|]. by apply attempted_app.
    + apply IH; [set_solver|done|]. by apply Forall_app_2.
  - apply IH; [set_solver|by apply sourced_resolve|done].
Qed.

(** The requests of a reconnection round: for peers in [ids], never through Tor. *)
Definition reconnect_request (ids : list bytes) (r : Req) : Prop :=
  match r with
  | RPeerByNodeId k | RNodeAddresses k | RConnectOutbound k _ => k ∈ ids
  | RResolve a => exists text, a = Clearnet text
  | RSleepMs n => n = 10
  | RStopped => True
  | _ => False
  end.

Definition stopped (e : event resp) : Prop :=
  match e with existT RStopped b => b = true | _ => False end.

Definition reconnect_event (ids : list bytes) (e : event resp) : Prop :=
  reconnect_request ids (projT1 e) /\ ~ stopped e.

Definition not_stop (ids : list bytes) (r : Req) : Prop := reconnect_request ids r /\ r <> RStopped.

Lemma calls_do_connect ids id a :
  id ∈ ids -> calls_ok (not_stop ids) (do_connect_peer id a).
Proof.
  intros Hid. split; [by split|]. intros [n|]; [|done].
  induction n as [|n IH]; [done|]. split; [by split|]. intros ?. split; [by split|].
  by intros [].
Qed.

Lemma calls_reconnect_peer ids id :
  id ∈ ids -> calls_ok (not_stop ids) (reconnect_peer id).
Proof.
  intros Hid. split; [by split|]. intros node. apply calls_for_each. intros a Ha.
  assert (exists text, a = Clearnet text) as Htext.
  { destruct node as [[l|]|]; [|set_solver..]. apply list_elem_of_omap in Ha as ([] & _ & [= E]).
    by eexists. }
  split; [by split|]. intros [found|e]; [|done]. apply calls_for_each. intros sa _.
  apply calls_ok_bind; [by apply calls_do_connect|done].
Qed.

Lemma calls_reconnect_tick : calls_ok (fun _ => True) reconnect_peers_tick.
Proof.
  apply calls_ok_call; [done|]. intros chans. generalize (map ChannelDetails.counterparty chans) as ids.
  induction ids as [|id ids IH]; [done|]. apply calls_ok_call; [done|]. intros []; [done|].
  apply calls_ok_call; [done|]. intros []; [done|]. apply calls_ok_bind; [|done].
  eapply calls_ok_mono; [|apply (calls_reconnect_peer [id])]; [done|set_solver].
Qed.

Lemma calls_connection_needed id addresses : calls_ok (fun _ => True) (connection_needed id addresses).
Proof.
  assert (forall found, calls_ok (fun _ => True) (connect_any id found)) as Hany.
  { induction found as [|a found IH]; [done|]. apply calls_ok_bind; [|by intros []].
    apply calls_ok_call; [done|]. intros []; [done|].
    eapply calls_ok_mono; [|apply (calls_do_connect [id])]; [done|set_solver]. }
  induction addresses as [|a addresses IH]; [done|]. apply calls_ok_call; [done|].
  intros [found|e]; [|done]. apply calls_ok_bind; [done|]. by intros [].
Qed.

Lemma not_stop_event ids l :
  Forall (fun e : event resp => not_stop ids (projT1 e)) l -> Forall (reconnect_event ids) l.
Proof.
  intros Hl. eapply Forall_impl; [exact Hl|]. intros [r x] [Hr Hn]. split; [done|].
  intros Hs. by destruct r.
Qed.

Lemma wp_reconnect_loop ids rest s pre l0 Q :
  rest ⊆ ids -> Forall (reconnect_event ids) l0 ->
  (forall l, Forall (reconnect_event ids) l -> Q (Done true) s (pre ++ l)) ->
  (forall l, Forall (reconnect_event ids) l ->
     Q (Done false) s (pre ++ l ++ [existT RStopped true])) ->
  wp (reconnect_loop rest) s (pre ++ l0) Q.
Proof.
  intros Hsub Hl0 Ht Hf. revert l0 Hl0. induction rest as [|id rest IH]; intros l0 Hl0; [by apply Ht|].
  assert (id ∈ ids) as Hid by set_solver. assert (rest ⊆ ids) as Hrest by set_solver.
  assert (forall l e, Forall (reconnect_event ids) l -> reconnect_event ids e ->
    Forall (reconnect_event ids) (l ++ [e])) as Hsnoc.
  { intros. apply Forall_app_2; [done|]. by apply Forall_singleton. }
  intros []; rewrite <- app_assoc.
  { apply IH; [done|]. apply Hsnoc; [done|]. by split; [|intros []]. }
  intros []; rewrite <- app_assoc; [apply Hf, Hsnoc; [done|]; by split; [|intros []]|].
  change (wp (bind (reconnect_peer id) (fun _ => reconnect_loop rest)) s
    (pre ++ (l0 ++ [existT (RPeerByNodeId id) false]) ++ [existT RStopped false]) Q).
  apply wp_bind, (wp_calls (not_stop ids)); [by apply calls_reconnect_peer|].
  intros [] l' Hl'. rewrite <- app_assoc. apply IH; [done|]. apply Forall_app_2; [|by apply not_stop_event].
  apply Hsnoc; [apply Hsnoc; [done|]|]; (split; [done|intros Hs; by cbn in Hs]).
Qed.
End facts.

(** ** Theorems *)

Section theorems.
Context `{Externals} {W : Type} `{!Env W}.

(** The task spawned for [ConnectionNeeded] changes nothing in the relay.  It dials
    only addresses that resolving the event's addresses returned, always for the
    event's node, and it ends as soon as the peer manager knows the peer: that answer,
    if it comes at all, is the last thing the task asks for. *)
Lemma connection_needed_correct node_id addresses s (w : W) :
  let r := exec (connection_needed node_id addresses) s w in
  out r = Done tt /\ fin r = s /\ sourced node_id addresses (log r) /\
  exists connected, attempted node_id connected (log r).
Proof.
  apply (wp_exec (connection_needed node_id addresses) s w
    (fun o s' l => o = Done tt /\ s' = s /\ sourced node_id addresses l /\
                   exists b, attempted node_id b l)).
  apply wp_connection_needed. intros b l' Hs Ha. split_and!; eauto.
Qed.

(** [do_disconnect_peer] disconnects exactly the peers that are connected and with
    which no channel is listed; in every other case it returns an error and asks the
    peer manager for nothing but the look-up. *)
Lemma disconnect_peer_correct pubkey s (w : W) :
  let r := exec (do_disconnect_peer pubkey) s w in
  fin r = s /\ exists chans rest, log r = existT RListChannels chans :: rest /\
  if decide (pubkey ∈ ChannelDetails.counterparty <$> (chans : list ChannelDetails.t))
  then out r = Done (Err tt) /\ rest = []
  else exists b : bool,
    rest = existT (RPeerByNodeId pubkey) b :: (if b then [existT (RDisconnect pubkey) tt] else []) /\
    out r = Done (if b then Ok tt else Err tt).
Proof.
  cbn zeta. unfold do_disconnect_peer. rewrite exec_call.
  destruct (answer RListChannels w) as [chans w']. cbn [fst snd].
  destruct (existsb _ chans) eqn:E.
  - rewrite exec_ret. cbn. split; [done|]. exists chans, []. split; [done|].
    rewrite decide_True; [done|]. apply existsb_exists in E as (c & Hc & Heq).
    apply bool_decide_eq_true in Heq. subst. apply list_elem_of_fmap_2. by apply list_elem_of_In.
  - rewrite exec_call. destruct (answer (RPeerByNodeId pubkey) w') as [b w'']. cbn [fst snd].
    assert (pubkey ∉ ChannelDetails.counterparty <$> (chans : list ChannelDetails.t)) as Hn.
    { intros (c & -> & Hc)%list_elem_of_fmap. apply not_true_iff_false in E. apply E, existsb_exists.
      exists c. split; [by apply list_elem_of_In|]. by apply bool_decide_eq_true. }
    destruct b; cbn [negb].
    + rewrite exec_call. destruct (answer (RDisconnect pubkey) w'') as [[] w3]. cbn.
      split; [done|]. eexists chans, _. split; [done|]. rewrite decide_False by done. by exists true.
    + cbn. split; [done|]. eexists chans, _. split; [done|]. rewrite decide_False by done.
      by exists false.
Qed.

(** A round of [reconnect_peers] only looks up and dials the counterparties of listed
    channels, never through Tor, and changes nothing in the relay; it ends the task
    exactly when the shutdown flag is set, and asks for nothing after that. *)
Lemma reconnect_tick_correct s (w : W) :
  let r := exec reconnect_peers_tick s w in
  fin r = s /\ exists chans rest, log r = existT RListChannels chans :: rest /\
  let ids := ChannelDetails.counterparty <$> (chans : list ChannelDetails.t) in
  (out r = Done true /\ Forall (reconnect_event ids) rest) \/
  (out r = Done false /\ exists l, rest = l ++ [existT RStopped true] /\
     Forall (reconnect_event ids) l).
Proof.
  apply (wp_exec reconnect_peers_tick s w (fun o s' l => s' = s /\ exists chans rest,
    l = existT RListChannels chans :: rest /\
    let ids := ChannelDetails.counterparty <$> (chans : list ChannelDetails.t) in
    (o = Done true /\ Forall (reconnect_event ids) rest) \/
    (o = Done false /\ exists l, rest = l ++ [existT RStopped true] /\
       Forall (reconnect_event ids) l))).
  intros chans.
  apply (wp_reconnect_loop (ChannelDetails.counterparty <$> (chans : list ChannelDetails.t)) _ s
    [existT RListChannels chans] []); [done|constructor| |]; intros l Hl; (split; [done|]);
    exists chans; eexists; (split; [done|]); cbn; eauto.
Qed.
End theorems.
