(* ===== verification/CardanoSwap.v ===== *)
(** * Onramp swaps ([src/src/cardano_swap.rs])

    Lightning BTC to cBTC: [request_swap] creates the on-chain invoice,
    [store_swap_mapping] records it, [fulfill_swap] is run when the Lightning
    payment has been claimed. *)

From S2P Require Import Prelude Effects Mapping MappingFacts Types RateLimiter World Helpers.
Open Scope prog_scope.

Definition SWAP_PREFIX : string := "cBTC_SWAP:".

Definition extract_swap_address (description : string) : option string :=
  strip_prefix SWAP_PREFIX description.

Section swap.
Context `{Externals}.

Definition validate_address (address : string) (expected_prefix : option string) :
  result string string :=
  match bech32_decode address with
  | Err e => Err ("invalid bech32 address: " +:+ e)
  | Ok (hrp, data5) =>
      if negb (starts_with hrp "addr") then Err ("not a Cardano address (hrp: " +:+ hrp +:+ ")")
      else if match expected_prefix with
              | Some prefix => negb (starts_with hrp prefix)
              | None => false
              end
      then Err ("address network mismatch: expected " +:+ default "" expected_prefix
                  +:+ " prefix, got " +:+ hrp)
      else match from_base32 data5 with
           | Err e => Err ("bech32 base32 decode failed: " +:+ e)
           | Ok data =>
               if (length data <? 29)%nat
               then Err ("address too short: " +:+ pretty (Z.of_nat (length data)) +:+ " bytes")
               else if negb (length data =? 57)%nat && negb (length data =? 29)%nat
               then Err ("unexpected address length: " +:+ pretty (Z.of_nat (length data))
                  +:+ " bytes (expected 29 for enterprise or 57 for base address)")
               else Ok (hex_encode (take 28 (drop 1 data)))
           end
  end.

Definition address_to_pkh (address : string) : result string string :=
  validate_address address None.

(** The prefix demanded of a user's address, from the operator's own. *)
Definition expected_prefix : option string :=
  if starts_with operator_address "addr_test" then Some "addr_test" else Some "addr".

(** The closure [request_swap] retries. *)
Definition create_invoice_and_submit (amount_cbtc : Z) (owner_pkh : string)
  (now_ms expires_at : Z) : relay_prog (result (Z * string) CardanoError) :=
  try* '(id, tx) := op (CreateInvoice amount_cbtc owner_pkh now_ms expires_at) in
  try* hash := op (SubmitTx tx) in
  Ret (Ok (id, hash)).

(** Returns [(invoice_id, description, create_tx_hash)]. *)
Definition request_swap (amount_cbtc : Z) (cardano_address : string) (expiry_ms : Z) :
  relay_prog (result (Z * string * string) string) :=
  try* owner_pkh := Ret (validate_address cardano_address expected_prefix) in
  let* now_ms := current_timestamp_ms in
  let expires_at := i64_add now_ms expiry_ms in
  let* r :=
    submit_contract_tx_with_retry "CreateInvoice" 3 15
      (create_invoice_and_submit amount_cbtc owner_pkh now_ms expires_at) in
  try* '(invoice_id, tx_hash) :=
    Ret (map_err (fun e => "failed to create invoice on Cardano: " +:+ e) r) in
  let description := SWAP_PREFIX +:+ cardano_address in
  Ret (Ok (invoice_id, description, tx_hash)).

Definition store_swap_mapping (payment_hash : string) (invoice_id amount_cbtc : Z)
  (cardano_address : string) (expires_at : Z) (create_tx_hash : string) : relay_prog unit :=
  let* created_at := current_timestamp_ms in
  db_expect (SwapDb.insert
    (Swap.mk payment_hash invoice_id amount_cbtc cardano_address SwapStatus.Pending
       created_at expires_at None (Some create_tx_hash)))
    "failed to insert swap mapping".

(** [|state| state.invoices.iter().find(|i| i.invoice_id == invoice_id).cloned()] *)
Definition find_invoice (invoice_id : Z) (st : ChainState.t) : option Invoice.t :=
  find (fun i => Invoice.invoice_id i =? invoice_id) (ChainState.invoices st).

(** The closure [fulfill_swap] retries: build, then submit. *)
Definition fulfill_and_submit (invoice : Invoice.t) (cardano_address : string) :
  relay_prog (result string CardanoError) :=
  try* signed_tx := op (FulfillInvoice invoice cardano_address) in
  op (SubmitTx signed_tx).

(** [&payment_hash[..payment_hash.len().min(16)]] *)
Definition log_prefix (payment_hash : string) : option string :=
  slice_to (Nat.min (String.length payment_hash) 16) payment_hash.

(** [fulfill_swap] once it owns an unexpired swap: query, build, submit, record. *)
Definition fulfill_owned (payment_hash : string) (mapping : SwapMapping) : relay_prog unit :=
  let invoice_id := Swap.invoice_id mapping in
  let* q := query_state_with_retry 24 10 ("LM invoice #" +:+ pretty invoice_id)
              (find_invoice invoice_id) in
  match q with
  | Err _ => db_write (SwapDb.update_status payment_hash SwapStatus.Failed None)
  | Ok invoice =>
      match log_prefix payment_hash with
      | None => Panic "byte index 16 is not a char boundary"
      | Some log_prefix =>
          let* result :=
            submit_contract_tx_with_retry ("FulfillInvoice(" +:+ log_prefix +:+ ")") 3 15
              (fulfill_and_submit invoice (Swap.cardano_address mapping)) in
          match result with
          | Ok tx_hash =>
              db_write (SwapDb.update_status payment_hash SwapStatus.Completed (Some tx_hash))
          | Err _ => db_write (SwapDb.update_status payment_hash SwapStatus.Failed None)
          end
      end
  end.

Definition fulfill_swap (payment_hash : string) : relay_prog unit :=
  let* found := db_read (SwapDb.get_by_payment_hash payment_hash) in
  match found with
  | None => Ret tt
  | Some mapping =>
      let* won := db_op (SwapDb.transition_status payment_hash
                           SwapStatus.Pending SwapStatus.Fulfilling None) in
      if negb won then Ret tt
      else
        let* now_ms := current_timestamp_ms in
        if Swap.expires_at mapping <? now_ms
        then db_write (SwapDb.update_status payment_hash SwapStatus.Failed None)
        else fulfill_owned payment_hash mapping
  end.
End swap.

(** ** Behaviour of [fulfill_swap] *)

Section facts.
Context `{Externals}.

(** The requests [fulfill_swap] may make for a mapping: it only ever fulfils the
    mapping's own invoice, to the mapping's own address. *)
Definition fulfill_request (m : SwapMapping) (r : Req) : Prop :=
  match r with
  | RNow | RSleep _ | ROp QueryState | ROp (SubmitTx _) => True
  | ROp (FulfillInvoice i addr) =>
      Invoice.invoice_id i = Swap.invoice_id m /\ addr = Swap.cardano_address m
  | _ => False
  end.

Lemma fulfill_and_submit_spec m i :
  Invoice.invoice_id i = Swap.invoice_id m ->
  effect_spec (fulfill_and_submit i (Swap.cardano_address m)) (fulfill_request m) submitted
    (fun hash => [hash]).
Proof.
  intros Hi. apply build_submit_spec; [done|]. op_spec.
Qed.

Lemma find_invoice_id id st i : find_invoice id st = Some i -> Invoice.invoice_id i = id.
Proof. intros E. apply find_Some_elem in E as [_ E]. lia. Qed.

(** The slice does not panic on the text of a payment hash. *)
Lemma log_prefix_hex hash : is_Some (log_prefix (payment_hash_display hash)).
Proof. apply slice_to_ascii; [apply payment_hash_hex|lia]. Qed.

Lemma is_query_fulfill m d (l : list (event resp)) :
  Forall (fun e : event resp => is_query d (projT1 e)) l ->
  Forall (fun e : event resp => fulfill_request m (projT1 e)) l.
Proof. intros Hl. eapply Forall_impl; [exact Hl|]. by intros e [->| ->]. Qed.

Lemma is_query_submitted d (l : list (event resp)) :
  Forall (fun e : event resp => is_query d (projT1 e)) l -> omap submitted l = [].
Proof.
  induction 1 as [|[r x] l He _ IH]; [done|]. cbn. rewrite IH. cbn in He.
  by destruct He as [->| ->].
Qed.

(** What a run of [fulfill_swap] that won the pending swap [m] leaves behind. *)
Definition fulfilled (h : string) (m : SwapMapping) (s : Relay) (o : outcome unit) (s' : Relay)
  (l : list (event resp)) : Prop :=
  Forall (fun e : event resp => fulfill_request m (projT1 e)) l /\
  match o with
  | Done _ => exists st tx,
      s' = set_db s (SwapDb.update_status h st tx
                       (SwapDb.update_status h SwapStatus.Fulfilling None (swap_db s))) /\
      ((exists hash, st = SwapStatus.Completed /\ tx = Some hash /\ omap submitted l = [hash]) \/
       (st = SwapStatus.Failed /\ tx = None /\ omap submitted l = []))
  | Panicked _ => log_prefix h = None /\ omap submitted l = [] /\
      s' = set_db s (SwapDb.update_status h SwapStatus.Fulfilling None (swap_db s))
  end.

Lemma wp_fulfill_swap h s m :
  db_wf (swap_db s) -> SwapDb.get_by_payment_hash h (swap_db s) = Some m ->
  Swap.status m = SwapStatus.Pending ->
  wp (fulfill_swap h) s [] (fulfilled h m s).
Proof.
  intros Hwf Hget Hst. unfold fulfill_swap. wp_step. rewrite Hget. wp_step.
  rewrite transition_status_spec by done. rewrite decide_True by (by rewrite Hget; cbn; rewrite Hst).
  cbn [fst snd negb]. wp_step.
  set (s1 := set_db s (SwapDb.update_status h SwapStatus.Fulfilling None (swap_db s))).
  destruct (_ <? _).
  { split; [by repeat constructor|]. eexists _, _. split; [done|]. by right. }
  unfold fulfill_owned. apply wp_bind, wp_query. intros q l1 Hl1 Hq.
  pose proof (is_query_fulfill m _ _ Hl1) as Hf1. pose proof (is_query_submitted _ _ Hl1) as Hs1.
  destruct q as [i|e]; cbn [wp_cont].
  - destruct (log_prefix h) as [pre|] eqn:Ep; [|by cbn; split; [log_forall|split; [done|log_omap]]].
    destruct Hq as (st & _ & Hi%find_invoice_id). apply wp_bind.
    eapply wp_effect_spec; [apply submit_effect_spec;
      [by apply (fulfill_and_submit_spec m)|done|done]|].
    intros r l2 Hl2 Hs2. destruct r as [hash|e]; cbn; (split; [log_forall|]).
    + eexists _, _. split; [done|]. left. exists hash. log_omap.
    + eexists _, _. split; [done|]. right. log_omap.
  - cbn. split; [log_forall|]. eexists _, _. split; [done|]. right. log_omap.
Qed.
End facts.

(** ** Theorems *)

Section theorems.
Context `{Externals} {W : Type} `{!Env W}.
Implicit Types (s : Relay) (w : W).

(** The part of [fulfill_swap] before the first request to the operator. *)
Lemma exec_fulfill_swap h s w m :
  db_wf (swap_db s) -> SwapDb.get_by_payment_hash h (swap_db s) = Some m ->
  Swap.status m = SwapStatus.Pending ->
  exec (fulfill_swap h) s w =
  log_cons (existT RNow (answer RNow w).1)
    (exec (if Swap.expires_at m <? wrap_i64 (Z.of_N (answer RNow w).1)
           then db_write (SwapDb.update_status h SwapStatus.Failed None)
           else fulfill_owned h m)
       (set_db s (SwapDb.update_status h SwapStatus.Fulfilling None (swap_db s)))
       (answer RNow w).2).
Proof.
  intros Hwf Hget Hst. unfold fulfill_swap. rewrite exec_db_read, Hget, exec_db_op.
  rewrite transition_status_spec, decide_True by (try rewrite Hget; cbn; congruence).
  reflexivity.
Qed.

(** The two ways in which a swap that was won may end. *)
Definition swap_ended (h : string) (m : SwapMapping) (db db' : SwapDb.t) (l : list (event resp)) : Prop :=
  (exists hash, omap submitted l = [hash] /\
     swap_row h (Swap.set_status SwapStatus.Completed (Some hash) m) db db') \/
  (omap submitted l = [] /\ swap_row h (Swap.set_status SwapStatus.Failed None m) db db').

(** C8: a run of [fulfill_swap] against any environment, of which no SQLite statement fails.
    A payment hash that has no mapping, or whose swap is not pending, changes nothing and
    sends nothing.  A pending swap ends [Completed] with the hash of the one submission the
    chain accepted, or [Failed] and no submission was accepted.  The only other outcome is
    the panic of the slice that takes the first sixteen bytes of the hash for the log, when
    they end inside a character: nothing was submitted then, and the swap stays [Fulfilling].
    A hash in hexadecimal is never cut there.  No other row changes, and the only invoice that
    is fulfilled is the mapping's, to the mapping's address. *)
Theorem fulfill_swap_correct h s w :
  db_wf (swap_db s) ->
  let r := exec (fulfill_swap h) s w in
  match SwapDb.get_by_payment_hash h (swap_db s) with
  | Some m =>
      if decide (Swap.status m = SwapStatus.Pending) then
        Forall (fun e : event resp => fulfill_request m (projT1 e)) (log r) /\
        match out r with
        | Done _ => swap_ended h m (swap_db s) (swap_db (fin r)) (log r)
        | Panicked _ => log_prefix h = None /\ omap submitted (log r) = [] /\
            swap_row h (Swap.set_status SwapStatus.Fulfilling None m) (swap_db s) (swap_db (fin r))
        end
      else out r = Done tt /\ fin r = s /\ log r = []
  | None => out r = Done tt /\ fin r = s /\ log r = []
  end /\
  forall hash, is_Some (log_prefix (payment_hash_display hash)).
Proof.
  intros Hwf. cbn zeta. split; [|apply log_prefix_hex].
  destruct (SwapDb.get_by_payment_hash h (swap_db s)) as [m|] eqn:Hget.
  2: { unfold fulfill_swap. by rewrite exec_db_read, Hget. }
  destruct (decide _) as [Hst|Hst].
  - destruct (wp_exec (fulfill_swap h) s w _ (wp_fulfill_swap h s m Hwf Hget Hst)) as [HR Hcase].
    split; [done|]. destruct (out _) as [u|msg].
    + destruct Hcase as (st & tx & -> & Hcase). cbn [swap_db set_db].
      assert (forall st tx, swap_row h (Swap.set_status st tx m) (swap_db s)
        (SwapDb.update_status h st tx (SwapDb.update_status h SwapStatus.Fulfilling None (swap_db s))))
        as Hrow.
      { intros st' tx'. apply (swap_row_update _ (Swap.set_status SwapStatus.Fulfilling None m)).
        auto with swapdb. }
      destruct Hcase as [(hash & -> & -> & ?)|(-> & -> & ?)]; [left; eauto|by right].
    + destruct Hcase as (Hp & Hs & ->). cbn [swap_db set_db]. auto with swapdb.
  - unfold fulfill_swap. rewrite exec_db_read, Hget, exec_db_op.
    rewrite transition_status_spec, decide_False by (try rewrite Hget; cbn; congruence).
    by destruct s.
Qed.

(** When the clock has passed the mapping's expiry, [fulfill_swap] makes no
    request to the Cardano operator at all and marks the swap [Failed]. *)
Lemma fulfill_swap_expired h s w m :
  db_wf (swap_db s) -> SwapDb.get_by_payment_hash h (swap_db s) = Some m ->
  Swap.status m = SwapStatus.Pending -> Swap.expires_at m < wrap_i64 (Z.of_N (answer RNow w).1) ->
  let r := exec (fulfill_swap h) s w in
  op_log (log r) = [] /\
  Swap.status <$> SwapDb.get_by_payment_hash h (swap_db (fin r)) = Some SwapStatus.Failed.
Proof.
  intros Hwf Hget Hst Hexp. cbn zeta.
  rewrite (exec_fulfill_swap h s w m), (proj2 (Z.ltb_lt _ _) Hexp) by done.
  split; [done|]. rewrite exec_db_write_ret. cbn. by rewrite !get_update_status, String.eqb_refl, Hget.
Qed.

(** Worlds [G] in which the operator shows the invoice and accepts every transaction
    before the deadline, and which stay such worlds as long as nobody sleeps. *)
Record responsive (G : W -> Prop) (id : Z) (deadline : Z) : Prop := {
  resp_query w : G w ->
    exists st, (answer (ROp QueryState) w).1 = Ok st /\ is_Some (find_invoice id st);
  resp_fulfill w i a : G w -> exists tx, (answer (ROp (FulfillInvoice i a)) w).1 = Ok tx;
  resp_submit w tx : G w -> exists hash, (answer (ROp (SubmitTx tx)) w).1 = Ok hash;
  resp_clock w : G w -> wrap_i64 (Z.of_N (answer RNow w).1) <= deadline;
  resp_stable w r : G w -> (forall secs, r <> RSleep secs) -> G (answer r w).2;
}.

(** Against an operator that shows the invoice and accepts transactions, before
    the expiry, a pending swap is completed: with one query, one build and one
    submission, and the hash of that submission recorded. *)
Lemma fulfill_swap_completes G h s w m :
  db_wf (swap_db s) -> SwapDb.get_by_payment_hash h (swap_db s) = Some m ->
  Swap.status m = SwapStatus.Pending -> is_Some (log_prefix h) ->
  responsive G (Swap.invoice_id m) (Swap.expires_at m) -> G w ->
  exists i tx hash,
    op_log (log (exec (fulfill_swap h) s w))
    = [QueryState; FulfillInvoice i (Swap.cardano_address m); SubmitTx tx] /\
    Invoice.invoice_id i = Swap.invoice_id m /\
    fin (exec (fulfill_swap h) s w) = set_db s (swap_db (fin (exec (fulfill_swap h) s w))) /\
    SwapDb.get_by_payment_hash h (swap_db (fin (exec (fulfill_swap h) s w)))
    = Some (Swap.set_status SwapStatus.Completed (Some hash) m).
Proof.
  intros Hwf Hget Hst [pre Hpre] [Hq Hf Hs Hc Hn] HG.
  rewrite (exec_fulfill_swap h s w m), (proj2 (Z.ltb_ge _ _)) by first [done | by apply Hc].
  set (w1 := (answer RNow w).2). assert (G w1) as G1 by (by apply Hn).
  destruct (Hq w1 G1) as (st & Eq & [i Hi]).
  unfold fulfill_owned. erewrite exec_query_found by done. rewrite Hpre.
  set (w2 := (answer (ROp QueryState) w1).2). assert (G w2) as G2 by (by apply Hn).
  destruct (Hf w2 i (Swap.cardano_address m) G2) as [tx Ef].
  set (w3 := (answer (ROp (FulfillInvoice i (Swap.cardano_address m))) w2).2).
  assert (G w3) as G3 by (by apply Hn).
  destruct (Hs w3 tx G3) as [hash Es]. erewrite exec_submit_first
    by (unfold exec, fulfill_and_submit; cbn in *; rewrite Ef; cbn; fold w3; by rewrite Es).
  rewrite exec_db_write_ret. cbn. exists i, tx, hash. split; [done|].
  split; [by eapply find_invoice_id|]. split; [done|].
  by rewrite !get_update_status, String.eqb_refl, Hget.
Qed.
End theorems.

(** ** Behaviour of [request_swap] *)

Section request.
Context `{Externals}.

(** The requests [request_swap] makes after reading the clock. *)
Definition create_request (amount : Z) (pkh : string) (now expiry : Z) (r : Req) : Prop :=
  match r with
  | RSleep _ | ROp (SubmitTx _) => True
  | ROp (CreateInvoice a p t e) => a = amount /\ p = pkh /\ t = now /\ e = i64_add now expiry
  | _ => False
  end.

Lemma create_and_submit_spec amount pkh now expiry :
  effect_spec (create_invoice_and_submit amount pkh now (i64_add now expiry))
    (create_request amount pkh now expiry) submitted (fun '(_, hash) => [hash]).
Proof.
  apply create_submit_spec; [done|]. op_spec.
Qed.

Definition swap_requested (amount : Z) (addr : string) (expiry : Z) (s : Relay)
  (o : outcome (result (Z * string * string) string)) (s' : Relay) (l : list (event resp)) : Prop :=
  s' = s /\
  match validate_address addr expected_prefix with
  | Err e => o = Done (Err e) /\ l = []
  | Ok pkh => exists t l1,
      l = existT RNow t :: l1 /\
      Forall (fun e : event resp => create_request amount pkh (wrap_i64 (Z.of_N t)) expiry (projT1 e)) l1 /\
      match o with
      | Done (Ok (_, description, hash)) =>
          omap submitted l1 = [hash] /\ extract_swap_address description = Some addr
      | Done (Err _) => omap submitted l1 = []
      | Panicked _ => False
      end
  end.

Lemma wp_request_swap amount addr expiry s l Q :
  (forall o l1, swap_requested amount addr expiry s o s l1 -> Q o s (l ++ l1)) ->
  wp (request_swap amount addr expiry) s l Q.
Proof.
  intros HQ. unfold swap_requested in HQ. unfold request_swap, bind_try at 1. cbn [bind].
  destruct (validate_address _ _) as [pkh|e].
  2: { cbn. rewrite <- (app_nil_r l). by apply HQ. }
  wp_step. apply wp_bind. eapply wp_effect_spec;
    [apply submit_effect_spec; [apply create_and_submit_spec|done|done]|].
  intros r l1 HF Hs. cbn. rewrite <- app_assoc. destruct r as [[id hash]|e]; cbn; apply HQ;
    (split; [done|]); exists t, l1; repeat split; done.
Qed.
End request.

Section request_theorems.
Context `{Externals} {W : Type} `{!Env W}.

(** [request_swap] leaves the shared state alone, never panics, and refuses an
    invalid address before any request.  For a valid one it asks only for the
    creation of an invoice over the requested amount, owned by the address' payment
    key hash and expiring [expiry] after the clock reading; it succeeds exactly
    when one submission was accepted, returns that submission's hash, and a
    description from which [extract_swap_address] recovers the user's address. *)
Lemma request_swap_correct amount addr expiry s (w : W) :
  let r := exec (request_swap amount addr expiry) s w in
  fin r = s /\
  match validate_address addr expected_prefix with
  | Err e => out r = Done (Err e) /\ log r = []
  | Ok pkh => exists t l,
      log r = existT RNow t :: l /\
      Forall (fun e : event resp => create_request amount pkh (wrap_i64 (Z.of_N t)) expiry (projT1 e)) l /\
      match out r with
      | Done (Ok (_, description, hash)) =>
          omap submitted l = [hash] /\ extract_swap_address description = Some addr
      | Done (Err _) => omap submitted l = []
      | Panicked _ => False
      end
  end.
Proof.
  apply (wp_exec (request_swap amount addr expiry) s w (swap_requested amount addr expiry s)).
  apply wp_request_swap. done.
Qed.

(** An address is accepted exactly when it decodes to a bech32 string whose
    human-readable part starts with [addr] and with the expected prefix, and whose
    payload is 29 or 57 bytes; the result is the hexadecimal of bytes 1 to 28, the
    payment key hash. *)
Lemma validate_address_iff addr prefix pkh :
  validate_address addr prefix = Ok pkh <->
  exists hrp data5 data,
    bech32_decode addr = Ok (hrp, data5) /\ from_base32 data5 = Ok data /\
    starts_with hrp "addr" = true /\
    match prefix with Some p => starts_with hrp p = true | None => True end /\
    (length data = 29 \/ length data = 57)%nat /\
    pkh = hex_encode (take 28 (drop 1 data)).
Proof.
  unfold validate_address. destruct (bech32_decode addr) as [[hrp data5]|e].
  2: { split; [done|]. by intros (? & ? & ? & ? & _). }
  assert (match prefix with Some p => negb (starts_with hrp p) | None => false end = false <->
    match prefix with Some p => starts_with hrp p = true | None => True end) as HP.
  { destruct prefix as [p|]; [|done]. by destruct (starts_with hrp p). }
  split.
  - destruct (starts_with hrp "addr") eqn:E1; cbn; [|done].
    destruct (match prefix with Some p => _ | None => _ end) eqn:E2; [done|].
    destruct (from_base32 data5) as [data|e] eqn:Ed; [|done].
    destruct (Nat.ltb_spec (length data) 29), (Nat.eqb_spec (length data) 57),
      (Nat.eqb_spec (length data) 29); cbn; try done; intros [= <-];
      exists hrp, data5, data; repeat split; try done; try (by apply HP); lia.
  - intros (? & ? & data & [= <- <-] & -> & -> & Hp%HP & Hl & ->). cbn. rewrite Hp.
    by destruct Hl as [-> | ->].
Qed.

(** An operator on mainnet (its own address does not start with [addr_test])
    still accepts test-network addresses: the expected prefix [addr] is a prefix of
    [addr_test]. *)
Lemma mainnet_accepts_test_address addr data5 data :
  starts_with operator_address "addr_test" = false ->
  bech32_decode addr = Ok ("addr_test"%string, data5) -> from_base32 data5 = Ok data ->
  length data = 57%nat ->
  validate_address addr expected_prefix = Ok (hex_encode (take 28 (drop 1 data))).
Proof.
  intros Hop Hdec Hb Hlen. unfold validate_address, expected_prefix.
  by rewrite Hop, Hdec, Hb, Hlen.
Qed.
End request_theorems.
