(* ===== verification/Payments.v ===== *)
(** * Lightning payments ([src/src/cli/payment_cmds.rs], start-up in [main.rs])

    Each function updates one of the two payment tables under its mutex and writes
    the whole table to disk.  The table written is the one at the time of the
    update: the encoding is taken inside the critical section. *)

From S2P Require Import Prelude Effects Amounts Mapping Types RateLimiter World.
Open Scope prog_scope.

Section payments.
Context `{Externals}.

(** [outbound_payments.payments.insert(id, info)] and the encoding of the table. *)
Definition outbound_insert (id : bytes) (info : PaymentInfo) :
  relay_prog OutboundPaymentInfoStorage :=
  local (fun s => let m := <[id := info]> (outbound_payments s) in (m, set_outbound s m)).
Definition inbound_insert (id : bytes) (info : PaymentInfo) : relay_prog unit :=
  local (fun s => (tt, set_inbound s (<[id := info]> (inbound_payments s)))).

(** [payments.get_mut(id).unwrap().status = HTLCStatus::Failed]: the [unwrap]
    panics when the entry is gone. *)
Definition outbound_fail (id : bytes) : relay_prog OutboundPaymentInfoStorage :=
  let* m := local (fun s =>
    match outbound_payments s !! id with
    | Some p =>
        let m := <[id := set_payment_status HTLCStatus.Failed p]> (outbound_payments s) in
        (Some m, set_outbound s m)
    | None => (None, s)
    end) in
  match m with
  | Some m => Ret m
  | None => Panic "called `Option::unwrap()` on a `None` value"
  end.

(** The amount paid: the invoice's, or the required one. *)
Definition payment_amount (invoice_amt required : option Z) : result Z string :=
  match invoice_amt, required with
  | Some inv_amt, Some req_amt =>
      if negb (inv_amt =? req_amt)
      then Err ("amount mismatch: invoice " +:+ pretty inv_amt +:+ " msat vs required "
                  +:+ pretty req_amt +:+ " msat")
      else Ok inv_amt
  | Some inv_amt, None => Ok inv_amt
  | None, Some req_amt => Ok req_amt
  | None, None => Err "amountless invoice with no required amount"
  end.

Definition send_payment (invoice : Bolt11Invoice) (required_amount_msat : option Z) :
  relay_prog (result unit string) :=
  let payment_id := invoice_payment_hash invoice in
  let payment_secret := Some (invoice_payment_secret invoice) in
  try* amt_msat := Ret (payment_amount (amount_milli_satoshis invoice) required_amount_msat) in
  let* enc := outbound_insert payment_id
    (mkPaymentInfo None payment_secret HTLCStatus.Pending (Some amt_msat)) in
  write_outbound enc ;;
  let* r := call (RPayBolt11 invoice payment_id required_amount_msat) in
  match r with
  | Ok _ => Ret (Ok tt)
  | Err e =>
      let* enc := outbound_fail payment_id in
      write_outbound enc ;;
      Ret (Err ("failed to send payment: " +:+ e))
  end.

Definition keysend (payee_pubkey : bytes) (amt_msat : Z) : relay_prog unit :=
  let* payment_preimage := call RRandomBytes in
  let payment_id := sha256 payment_preimage in
  let* enc := outbound_insert payment_id
    (mkPaymentInfo None None HTLCStatus.Pending (Some amt_msat)) in
  write_outbound enc ;;
  let* r := call (RSendSpontaneous payment_preimage payment_id payee_pubkey amt_msat) in
  match r with
  | Ok _ => Ret tt
  | Err e =>
      let* enc := outbound_fail payment_id in
      write_outbound enc
  end.

(** [get_invoice]: the default parameters have no description. *)
Definition get_invoice (amt_msat expiry_secs : Z) : relay_prog unit :=
  let* r := call (RCreateBolt11 amt_msat expiry_secs None) in
  match r with
  | Err _ => Ret tt
  | Ok invoice =>
      inbound_insert (invoice_payment_hash invoice)
        (mkPaymentInfo None (Some (invoice_payment_secret invoice)) HTLCStatus.Pending
           (Some amt_msat))
  end.

Definition create_invoice_for_swap (amount_cbtc : Z) (description : string) (expiry_secs : Z) :
  relay_prog (option (string * string)) :=
  match cbtc_to_msat amount_cbtc with
  | None => Ret None
  | Some amt_msat =>
      if negb (description_fits description) then Panic "description too long for BOLT11"
      else
        let* r := call (RCreateBolt11 amt_msat expiry_secs (Some description)) in
        match r with
        | Err _ => Ret None
        | Ok invoice =>
            let payment_hash := invoice_payment_hash invoice in
            inbound_insert payment_hash
              (mkPaymentInfo None (Some (invoice_payment_secret invoice)) HTLCStatus.Pending
                 (Some amt_msat)) ;;
            Ret (Some (bolt11_to_string invoice, payment_hash_display payment_hash))
        end
  end.

(** [main.rs]: pending payments that LDK no longer knows have failed.  [recent] is
    the list of ids of [list_recent_payments]. *)
Definition reconcile_outbound (recent : list bytes) (m : OutboundPaymentInfoStorage) :
  OutboundPaymentInfoStorage :=
  map_imap (fun id p =>
    Some (if decide (status p = HTLCStatus.Pending) then
            if decide (id ∈ recent) then p else set_payment_status HTLCStatus.Failed p
          else p)) m.

Definition reconcile_outbound_payments (recent : list bytes) : relay_prog unit :=
  let* enc := local (fun s =>
    let m := reconcile_outbound recent (outbound_payments s) in (m, set_outbound s m)) in
  write_outbound enc.
End payments.

(** ** Behaviour *)

Section facts.
Context `{Externals}.

(** A payment LDK accepted: its id. *)
Definition paid (e : event resp) : option bytes :=
  match e with existT (RPayBolt11 _ id _) (Ok _) => Some id | _ => None end.

(** The requests of [send_payment]: writes of the table, and this one payment. *)
Definition pay_request (invoice : Bolt11Invoice) (required : option Z) (r : Req) : Prop :=
  match r with
  | RWriteOutbound _ => True
  | RPayBolt11 i id amt => i = invoice /\ id = invoice_payment_hash invoice /\ amt = required
  | _ => False
  end.

(** What the payment table says of a payment after [send_payment]. *)
Definition payment_entry (invoice : Bolt11Invoice) (st : HTLCStatus.t) (amt : Z) : PaymentInfo :=
  mkPaymentInfo None (Some (invoice_payment_secret invoice)) st (Some amt).

(** The log of a payment that was not refused: the table is written with the payment as
    pending; only when that succeeded is LDK asked; only when LDK refuses is the table
    written again, with the payment as failed. *)
Definition payment_log (invoice : Bolt11Invoice) (required : option Z)
  (pending failed : OutboundPaymentInfoStorage) (o : outcome (result unit string))
  (l : list (event resp)) : Prop :=
  exists y l1, l = existT (RWriteOutbound pending) y :: l1 /\
  match y with
  | Err _ => l1 = [] /\ exists m, o = Panicked m
  | Ok _ => exists x l2, l1 = existT (RPayBolt11 invoice (invoice_payment_hash invoice) required) x :: l2 /\
      match x with
      | Ok _ => l2 = [] /\ o = Done (Ok tt)
      | Err e => exists z, l2 = [existT (RWriteOutbound failed) z] /\
          match z with
          | Ok _ => o = Done (Err ("failed to send payment: " +:+ e))
          | Err _ => exists m, o = Panicked m
          end
      end
  end.

Definition sent (invoice : Bolt11Invoice) (required : option Z) (s : Relay)
  (o : outcome (result unit string)) (s' : Relay) (l : list (event resp)) : Prop :=
  let id := invoice_payment_hash invoice in
  Forall (fun e : event resp => pay_request invoice required (projT1 e)) l /\
  match payment_amount (amount_milli_satoshis invoice) required with
  | Err e => o = Done (Err e) /\ s' = s /\ l = []
  | Ok amt =>
      let entry st := <[id := payment_entry invoice st amt]> (outbound_payments s) in
      payment_log invoice required (entry HTLCStatus.Pending) (entry HTLCStatus.Failed) o l /\
      exists st, s' = set_outbound s (entry st) /\
      match o with
      | Done (Ok _) => st = HTLCStatus.Pending /\ omap paid l = [id]
      | Done (Err _) => st = HTLCStatus.Failed /\ omap paid l = []
      | Panicked _ => omap paid l = []
      end
  end.

Lemma wp_send_payment invoice required s l Q :
  (forall o s' l1, sent invoice required s o s' l1 -> Q o s' (l ++ l1)) ->
  wp (send_payment invoice required) s l Q.
Proof.
  intros HQ. unfold send_payment, bind_try, sent, payment_log in *. cbn.
  destruct (payment_amount _ _) as [amt|e].
  2: { rewrite <- (app_nil_r l). apply HQ. by repeat constructor. }
  cbn. intros [[]|e]; cbn; [intros [[]|e]; cbn|].
  - rewrite <- app_assoc. apply HQ. split; [by repeat constructor|]. cbn. split; [|by eexists].
    eexists _, _. split; [done|]. eexists _, _. by split.
  - rewrite lookup_insert_eq. cbn. rewrite insert_insert_eq.
    intros [[]|e']; cbn; rewrite <- !app_assoc; apply HQ; (split; [by repeat constructor|]); cbn;
      (split; [eexists _, _; split; [done|]; eexists _, _; split; [done|]; eexists; split; [done|]; cbn; eauto|]);
      eexists; (split; [done|]); done.
  - apply HQ. split; [by repeat constructor|]. cbn. split; [|by eexists].
    eexists _, _. split; [done|]. cbn. eauto.
Qed.

(** What [create_invoice_for_swap] leaves behind. *)
Definition invoice_created (amount : Z) (desc : string) (secs : Z) (s : Relay)
  (o : outcome (option (string * string))) (s' : Relay) (l : list (event resp)) : Prop :=
  match cbtc_to_msat amount with
  | None => o = Done None /\ s' = s /\ l = []
  | Some msat =>
      let rq := RCreateBolt11 msat secs (Some desc) in
      match o with
      | Panicked _ => description_fits desc = false /\ s' = s /\ l = []
      | Done None => s' = s /\ exists e, l = [existT rq (Err e)]
      | Done (Some (b, h)) => exists inv,
          l = [existT rq (Ok inv)] /\ b = bolt11_to_string inv /\
          h = payment_hash_display (invoice_payment_hash inv) /\
          s' = set_inbound s (<[invoice_payment_hash inv := payment_entry inv HTLCStatus.Pending msat]>
                 (inbound_payments s))
      end
  end.

Lemma wp_create_invoice amount desc secs s l Q :
  (forall o s' l1, invoice_created amount desc secs s o s' l1 -> Q o s' (l ++ l1)) ->
  wp (create_invoice_for_swap amount desc secs) s l Q.
Proof.
  intros HQ. unfold create_invoice_for_swap, invoice_created in *.
  destruct (cbtc_to_msat amount) as [msat|].
  2: { cbn. rewrite <- (app_nil_r l). by apply HQ. }
  destruct (description_fits desc) eqn:Ed; cbn.
  - intros [inv|e]; cbn; apply HQ; eauto 10.
  - rewrite <- (app_nil_r l). by apply HQ.
Qed.
End facts.

Section theorems.
Context `{Externals} {W : Type} `{!Env W}.

(** C19: [send_payment] refuses, without any effect, an invoice whose amount differs
    from the required one and an amountless invoice with no required amount.
    Otherwise its requests are, in order: the table is written to disk with the payment as
    pending; LDK is asked for one payment, of this invoice, under the invoice's payment hash
    and with the required amount, only when the write succeeded; and the table is written
    with the payment as failed only when LDK refused.  It returns [Ok] exactly when LDK
    accepted, an error exactly when LDK refused and the second write succeeded, and panics
    exactly when a write fails, never with an accepted payment.  The table entry is pending
    after [Ok], failed after an error, and nothing else in the shared state changes. *)
Theorem send_payment_correct invoice required s (w : W) :
  let r := exec (send_payment invoice required) s w in
  let id := invoice_payment_hash invoice in
  Forall (fun e : event resp => pay_request invoice required (projT1 e)) (log r) /\
  match payment_amount (amount_milli_satoshis invoice) required with
  | Err e => out r = Done (Err e) /\ fin r = s /\ log r = []
  | Ok amt =>
      let entry st := <[id := payment_entry invoice st amt]> (outbound_payments s) in
      payment_log invoice required (entry HTLCStatus.Pending) (entry HTLCStatus.Failed) (out r) (log r) /\
      exists st, fin r = set_outbound s (entry st) /\
      match out r with
      | Done (Ok _) => st = HTLCStatus.Pending /\ omap paid (log r) = [id]
      | Done (Err _) => st = HTLCStatus.Failed /\ omap paid (log r) = []
      | Panicked _ => omap paid (log r) = []
      end
  end.
Proof.
  apply (wp_exec (send_payment invoice required) s w (sent invoice required s)).
  apply wp_send_payment. by intros o s' l1 H'.
Qed.

(** Entry by entry: pending payments that LDK does not report have failed, the others are as
    they were. *)
Lemma lookup_reconcile recent m id :
  reconcile_outbound recent m !! id =
  (fun p => if decide (status p = HTLCStatus.Pending /\ id ∉ recent)
            then mkPaymentInfo (preimage p) (secret p) HTLCStatus.Failed (amt_msat p) else p)
  <$> m !! id.
Proof.
  unfold reconcile_outbound. rewrite map_lookup_imap. destruct (m !! id) as [p|]; cbn; [|done].
  f_equal. repeat case_decide; naive_solver.
Qed.

(** After the start-up reconciliation no outbound payment is pending that LDK
    does not report, payments that LDK reports or that were already settled are
    as before, and no payment is lost or invented. *)
Lemma reconcile_outbound_correct recent m id :
  match m !! id, reconcile_outbound recent m !! id with
  | Some p, Some p' =>
      (status p' = HTLCStatus.Pending -> id ∈ recent) /\
      (p' = p \/ (status p = HTLCStatus.Pending /\ id ∉ recent /\
                  p' = set_payment_status HTLCStatus.Failed p))
  | None, None => True
  | _, _ => False
  end.
Proof.
  unfold reconcile_outbound. rewrite map_lookup_imap. destruct (m !! id) as [p|]; cbn; [|done].
  destruct (decide (status p = HTLCStatus.Pending)) as [Hp|Hp]; [|naive_solver].
  destruct (decide (id ∈ recent)); cbn; naive_solver.
Qed.
End theorems.
