(* ===== verification/CardanoOfframp.v ===== *)
(** * Offramps ([src/src/cardano_offramp.rs])

    cBTC to Lightning BTC: [request_offramp] creates the on-chain offramp,
    [process_offramp_deposit] verifies the user's deposit and pays the invoice,
    [complete_offramp] runs on [PaymentSent], [handle_offramp_payment_failed] on
    [PaymentFailed], and [cancel_offramp_on_chain] also from the expiry monitor. *)

From S2P Require Import Prelude Effects Amounts Mapping MappingFacts Types RateLimiter World.
From S2P Require Import Helpers CardanoSwap Payments.
Open Scope prog_scope.

Section offramp.
Context `{Externals}.

Definition network_ok (c : Currency) (is_testnet_relay : bool) : bool :=
  match c with
  | Bitcoin => negb is_testnet_relay
  | BitcoinTestnet | Regtest | Signet => is_testnet_relay
  | OtherCurrency => false
  end.

Definition bool_display (b : bool) : string := if b then "true" else "false".

(** [if let Some(inv_amt) = ... { if inv_amt != required_msat { return Err } }] *)
Definition amount_mismatch (invoice_amt : option Z) (required_msat : Z) : option Z :=
  match invoice_amt with
  | Some inv_amt => if negb (inv_amt =? required_msat) then Some inv_amt else None
  | None => None
  end.

(** The closure [request_offramp] retries. *)
Definition create_and_submit (amount_cbtc : Z) (payment_hash refund_pkh : string)
  (expires_at : Z) : relay_prog (result (Z * string) CardanoError) :=
  try* '(id, tx) := op (CreateOfframp amount_cbtc payment_hash refund_pkh expires_at) in
  try* hash := op (SubmitTx tx) in
  Ret (Ok (id, hash)).

(** Returns [(offramp_id, operator_address, payment_hash)]. *)
Definition request_offramp (bolt11_str : string) (amount_cbtc : Z) (cardano_address : string)
  (expiry_ms : Z) : relay_prog (result (Z * string * string) string) :=
  try* invoice :=
    Ret (map_err (fun e => "invalid BOLT11 invoice: " +:+ e) (bolt11_from_str bolt11_str)) in
  let payment_hash := sha256_display (invoice_payment_hash invoice) in
  let* found := db_read (SwapDb.get_offramp_by_payment_hash payment_hash) in
  match found with
  | Some existing =>
      Ret (Err ("BOLT11 invoice already used in offramp #" +:+ pretty (Offramp.offramp_id existing)
        +:+ " (status: " +:+ OfframpStatus.debug (Offramp.status existing) +:+ ")"))
  | None =>
  let is_testnet_relay := starts_with operator_address "addr_test" in
  let invoice_currency_ := invoice_currency invoice in
  if negb (network_ok invoice_currency_ is_testnet_relay)
  then Ret (Err ("BOLT11 invoice network (" +:+ currency_debug invoice_currency_
         +:+ ") does not match relay network (testnet=" +:+ bool_display is_testnet_relay +:+ ")"))
  else
  try* required_msat :=
    Ret (ok_or (cbtc_to_msat amount_cbtc) ("invalid cBTC amount: " +:+ pretty amount_cbtc)) in
  match amount_mismatch (amount_milli_satoshis invoice) required_msat with
  | Some inv_amt =>
      Ret (Err ("invoice amount " +:+ pretty inv_amt +:+ " msat does not match requested "
        +:+ pretty amount_cbtc +:+ " cBTC (" +:+ pretty required_msat +:+ " msat)"))
  | None =>
  try* refund_pkh := Ret (address_to_pkh cardano_address) in
  let* now_ms := current_timestamp_ms in
  let expires_at := i64_add now_ms expiry_ms in
  let* r := submit_contract_tx_with_retry "CreateOfframp" 3 15
    (create_and_submit amount_cbtc payment_hash refund_pkh expires_at) in
  try* '(offramp_id, create_tx_hash) :=
    Ret (map_err (fun e => "failed to create offramp on Cardano: " +:+ e) r) in
  db_expect (SwapDb.insert_offramp
    (Offramp.mk offramp_id bolt11_str payment_hash amount_cbtc "" OfframpStatus.AwaitingDeposit
       now_ms None None None (Some create_tx_hash) refund_pkh expires_at))
    "failed to insert offramp mapping" ;;
  Ret (Ok (offramp_id, operator_address, payment_hash))
  end
  end.

(** The reuse check of [process_offramp_deposit]. *)
Definition claimed_by_other (offramp_id : Z) (cbtc_tx_hash : string) (db : SwapDb.t) : option Z :=
  match SwapDb.get_offramp_by_cbtc_tx cbtc_tx_hash db with
  | Some existing =>
      if negb (Offramp.offramp_id existing =? offramp_id) then Some (Offramp.offramp_id existing)
      else None
  | None => None
  end.

(** [swap_db.update_offramp_status(id, status, None, None, error)] *)
Definition set_error (id : Z) (s : OfframpStatus.t) (err : option string) : relay_prog unit :=
  db_write (SwapDb.update_offramp_status id s None None err).

(** The last part of [process_offramp_deposit]: the deposit is verified and the
    offramp is in [PayingLightning]. *)
Definition pay_offramp (offramp_id : Z) (mapping : OfframpMapping) :
  relay_prog (result unit string) :=
  try* invoice := Ret (map_err (fun e => "failed to re-parse bolt11: " +:+ e)
                         (bolt11_from_str (Offramp.bolt11 mapping))) in
  try* required_msat :=
    Ret (ok_or (cbtc_to_msat (Offramp.amount_cbtc mapping))
           ("invalid cBTC amount: " +:+ pretty (Offramp.amount_cbtc mapping))) in
  let* r := send_payment invoice (Some required_msat) in
  match r with
  | Ok _ => Ret (Ok tt)
  | Err e =>
      let msg := "Lightning payment initiation failed: " +:+ e in
      set_error offramp_id OfframpStatus.Failed (Some msg) ;;
      Ret (Err msg)
  end.

Definition process_offramp_deposit (offramp_id : Z) (cbtc_tx_hash : string) :
  relay_prog (result unit string) :=
  let* found := db_read (SwapDb.get_offramp_by_id offramp_id) in
  match found with
  | None => Ret (Err ("offramp " +:+ pretty offramp_id +:+ " not found"))
  | Some mapping =>
  let* other := db_read (claimed_by_other offramp_id cbtc_tx_hash) in
  match other with
  | Some id => Ret (Err ("cBTC TX " +:+ cbtc_tx_hash +:+ " already used by offramp #" +:+ pretty id))
  | None =>
  let* won := db_op (SwapDb.transition_offramp_status offramp_id
    OfframpStatus.AwaitingDeposit OfframpStatus.PendingVerification) in
  if negb won
  then Ret (Err ("offramp " +:+ pretty offramp_id
    +:+ " is not in AwaitingDeposit status (concurrent request or already processed)"))
  else
  let* v := op (VerifyCbtcReceived cbtc_tx_hash (Offramp.amount_cbtc mapping)) in
  match v with
  | Err e =>
      set_error offramp_id OfframpStatus.AwaitingDeposit None ;;
      Ret (Err ("failed to verify cBTC receipt: " +:+ error_display e))
  | Ok false =>
      set_error offramp_id OfframpStatus.AwaitingDeposit
        (Some "cBTC not received at operator address") ;;
      Ret (Err ("cBTC not found at operator address in tx " +:+ cbtc_tx_hash))
  | Ok true =>
  let* won := db_op (SwapDb.transition_offramp_with_cbtc_tx offramp_id cbtc_tx_hash
    OfframpStatus.PendingVerification OfframpStatus.PayingLightning) in
  if negb won
  then Ret (Err ("offramp " +:+ pretty offramp_id
    +:+ " status changed during verification (concurrent request)"))
  else pay_offramp offramp_id mapping
  end
  end
  end.

(** [|state| state.offramps.iter().find(|o| o.offramp_id == offramp_id).cloned()] *)
Definition find_offramp (offramp_id : Z) (st : ChainState.t) : option ChainOfframp.t :=
  find (fun o => ChainOfframp.offramp_id o =? offramp_id) (ChainState.offramps st).

(** The closure [complete_offramp] retries. *)
Definition fulfill_offramp_and_submit (offramp : ChainOfframp.t) :
  relay_prog (result string CardanoError) :=
  try* signed_tx := op (FulfillOfframp offramp) in
  op (SubmitTx signed_tx).

(** [complete_offramp] once it owns the offramp. *)
Definition complete_owned (mapping : OfframpMapping) (preimage : string) : relay_prog unit :=
  let offramp_id := Offramp.offramp_id mapping in
  db_write (SwapDb.update_offramp_status offramp_id OfframpStatus.DepositingToPool
    (Some preimage) None None) ;;
  let* q := query_state_with_retry 24 10 ("Offramp #" +:+ pretty offramp_id)
              (find_offramp offramp_id) in
  match q with
  | Err e =>
      set_error offramp_id OfframpStatus.Failed (Some ("failed to find on-chain offramp: " +:+ e))
  | Ok offramp =>
      let* result :=
        submit_contract_tx_with_retry ("FulfillOfframp(#" +:+ pretty offramp_id +:+ ")") 3 15
          (fulfill_offramp_and_submit offramp) in
      match result with
      | Ok tx_hash =>
          db_write (SwapDb.update_offramp_status offramp_id OfframpStatus.Completed
            None (Some tx_hash) None)
      | Err e => set_error offramp_id OfframpStatus.Failed (Some e)
      end
  end.

Definition complete_offramp (payment_hash preimage : string) : relay_prog unit :=
  let* found := db_read (SwapDb.get_offramp_by_payment_hash payment_hash) in
  match found with
  | None => Ret tt
  | Some mapping =>
      let* won := db_op (SwapDb.transition_offramp_status (Offramp.offramp_id mapping)
        OfframpStatus.PayingLightning OfframpStatus.DepositingToPool) in
      if negb won then Ret tt else complete_owned mapping preimage
  end.

Definition cancel_message (existing : string) (tx_hash : string) : string :=
  if str_is_empty existing then "cancelled on-chain: " +:+ tx_hash
  else existing +:+ "; cancelled on-chain: " +:+ tx_hash.

Definition cancel_offramp_on_chain (mapping : OfframpMapping) : relay_prog unit :=
  let offramp_id := Offramp.offramp_id mapping in
  let* r := op (CancelOfframp offramp_id) in
  match r with
  | Err _ => Ret tt
  | Ok signed_tx =>
      let* r := op (SubmitTx signed_tx) in
      match r with
      | Err _ => Ret tt
      | Ok tx_hash =>
          let* found := db_read (SwapDb.get_offramp_by_id offramp_id) in
          let existing := default "" (found ≫= Offramp.error_message) in
          set_error offramp_id OfframpStatus.Failed (Some (cancel_message existing tx_hash))
      end
  end.

(** The refund attempt of [handle_offramp_payment_failed]: the message recorded. *)
Definition refund_message (mapping : OfframpMapping) : relay_prog string :=
  if negb (str_is_empty (Offramp.refund_address mapping)) then
    let* r := op (SendCbtc (Offramp.refund_address mapping) (Offramp.amount_cbtc mapping)) in
    match r with
    | Ok signed_tx =>
        let* r := op (SubmitTx signed_tx) in
        match r with
        | Ok tx_hash => Ret ("Lightning payment failed, cBTC refunded: " +:+ tx_hash)
        | Err e => Ret ("Lightning payment failed, refund submit failed: " +:+ error_display e)
        end
    | Err e => Ret ("Lightning payment failed, refund build failed: " +:+ error_display e)
    end
  else Ret "Lightning payment failed, no refund address available".

Definition handle_offramp_payment_failed (payment_hash : string) : relay_prog unit :=
  let* found := db_read (SwapDb.get_offramp_by_payment_hash payment_hash) in
  match found with
  | None => Ret tt
  | Some mapping =>
      let* msg := refund_message mapping in
      set_error (Offramp.offramp_id mapping) OfframpStatus.Failed (Some msg) ;;
      cancel_offramp_on_chain mapping
  end.
End offramp.

(** ** Behaviour of [complete_offramp] *)

Section complete.
Context `{Externals}.

(** The requests of [complete_offramp]: it fulfils its own offramp only. *)
Definition complete_request (id : Z) (r : Req) : Prop :=
  match r with
  | RSleep _ | ROp QueryState | ROp (SubmitTx _) => True
  | ROp (FulfillOfframp o) => ChainOfframp.offramp_id o = id
  | _ => False
  end.

Lemma fulfill_offramp_spec o :
  effect_spec (fulfill_offramp_and_submit o) (complete_request (ChainOfframp.offramp_id o))
    submitted (fun hash => [hash]).
Proof.
  apply build_submit_spec; [done|]. op_spec.
Qed.

Lemma find_offramp_id id st o : find_offramp id st = Some o -> ChainOfframp.offramp_id o = id.
Proof. intros E. apply find_Some_elem in E as [_ E]. lia. Qed.

Lemma is_query_complete id d (l : list (event resp)) :
  Forall (fun e : event resp => is_query d (projT1 e)) l ->
  Forall (fun e : event resp => complete_request id (projT1 e)) l.
Proof. intros Hl. eapply Forall_impl; [exact Hl|]. by intros e [->| ->]. Qed.

(** The row after [complete_owned]: what each column holds. *)
Definition completed_row (preimage : string) (st : OfframpStatus.t) (dep err : option string)
  (m : OfframpMapping) : OfframpMapping :=
  Offramp.coalesce st None dep err
    (Offramp.coalesce OfframpStatus.DepositingToPool (Some preimage) None None
       (Offramp.with_status OfframpStatus.DepositingToPool m)).

(** What a run that owns the offramp leaves: the row completed with the accepted
    submission's hash, or failed with a message and no accepted submission. *)
Definition completed (m : OfframpMapping) (preimage : string) (s s' : Relay)
  (l : list (event resp)) : Prop :=
  let id := Offramp.offramp_id m in
  exists st dep err,
    s' = set_db s (SwapDb.update_offramp_status id st None dep err
           (SwapDb.update_offramp_status id OfframpStatus.DepositingToPool (Some preimage) None None
              (swap_db s))) /\
    Forall (fun e : event resp => complete_request id (projT1 e)) l /\
    ((exists hash, st = OfframpStatus.Completed /\ dep = Some hash /\ err = None /\
                   omap submitted l = [hash]) \/
     (exists msg, st = OfframpStatus.Failed /\ dep = None /\ err = Some msg /\
                  omap submitted l = [])).

Lemma wp_complete_owned m preimage s :
  wp (complete_owned m preimage) s [] (fun o s' l => o = Done tt /\ completed m preimage s s' l).
Proof.
  unfold complete_owned. wp_step. apply wp_bind, wp_query. intros q l1 Hl1 Hq.
  pose proof (is_query_complete (Offramp.offramp_id m) _ _ Hl1) as Hf1.
  pose proof (is_query_submitted _ _ Hl1) as Hs1.
  destruct q as [o|e]; cbn [wp_cont].
  - destruct Hq as (st & _ & Hi%find_offramp_id). apply wp_bind.
    eapply wp_effect_spec; [apply submit_effect_spec; [apply fulfill_offramp_spec|done|done]|].
    rewrite Hi. intros r l2 Hl2 Hs2. destruct r as [hash|e]; cbn.
    + split; [done|]. eexists _, _, _. split; [done|]. split; [log_forall|].
      left. exists hash. repeat split. log_omap.
    + split; [done|]. eexists _, _, _. split; [done|]. split; [log_forall|].
      right. eexists. repeat split. log_omap.
  - cbn. split; [done|]. eexists _, _, _. split; [done|].
    split; [log_forall|]. right. eexists. repeat split. log_omap.
Qed.
End complete.

Section complete_theorems.
Context `{Externals} {W : Type} `{!Env W}.
Implicit Types (s : Relay) (w : W).

(** Unless the offramp found by the hash is being paid, nothing is asked and nothing changes. *)
Lemma complete_offramp_ignored h preimage s w m :
  db_wf (swap_db s) -> SwapDb.get_offramp_by_payment_hash h (swap_db s) = Some m ->
  Offramp.status m <> OfframpStatus.PayingLightning ->
  exec (complete_offramp h preimage) s w = RunResult (Done tt) s w [].
Proof.
  intros Hwf Hget Hst. unfold complete_offramp. rewrite exec_db_read, Hget.
  pose proof (get_hash_get_id _ _ _ Hwf Hget) as Hid.
  rewrite exec_db_op, transition_offramp_status_spec, Hid by done. cbn [fmap option_fmap option_map].
  rewrite decide_False by congruence. by destruct s.
Qed.

(** C10: a run of [complete_offramp] never panics.  Unless the payment hash belongs
    to an offramp in [PayingLightning], it changes nothing and sends nothing.
    Otherwise the preimage is recorded, no other row changes, and the offramp ends
    [Completed] with the hash of the one submission the chain accepted as its
    deposit hash, or [Failed] with an error message and no accepted submission;
    the only on-chain offramp it fulfils has the row's id. *)
Theorem complete_offramp_correct h preimage s w :
  db_wf (swap_db s) ->
  let r := exec (complete_offramp h preimage) s w in
  out r = Done tt /\
  match SwapDb.get_offramp_by_payment_hash h (swap_db s) with
  | Some m =>
      let id := Offramp.offramp_id m in
      if decide (Offramp.status m = OfframpStatus.PayingLightning) then
        Forall (fun e : event resp => complete_request id (projT1 e)) (log r) /\
        ((exists hash, omap submitted (log r) = [hash] /\
            offramp_row id (completed_row preimage OfframpStatus.Completed (Some hash) None m)
              (swap_db s) (swap_db (fin r))) \/
         (exists msg, omap submitted (log r) = [] /\
            offramp_row id (completed_row preimage OfframpStatus.Failed None (Some msg) m)
              (swap_db s) (swap_db (fin r))))
      else fin r = s /\ log r = []
  | None => fin r = s /\ log r = []
  end.
Proof.
  intros Hwf. cbn zeta. unfold complete_offramp. rewrite exec_db_read.
  destruct (SwapDb.get_offramp_by_payment_hash h (swap_db s)) as [m|] eqn:Hget; [|done].
  pose proof (get_hash_get_id _ _ _ Hwf Hget) as Hid.
  rewrite exec_db_op, transition_offramp_status_spec, Hid by done. cbn [fmap option_fmap option_map].
  destruct (decide (Offramp.status m = _)) as [Hst|Hst].
  2: { rewrite decide_False by congruence. by destruct s. }
  rewrite decide_True by congruence. cbn [fst snd negb].
  set (s1 := set_db s _).
  destruct (wp_exec _ s1 w _ (wp_complete_owned m preimage s1))
    as (-> & st & dep & err & -> & HR & Hcase).
  split; [done|]. split; [done|]. cbn [swap_db set_db s1].
  destruct Hcase as [(hash & -> & -> & -> & ?)|(msg & -> & -> & -> & ?)]; [left|right];
    eexists; (split; [done|]); unfold completed_row; auto 6 with swapdb.
Qed.

(** Worlds [G] in which the operator shows the offramp and accepts every transaction, and
    which stay such worlds as long as nobody sleeps. *)
Record responsive_offramp (G : W -> Prop) (id : Z) : Prop := {
  resp_offramp_query w : G w ->
    exists st, (answer (ROp QueryState) w).1 = Ok st /\ is_Some (find_offramp id st);
  resp_offramp_fulfill w o : G w -> exists tx, (answer (ROp (FulfillOfframp o)) w).1 = Ok tx;
  resp_offramp_submit w tx : G w -> exists hash, (answer (ROp (SubmitTx tx)) w).1 = Ok hash;
  resp_offramp_stable w r : G w -> (forall secs, r <> RSleep secs) -> G (answer r w).2;
}.

(** Against such an operator an offramp that is being paid is completed, with one query, one
    build and one submission. *)
Lemma complete_offramp_completes G h preimage s w m :
  db_wf (swap_db s) -> SwapDb.get_offramp_by_payment_hash h (swap_db s) = Some m ->
  Offramp.status m = OfframpStatus.PayingLightning ->
  responsive_offramp G (Offramp.offramp_id m) -> G w ->
  let r := exec (complete_offramp h preimage) s w in
  exists o tx hash,
    op_log (log r) = [QueryState; FulfillOfframp o; SubmitTx tx] /\
    ChainOfframp.offramp_id o = Offramp.offramp_id m /\
    SwapDb.get_offramp_by_id (Offramp.offramp_id m) (swap_db (fin r))
    = Some (completed_row preimage OfframpStatus.Completed (Some hash) None m).
Proof.
  intros Hwf Hget Hst [Hq Hf Hs Hn] HG. cbn zeta.
  pose proof (get_hash_get_id _ _ _ Hwf Hget) as Hid.
  unfold complete_offramp. rewrite exec_db_read, Hget, exec_db_op.
  rewrite transition_offramp_status_spec, Hid, decide_True by (done || cbn; congruence).
  cbn [fst snd negb]. unfold complete_owned. rewrite exec_db_write.
  destruct (Hq w HG) as (st & Eq & [o Ho]). erewrite exec_query_found by done.
  set (w2 := (answer (ROp QueryState) w).2). assert (G w2) as G2 by (by apply Hn).
  destruct (Hf w2 o G2) as [tx Ef].
  set (w3 := (answer (ROp (FulfillOfframp o)) w2).2). assert (G w3) as G3 by (by apply Hn).
  destruct (Hs w3 tx G3) as [hash Es]. erewrite exec_submit_first
    by (unfold exec, fulfill_offramp_and_submit; cbn in *; rewrite Ef; cbn; fold w3; by rewrite Es).
  rewrite exec_db_write_ret. cbn. exists o, tx, hash. split; [done|].
  split; [by eapply find_offramp_id|].
  by rewrite !get_update_offramp_status, get_set_offramp_status, !Z.eqb_refl, Hid.
Qed.
End complete_theorems.

(** ** Behaviour of [process_offramp_deposit] *)

Section deposit.
Context `{Externals}.

(** What paying a verified offramp leaves behind. *)
Definition offramp_paid (id : Z) (m : OfframpMapping) (s : Relay)
  (o : outcome (result unit string)) (s' : Relay) (l : list (event resp)) : Prop :=
  match bolt11_from_str (Offramp.bolt11 m), cbtc_to_msat (Offramp.amount_cbtc m) with
  | Ok inv, Some msat =>
      Forall (fun e : event resp => pay_request inv (Some msat) (projT1 e)) l /\
      match o with
      | Done (Ok _) => omap paid l = [invoice_payment_hash inv] /\ swap_db s' = swap_db s
      | Done (Err msg) => omap paid l = [] /\
          swap_db s' = SwapDb.update_offramp_status id OfframpStatus.Failed None None (Some msg)
                         (swap_db s)
      | Panicked _ => omap paid l = [] /\ swap_db s' = swap_db s
      end
  | _, _ => (exists e, o = Done (Err e)) /\ s' = s /\ l = []
  end.

Lemma wp_pay_offramp id m s l Q :
  (forall o s' l1, offramp_paid id m s o s' l1 -> Q o s' (l ++ l1)) ->
  wp (pay_offramp id m) s l Q.
Proof.
  intros HQ. unfold pay_offramp, bind_try, offramp_paid in *. cbn.
  destruct (bolt11_from_str _) as [inv|e]; cbn.
  2: { rewrite <- (app_nil_r l). apply HQ. by eauto. }
  destruct (cbtc_to_msat _) as [msat|]; cbn.
  2: { rewrite <- (app_nil_r l). apply HQ. by eauto. }
  apply wp_bind, wp_send_payment. intros o s' l1 [HF Hs].
  destruct (payment_amount _ _) as [amt|e].
  - destruct Hs as (_ & st & -> & Hs). destruct o as [[[]|e]|msg]; cbn.
    + apply HQ. naive_solver.
    + apply HQ. naive_solver.
    + apply HQ. naive_solver.
  - destruct Hs as (-> & -> & ->). cbn. apply HQ. naive_solver.
Qed.
End deposit.

Section deposit_theorems.
Context `{Externals} {W : Type} `{!Env W}.
Implicit Types (s : Relay) (w : W).

(** The state before the deposit is verified, and after. *)
Lemma exec_process_deposit id tx s w m :
  db_wf (swap_db s) -> SwapDb.get_offramp_by_id id (swap_db s) = Some m ->
  claimed_by_other id tx (swap_db s) = None -> Offramp.status m = OfframpStatus.AwaitingDeposit ->
  let rq := ROp (VerifyCbtcReceived tx (Offramp.amount_cbtc m)) in
  let s1 := set_db s (set_offramp_status id OfframpStatus.PendingVerification (swap_db s)) in
  exec (process_offramp_deposit id tx) s w =
  log_cons (existT rq (answer rq w).1)
    (match (answer rq w).1 with
     | Ok true =>
         exec (pay_offramp id m)
           (set_db s1 (set_offramp_cbtc_status id tx OfframpStatus.PayingLightning (swap_db s1)))
           (answer rq w).2
     | Ok false =>
         RunResult (Done (Err ("cBTC not found at operator address in tx " +:+ tx)))
           (set_db s1 (SwapDb.update_offramp_status id OfframpStatus.AwaitingDeposit None None
              (Some "cBTC not received at operator address") (swap_db s1))) (answer rq w).2 []
     | Err e =>
         RunResult (Done (Err ("failed to verify cBTC receipt: " +:+ error_display e)))
           (set_db s1 (SwapDb.update_offramp_status id OfframpStatus.AwaitingDeposit None None None
              (swap_db s1))) (answer rq w).2 []
     end).
Proof.
  intros Hwf Hget Hc Hst. cbn zeta. unfold process_offramp_deposit. rewrite exec_db_read, Hget.
  rewrite exec_db_read, Hc, exec_db_op.
  rewrite transition_offramp_status_spec, decide_True by (rewrite ?Hget; cbn; congruence).
  cbn [fst snd negb]. rewrite exec_op. f_equal.
  destruct (answer _ w) as [[[]|e] w']; cbn [fst snd]; [|done|done].
  rewrite exec_db_op, transition_offramp_with_cbtc_tx_spec, decide_True; [done| |].
  - cbn. by rewrite get_set_offramp_status, Z.eqb_refl, Hget.
  - cbn. auto with swapdb.
Qed.

(** A deposit that was accepted: the row awaited it, and its invoice is being paid. *)
Lemma deposit_accepted id tx s w u :
  db_wf (swap_db s) -> out (exec (process_offramp_deposit id tx) s w) = Done (Ok u) ->
  exists m inv msat,
    SwapDb.get_offramp_by_id id (swap_db s) = Some m /\
    Offramp.status m = OfframpStatus.AwaitingDeposit /\
    bolt11_from_str (Offramp.bolt11 m) = Ok inv /\ cbtc_to_msat (Offramp.amount_cbtc m) = Some msat /\
    Forall (fun e : event resp => match projT1 e with ROp _ => True | r => pay_request inv (Some msat) r end)
      (log (exec (process_offramp_deposit id tx) s w)) /\
    omap paid (log (exec (process_offramp_deposit id tx) s w)) = [invoice_payment_hash inv] /\
    offramp_row id (Offramp.with_status OfframpStatus.PayingLightning (Offramp.with_cbtc_tx tx m))
      (swap_db s) (swap_db (fin (exec (process_offramp_deposit id tx) s w))).
Proof.
  intros Hwf Ho. destruct (SwapDb.get_offramp_by_id id (swap_db s)) as [m|] eqn:Hget.
  2: { unfold process_offramp_deposit in Ho. by rewrite exec_db_read, Hget in Ho. }
  destruct (claimed_by_other id tx (swap_db s)) as [o|] eqn:Hc.
  { unfold process_offramp_deposit in Ho. by rewrite exec_db_read, Hget, exec_db_read, Hc in Ho. }
  destruct (decide (Offramp.status m = OfframpStatus.AwaitingDeposit)) as [Hst|Hst].
  2: { unfold process_offramp_deposit in Ho. rewrite exec_db_read, Hget, exec_db_read, Hc, exec_db_op in Ho.
       by rewrite transition_offramp_status_spec, Hget, decide_False in Ho by (cbn; congruence). }
  rewrite (exec_process_deposit id tx s w m) in Ho |- * by done.
  destruct (answer _ w) as [[[]|e] w']; [|done|done]. cbn [fst snd] in Ho |- *.
  set (s2 := set_db _ (set_offramp_cbtc_status _ _ _ _)) in Ho |- *.
  pose proof (wp_exec (pay_offramp id m) s2 w' (offramp_paid id m s2)) as Hp.
  specialize (Hp ltac:(apply wp_pay_offramp; intros o s' l1 Hl; exact Hl)). unfold offramp_paid in Hp.
  destruct (exec (pay_offramp id m) s2 w') as [o s3 w3 l3].
  cbn [out fin log log_cons] in Ho, Hp |- *. subst o.
  destruct (bolt11_from_str _) as [inv|e] eqn:Eb; [destruct (cbtc_to_msat _) as [msat|] eqn:Em|];
    [|by destruct Hp as ((? & ?) & _)..].
  destruct Hp as (HF & Hpaid & Hdb). exists m, inv, msat. split_and!; try done.
  - constructor; [done|]. eapply Forall_impl; [exact HF|]. intros [r x]. by destruct r.
  - rewrite Hdb. unfold s2. cbn [swap_db set_db].
    apply (offramp_row_set_cbtc _ (Offramp.with_status OfframpStatus.PendingVerification m)).
    auto with swapdb.
Qed.

(** C9: [process_offramp_deposit] has no effect and makes no request unless the
    offramp exists, awaits its deposit, and the transaction is not recorded for
    another offramp.  Otherwise it first asks for verification of this transaction
    and of the row's amount.  A refused or failed verification puts the row back
    to [AwaitingDeposit] and pays nothing.  After a verification the transaction is
    recorded in the row, and a Lightning payment can follow only then: it is the
    payment of the row's invoice with the row's amount, it was accepted exactly
    when [Ok] is returned, and the row is then [PayingLightning].  No other row changes.
    (What is left of a row whose payment could not be initiated is said by
    [initiation_failure_fails].) *)
Theorem process_offramp_deposit_correct id tx s w :
  db_wf (swap_db s) ->
  let r := exec (process_offramp_deposit id tx) s w in
  match SwapDb.get_offramp_by_id id (swap_db s) with
  | Some m =>
      if decide (claimed_by_other id tx (swap_db s) = None /\
                 Offramp.status m = OfframpStatus.AwaitingDeposit) then
        exists v l m',
          log r = existT (ROp (VerifyCbtcReceived tx (Offramp.amount_cbtc m))) v :: l /\
          offramp_row id m' (swap_db s) (swap_db (fin r)) /\
          match v with
          | Ok true =>
              Offramp.cbtc_tx_hash m' = tx /\
              match bolt11_from_str (Offramp.bolt11 m), cbtc_to_msat (Offramp.amount_cbtc m) with
              | Ok inv, Some msat =>
                  Forall (fun e : event resp => pay_request inv (Some msat) (projT1 e)) l /\
                  match out r with
                  | Done (Ok _) => omap paid l = [invoice_payment_hash inv] /\
                      Offramp.status m' = OfframpStatus.PayingLightning
                  | Done (Err _) => omap paid l = []
                  | Panicked _ => omap paid l = [] /\
                      Offramp.status m' = OfframpStatus.PayingLightning
                  end
              | _, _ => (exists e, out r = Done (Err e)) /\ l = [] /\
                  Offramp.status m' = OfframpStatus.PayingLightning
              end
          | _ => (exists e, out r = Done (Err e)) /\ l = [] /\
              Offramp.status m' = OfframpStatus.AwaitingDeposit /\
              Offramp.cbtc_tx_hash m' = Offramp.cbtc_tx_hash m
          end
      else (exists e, out r = Done (Err e)) /\ fin r = s /\ log r = []
  | None => (exists e, out r = Done (Err e)) /\ fin r = s /\ log r = []
  end.
Proof.
  intros Hwf. cbn zeta.
  destruct (SwapDb.get_offramp_by_id id (swap_db s)) as [m|] eqn:Hget.
  2: { unfold process_offramp_deposit. rewrite exec_db_read, Hget. eauto. }
  destruct (decide _) as [[Hc Hst]|Hno].
  - rewrite (exec_process_deposit id tx s w m) by done.
    assert (offramp_row id (Offramp.with_status OfframpStatus.PendingVerification m) (swap_db s)
      (set_offramp_status id OfframpStatus.PendingVerification (swap_db s))) as H1
      by auto with swapdb.
    destruct (answer _ w) as [v w'] eqn:Ev. cbn [fst snd].
    exists v. destruct v as [[]|e].
    + apply (offramp_row_set_cbtc _ _ _ _ tx OfframpStatus.PayingLightning) in H1. cbn [swap_db set_db].
      set (s2 := set_db _ (set_offramp_cbtc_status _ _ _ _)).
      change (set_offramp_cbtc_status _ _ _ _) with (swap_db s2) in H1.
      pose proof (wp_exec (pay_offramp id m) s2 w' (offramp_paid id m s2)) as Hp.
      specialize (Hp ltac:(apply wp_pay_offramp; intros o s' l1 Hl; exact Hl)).
      exists (log (exec (pay_offramp id m) s2 w')). clearbody s2. unfold offramp_paid in Hp.
      destruct (exec (pay_offramp id m) s2 w') as [o s3 w3 l3]. cbn in *.
      destruct (bolt11_from_str _) as [inv|e]; [destruct (cbtc_to_msat _) as [msat|]|].
      * destruct Hp as [HF Hp]. destruct o as [[u|e]|msg]; destruct Hp as [Hp ->]; eauto 10.
        eexists. split; [done|]. split; [by apply offramp_row_update|]. done.
      * destruct Hp as (? & -> & ->). eauto 10.
      * destruct Hp as (? & -> & ->). eauto 10.
    + eexists [], _. split; [done|]. split; [by apply offramp_row_update|]. eauto.
    + eexists [], _. split; [done|]. split; [by apply offramp_row_update|]. eauto.
  - unfold process_offramp_deposit. rewrite exec_db_read, Hget, exec_db_read.
    destruct (claimed_by_other _ _ _) eqn:Hc; [by eauto|].
    rewrite exec_db_op, transition_offramp_status_spec, decide_False
      by (rewrite ?Hget; cbn; naive_solver).
    destruct s. eauto.
Qed.

(** After a verified deposit whose payment cannot be initiated the row is [Failed] with the
    error recorded, not back in [AwaitingDeposit]. *)
Lemma initiation_failure_fails id tx s w m inv msat l e :
  db_wf (swap_db s) -> SwapDb.get_offramp_by_id id (swap_db s) = Some m ->
  claimed_by_other id tx (swap_db s) = None -> Offramp.status m = OfframpStatus.AwaitingDeposit ->
  bolt11_from_str (Offramp.bolt11 m) = Ok inv -> cbtc_to_msat (Offramp.amount_cbtc m) = Some msat ->
  log (exec (process_offramp_deposit id tx) s w)
  = existT (ROp (VerifyCbtcReceived tx (Offramp.amount_cbtc m))) (Ok true) :: l ->
  out (exec (process_offramp_deposit id tx) s w) = Done (Err e) ->
  exists m', SwapDb.get_offramp_by_id id (swap_db (fin (exec (process_offramp_deposit id tx) s w))) = Some m' /\
    Offramp.status m' = OfframpStatus.Failed /\ Offramp.error_message m' = Some e.
Proof.
  intros Hwf Hget Hc Hst Eb Em Hlog Ho. rewrite (exec_process_deposit id tx s w m) in * by done.
  destruct (answer _ w) as [v w']. cbn [fst snd] in *.
  assert (v = Ok true) as ->.
  { apply (f_equal (fun l : list (event resp) => match l return option (result bool CardanoError) with
      | existT (ROp (VerifyCbtcReceived _ _)) x :: _ => Some x | _ => None end)) in Hlog.
    by injection Hlog. }
  set (s2 := set_db _ (set_offramp_cbtc_status _ _ _ _)) in *.
  pose proof (wp_exec (pay_offramp id m) s2 w' (offramp_paid id m s2)) as Hp.
  specialize (Hp ltac:(apply wp_pay_offramp; intros o s' l1 Hl; exact Hl)). unfold offramp_paid in Hp.
  rewrite Eb, Em in Hp. destruct (exec (pay_offramp id m) s2 w') as [o s3 w3 l3].
  cbn [out fin log log_cons] in Ho, Hp |- *. subst o. destruct Hp as (_ & _ & ->).
  assert (offramp_row id (Offramp.with_status OfframpStatus.PendingVerification m) (swap_db s)
    (set_offramp_status id OfframpStatus.PendingVerification (swap_db s))) as H1 by auto with swapdb.
  apply (offramp_row_set_cbtc _ _ _ _ tx OfframpStatus.PayingLightning) in H1.
  change (set_offramp_cbtc_status _ _ _ _) with (swap_db s2) in H1.
  apply (offramp_row_update _ _ _ _ OfframpStatus.Failed None None (Some e)) in H1 as [H1 _].
  by eexists.
Qed.
End deposit_theorems.

(** ** Behaviour of [request_offramp] *)

Section request.
Context `{Externals}.

Definition create_offramp_request (amount : Z) (h pkh : string) (expires_at : Z) (r : Req) : Prop :=
  match r with
  | RNow | RSleep _ | ROp (SubmitTx _) => True
  | ROp (CreateOfframp a h' p e) => a = amount /\ h' = h /\ p = pkh /\ e = expires_at
  | _ => False
  end.

Lemma create_offramp_spec amount h pkh expires_at :
  effect_spec (create_and_submit amount h pkh expires_at)
    (create_offramp_request amount h pkh expires_at) submitted (fun '(_, hash) => [hash]).
Proof.
  apply create_submit_spec; [done|]. op_spec.
Qed.

(** The requests that pass every check made before the chain is asked. *)
Record admissible (bolt11 : string) (amount : Z) (addr : string) (db : SwapDb.t)
  (inv : Bolt11Invoice) (pkh : string) : Prop := {
  adm_parses : bolt11_from_str bolt11 = Ok inv;
  adm_unused : SwapDb.get_offramp_by_payment_hash (sha256_display (invoice_payment_hash inv)) db
               = None;
  adm_network : network_ok (invoice_currency inv) (starts_with operator_address "addr_test") = true;
  adm_amount : exists msat, cbtc_to_msat amount = Some msat /\
    forall a, amount_milli_satoshis inv = Some a -> a = msat;
  adm_address : address_to_pkh addr = Ok pkh;
}.

(** The mapping stored for an admitted request. *)
Definition new_offramp (id : Z) (bolt11 : string) (inv : Bolt11Invoice) (amount now expiry : Z)
  (hash pkh : string) : OfframpMapping :=
  Offramp.mk id bolt11 (sha256_display (invoice_payment_hash inv)) amount ""
    OfframpStatus.AwaitingDeposit now None None None (Some hash) pkh (i64_add now expiry).

(** The log ends with the creation of the offramp [id] and the accepted submission of the
    transaction that the creation returned. *)
Definition offramp_created (amount : Z) (h pkh : string) (expires_at id : Z) (hash : string)
  (l : list (event resp)) : Prop :=
  exists l0 tx, l = l0 ++ [existT (ROp (CreateOfframp amount h pkh expires_at)) (Ok (id, tx));
                           existT (ROp (SubmitTx tx)) (Ok hash)].

Lemma wp_create_offramp amount h pkh expires_at s l Q :
  (forall r l1, Forall (fun e : event resp => create_offramp_request amount h pkh expires_at (projT1 e)) l1 ->
     match r with
     | Ok (id, hash) => omap submitted l1 = [hash] /\ offramp_created amount h pkh expires_at id hash l1
     | Err _ => omap submitted l1 = []
     end -> Q (Done r) s (l ++ l1)) ->
  wp (submit_contract_tx_with_retry "CreateOfframp" 3 15 (create_and_submit amount h pkh expires_at)) s l Q.
Proof.
  intros HQ. eapply wp_mono; [|apply wp_and].
  2: { eapply (submit_effect_spec _ _ _ _ _ submitted); [apply create_offramp_spec|done|done]. }
  2: { apply (wp_submit_last _ _ _ _ (fun '(id, hash) l1 => exists tx,
         l1 = [existT (ROp (CreateOfframp amount h pkh expires_at)) (Ok (id, tx));
               existT (ROp (SubmitTx tx)) (Ok hash)])).
       intros s0 l0. unfold create_and_submit, bind_try. cbn. intros [[id tx]|e]; cbn.
       - intros [hash|e]; cbn; (split; [done|]); eexists _, _; (split; [done|]); rewrite <- app_assoc;
           (split; [done|]); [|done]. intros v [= <-]. by exists tx.
       - split; [done|]. by eexists _, _. }
  intros o s' l' ((-> & r & l1 & -> & -> & HF & Hs) & _ & r' & l1' & [= <-] & E & HP).
  apply app_inv_head in E as <-. apply HQ; [done|]. destruct r as [[id hash]|e]; [|done].
  split; [done|]. destruct (HP _ eq_refl) as (l2 & l3 & -> & tx & ->). by exists l2, tx.
Qed.

(** What [request_offramp] leaves behind. *)
Definition offramp_requested (bolt11 : string) (amount : Z) (addr : string) (expiry : Z) (s : Relay)
  (o : outcome (result (Z * string * string) string)) (s' : Relay) (l : list (event resp)) : Prop :=
  match o with
  | Done (Ok (id, op_addr, h)) => exists inv pkh now hash,
      admissible bolt11 amount addr (swap_db s) inv pkh /\
      op_addr = operator_address /\ h = sha256_display (invoice_payment_hash inv) /\
      Forall (fun e : event resp =>
        create_offramp_request amount h pkh (i64_add now expiry) (projT1 e)) l /\
      omap submitted l = [hash] /\ offramp_created amount h pkh (i64_add now expiry) id hash l /\
      s' = set_db s (swap_db s') /\ SwapDb.get_offramp_by_id id (swap_db s) = None /\
      offramp_row id (new_offramp id bolt11 inv amount now expiry hash pkh)
        (swap_db s) (swap_db s')
  | Done (Err _) => s' = s /\ omap submitted l = []
  | Panicked _ => s' = s /\ exists id inv pkh expires_at hash,
      admissible bolt11 amount addr (swap_db s) inv pkh /\ omap submitted l = [hash] /\
      offramp_created amount (sha256_display (invoice_payment_hash inv)) pkh expires_at id hash l /\
      is_Some (SwapDb.get_offramp_by_id id (swap_db s))
  end.

Lemma wp_request_offramp bolt11 amount addr expiry s :
  wp (request_offramp bolt11 amount addr expiry) s []
    (offramp_requested bolt11 amount addr expiry s).
Proof.
  unfold request_offramp, bind_try. cbn [bind].
  destruct (bolt11_from_str bolt11) as [inv|e] eqn:Einv; cbn [map_err]; [|done].
  wp_step. destruct (SwapDb.get_offramp_by_payment_hash _ _) eqn:Edup; [done|].
  destruct (network_ok _ _) eqn:Enet; cbn [negb]; [|done].
  destruct (cbtc_to_msat amount) as [msat|] eqn:Emsat; cbn [ok_or]; [|done].
  destruct (amount_mismatch _ _) eqn:Emis; [done|].
  destruct (address_to_pkh addr) as [pkh|e] eqn:Epkh; [|done].
  assert (admissible bolt11 amount addr (swap_db s) inv pkh) as Hadm.
  { split; try done. exists msat. split; [done|]. intros a Ha. unfold amount_mismatch in Emis.
    rewrite Ha in Emis. by destruct (Z.eqb_spec a msat). }
  wp_step. apply wp_bind, wp_create_offramp.
  intros r l1 HF Hs. destruct r as [[id hash]|e]; cbn [wp_cont map_err]; [|done].
  destruct Hs as [Hs (l0 & tx & ->)].
  set (m := Offramp.mk _ _ _ _ _ _ _ _ _ _ _ _ _). wp_step.
  destruct (SwapDb.insert_offramp m (swap_db s)).1 eqn:Eins.
  - cbn. exists inv, pkh, (wrap_i64 (Z.of_N t)), hash.
    assert (SwapDb.get_offramp_by_id id (swap_db s) = None) as Hn.
    { apply eq_None_not_Some. intros Hs'. apply (insert_offramp_conflict m) in Hs'. congruence. }
    split_and!; try done; [by apply Forall_cons_2|by eexists (_ :: l0), tx|split].
    + rewrite get_insert_offramp by done. by rewrite Z.eqb_refl.
    + intros id' Hne. rewrite get_insert_offramp by done.
      destruct (Z.eqb_spec (Offramp.offramp_id m) id') as [E|]; [by destruct Hne|done].
  - cbn. assert (is_Some (SwapDb.get_offramp_by_id id (swap_db s))) as Htaken
      by (by apply (insert_offramp_conflict m)).
    rewrite insert_offramp_conflict_db by done. split; [by destruct s|].
    eexists id, inv, pkh, _, hash. split_and!; [done|done| |done]. by eexists (_ :: l0), tx.
Qed.
End request.

(** ** Behaviour of the failure handler and of the cancellation *)

Section failed.
Context `{Externals}.

(** The requests the failure handler makes for an offramp. *)
Definition refund_request (m : OfframpMapping) (r : Req) : Prop :=
  match r with
  | ROp (SubmitTx _) => True
  | ROp (CancelOfframp id) => id = Offramp.offramp_id m
  | ROp (SendCbtc a amt) => a = Offramp.refund_address m /\ a <> ""%string /\ amt = Offramp.amount_cbtc m
  | _ => False
  end.

Definition refunds (e : event resp) : option Z :=
  match e with existT (ROp (SendCbtc _ amt)) _ => Some amt | _ => None end.

(** Cancelling leaves the row alone, or marks it failed and appends to its message. *)
Lemma wp_cancel_offramp m s l Q :
  (forall s' l1, Forall (fun e : event resp => refund_request m (projT1 e)) l1 ->
     omap refunds l1 = [] ->
     (s' = s /\ omap submitted l1 = [] \/
      exists hash, omap submitted l1 = [hash] /\
        s' = set_db s (SwapDb.update_offramp_status (Offramp.offramp_id m) OfframpStatus.Failed
               None None (Some (cancel_message
                 (default "" (SwapDb.get_offramp_by_id (Offramp.offramp_id m) (swap_db s)
                              ≫= Offramp.error_message)) hash)) (swap_db s))) ->
     Q (Done tt) s' (l ++ l1)) ->
  wp (cancel_offramp_on_chain m) s l Q.
Proof.
  intros HQ. unfold cancel_offramp_on_chain. wp_step. destruct x as [tx|e].
  - wp_step. rewrite <- app_assoc. destruct x as [hash|e].
    + wp_step. apply wp_db_write_ret, HQ; [by repeat constructor|done|right; eauto].
    + cbn. apply HQ; [by repeat constructor|done|by left].
  - cbn. apply HQ; [by repeat constructor|done|by left].
Qed.

(** The refund attempt only talks to the operator, and sends at most once. *)
Lemma wp_refund_message m s l Q :
  (forall msg l1, Forall (fun e : event resp => refund_request m (projT1 e)) l1 ->
     (length (omap refunds l1) <= 1)%nat -> Q (Done msg) s (l ++ l1)) ->
  wp (refund_message m) s l Q.
Proof.
  intros HQ. unfold refund_message.
  destruct (Offramp.refund_address m) as [|c a] eqn:Ea; cbn [str_is_empty negb].
  { cbn. rewrite <- (app_nil_r l). apply HQ; [constructor|cbn; lia]. }
  wp_step. destruct x as [tx|e].
  - wp_step. rewrite <- app_assoc. destruct x as [hash|e]; cbn; apply HQ; cbn; try lia;
      repeat constructor; done.
  - cbn. apply HQ; cbn; [repeat constructor; done|lia].
Qed.

Lemma wp_payment_failed h s m :
  db_wf (swap_db s) -> SwapDb.get_offramp_by_payment_hash h (swap_db s) = Some m ->
  wp (handle_offramp_payment_failed h) s [] (fun o s' l => o = Done tt /\
    Forall (fun e : event resp => refund_request m (projT1 e)) l /\
    (length (omap refunds l) <= 1)%nat /\ exists m',
      offramp_row (Offramp.offramp_id m) m' (swap_db s) (swap_db s') /\
      Offramp.status m' = OfframpStatus.Failed /\ is_Some (Offramp.error_message m')).
Proof.
  intros Hwf Hget. pose proof (get_hash_get_id _ _ _ Hwf Hget) as Hid.
  unfold handle_offramp_payment_failed. wp_step. rewrite Hget.
  apply wp_bind, wp_refund_message. intros msg l1 HF1 Hr1. cbn [wp_cont app].
  unfold set_error at 1. wp_step. set (s1 := set_db s _).
  assert (offramp_row (Offramp.offramp_id m) (Offramp.coalesce OfframpStatus.Failed None None (Some msg) m)
    (swap_db s) (swap_db s1)) as Hrow by (cbn; auto with swapdb).
  apply wp_cancel_offramp. intros s2 l2 HF2 Hr2 Hcase.
  rewrite Forall_app, omap_app, length_app, Hr2. cbn.
  split; [done|]. split; [done|]. split; [lia|].
  destruct Hcase as [[-> _]|(hash & _ & ->)].
  - eexists. split; [exact Hrow|]. by cbn.
  - eexists. split; [apply offramp_row_update; exact Hrow|]. by cbn.
Qed.
End failed.

Section request_theorems.
Context `{Externals} {W : Type} `{!Env W}.
Implicit Types (s : Relay) (w : W).

(** C11: [request_offramp] stores an offramp only for an admissible request: a BOLT11
    invoice that parses, whose payment hash is in no stored offramp, of the relay's
    network, over the requested amount or none, and a valid refund address.  It
    returns [Ok] only after one accepted submission, of the transaction that its own
    [CreateOfframp] returned, and has then added exactly one row, under the id that this
    [CreateOfframp] returned, awaiting its deposit.  An error leaves the database as it was
    with no accepted submission.  It panics only when the request was admissible, the
    submission was accepted and the id of this [CreateOfframp] is already in the table; the
    database is then as it was. *)
Theorem request_offramp_correct bolt11 amount addr expiry s w :
  let r := exec (request_offramp bolt11 amount addr expiry) s w in
  match out r with
  | Done (Ok (id, op_addr, h)) => exists inv pkh now hash,
      admissible bolt11 amount addr (swap_db s) inv pkh /\
      op_addr = operator_address /\ h = sha256_display (invoice_payment_hash inv) /\
      Forall (fun e : event resp =>
        create_offramp_request amount h pkh (i64_add now expiry) (projT1 e)) (log r) /\
      omap submitted (log r) = [hash] /\
      offramp_created amount h pkh (i64_add now expiry) id hash (log r) /\
      fin r = set_db s (swap_db (fin r)) /\ SwapDb.get_offramp_by_id id (swap_db s) = None /\
      offramp_row id (new_offramp id bolt11 inv amount now expiry hash pkh)
        (swap_db s) (swap_db (fin r))
  | Done (Err _) => fin r = s /\ omap submitted (log r) = []
  | Panicked _ => fin r = s /\ exists id inv pkh expires_at hash,
      admissible bolt11 amount addr (swap_db s) inv pkh /\ omap submitted (log r) = [hash] /\
      offramp_created amount (sha256_display (invoice_payment_hash inv)) pkh expires_at id hash (log r) /\
      is_Some (SwapDb.get_offramp_by_id id (swap_db s))
  end.
Proof.
  exact (wp_exec _ s w _ (wp_request_offramp bolt11 amount addr expiry s)).
Qed.

(** C16: when a Lightning payment fails, the handler marks the offramp with that
    payment hash [Failed] with a message, whatever its status was, and touches no
    other row; it sends at most one refund, of the row's amount to the row's
    refund address, and cancels no other on-chain offramp.  An unknown payment
    hash has no effect. *)
Theorem payment_failed_correct h s w :
  db_wf (swap_db s) ->
  let r := exec (handle_offramp_payment_failed h) s w in
  out r = Done tt /\
  match SwapDb.get_offramp_by_payment_hash h (swap_db s) with
  | None => fin r = s /\ log r = []
  | Some m =>
      Forall (fun e : event resp => refund_request m (projT1 e)) (log r) /\
      (length (omap refunds (log r)) <= 1)%nat /\
      exists m', offramp_row (Offramp.offramp_id m) m' (swap_db s) (swap_db (fin r)) /\
        Offramp.status m' = OfframpStatus.Failed /\ is_Some (Offramp.error_message m')
  end.
Proof.
  intros Hwf. cbn zeta. destruct (SwapDb.get_offramp_by_payment_hash h (swap_db s)) as [m|] eqn:Hget.
  - by destruct (wp_exec _ s w _ (wp_payment_failed h s m Hwf Hget)) as (? & ? & ? & ?).
  - unfold handle_offramp_payment_failed. by rewrite exec_db_read, Hget.
Qed.
End request_theorems.
