(* ===== verification/Bounds.v ===== *)
(** * How long a handler can run

    Every handler terminates, since [Prog] is inductive; this file says after how much.
    [within c n p]: whatever the answers are, the requests of [p] cost at most [n]
    together, where [c] is the cost of a request.  The two costs of interest are the
    number of operator requests and the seconds slept between attempts. *)

From S2P Require Import Prelude Effects Mapping MappingFacts MappingSpec Types RateLimiter World.
From S2P Require Import Helpers Rows CardanoSwap Payments CardanoOfframp.

Section within.
Context `{Externals} (c : Req -> nat).

Fixpoint within (n : nat) {A} (p : relay_prog A) : Prop :=
  match p with
  | Ret _ | Panic _ => True
  | Local f k => forall s, within n (k (f s).1)
  | Call r k => (c r <= n)%nat /\ forall x, within (n - c r) (k x)
  end.

Lemma within_mono n m {A} (p : relay_prog A) : (n <= m)%nat -> within n p -> within m p.
Proof.
  revert n m. induction p as [a|X f k IH|r k IH|msg]; intros n m Hnm; cbn; try done.
  - intros Hp s. by apply (IH _ n).
  - intros [Hr Hp]. split; [lia|]. intros x. apply (IH x (n - c r)%nat); [lia|done].
Qed.

Lemma within_bind n m {A B} (p : relay_prog A) (f : A -> relay_prog B) :
  within n p -> (forall a, within m (f a)) -> within (n + m) (bind p f).
Proof.
  intros Hp Hf. revert n Hp. induction p as [a|X g k IH|r k IH|msg]; intros n Hp; cbn in *; try done.
  - apply (within_mono m); [lia|done].
  - intros s. by apply IH.
  - destruct Hp as [Hr Hp]. split; [lia|]. intros x.
    replace (n + m - c r)%nat with ((n - c r) + m)%nat by lia. by apply IH.
Qed.

Lemma within_call n {B} r (k : resp r -> relay_prog B) :
  (forall x, within n (k x)) -> within (c r + n) (bind (call r) k).
Proof. intros Hk. split; [lia|]. intros x. eapply within_mono, Hk. lia. Qed.

Lemma within_db_read n {A B} (f : SwapDb.t -> A) (k : A -> relay_prog B) :
  (forall x, within n (k x)) -> within n (bind (db_read f) k).
Proof. intros Hk s. apply Hk. Qed.

Lemma within_db_op n {A B} (f : SwapDb.t -> A * SwapDb.t) (k : A -> relay_prog B) :
  (forall x, within n (k x)) -> within n (bind (db_op f) k).
Proof. intros Hk s. unfold db_op. destruct (f (swap_db s)). apply Hk. Qed.

(** The cost of a log. *)
Definition total (l : list (event resp)) : nat := sum_list_with (fun e => c (projT1 e)) l.

Lemma within_exec {W} `{!Env W} n {A} (p : relay_prog A) s (w : W) :
  within n p -> (total (log (exec p s w)) <= n)%nat.
Proof.
  unfold exec. revert n s w. induction p as [a|X f k IH|r k IH|msg]; intros n s w Hp; cbn in *; try lia.
  - apply IH, Hp.
  - destruct Hp as [Hr Hp]. specialize (IH _ _ s (answer r w).2 (Hp (answer r w).1)).
    unfold total in *. cbn. lia.
Qed.

(** [max] attempts, and a delay between two of them. *)
Lemma within_query {T} max delay ctx (find_fn : ChainState.t -> option T) :
  within (max * c (ROp QueryState) + (max - 1) * c (RSleep delay))
    (query_state_with_retry max delay ctx find_fn).
Proof.
  unfold query_state_with_retry.
  assert (forall n at_, (at_ + n = max)%nat ->
    within (n * c (ROp QueryState) + (n - 1) * c (RSleep delay))
      (query_loop max delay ctx find_fn n at_)) as Hgen; [|by apply Hgen].
  induction n as [|n IH]; intros at_ Hn; [done|].
  assert (forall p : relay_prog (result T string),
    p = query_loop max delay ctx find_fn n (S at_) ->
    within (n * c (ROp QueryState) + n * c (RSleep delay))
      (bind (if (at_ <? max - 1)%nat then sleep delay else Ret tt) (fun _ => p))) as Hagain.
  { intros p ->. destruct (Nat.ltb_spec at_ (max - 1)) as [Hlt|Hge].
    - destruct n as [|n]; [lia|].
      eapply within_mono; [|apply within_call; intros x; apply IH; lia]. nia.
    - eapply within_mono; [|apply IH; lia]. nia. }
  cbn [query_loop].
  eapply within_mono; [|apply (within_call (n * c (ROp QueryState) + n * c (RSleep delay)))]; [nia|].
  intros [st|e].
  - destruct (find_fn st); [done|]. by apply Hagain.
  - specialize (Hagain _ eq_refl). destruct (at_ <? max - 1)%nat; [done|done].
Qed.

Lemma within_submit {T} ctx max delay b (body : relay_prog (result T CardanoError)) :
  within b body ->
  within (max * b + (max - 1) * c (RSleep delay))
    (submit_contract_tx_with_retry ctx max delay body).
Proof.
  intros Hb. unfold submit_contract_tx_with_retry.
  assert (forall n at_ e, within (n * b + n * c (RSleep delay))
    (submit_loop ctx max delay body n (S at_) e)) as Hgen.
  { induction n as [|n IH]; intros at_ e; [done|]. cbn [submit_loop].
    change (0 <? S at_)%nat with true. cbv iota.
    replace (S n * b + S n * c (RSleep delay))%nat
      with (c (RSleep delay) + (b + (n * b + n * c (RSleep delay))))%nat by lia.
    apply within_call. intros _. apply within_bind; [done|].
    intros [v|err]; [done|]. destruct (negb _); [done|]. apply IH. }
  destruct max as [|max]; [done|]. cbn [submit_loop].
  replace (S max * b + (S max - 1) * c (RSleep delay))%nat
    with (0 + (b + (max * b + max * c (RSleep delay))))%nat by lia.
  apply within_bind; [done|]. intros _. apply within_bind; [done|].
  intros [v|err]; [done|]. destruct (negb _); [done|]. apply Hgen.
Qed.
End within.

(** ** The bounds of the handlers *)

Section bounds.
Context `{Externals}.

Definition op_cost (r : Req) : nat := match r with ROp _ => 1 | _ => 0 end.
Definition wait_cost (r : Req) : nat := match r with RSleep secs => Z.to_nat secs | _ => 0 end.

Context (c : Req -> nat).

(** What querying for an entry and submitting a transaction for it costs, when each
    operator request costs [q]. *)
Definition settle_cost (q : nat) : nat :=
  24 * q + 23 * c (RSleep 10) + (3 * (2 * q) + 2 * c (RSleep 15)).

Lemma within_build_submit q build (k : op_resp build -> result string CardanoError) :
  (forall r, c (ROp r) = q) ->
  within c (2 * q) (bind (op build) (fun x => match k x with
    | Ok tx => op (SubmitTx tx) | Err e => Ret (Err e) end)).
Proof.
  intros Hq. replace (2 * q)%nat with (c (ROp build) + q)%nat by (rewrite Hq; lia).
  apply within_call. intros x. destruct (k x) as [tx|e]; [|done]. split; [rewrite Hq; lia|done].
Qed.

Lemma within_fulfill_swap q h :
  (forall r, c (ROp r) = q) -> c RNow = 0%nat -> within c (settle_cost q) (fulfill_swap h).
Proof.
  intros Hq Hn. apply within_db_read. intros [m|]; [|done]. apply within_db_op. intros []; [|done].
  apply (within_bind c 0); [split; [lia|done]|]. intros now. cbn [negb].
  destruct (_ <? now); [done|]. unfold fulfill_owned, settle_cost.
  apply within_bind; [rewrite <- (Hq QueryState); apply within_query|]. intros [i|e]; [|done].
  destruct (log_prefix h); [|done].
  rewrite <- (Nat.add_0_r (_ + 2 * _)). apply within_bind; [|by intros []].
  apply (within_submit c _ 3 15), (within_build_submit q (FulfillInvoice i _) id Hq).
Qed.

Lemma within_complete_offramp q h pre :
  (forall r, c (ROp r) = q) -> within c (settle_cost q) (complete_offramp h pre).
Proof.
  intros Hq. apply within_db_read. intros [m|]; [|done]. apply within_db_op. intros []; [|done].
  cbn [negb]. unfold complete_owned, settle_cost.
  apply (within_bind c 0); [done|]. intros _.
  apply within_bind; [rewrite <- (Hq QueryState); apply within_query|]. intros [i|e]; [|done].
  rewrite <- (Nat.add_0_r (_ + 2 * _)). apply within_bind; [|by intros []].
  apply (within_submit c _ 3 15), (within_build_submit q (FulfillOfframp i) id Hq).
Qed.

Lemma within_payment_failed q h :
  (forall r, c (ROp r) = q) -> within c (4 * q) (handle_offramp_payment_failed h).
Proof.
  intros Hq. apply within_db_read. intros [m|]; [|done].
  replace (4 * q)%nat with (2 * q + (0 + 2 * q))%nat by lia. apply within_bind.
  - unfold refund_message. destruct (negb _); [|done]. split; [rewrite Hq; lia|].
    intros [tx|e]; [|done]. split; [rewrite !Hq; lia|]. by intros [].
  - intros msg. apply within_bind; [done|]. intros _. split; [rewrite Hq; lia|].
    intros [tx|e]; [|done]. split; [rewrite !Hq; lia|]. by intros [].
Qed.
End bounds.

Section theorem.
Context `{Externals} {W : Type} `{!Env W}.

(** C21: the handlers that settle a swap or an offramp end after a bounded effort, however
    the operator behaves: [fulfill_swap] and [complete_offramp] make at most thirty
    operator requests and sleep at most 260 seconds in total (24 queries ten seconds
    apart, then three submissions fifteen seconds apart), and a failed payment is
    handled with at most four requests and no waiting. *)
Theorem settlement_bounded h pre s (w : W) :
  let fulfil := log (exec (fulfill_swap h) s w) in
  let complete := log (exec (complete_offramp h pre) s w) in
  let failed := log (exec (handle_offramp_payment_failed h) s w) in
  (total op_cost fulfil <= 30 /\ total wait_cost fulfil <= 260 /\
   total op_cost complete <= 30 /\ total wait_cost complete <= 260 /\
   total op_cost failed <= 4 /\ total wait_cost failed <= 0)%nat.
Proof.
  cbn zeta. repeat split; apply within_exec.
  - by apply (within_fulfill_swap op_cost 1).
  - by apply (within_fulfill_swap wait_cost 0).
  - by apply (within_complete_offramp op_cost 1).
  - by apply (within_complete_offramp wait_cost 0).
  - by apply (within_payment_failed op_cost 1).
  - by apply (within_payment_failed wait_cost 0).
Qed.
End theorem.
