(* ===== verification/Recovery.v ===== *)
(** * Crash recovery ([src/src/recovery.rs])

    At start-up the rows a crash left in an intermediate status are read and
    treated one by one. *)

From S2P Require Import Prelude Effects Mapping MappingFacts MappingSpec Types RateLimiter World.
From S2P Require Import Helpers Rows CardanoSwap Payments CardanoOfframp.
Open Scope prog_scope.

Section recovery.
Context `{Externals}.

(** The body of the loop of [recover_fulfilling_swaps]. *)
Definition recover_swap (mapping : SwapMapping) : relay_prog unit :=
  let invoice_id := Swap.invoice_id mapping in
  let h := Swap.payment_hash mapping in
  let* q := query_state_with_retry 3 5 ("recovery invoice #" +:+ pretty invoice_id)
              (find_invoice invoice_id) in
  match q with
  | Err _ => db_write (SwapDb.update_status h SwapStatus.Completed None)
  | Ok invoice =>
      let* r := op (FulfillInvoice invoice (Swap.cardano_address mapping)) in
      match r with
      | Err _ => Ret tt
      | Ok signed_tx =>
          let* r := op (SubmitTx signed_tx) in
          match r with
          | Ok tx_hash => db_write (SwapDb.update_status h SwapStatus.Completed (Some tx_hash))
          | Err _ => Ret tt
          end
      end
  end.

Definition recover_fulfilling_swaps : relay_prog unit :=
  let* stuck := db_read (SwapDb.get_by_status SwapStatus.Fulfilling) in
  match stuck with
  | [] => Ret tt
  | _ => for_each stuck recover_swap
  end.

(** The bodies of the three loops of [recover_depositing_offramps]. *)
Definition recover_verifying (mapping : OfframpMapping) : relay_prog unit :=
  let* _ := db_op (SwapDb.transition_offramp_status (Offramp.offramp_id mapping)
    OfframpStatus.PendingVerification OfframpStatus.AwaitingDeposit) in
  Ret tt.

Definition crash_message : string :=
  "relay crashed during Lightning payment, awaiting expiry for on-chain cancel".

Definition recover_paying (mapping : OfframpMapping) : relay_prog unit :=
  let* won := db_op (SwapDb.transition_offramp_status (Offramp.offramp_id mapping)
    OfframpStatus.PayingLightning OfframpStatus.Failed) in
  if won
  then set_error (Offramp.offramp_id mapping) OfframpStatus.Failed (Some crash_message)
  else Ret tt.

Definition recover_depositing (mapping : OfframpMapping) : relay_prog unit :=
  let offramp_id := Offramp.offramp_id mapping in
  let* q := query_state_with_retry 3 5 ("recovery offramp #" +:+ pretty offramp_id)
              (find_offramp offramp_id) in
  match q with
  | Err _ => set_error offramp_id OfframpStatus.Completed None
  | Ok offramp =>
      let* r := op (FulfillOfframp offramp) in
      match r with
      | Err _ => Ret tt
      | Ok signed_tx =>
          let* r := op (SubmitTx signed_tx) in
          match r with
          | Ok _ => set_error offramp_id OfframpStatus.Completed None
          | Err _ => Ret tt
          end
      end
  end.

Definition recover_depositing_offramps : relay_prog unit :=
  let* verifying := db_read (SwapDb.get_offramps_by_status OfframpStatus.PendingVerification) in
  for_each verifying recover_verifying ;;
  let* paying := db_read (SwapDb.get_offramps_by_status OfframpStatus.PayingLightning) in
  for_each paying recover_paying ;;
  let* stuck := db_read (SwapDb.get_offramps_by_status OfframpStatus.DepositingToPool) in
  for_each stuck recover_depositing.
End recovery.

(** ** One swap *)

Section facts.
Context `{Externals}.

(** Some state that was read shows the swap's invoice. *)
Definition shows_invoice (m : SwapMapping) (l : list (event resp)) : Prop :=
  exists st, st ∈ omap queried l /\ is_Some (find_invoice (Swap.invoice_id m) st).

(** What recovery does to a swap stuck in [Fulfilling]: it is completed with the
    hash of the accepted submission; or completed without a hash, when no state
    that was read shows its invoice; or left as it is, with nothing accepted. *)
Definition swap_recovered (m m' : SwapMapping) (seg : list (event resp)) : Prop :=
  Forall (fun e : event resp => fulfill_request m (projT1 e)) seg /\
  ((exists hash, m' = Swap.set_status SwapStatus.Completed (Some hash) m /\
                 omap submitted seg = [hash] /\ shows_invoice m seg) \/
   (m' = Swap.set_status SwapStatus.Completed None m /\ omap submitted seg = [] /\
    ~ shows_invoice m seg) \/
   (m' = m /\ omap submitted seg = [] /\ shows_invoice m seg)).

Lemma swap_row_step R m s l s' seg m' :
  db_wf (swap_db s') -> s' = set_db s (swap_db s') ->
  swap_row (Swap.payment_hash m) m' (swap_db s) (swap_db s') -> R m m' seg ->
  row_step Swap.payment_hash SwapDb.get_by_payment_hash R m s l (Done tt) s' (l ++ seg).
Proof. intros Hwf Hs [H1 H2] HR. split_and!; [done..|]. by exists m', seg. Qed.

Lemma offramp_row_step' R m s l s' seg m' :
  db_wf (swap_db s') -> s' = set_db s (swap_db s') ->
  offramp_row (Offramp.offramp_id m) m' (swap_db s) (swap_db s') -> R m m' seg ->
  row_step Offramp.offramp_id SwapDb.get_offramp_by_id R m s l (Done tt) s' (l ++ seg).
Proof. intros Hwf Hs [H1 H2] HR. split_and!; [done..|]. by exists m', seg. Qed.

Lemma wp_recover_swap m s l :
  db_wf (swap_db s) -> SwapDb.get_by_payment_hash (Swap.payment_hash m) (swap_db s) = Some m ->
  wp (recover_swap m) s l
    (row_step Swap.payment_hash SwapDb.get_by_payment_hash swap_recovered m s l).
Proof.
  intros Hwf Hget. unfold recover_swap. apply wp_bind, wp_query. intros q l1 Hl1 Hq.
  pose proof (is_query_fulfill m _ _ Hl1) as Hf1. pose proof (is_query_submitted _ _ Hl1) as Hs1.
  assert (s = set_db s (swap_db s)) as Hs by (by destruct s).
  destruct q as [i|e]; cbn [wp_cont].
  - destruct Hq as (st & Hst & Hi). assert (forall l2, shows_invoice m (l1 ++ l2)) as Hsh.
    { intros l2. exists st. rewrite omap_app, elem_of_app. rewrite Hi. eauto. }
    apply find_invoice_id in Hi. wp_step. destruct x as [tx|e].
    + wp_step. rewrite <- !app_assoc. destruct x as [hash|e].
      * wp_step. apply (swap_row_step _ _ _ _ _ _ (Swap.set_status SwapStatus.Completed (Some hash) m));
          cbn; auto with swapdb. split; [log_forall|]. left. exists hash. split; [done|]. split; [log_omap|done].
      * cbn. apply (swap_row_step _ _ _ _ _ _ m); auto with swapdb.
        split; [log_forall|]. right. right. split; [done|]. split; [log_omap|done].
    + cbn. rewrite <- !app_assoc. apply (swap_row_step _ _ _ _ _ _ m); auto with swapdb.
      split; [log_forall|]. right. right. split; [done|]. split; [log_omap|done].
  - wp_step. apply (swap_row_step _ _ _ _ _ _ (Swap.set_status SwapStatus.Completed None m));
      cbn; auto with swapdb. split; [log_forall|]. right. left. split; [done|].
    split; [done|]. intros (st & Hst & [i Hi]). rewrite (Hq st Hst) in Hi. done.
Qed.

Lemma wp_recover_swaps s Q :
  db_wf (swap_db s) ->
  (forall s' l, rows_done Swap.payment_hash SwapDb.get_by_payment_hash swap_recovered
       (SwapDb.get_by_status SwapStatus.Fulfilling (swap_db s)) s s' l -> Q (Done tt) s' l) ->
  wp recover_fulfilling_swaps s [] Q.
Proof.
  intros Hwf HQ. unfold recover_fulfilling_swaps. wp_step.
  assert (forall x, x ∈ SwapDb.get_by_status SwapStatus.Fulfilling (swap_db s) ->
    SwapDb.get_by_payment_hash (Swap.payment_hash x) (swap_db s) = Some x) as Hin.
  { intros x Hx%get_by_status_spec; [tauto|done]. }
  assert (NoDup (Swap.payment_hash <$> SwapDb.get_by_status SwapStatus.Fulfilling (swap_db s)))
    as Hnd by (by apply swap_rows_NoDup).
  revert HQ Hin Hnd. generalize (SwapDb.get_by_status SwapStatus.Fulfilling (swap_db s)) as xs.
  intros xs HQ Hin Hnd. assert (wp (for_each xs recover_swap) s [] Q) as Hfor.
  { eapply (wp_for_rows _ _ swap_recovered); try done.
    intros x s1 l1 _ ? ?. by apply wp_recover_swap. }
  by destruct xs.
Qed.
End facts.

(** ** The offramps *)

Section offramp_facts.
Context `{Externals}.

Definition verifying_recovered (m m' : OfframpMapping) (seg : list (event resp)) : Prop :=
  seg = [] /\ m' = Offramp.with_status OfframpStatus.AwaitingDeposit m.

Definition paying_recovered (m m' : OfframpMapping) (seg : list (event resp)) : Prop :=
  seg = [] /\ m' = Offramp.coalesce OfframpStatus.Failed None None (Some crash_message)
                     (Offramp.with_status OfframpStatus.Failed m).

Definition depositing_recovered (m m' : OfframpMapping) (seg : list (event resp)) : Prop :=
  Forall (fun e : event resp => complete_request (Offramp.offramp_id m) (projT1 e)) seg /\
  ((m' = Offramp.coalesce OfframpStatus.Completed None None None m /\
    ((exists hash, omap submitted seg = [hash]) \/
     (omap submitted seg = [] /\
      forall st, st ∈ omap queried seg -> find_offramp (Offramp.offramp_id m) st = None))) \/
   (m' = m /\ omap submitted seg = [])).

Lemma wp_recover_verifying m s l :
  db_wf (swap_db s) -> SwapDb.get_offramp_by_id (Offramp.offramp_id m) (swap_db s) = Some m ->
  Offramp.status m = OfframpStatus.PendingVerification ->
  wp (recover_verifying m) s l
    (row_step Offramp.offramp_id SwapDb.get_offramp_by_id verifying_recovered m s l).
Proof.
  intros Hwf Hget Hst. unfold recover_verifying. wp_step.
  rewrite transition_offramp_status_spec, decide_True by (rewrite ?Hget; cbn; congruence).
  cbn. rewrite <- (app_nil_r l) at 2.
  eapply offramp_row_step'; cbn; [auto with swapdb|done|eauto with swapdb|done].
Qed.

Lemma wp_recover_paying m s l :
  db_wf (swap_db s) -> SwapDb.get_offramp_by_id (Offramp.offramp_id m) (swap_db s) = Some m ->
  Offramp.status m = OfframpStatus.PayingLightning ->
  wp (recover_paying m) s l
    (row_step Offramp.offramp_id SwapDb.get_offramp_by_id paying_recovered m s l).
Proof.
  intros Hwf Hget Hst. unfold recover_paying. wp_step.
  rewrite transition_offramp_status_spec, decide_True by (rewrite ?Hget; cbn; congruence).
  cbn [fst snd]. apply wp_db_write_ret. rewrite <- (app_nil_r l) at 2.
  eapply offramp_row_step'; cbn; [auto with swapdb|done|eauto with swapdb|done].
Qed.

Lemma wp_recover_depositing m s l :
  db_wf (swap_db s) -> SwapDb.get_offramp_by_id (Offramp.offramp_id m) (swap_db s) = Some m ->
  wp (recover_depositing m) s l
    (row_step Offramp.offramp_id SwapDb.get_offramp_by_id depositing_recovered m s l).
Proof.
  intros Hwf Hget. unfold recover_depositing. apply wp_bind, wp_query. intros q l1 Hl1 Hq.
  pose proof (is_query_complete (Offramp.offramp_id m) _ _ Hl1) as Hf1.
  pose proof (is_query_submitted _ _ Hl1) as Hs1.
  assert (s = set_db s (swap_db s)) as Hs by (by destruct s).
  destruct q as [i|e]; cbn [wp_cont].
  - destruct Hq as (st & _ & Hi%find_offramp_id). wp_step. destruct x as [tx|e].
    + wp_step. rewrite <- !app_assoc. destruct x as [hash|e].
      * apply wp_db_write_ret. eapply offramp_row_step'; cbn; [auto with swapdb|done|eauto with swapdb|].
        split; [log_forall|]. left. split; [done|]. left. exists hash. log_omap.
      * cbn. apply (offramp_row_step' _ _ _ _ _ _ m); auto with swapdb.
        split; [log_forall|]. right. split; [done|]. log_omap.
    + cbn. rewrite <- !app_assoc. apply (offramp_row_step' _ _ _ _ _ _ m); auto with swapdb.
      split; [log_forall|]. right. split; [done|]. log_omap.
  - apply wp_db_write_ret. eapply offramp_row_step'; cbn; [auto with swapdb|done|eauto with swapdb|].
    split; [log_forall|]. left. split; [done|]. by right.
Qed.

(** A loop over the offramps in a status, as a wp rule. *)
Lemma wp_for_status R st (body : OfframpMapping -> relay_prog unit) s l Q :
  db_wf (swap_db s) ->
  (forall m s1 l1, Offramp.status m = st -> db_wf (swap_db s1) ->
     SwapDb.get_offramp_by_id (Offramp.offramp_id m) (swap_db s1) = Some m ->
     wp (body m) s1 l1 (row_step Offramp.offramp_id SwapDb.get_offramp_by_id R m s1 l1)) ->
  (forall s' l1, rows_done Offramp.offramp_id SwapDb.get_offramp_by_id R
     (SwapDb.get_offramps_by_status st (swap_db s)) s s' l1 -> Q (Done tt) s' (l ++ l1)) ->
  wp (for_each (SwapDb.get_offramps_by_status st (swap_db s)) body) s l Q.
Proof.
  intros Hwf Hbody HQ.
  eapply (wp_for_rows Offramp.offramp_id SwapDb.get_offramp_by_id R); try done.
  - by apply offramp_rows_NoDup.
  - intros x Hx%get_offramps_by_status_spec; [tauto|done].
  - intros x s1 l1 Hx%get_offramps_by_status_spec ? ?; [|done]. apply Hbody; tauto.
Qed.

(** Such a loop, seen from any row of the table. *)
Lemma rows_done_status R st s s' l id :
  db_wf (swap_db s) ->
  rows_done Offramp.offramp_id SwapDb.get_offramp_by_id R
    (SwapDb.get_offramps_by_status st (swap_db s)) s s' l ->
  match SwapDb.get_offramp_by_id id (swap_db s), SwapDb.get_offramp_by_id id (swap_db s') with
  | Some m, Some m' =>
      if decide (Offramp.status m = st) then exists a seg b, l = a ++ seg ++ b /\ R m m' seg
      else m' = m
  | None, None => True
  | _, _ => False
  end.
Proof.
  intros Hwf Hd. destruct (SwapDb.get_offramp_by_id id (swap_db s)) as [m|] eqn:E.
  - destruct (get_offramp_elem _ _ _ E) as (_ & _ & _ & Eid). subst id.
    destruct (decide (Offramp.status m = st)) as [Hst|Hst].
    + assert (m ∈ SwapDb.get_offramps_by_status st (swap_db s)) as Hm
        by (by apply get_offramps_by_status_spec).
      destruct (rows_done_elem _ _ _ _ _ _ _ m Hd Hm) as (m' & a & seg & b & -> & -> & HR). eauto.
    + destruct Hd as (_ & _ & Hoth & _). rewrite Hoth, E; [done|].
      intros (y & Ey & [Hy Hys]%get_offramps_by_status_spec)%list_elem_of_fmap; [|done]. congruence.
  - destruct Hd as (_ & _ & Hoth & _). rewrite Hoth, E; [done|].
    intros (y & -> & [Hy _]%get_offramps_by_status_spec)%list_elem_of_fmap; [|done]. congruence.
Qed.

(** What recovery makes of a row. *)
Definition offramp_recovered (m m' : OfframpMapping) (l : list (event resp)) : Prop :=
  match Offramp.status m with
  | OfframpStatus.PendingVerification => m' = Offramp.with_status OfframpStatus.AwaitingDeposit m
  | OfframpStatus.PayingLightning =>
      m' = Offramp.coalesce OfframpStatus.Failed None None (Some crash_message)
             (Offramp.with_status OfframpStatus.Failed m)
  | OfframpStatus.DepositingToPool =>
      exists a seg b, l = a ++ seg ++ b /\ depositing_recovered m m' seg
  | _ => m' = m
  end.

Definition offramps_recovered (s s' : Relay) (l : list (event resp)) : Prop :=
  forall id,
    match SwapDb.get_offramp_by_id id (swap_db s), SwapDb.get_offramp_by_id id (swap_db s') with
    | Some m, Some m' => offramp_recovered m m' l
    | None, None => True
    | _, _ => False
    end.

Lemma rows_done_quiet {K M} (key : M -> K) get (R : M -> M -> list (event resp) -> Prop) xs s s' l :
  (forall m m' seg, R m m' seg -> seg = []) -> rows_done key get R xs s s' l -> l = [].
Proof.
  intros HR (_ & _ & _ & segs & -> & HF).
  induction HF as [|x seg xs segs (x' & _ & ?%HR) _ IH]; cbn; [done|]. by subst.
Qed.

Lemma wp_recover_offramps s :
  db_wf (swap_db s) ->
  wp recover_depositing_offramps s []
    (fun o s' l => o = Done tt /\ db_wf (swap_db s') /\ offramps_recovered s s' l).
Proof.
  intros Hwf. unfold recover_depositing_offramps. wp_step. apply wp_bind.
  apply (wp_for_status verifying_recovered); [done|intros; by apply wp_recover_verifying|].
  intros s1 l1 H1.
  assert (l1 = []) as -> by (eapply rows_done_quiet; [|exact H1]; by intros ? ? ? [? _]).
  pose proof (proj1 H1) as Hwf1. cbn [wp_cont]. wp_step. apply wp_bind.
  apply (wp_for_status paying_recovered); [done|intros; by apply wp_recover_paying|].
  intros s2 l2 H2.
  assert (l2 = []) as -> by (eapply rows_done_quiet; [|exact H2]; by intros ? ? ? [? _]).
  pose proof (proj1 H2) as Hwf2. cbn [wp_cont]. wp_step.
  apply (wp_for_status depositing_recovered); [done|intros; by apply wp_recover_depositing|].
  intros s3 l3 H3. cbn. split; [done|]. split; [apply H3|]. intros id.
  pose proof (rows_done_status _ _ _ _ _ id Hwf H1) as R1.
  pose proof (rows_done_status _ _ _ _ _ id Hwf1 H2) as R2.
  pose proof (rows_done_status _ _ _ _ _ id Hwf2 H3) as R3.
  destruct (SwapDb.get_offramp_by_id id (swap_db s)) as [m|],
    (SwapDb.get_offramp_by_id id (swap_db s1)) as [m1|],
    (SwapDb.get_offramp_by_id id (swap_db s2)) as [m2|],
    (SwapDb.get_offramp_by_id id (swap_db s3)) as [m3|]; try done.
  unfold offramp_recovered, verifying_recovered, paying_recovered in *.
  destruct (Offramp.status m) eqn:Em; repeat case_decide; destruct_and?;
    repeat match goal with H : exists _, _ |- _ => destruct H as [? H] | H : _ /\ _ |- _ => destruct H end;
    subst; cbn in *; eauto; congruence.
Qed.
End offramp_facts.

(** ** Theorems *)

Section theorems.
Context `{Externals} {W : Type} `{!Env W}.
Implicit Types (s : Relay) (w : W).

(** A finished recovery, seen from any swap. *)
Lemma recover_swaps_row s w h :
  db_wf (swap_db s) ->
  let r := exec recover_fulfilling_swaps s w in
  match SwapDb.get_by_payment_hash h (swap_db s), SwapDb.get_by_payment_hash h (swap_db (fin r)) with
  | Some m, Some m' =>
      if decide (Swap.status m = SwapStatus.Fulfilling) then
        exists a seg b, log r = a ++ seg ++ b /\ swap_recovered m m' seg
      else m' = m
  | None, None => True
  | _, _ => False
  end.
Proof.
  intros Hwf. cbn zeta. generalize (wp_exec recover_fulfilling_swaps s w (fun o s' l =>
    rows_done Swap.payment_hash SwapDb.get_by_payment_hash swap_recovered
      (SwapDb.get_by_status SwapStatus.Fulfilling (swap_db s)) s s' l)).
  intros Hd. specialize (Hd ltac:(by apply wp_recover_swaps)). cbn in Hd.
  destruct (SwapDb.get_by_payment_hash h (swap_db s)) as [m|] eqn:E.
  - destruct (get_swap_elem _ _ _ E) as (_ & _ & _ & Eh). subst h.
    destruct (decide (Swap.status m = SwapStatus.Fulfilling)) as [Hst|Hst].
    + assert (m ∈ SwapDb.get_by_status SwapStatus.Fulfilling (swap_db s)) as Hm
        by (by apply get_by_status_spec).
      destruct (rows_done_elem _ _ _ _ _ _ _ m Hd Hm) as (m' & a & seg & b & ? & -> & HR). eauto.
    + destruct Hd as (_ & _ & Hoth & _). rewrite Hoth, E; [done|].
      intros (y & Ey & [Hy Hys]%get_by_status_spec)%list_elem_of_fmap; [|done]. congruence.
  - destruct Hd as (_ & _ & Hoth & _). rewrite Hoth, E; [done|].
    intros (y & -> & [Hy _]%get_by_status_spec)%list_elem_of_fmap; [|done]. congruence.
Qed.

(** C15: recovery of swaps, run alone, never panics and touches only the swaps in
    [Fulfilling].  For each of them there is a segment of the log in which it acts
    on that swap's invoice and address only, and: the swap is completed with the
    hash of the one accepted submission; or it is completed without a hash and no
    state read shows its invoice; or it is unchanged, with nothing accepted. *)
Theorem recover_swaps_correct s w :
  db_wf (swap_db s) ->
  let r := exec recover_fulfilling_swaps s w in
  out r = Done tt /\ forall h,
  match SwapDb.get_by_payment_hash h (swap_db s), SwapDb.get_by_payment_hash h (swap_db (fin r)) with
  | Some m, Some m' =>
      if decide (Swap.status m = SwapStatus.Fulfilling) then
        exists a seg b, log r = a ++ seg ++ b /\ swap_recovered m m' seg
      else m' = m
  | None, None => True
  | _, _ => False
  end.
Proof.
  intros Hwf. split; [|intros h; by apply recover_swaps_row].
  apply (wp_exec recover_fulfilling_swaps s w (fun o _ _ => o = Done tt)).
  by apply wp_recover_swaps.
Qed.

(** Recovery reads a failing chain query as a fulfilled invoice.  In a run in
    which no query of the chain succeeds, every swap stuck in [Fulfilling] is
    marked [Completed] without a transaction hash, although no transaction was
    submitted. *)
Lemma recovery_completes_blindly s w h m :
  db_wf (swap_db s) -> SwapDb.get_by_payment_hash h (swap_db s) = Some m ->
  Swap.status m = SwapStatus.Fulfilling ->
  omap queried (log (exec recover_fulfilling_swaps s w)) = [] ->
  SwapDb.get_by_payment_hash h (swap_db (fin (exec recover_fulfilling_swaps s w)))
  = Some (Swap.set_status SwapStatus.Completed None m).
Proof.
  intros Hwf Hget Hst Hq. pose proof (recover_swaps_row s w h Hwf) as Hr. cbn zeta in Hr.
  rewrite Hget in Hr. destruct (SwapDb.get_by_payment_hash h (swap_db (fin _))) as [m'|]; [|done].
  rewrite decide_True in Hr by done. destruct Hr as (a & seg & b & El & _ & Hcase).
  assert (~ shows_invoice m seg) as Hno.
  { intros (st & Hin & _). rewrite El, !omap_app in Hq.
    apply app_eq_nil in Hq as [_ [Hq _]%app_eq_nil]. rewrite Hq in Hin. by apply elem_of_nil in Hin. }
  destruct Hcase as [(? & _ & _ & ?)|[(-> & _)|(_ & _ & ?)]]; done.
Qed.

(** Recovery of offramps, run alone, never panics; an offramp whose verification
    was interrupted awaits its deposit again, one whose Lightning payment was
    interrupted is failed with a message, one waiting for its pool deposit is
    completed (one accepted submission, or the chain does not show it) or
    unchanged, and every other offramp is unchanged.  In particular no offramp is
    left verifying or paying. *)
Lemma recover_offramps_correct s w :
  db_wf (swap_db s) ->
  let r := exec recover_depositing_offramps s w in
  out r = Done tt /\ forall id,
    match SwapDb.get_offramp_by_id id (swap_db s),
          SwapDb.get_offramp_by_id id (swap_db (fin r)) with
    | Some m, Some m' => offramp_recovered m m' (log r) /\
        Offramp.status m' <> OfframpStatus.PendingVerification /\
        Offramp.status m' <> OfframpStatus.PayingLightning
    | None, None => True
    | _, _ => False
    end.
Proof.
  intros Hwf. destruct (wp_exec _ s w _ (wp_recover_offramps s Hwf)) as (Ho & _ & Hr).
  split; [exact Ho|]. intros id. specialize (Hr id).
  destruct (SwapDb.get_offramp_by_id id (swap_db s)) as [m|],
    (SwapDb.get_offramp_by_id id (swap_db (fin _))) as [m'|]; [|done..].
  split; [done|]. unfold offramp_recovered in Hr.
  destruct (Offramp.status m) eqn:Em; try (subst m'; cbn; rewrite ?Em; done).
  destruct Hr as (_ & _ & _ & _ & _ & [[-> _]|[-> _]]); cbn; rewrite ?Em; done.
Qed.

(** C32: a crash during a Lightning payment forfeits the payment.  Recovery fails an offramp
    that was being paid without asking LDK, although the payment may be under way, and the
    report of its success then comes too late: [complete_offramp] makes no request and no
    change, so the cBTC is never collected.  From the moment the offramp expires it is among
    those that the monitor cancels on-chain, which gives the cBTC back to the user. *)
Theorem crash_forfeits_payment s w id m :
  db_wf (swap_db s) -> SwapDb.get_offramp_by_id id (swap_db s) = Some m ->
  Offramp.status m = OfframpStatus.PayingLightning ->
  let r := exec recover_depositing_offramps s w in
  exists m', SwapDb.get_offramp_by_id id (swap_db (fin r)) = Some m' /\
    Offramp.status m' = OfframpStatus.Failed /\
    (forall hash preimage w', SwapDb.get_offramp_by_payment_hash hash (swap_db (fin r)) = Some m' ->
       let r' := exec (complete_offramp hash preimage) (fin r) w' in
       out r' = Done tt /\ fin r' = fin r /\ log r' = []) /\
    (forall now, 0 < Offramp.expires_at m < now -> m' ∈ SwapDb.get_expired_offramps now (swap_db (fin r))).
Proof.
  intros Hwf Hget Hst. destruct (wp_exec _ s w _ (wp_recover_offramps s Hwf)) as (_ & Hwf' & Hr).
  specialize (Hr id). rewrite Hget in Hr. set (r := exec recover_depositing_offramps s w) in *.
  destruct (SwapDb.get_offramp_by_id id (swap_db (fin r))) as [m'|] eqn:Hm'; [|done].
  unfold offramp_recovered in Hr. rewrite Hst in Hr. exists m'. split; [done|].
  assert (Offramp.status m' = OfframpStatus.Failed) as Hf by (by rewrite Hr).
  assert (Offramp.offramp_id m' = id) as Hid by (by destruct (get_offramp_elem _ _ _ Hm') as (_ & _ & _ & ?)).
  split_and!; [done|..].
  - intros hash preimage w' Hh. cbn zeta.
    apply (wp_exec (complete_offramp hash preimage) (fin r) w' (fun o s' l => o = Done tt /\ s' = fin r /\ l = [])).
    unfold complete_offramp. wp_step. rewrite Hh. wp_step.
    rewrite transition_offramp_status_spec, Hid, Hm', decide_False by (done || cbn; congruence).
    cbn. by destruct (fin r).
  - intros now Hnow. apply get_expired_offramps_spec; [done|]. rewrite Hid, Hf. split_and!; [done|by right|..];
      rewrite Hr; cbn; lia.
Qed.
End theorems.
