(* ===== verification/Background.v ===== *)
(** * Expiry monitors and operator commands ([src/src/background.rs],
    [src/src/cli/cardano_cmds.rs])

    A monitor is [loop { interval.tick().await; ... }]; what is modelled is one
    iteration of the loop. *)

From S2P Require Import Prelude Effects Mapping MappingFacts MappingSpec Types RateLimiter World.
From S2P Require Import Helpers Rows CardanoSwap Payments CardanoOfframp Recovery.
Open Scope prog_scope.

Section background.
Context `{Externals}.

(** The body of the [for] loop of [monitor_expired_swaps]. *)
Definition cancel_expired_swap (mapping : SwapMapping) : relay_prog unit :=
  let* r := op (CancelInvoice (Swap.invoice_id mapping)) in
  match r with
  | Err _ => Ret tt
  | Ok signed_tx =>
      let* r := op (SubmitTx signed_tx) in
      match r with
      | Ok tx_hash =>
          db_write (SwapDb.update_status (Swap.payment_hash mapping) SwapStatus.Expired
                      (Some tx_hash))
      | Err _ => Ret tt
      end
  end.

Definition monitor_expired_swaps_tick : relay_prog unit :=
  let* now_ms := current_timestamp_ms in
  let* expired := db_read (SwapDb.get_expired_pending now_ms) in
  for_each expired cancel_expired_swap.

Definition monitor_expired_offramps_tick : relay_prog unit :=
  let* now_ms := current_timestamp_ms in
  let* expired := db_read (SwapDb.get_expired_offramps now_ms) in
  for_each expired cancel_offramp_on_chain.

(** ** Operator commands *)

Definition RETRY_ATTEMPTS : nat := 3.
Definition RETRY_DELAY : Z := 15.
Definition SEQ_CANCEL_DELAY : Z := 30.
(** [Duration] in nanoseconds, as the differences of [Instant]s. *)
Definition CANCEL_BUDGET : Z := 180 * 1000000000.

Definition pool_info : relay_prog (result ChainState.t CardanoError) := op QueryState.

(** [cardano_deposit] and [cardano_withdraw] print the result they return here. *)
Definition cardano_deposit (amount : Z) : relay_prog (result string string) :=
  submit_contract_tx_with_retry ("Deposit(" +:+ pretty amount +:+ ")") RETRY_ATTEMPTS RETRY_DELAY
    (try* signed_tx := op (Deposit amount) in op (SubmitTx signed_tx)).

Definition cardano_withdraw (amount : Z) : relay_prog (result string string) :=
  submit_contract_tx_with_retry ("Withdraw(" +:+ pretty amount +:+ ")") RETRY_ATTEMPTS RETRY_DELAY
    (try* signed_tx := op (Withdraw amount) in op (SubmitTx signed_tx)).

(** The cancel loop the two commands below share: [build] is the retried closure
    of an entry, [start] the [Instant] the loop began at.  It returns the number of
    entries cancelled, which the commands print. *)
Fixpoint cancel_loop (label : string) (build : Z -> relay_prog (result string CardanoError))
  (start : Z) (ids : list Z) (cancelled : Z) (last_ok : bool) : relay_prog Z :=
  match ids with
  | [] => Ret cancelled
  | id :: ids =>
      let* now := call RInstant in
      if CANCEL_BUDGET <? duration_since now start then Ret cancelled
      else
        (if last_ok then sleep SEQ_CANCEL_DELAY else Ret tt) ;;
        let* result := submit_contract_tx_with_retry (label +:+ "(#" +:+ pretty id +:+ ")")
                         RETRY_ATTEMPTS RETRY_DELAY (build id) in
        match result with
        | Ok _ => cancel_loop label build start ids (cancelled + 1) true
        | Err _ => cancel_loop label build start ids cancelled false
        end
  end.

Definition build_cancel_offramp (id : Z) : relay_prog (result string CardanoError) :=
  try* signed_tx := op (CancelOfframp id) in op (SubmitTx signed_tx).
Definition build_cancel_invoice (id : Z) : relay_prog (result string CardanoError) :=
  try* signed_tx := op (CancelInvoice id) in op (SubmitTx signed_tx).

(** [None] when nothing was to be done; otherwise cancelled and expired counts. *)
Definition cancel_expired_offramps : relay_prog (option (Z * Z)) :=
  let* r := op QueryState in
  match r with
  | Err _ => Ret None
  | Ok state =>
      let* now_ms := current_timestamp_ms in
      let expired := List.filter (fun o => ChainOfframp.expires_at o <? now_ms)
                       (ChainState.offramps state) in
      match expired with
      | [] => Ret None
      | _ =>
          let* start := call RInstant in
          let* cancelled := cancel_loop "CancelOfframp" build_cancel_offramp start
            (ChainOfframp.offramp_id <$> expired) 0 false in
          Ret (Some (cancelled, Z.of_nat (length expired)))
      end
  end.

Definition cancel_expired : relay_prog (option (Z * Z)) :=
  let* r := op QueryState in
  match r with
  | Err _ => Ret None
  | Ok state =>
      let* now_ms := current_timestamp_ms in
      let expired := List.filter (fun i => Invoice.expires_at i <? now_ms)
                       (ChainState.invoices state) in
      match expired with
      | [] => Ret None
      | _ =>
          let* start := call RInstant in
          let* cancelled := cancel_loop "CancelInvoice" build_cancel_invoice start
            (Invoice.invoice_id <$> expired) 0 false in
          Ret (Some (cancelled, Z.of_nat (length expired)))
      end
  end.
End background.

(** ** The commands only make requests *)

Section calls.
Context `{Externals} (R : Req -> Prop).
Context (R_query : R (ROp QueryState)) (R_now : R RNow) (R_instant : R RInstant).
Context (R_seq : R (RSleep SEQ_CANCEL_DELAY)) (R_retry : R (RSleep RETRY_DELAY)).
Context (R_submit : forall tx, R (ROp (SubmitTx tx))).

Lemma calls_cancel_loop label build start ids n last_ok :
  (forall id, calls_ok R (build id)) -> calls_ok R (cancel_loop label build start ids n last_ok).
Proof using R_instant R_seq R_retry.
  intros Hb. revert n last_ok. induction ids as [|id ids IH]; intros n last_ok; [done|].
  apply calls_ok_call; [done|]. intros now. destruct (_ <? _); [done|].
  apply calls_ok_bind; [by destruct last_ok|]. intros _.
  apply calls_ok_bind; [by apply calls_ok_submit|]. intros [tx|e]; apply IH.
Qed.

Lemma calls_cancel_expired : (forall id, R (ROp (CancelInvoice id))) -> calls_ok R cancel_expired.
Proof using R_query R_now R_instant R_seq R_retry R_submit.
  intros Hc. apply calls_ok_call; [done|]. intros [st|e]; [|done].
  apply calls_ok_bind; [by split|]. intros now. cbv zeta. case_match; [done|].
  apply calls_ok_call; [done|]. intros start. apply calls_ok_bind; [|done].
  apply calls_cancel_loop. intros id. apply calls_ok_call; [done|].
  intros [tx|e]; [|done]. by split.
Qed.

Lemma calls_cancel_expired_offramps :
  (forall id, R (ROp (CancelOfframp id))) -> calls_ok R cancel_expired_offramps.
Proof using R_query R_now R_instant R_seq R_retry R_submit.
  intros Hc. apply calls_ok_call; [done|]. intros [st|e]; [|done].
  apply calls_ok_bind; [by split|]. intros now. cbv zeta. case_match; [done|].
  apply calls_ok_call; [done|]. intros start. apply calls_ok_bind; [|done].
  apply calls_cancel_loop. intros id. apply calls_ok_call; [done|].
  intros [tx|e]; [|done]. by split.
Qed.
End calls.

(** ** One tick of a monitor *)

Section facts.
Context `{Externals}.

Definition cancel_invoice_request (id : Z) (r : Req) : Prop :=
  match r with
  | ROp (CancelInvoice id') => id' = id
  | ROp (SubmitTx _) => True
  | _ => False
  end.

Definition swap_expired (m m' : SwapMapping) (seg : list (event resp)) : Prop :=
  Forall (fun e : event resp => cancel_invoice_request (Swap.invoice_id m) (projT1 e)) seg /\
  ((exists hash, m' = Swap.set_status SwapStatus.Expired (Some hash) m /\
                 omap submitted seg = [hash]) \/
   (m' = m /\ omap submitted seg = [])).

Lemma wp_cancel_expired_swap m s l :
  db_wf (swap_db s) -> SwapDb.get_by_payment_hash (Swap.payment_hash m) (swap_db s) = Some m ->
  wp (cancel_expired_swap m) s l
    (row_step Swap.payment_hash SwapDb.get_by_payment_hash swap_expired m s l).
Proof.
  intros Hwf Hget. unfold cancel_expired_swap. assert (s = set_db s (swap_db s)) as Hs by (by destruct s).
  wp_step. destruct x as [tx|e]; [wp_step; rewrite <- app_assoc; destruct x as [hash|e]|].
  - wp_step. apply (swap_row_step _ _ _ _ _ _ (Swap.set_status SwapStatus.Expired (Some hash) m));
      cbn; auto with swapdb. split; [by repeat constructor|]. left. by exists hash.
  - cbn. apply (swap_row_step _ _ _ _ _ _ m); auto with swapdb.
    split; [by repeat constructor|]. by right.
  - cbn. apply (swap_row_step _ _ _ _ _ _ m); auto with swapdb.
    split; [by repeat constructor|]. by right.
Qed.

(** Appending to the message of a cancelled offramp. *)
Definition offramp_cancelled (m m' : OfframpMapping) (seg : list (event resp)) : Prop :=
  Forall (fun e : event resp => refund_request m (projT1 e)) seg /\ omap refunds seg = [] /\
  ((exists hash, omap submitted seg = [hash] /\
      m' = Offramp.coalesce OfframpStatus.Failed None None
             (Some (cancel_message (default "" (Offramp.error_message m)) hash)) m) \/
   (m' = m /\ omap submitted seg = [])).

Lemma wp_cancel_expired_offramp m s l :
  db_wf (swap_db s) -> SwapDb.get_offramp_by_id (Offramp.offramp_id m) (swap_db s) = Some m ->
  wp (cancel_offramp_on_chain m) s l
    (row_step Offramp.offramp_id SwapDb.get_offramp_by_id offramp_cancelled m s l).
Proof.
  intros Hwf Hget. assert (s = set_db s (swap_db s)) as Hs by (by destruct s).
  apply wp_cancel_offramp. rewrite Hget. cbn.
  intros s' l1 HF Hr [[-> Hsub]|(hash & Hsub & ->)].
  - apply (offramp_row_step' _ _ _ _ _ _ m); auto with swapdb. split_and!; auto.
  - eapply offramp_row_step'; cbn; [auto with swapdb|done|eauto with swapdb|]. split_and!; eauto.
Qed.

(** The cancel loop counts its accepted submissions, and its requests are those of
    its entries. *)
Lemma cancel_loop_spec label build (R : Req -> Prop) start ids c b s l Q :
  (forall id, id ∈ ids -> effect_spec (build id) R submitted (fun hash => [hash])) ->
  R RInstant -> (forall n, R (RSleep n)) ->
  (forall n l1, Forall (fun e : event resp => R (projT1 e)) l1 ->
     n = c + Z.of_nat (length (omap submitted l1)) ->
     (length (omap submitted l1) <= length ids)%nat -> Q (Done n) s (l ++ l1)) ->
  wp (cancel_loop label build start ids c b) s l Q.
Proof.
  intros Hb Hi Hs. revert c b l. induction ids as [|id ids IH]; intros c b l HQ; cbn [cancel_loop].
  { cbn. rewrite <- (app_nil_r l). apply HQ; [constructor|cbn; lia|cbn; lia]. }
  cbn. intros now. destruct (_ <? _).
  { cbn. apply HQ; [by repeat constructor|cbn; lia|cbn; lia]. }
  apply wp_bind. assert (forall l0, Forall (fun e : event resp => R (projT1 e)) l0 ->
    omap submitted l0 = [] ->
    wp (bind (submit_contract_tx_with_retry (label +:+ "(#" +:+ pretty id +:+ ")")
             RETRY_ATTEMPTS RETRY_DELAY (build id)) (fun result =>
        match result with
        | Ok _ => cancel_loop label build start ids (c + 1) true
        | Err _ => cancel_loop label build start ids c false
        end)) s (l ++ l0) Q) as Hrest.
  { intros l0 H0 E0. apply wp_bind. eapply wp_effect_spec;
      [apply submit_effect_spec; [apply Hb; set_solver|done|done]|].
    intros r l1 H1 E1. rewrite <- app_assoc. destruct r as [v|e]; cbn [wp_cont]; apply IH;
      try (intros; apply Hb; set_solver); intros n l2 H2 E2 Hle; rewrite <- app_assoc; apply HQ;
      rewrite ?Forall_app, ?omap_app, ?E0, ?E1; cbn; rewrite ?length_app; try done; lia. }
  destruct b; cbn.
  - intros []. rewrite <- app_assoc. apply Hrest; [|done]. log_forall; cbn; auto.
  - apply Hrest; [|done]. log_forall; cbn; auto.
Qed.

Lemma build_cancel_offramp_spec id (R : Req -> Prop) :
  R (ROp (CancelOfframp id)) -> (forall tx, R (ROp (SubmitTx tx))) ->
  effect_spec (build_cancel_offramp id) R submitted (fun hash => [hash]).
Proof.
  intros HR Hs. apply build_submit_spec; [done|]. op_spec.
Qed.

Lemma build_cancel_invoice_spec id (R : Req -> Prop) :
  R (ROp (CancelInvoice id)) -> (forall tx, R (ROp (SubmitTx tx))) ->
  effect_spec (build_cancel_invoice id) R submitted (fun hash => [hash]).
Proof.
  intros HR Hs. apply build_submit_spec; [done|]. op_spec.
Qed.
End facts.

Section tick_facts.
Context `{Externals}.

Lemma wp_swaps_tick s Q :
  db_wf (swap_db s) ->
  (forall t s' l, rows_done Swap.payment_hash SwapDb.get_by_payment_hash swap_expired
       (SwapDb.get_expired_pending (wrap_i64 (Z.of_N t)) (swap_db s)) s s' l ->
     Q (Done tt) s' (existT RNow t :: l)) ->
  wp monitor_expired_swaps_tick s [] Q.
Proof.
  intros Hwf HQ. unfold monitor_expired_swaps_tick. wp_step. wp_step.
  eapply (wp_for_rows Swap.payment_hash SwapDb.get_by_payment_hash swap_expired).
  - done.
  - by apply swap_rows_NoDup.
  - intros x Hx%get_expired_pending_spec; [tauto|done].
  - intros x s1 l1 _ ? ?. by apply wp_cancel_expired_swap.
  - intros s' l1 Hd. cbn. by apply HQ.
Qed.

Lemma wp_offramps_tick s Q :
  db_wf (swap_db s) ->
  (forall t s' l, rows_done Offramp.offramp_id SwapDb.get_offramp_by_id offramp_cancelled
       (SwapDb.get_expired_offramps (wrap_i64 (Z.of_N t)) (swap_db s)) s s' l ->
     Q (Done tt) s' (existT RNow t :: l)) ->
  wp monitor_expired_offramps_tick s [] Q.
Proof.
  intros Hwf HQ. unfold monitor_expired_offramps_tick. wp_step. wp_step.
  eapply (wp_for_rows Offramp.offramp_id SwapDb.get_offramp_by_id offramp_cancelled).
  - done.
  - by apply offramp_rows_NoDup.
  - intros x Hx%get_expired_offramps_spec; [tauto|done].
  - intros x s1 l1 _ ? ?. by apply wp_cancel_expired_offramp.
  - intros s' l1 Hd. cbn. by apply HQ.
Qed.

(** The requests of [cancel_expired_offramps] and [cancel_expired]: only entries of
    the state that was read, and expired at the clock that was read. *)
Definition cancel_offramps_request (st : ChainState.t) (now : Z) (r : Req) : Prop :=
  match r with
  | RInstant | RSleep _ | ROp (SubmitTx _) => True
  | ROp (CancelOfframp id) => exists o, o ∈ ChainState.offramps st /\
      ChainOfframp.offramp_id o = id /\ ChainOfframp.expires_at o < now
  | _ => False
  end.
Definition cancel_invoices_request (st : ChainState.t) (now : Z) (r : Req) : Prop :=
  match r with
  | RInstant | RSleep _ | ROp (SubmitTx _) => True
  | ROp (CancelInvoice id) => exists i, i ∈ ChainState.invoices st /\
      Invoice.invoice_id i = id /\ Invoice.expires_at i < now
  | _ => False
  end.

(** What such a command reports. *)
Definition cancel_report (o : outcome (option (Z * Z))) (expired : nat) (l : list (event resp)) : Prop :=
  match o with
  | Done None => expired = 0%nat /\ l = []
  | Done (Some (c, n)) => n = Z.of_nat expired /\
      c = Z.of_nat (length (omap submitted l)) /\ (length (omap submitted l) <= expired)%nat
  | Panicked _ => False
  end.

Lemma elem_filter {A} (f : A -> bool) x xs : x ∈ List.filter f xs <-> x ∈ xs /\ f x = true.
Proof. by rewrite !list_elem_of_In, filter_In. Qed.

Lemma wp_cancel_expired_offramps s :
  wp cancel_expired_offramps s [] (fun o s' l => s' = s /\ exists v l1,
    l = existT (ROp QueryState) v :: l1 /\
    match v with
    | Err _ => o = Done None /\ l1 = []
    | Ok st => exists t l2, l1 = existT RNow t :: l2 /\
        Forall (fun e : event resp => cancel_offramps_request st (wrap_i64 (Z.of_N t)) (projT1 e)) l2 /\
        cancel_report o (length (List.filter (fun o => ChainOfframp.expires_at o <? wrap_i64 (Z.of_N t))
                                   (ChainState.offramps st))) l2
    end).
Proof.
  unfold cancel_expired_offramps. wp_step. destruct x as [st|e].
  2: { cbn. split; [done|]. by exists (Err e), []. }
  wp_step. remember (List.filter _ _) as xs eqn:Hxs.
  assert (forall id, id ∈ (ChainOfframp.offramp_id <$> xs) -> cancel_offramps_request st (wrap_i64 (Z.of_N t))
    (ROp (CancelOfframp id))) as HR.
  { subst xs. intros id (o & -> & [Ho Ht]%elem_filter)%list_elem_of_fmap. exists o.
    split; [done|]. split; [done|]. lia. }
  destruct xs as [|x xs'] eqn:Exs.
  { cbn. split; [done|]. exists (Ok st). eexists. split; [done|]. exists t, []. by rewrite <- Hxs. }
  rewrite <- Exs in *. cbn. intros start. apply wp_bind.
  apply (cancel_loop_spec _ _ (cancel_offramps_request st (wrap_i64 (Z.of_N t)))); [|done|done|].
  { intros id Hid. apply build_cancel_offramp_spec; [by apply HR|done]. }
  intros n l1 H1 E1 Hle. cbn. split; [done|]. eexists (Ok st), _. split; [done|].
  eexists t, _. split; [done|]. split; [by apply Forall_cons_2|].
  rewrite length_fmap in Hle. cbn. rewrite <- Hxs. by rewrite Z.add_0_l in E1.
Qed.

Lemma wp_cancel_expired s :
  wp cancel_expired s [] (fun o s' l => s' = s /\ exists v l1,
    l = existT (ROp QueryState) v :: l1 /\
    match v with
    | Err _ => o = Done None /\ l1 = []
    | Ok st => exists t l2, l1 = existT RNow t :: l2 /\
        Forall (fun e : event resp => cancel_invoices_request st (wrap_i64 (Z.of_N t)) (projT1 e)) l2 /\
        cancel_report o (length (List.filter (fun i => Invoice.expires_at i <? wrap_i64 (Z.of_N t))
                                   (ChainState.invoices st))) l2
    end).
Proof.
  unfold cancel_expired. wp_step. destruct x as [st|e].
  2: { cbn. split; [done|]. by exists (Err e), []. }
  wp_step. remember (List.filter _ _) as xs eqn:Hxs.
  assert (forall id, id ∈ (Invoice.invoice_id <$> xs) -> cancel_invoices_request st (wrap_i64 (Z.of_N t))
    (ROp (CancelInvoice id))) as HR.
  { subst xs. intros id (o & -> & [Ho Ht]%elem_filter)%list_elem_of_fmap. exists o.
    split; [done|]. split; [done|]. lia. }
  destruct xs as [|x xs'] eqn:Exs.
  { cbn. split; [done|]. exists (Ok st). eexists. split; [done|]. exists t, []. by rewrite <- Hxs. }
  rewrite <- Exs in *. cbn. intros start. apply wp_bind.
  apply (cancel_loop_spec _ _ (cancel_invoices_request st (wrap_i64 (Z.of_N t)))); [|done|done|].
  { intros id Hid. apply build_cancel_invoice_spec; [by apply HR|done]. }
  intros n l1 H1 E1 Hle. cbn. split; [done|]. eexists (Ok st), _. split; [done|].
  eexists t, _. split; [done|]. split; [by apply Forall_cons_2|].
  rewrite length_fmap in Hle. cbn. rewrite <- Hxs. by rewrite Z.add_0_l in E1.
Qed.
End tick_facts.

(** ** Theorems *)

Section theorems.
Context `{Externals} {W : Type} `{!Env W}.
Implicit Types (s : Relay) (w : W).

(** One tick of the swap monitor, run alone, never panics and changes only
    pending swaps whose expiry is before the clock it read.  Such a swap is
    [Expired] with the hash of the one accepted cancellation of its own invoice, or
    unchanged, with no accepted cancellation. *)
Lemma swaps_tick_correct s w :
  db_wf (swap_db s) ->
  let r := exec monitor_expired_swaps_tick s w in
  out r = Done tt /\ exists t l, log r = existT RNow t :: l /\ forall h,
    match SwapDb.get_by_payment_hash h (swap_db s),
          SwapDb.get_by_payment_hash h (swap_db (fin r)) with
    | Some m, Some m' =>
        if decide (Swap.status m = SwapStatus.Pending /\ Swap.expires_at m < wrap_i64 (Z.of_N t)) then
          exists a seg b, l = a ++ seg ++ b /\ swap_expired m m' seg
        else m' = m
    | None, None => True
    | _, _ => False
    end.
Proof.
  intros Hwf. cbn zeta. generalize (wp_exec monitor_expired_swaps_tick s w (fun o s' l =>
    o = Done tt /\ exists t l1, l = existT RNow t :: l1 /\
    rows_done Swap.payment_hash SwapDb.get_by_payment_hash swap_expired
      (SwapDb.get_expired_pending (wrap_i64 (Z.of_N t)) (swap_db s)) s s' l1)).
  intros Hd. specialize (Hd ltac:(apply wp_swaps_tick; [done|by eauto 10])). cbn beta in Hd.
  destruct Hd as (Ho & t & l & El & Hd). split; [done|]. exists t, l. split; [done|]. intros h.
  destruct (SwapDb.get_by_payment_hash h (swap_db s)) as [m|] eqn:E.
  - destruct (get_swap_elem _ _ _ E) as (_ & _ & _ & Eh). subst h.
    destruct (decide _) as [Hst|Hst].
    + assert (m ∈ SwapDb.get_expired_pending (wrap_i64 (Z.of_N t)) (swap_db s)) as Hm
        by (by apply get_expired_pending_spec).
      destruct (rows_done_elem _ _ _ _ _ _ _ m Hd Hm) as (m' & a & seg & b & ? & -> & HR). eauto.
    + destruct Hd as (_ & _ & Hoth & _). rewrite Hoth, E; [done|].
      intros (y & Ey & [Hy Hys]%get_expired_pending_spec)%list_elem_of_fmap; [|done].
      assert (y = m) as -> by congruence. done.
  - destruct Hd as (_ & _ & Hoth & _). rewrite Hoth, E; [done|].
    intros (y & -> & [Hy _]%get_expired_pending_spec)%list_elem_of_fmap; [|done]. congruence.
Qed.

(** C33: one tick of the offramp monitor, run alone, never panics and changes only
    offramps that await a deposit or have failed, with a positive expiry before the
    clock it read.  Such an offramp is [Failed], with the accepted cancellation
    appended to the message it had, or unchanged, with no accepted cancellation;
    nothing is ever refunded here. *)
Theorem offramps_tick_correct s w :
  db_wf (swap_db s) ->
  let r := exec monitor_expired_offramps_tick s w in
  out r = Done tt /\ exists t l, log r = existT RNow t :: l /\ forall id,
    match SwapDb.get_offramp_by_id id (swap_db s),
          SwapDb.get_offramp_by_id id (swap_db (fin r)) with
    | Some m, Some m' =>
        if decide ((Offramp.status m = OfframpStatus.AwaitingDeposit \/
                    Offramp.status m = OfframpStatus.Failed) /\
                   0 < Offramp.expires_at m < wrap_i64 (Z.of_N t)) then
          exists a seg b, l = a ++ seg ++ b /\ offramp_cancelled m m' seg
        else m' = m
    | None, None => True
    | _, _ => False
    end.
Proof.
  intros Hwf. cbn zeta. generalize (wp_exec monitor_expired_offramps_tick s w (fun o s' l =>
    o = Done tt /\ exists t l1, l = existT RNow t :: l1 /\
    rows_done Offramp.offramp_id SwapDb.get_offramp_by_id offramp_cancelled
      (SwapDb.get_expired_offramps (wrap_i64 (Z.of_N t)) (swap_db s)) s s' l1)).
  intros Hd. specialize (Hd ltac:(apply wp_offramps_tick; [done|by eauto 10])). cbn beta in Hd.
  destruct Hd as (Ho & t & l & El & Hd). split; [done|]. exists t, l. split; [done|]. intros id.
  destruct (SwapDb.get_offramp_by_id id (swap_db s)) as [m|] eqn:E.
  - destruct (get_offramp_elem _ _ _ E) as (_ & _ & _ & Eh). subst id.
    destruct (decide _) as [Hst|Hst].
    + assert (m ∈ SwapDb.get_expired_offramps (wrap_i64 (Z.of_N t)) (swap_db s)) as Hm
        by (by apply get_expired_offramps_spec).
      destruct (rows_done_elem _ _ _ _ _ _ _ m Hd Hm) as (m' & a & seg & b & ? & -> & HR). eauto.
    + destruct Hd as (_ & _ & Hoth & _). rewrite Hoth, E; [done|].
      intros (y & Ey & [Hy Hys]%get_expired_offramps_spec)%list_elem_of_fmap; [|done].
      assert (y = m) as -> by congruence. done.
  - destruct Hd as (_ & _ & Hoth & _). rewrite Hoth, E; [done|].
    intros (y & -> & [Hy _]%get_expired_offramps_spec)%list_elem_of_fmap; [|done]. congruence.
Qed.

(** The command that cancels expired offramps reads the chain once, cancels only
    entries of that state whose expiry is before the clock it read, does not touch
    the database, and reports as cancelled exactly the number of submissions the
    chain accepted, at most one per expired entry. *)
Lemma cancel_expired_offramps_correct s w :
  let r := exec cancel_expired_offramps s w in
  fin r = s /\ exists v l1,
    log r = existT (ROp QueryState) v :: l1 /\
    match v with
    | Err _ => out r = Done None /\ l1 = []
    | Ok st => exists t l2, l1 = existT RNow t :: l2 /\
        Forall (fun e : event resp => cancel_offramps_request st (wrap_i64 (Z.of_N t)) (projT1 e)) l2 /\
        cancel_report (out r) (length (List.filter (fun o => ChainOfframp.expires_at o <? wrap_i64 (Z.of_N t))
                                         (ChainState.offramps st))) l2
    end.
Proof. exact (wp_exec _ s w _ (wp_cancel_expired_offramps s)). Qed.

(** The same for the command that cancels expired invoices. *)
Lemma cancel_expired_correct s w :
  let r := exec cancel_expired s w in
  fin r = s /\ exists v l1,
    log r = existT (ROp QueryState) v :: l1 /\
    match v with
    | Err _ => out r = Done None /\ l1 = []
    | Ok st => exists t l2, l1 = existT RNow t :: l2 /\
        Forall (fun e : event resp => cancel_invoices_request st (wrap_i64 (Z.of_N t)) (projT1 e)) l2 /\
        cancel_report (out r) (length (List.filter (fun i => Invoice.expires_at i <? wrap_i64 (Z.of_N t))
                                         (ChainState.invoices st))) l2
    end.
Proof. exact (wp_exec _ s w _ (wp_cancel_expired s)). Qed.
End theorems.
