(* ===== verification/Api.v ===== *)
(** * The REST API ([src/src/api.rs])

    A handler is what axum calls once a request has been routed and its body
    parsed; JSON encoding, CORS and the body limit are axum's and tower's.  The
    responses are the structs the handlers serialise.

    [RateLimiter::check] reads the clock while it holds the mutex; here the reading
    is the request before the critical section. *)

From S2P Require Import Prelude Effects Amounts Mapping MappingFacts MappingSpec Types.
From S2P Require Import RateLimiter World Helpers CardanoSwap Payments CardanoOfframp.
Open Scope prog_scope.

(** ** Data *)

(** The configuration part of [ApiState]; the shared components are in [Relay]. *)
Record ApiState := mkApi {
  auth_token : option string;
  max_active_swaps : Z;
  max_active_offramps : Z;
  swap_expiry_ms : Z;
  script_address : string;
  cbtc_policy : string;
  cbtc_name : string;
}.

Record SwapRequest := mkSwapRequest {
  sr_amount_cbtc : Z;
  sr_cardano_address : string;
}.
Record SwapResponse := mkSwapResponse {
  sp_invoice_id : Z;
  sp_bolt11 : string;
  sp_payment_hash : string;
}.
Record SwapStatusResponse := mkSwapStatus {
  ss_payment_hash : string;
  ss_invoice_id : Z;
  ss_status : string;
  ss_cardano_tx_hash : option string;
  ss_create_tx_hash : option string;
}.
Record OfframpRequest := mkOfframpRequest {
  or_bolt11 : string;
  or_amount_cbtc : Z;
  or_cardano_address : string;
}.
Record OfframpDepositRequest := mkDepositRequest {
  od_offramp_id : Z;
  od_cbtc_tx_hash : string;
}.
Record OfframpResponse := mkOfframpResponse {
  op_offramp_id : Z;
  op_operator_address : string;
  op_payment_hash : string;
  op_status : string;
}.
Record OfframpStatusResponse := mkOfframpStatus {
  os_offramp_id : Z;
  os_payment_hash : string;
  os_amount_cbtc : Z;
  os_status : string;
  os_deposit_tx_hash : option string;
  os_create_offramp_tx_hash : option string;
  os_lightning_preimage : option string;
  os_error_message : option string;
}.
Record PoolInfoResponse := mkPoolInfo {
  pi_total_liquidity : Z;
  pi_reserved : Z;
  pi_available : Z;
  pi_active_invoices : Z;
  pi_pending_swaps : Z;
}.
(** [exchange_rate] is the constant 1.0. *)
Record RelayInfoResponse := mkRelayInfo {
  ri_operator_address : string;
  ri_script_address : string;
  ri_cbtc_policy_id : string;
  ri_cbtc_asset_name : string;
}.
Record ChannelBalance := mkChannelBalance {
  cb_channel_id : string;
  cb_peer_pubkey : bytes;
  cb_is_ready : bool;
  cb_channel_value_sats : Z;
  cb_outbound_msat : Z;
  cb_inbound_msat : Z;
}.
Record BtcBalance := mkBtcBalance {
  channels_outbound_msat : Z;
  channels_inbound_msat : Z;
  on_chain_sweeper_sats : Z;
  sweeper_pending_sats : Z;
  sweeper_confirmed_sats : Z;
  channels : list ChannelBalance;
  sweeper_outputs : Z;
  wallet_sats : Z;
}.
Record CbtcBalance := mkCbtcBalance {
  pool_total : Z;
  pool_reserved : Z;
  pool_available : Z;
  active_invoices : Z;
  active_offramps : Z;
}.
Record BalanceResponse := mkBalance { btc : BtcBalance; cbtc : CbtcBalance }.
(** [PoolDepositResponse] and [PoolWithdrawResponse] have the same fields. *)
Record PoolTxResponse := mkPoolTx {
  pt_tx_hash : string;
  pt_amount : Z;
  pt_new_total_liquidity : option Z;
}.
Record StatusCounts := mkCounts {
  completed : Z;
  pending : Z;
  failed : Z;
  total : Z;
}.
Record MetricsResponse := mkMetrics { onramp : StatusCounts; offramp : StatusCounts }.
Record HealthResponse := mkHealth {
  h_status : string;
  h_cardano : bool;
  h_pending_swaps : Z;
  h_pending_offramps : Z;
}.

Inductive StatusCode :=
| BAD_REQUEST | UNAUTHORIZED | NOT_FOUND | TOO_MANY_REQUESTS
| INTERNAL_SERVER_ERROR | SERVICE_UNAVAILABLE.

(** [(StatusCode, Json<ErrorResponse>)] *)
Abbreviation HttpError := (StatusCode * string)%type.

(** A [HeaderMap]: a value that [to_str] refuses is [None]. *)
Abbreviation HeaderMap := (gmap string (option string)).

Definition MAX_BOLT11_LEN : nat := 2048.
Definition MAX_CARDANO_ADDR_LEN : nat := 256.
Definition MAX_TX_HASH_LEN : nat := 128.

Definition verify_operator_auth (headers : HeaderMap) (auth_token : option string) :
  result unit HttpError :=
  match auth_token with
  | None => Ok tt
  | Some token =>
      let header := match headers !! "authorization"%string with
                    | Some (Some v) => strip_prefix "Bearer " v
                    | _ => None
                    end in
      match header with
      | Some provided =>
          if String.eqb provided token then Ok tt
          else Err (UNAUTHORIZED, "unauthorized: invalid or missing bearer token"%string)
      | None => Err (UNAUTHORIZED, "unauthorized: invalid or missing bearer token"%string)
      end
  end.

(** [to_status_counts]; the sums are [i64]. *)
Definition count_status (acc : StatusCounts) (sc : string * Z) : StatusCounts :=
  let '(status, count) := sc in
  let acc := mkCounts (completed acc) (pending acc) (failed acc) (i64_add (total acc) count) in
  if String.eqb status "completed"
  then mkCounts (i64_add (completed acc) count) (pending acc) (failed acc) (total acc)
  else if String.eqb status "failed" || String.eqb status "expired"
  then mkCounts (completed acc) (pending acc) (i64_add (failed acc) count) (total acc)
  else mkCounts (completed acc) (i64_add (pending acc) count) (failed acc) (total acc).

Definition to_status_counts (counts : list (string * Z)) : StatusCounts :=
  foldl count_status (mkCounts 0 0 0 0) counts.

Definition spendable_output_value_sats (o : TrackedSpendableOutput) : Z :=
  match descriptor o with
  | StaticOutput v | DelayedPaymentOutput v | StaticPaymentOutput v => v
  end.

Definition to_swap_status (m : SwapMapping) : SwapStatusResponse :=
  mkSwapStatus (Swap.payment_hash m) (Swap.invoice_id m) (SwapStatus.debug (Swap.status m))
    (Swap.cardano_tx_hash m) (Swap.create_tx_hash m).

Definition to_offramp_status (m : OfframpMapping) : OfframpStatusResponse :=
  mkOfframpStatus (Offramp.offramp_id m) (Offramp.payment_hash m) (Offramp.amount_cbtc m)
    (OfframpStatus.as_str (Offramp.status m)) (Offramp.deposit_tx_hash m)
    (Offramp.cardano_offramp_tx_hash m) (Offramp.lightning_preimage m) (Offramp.error_message m).

(** ** Handlers *)

Section handlers.
Context `{Externals} (st : ApiState).

Definition handle_health : relay_prog HealthResponse :=
  let* r := op QueryState in
  let cardano_ok := is_ok r in
  let* swaps := db_read SwapDb.count_active_swaps in
  let* offramps := db_read SwapDb.count_active_offramps in
  Ret (mkHealth (if cardano_ok then "ok" else "degraded") cardano_ok
         (default (-1) (res_ok swaps)) (default (-1) (res_ok offramps))).

(** [state.rate_limiter.lock().unwrap().check(addr.ip())] *)
Definition rate_check (ip : IpAddr) : relay_prog bool :=
  let* now := call RInstant in
  local (fun s => let '(ok, l) := check ip now (rate_limiter s) in (ok, set_limiter s l)).

Definition rate_limited : HttpError :=
  (TOO_MANY_REQUESTS, "rate limit exceeded, try again later"%string).

Definition amount_in_range (amount : Z) : bool :=
  negb ((amount <=? 0) || (10000000000 <? amount)).

Definition bad_amount : HttpError :=
  (BAD_REQUEST, "amount must be between 1 and 10,000,000,000 cBTC"%string).

Definition db_error (e : string) : HttpError := (INTERNAL_SERVER_ERROR, "database error: " +:+ e).

Definition insufficient (amount avail : Z) : HttpError :=
  (BAD_REQUEST, "insufficient pool liquidity: requested " +:+ pretty amount +:+ " but only "
                  +:+ pretty avail +:+ " available").

(** Steps 1 to 3 of [handle_swap_request], after its checks. *)
Definition create_swap (amount : Z) (address : string) : relay_prog (result SwapResponse HttpError) :=
  let expiry_ms := swap_expiry_ms st in
  let expiry_secs := wrap_u32 (Z.quot expiry_ms 1000) in
  let* r := request_swap amount address expiry_ms in
  match r with
  | Err e => Ret (Err (BAD_REQUEST, e))
  | Ok (invoice_id, description, create_tx_hash) =>
      let* b := create_invoice_for_swap amount description expiry_secs in
      match b with
      | None => Ret (Err (INTERNAL_SERVER_ERROR, "failed to create BOLT11 invoice"%string))
      | Some (bolt11, payment_hash) =>
          let* now := current_timestamp_ms in
          store_swap_mapping payment_hash invoice_id amount address (i64_add now expiry_ms)
            create_tx_hash ;;
          Ret (Ok (mkSwapResponse invoice_id bolt11 payment_hash))
      end
  end.

Definition handle_swap_request (ip : IpAddr) (req : SwapRequest) :
  relay_prog (result SwapResponse HttpError) :=
  let amount := sr_amount_cbtc req in
  let address := sr_cardano_address req in
  let* ok := rate_check ip in
  if negb ok then Ret (Err rate_limited)
  else if negb (amount_in_range amount) then Ret (Err bad_amount)
  else if (MAX_CARDANO_ADDR_LEN <? String.length address)%nat
  then Ret (Err (BAD_REQUEST, "cardano_address too long"%string))
  else
  let* active := db_read SwapDb.count_active_swaps in
  match active with
  | Err e => Ret (Err (db_error e))
  | Ok active_swaps =>
  if max_active_swaps st <=? active_swaps
  then Ret (Err (SERVICE_UNAVAILABLE,
         "too many active swaps (" +:+ pretty active_swaps +:+ "), try again later"))
  else
  let* pool := op QueryState in
  match pool with
  | Ok pool_state =>
      if available pool_state <? amount then Ret (Err (insufficient amount (available pool_state)))
      else create_swap amount address
  | Err _ => create_swap amount address
  end
  end.

Definition handle_swap_status (hash : string) : relay_prog (result SwapStatusResponse string) :=
  let* found := db_read (SwapDb.get_by_payment_hash hash) in
  Ret (match found with
       | Some mapping => Ok (to_swap_status mapping)
       | None => Err ("swap not found for payment hash " +:+ hash)
       end).

Definition handle_relay_info : relay_prog RelayInfoResponse :=
  Ret (mkRelayInfo operator_address (script_address st) (cbtc_policy st) (cbtc_name st)).

Definition handle_pool_info : relay_prog (result PoolInfoResponse string) :=
  let* r := op QueryState in
  match r with
  | Ok s =>
      let* swaps := db_read SwapDb.count_active_swaps in
      Ret (Ok (mkPoolInfo (ChainState.total_liquidity s) (ChainState.reserved s) (available s)
                 (Z.of_nat (length (ChainState.invoices s))) (default (-1) (res_ok swaps))))
  | Err e => Ret (Err ("failed to query pool: " +:+ error_display e))
  end.

Definition channel_balance (c : ChannelDetails.t) : ChannelBalance :=
  mkChannelBalance (ChannelDetails.channel_id c) (ChannelDetails.counterparty c)
    (ChannelDetails.is_channel_ready c) (ChannelDetails.channel_value_satoshis c)
    (ChannelDetails.outbound_capacity_msat c) (ChannelDetails.inbound_capacity_msat c).

(** The sweeper loop of [handle_balance]: pending and confirmed sums. *)
Definition sweeper_sums (tracked : list TrackedSpendableOutput) : Z * Z :=
  foldl (fun '(p, c) o =>
    let v := spendable_output_value_sats o in
    match spend_status o with
    | PendingThresholdConfirmations => (p, u64_add c v)
    | _ => (u64_add p v, c)
    end) (0, 0) tracked.

Definition btc_balance (chans : list ChannelDetails.t) (tracked : list TrackedSpendableOutput)
  (wallet : Z) : BtcBalance :=
  let '(p, c) := sweeper_sums tracked in
  mkBtcBalance
    (foldl u64_add 0 (ChannelDetails.outbound_capacity_msat <$> chans))
    (foldl u64_add 0 (ChannelDetails.inbound_capacity_msat <$> chans))
    (u64_add p c) p c (channel_balance <$> chans) (Z.of_nat (length tracked)) wallet.

Definition handle_balance : relay_prog (result BalanceResponse string) :=
  let* r := op QueryState in
  match r with
  | Err e => Ret (Err ("failed to query cBTC pool: " +:+ error_display e))
  | Ok s =>
      let cbtc := mkCbtcBalance (ChainState.total_liquidity s) (ChainState.reserved s) (available s)
        (Z.of_nat (length (ChainState.invoices s))) (Z.of_nat (length (ChainState.offramps s))) in
      let* chans := call RListChannels in
      let* tracked := call RTrackedOutputs in
      let* wallet := call RWalletBalance in
      Ret (Ok (mkBalance (btc_balance chans tracked wallet) cbtc))
  end.

(** The common part of the two pool handlers: run the transaction with a deadline,
    then read the new total. *)
Definition pool_tx (what : string) (amount : Z) (fut : relay_prog (result string string)) :
  relay_prog (result PoolTxResponse HttpError) :=
  let* r := timeout 30 fut in
  match r with
  | Some (Err e) => Ret (Err (BAD_REQUEST, what +:+ " failed: " +:+ e))
  | None => Ret (Err (SERVICE_UNAVAILABLE,
      what +:+ " timed out — script UTxO may be contended, retry later"))
  | Some (Ok tx_hash) =>
      let* q := op QueryState in
      Ret (Ok (mkPoolTx tx_hash amount (ChainState.total_liquidity <$> res_ok q)))
  end.

Definition deposit_fut (amount : Z) : relay_prog (result string string) :=
  let* r := op (Deposit amount) in
  try* signed_tx := Ret (map_err (fun e => "build failed: " +:+ error_display e) r) in
  let* r := op (SubmitTx signed_tx) in
  Ret (map_err (fun e => "submit failed: " +:+ error_display e) r).

Definition withdraw_fut (amount : Z) : relay_prog (result string string) :=
  let* r := op (Withdraw amount) in
  try* signed_tx := Ret (map_err (fun e => "build failed: " +:+ error_display e) r) in
  let* r := op (SubmitTx signed_tx) in
  Ret (map_err (fun e => "submit failed: " +:+ error_display e) r).

Definition handle_pool_deposit (headers : HeaderMap) (amount : Z) :
  relay_prog (result PoolTxResponse HttpError) :=
  try* _ := Ret (verify_operator_auth headers (auth_token st)) in
  if amount <=? 0 then Ret (Err (BAD_REQUEST, "deposit amount must be positive"%string))
  else pool_tx "deposit" amount (deposit_fut amount).

Definition handle_pool_withdraw (headers : HeaderMap) (amount : Z) :
  relay_prog (result PoolTxResponse HttpError) :=
  try* _ := Ret (verify_operator_auth headers (auth_token st)) in
  if amount <=? 0 then Ret (Err (BAD_REQUEST, "withdraw amount must be positive"%string))
  else pool_tx "withdraw" amount (withdraw_fut amount).

Definition handle_offramp_request (ip : IpAddr) (req : OfframpRequest) :
  relay_prog (result OfframpResponse HttpError) :=
  let* ok := rate_check ip in
  if negb ok then Ret (Err rate_limited)
  else if negb (amount_in_range (or_amount_cbtc req)) then Ret (Err bad_amount)
  else if (MAX_BOLT11_LEN <? String.length (or_bolt11 req))%nat
  then Ret (Err (BAD_REQUEST, "bolt11 invoice too long"%string))
  else if (MAX_CARDANO_ADDR_LEN <? String.length (or_cardano_address req))%nat
  then Ret (Err (BAD_REQUEST, "cardano_address too long"%string))
  else
  let* active := db_read SwapDb.count_active_offramps in
  match active with
  | Err e => Ret (Err (db_error e))
  | Ok active_offramps =>
  if max_active_offramps st <=? active_offramps
  then Ret (Err (SERVICE_UNAVAILABLE,
         "too many active offramps (" +:+ pretty active_offramps +:+ "), try again later"))
  else
  let* r := request_offramp (or_bolt11 req) (or_amount_cbtc req) (or_cardano_address req)
              (swap_expiry_ms st) in
  match r with
  | Err e => Ret (Err (BAD_REQUEST, e))
  | Ok (offramp_id, operator_address, payment_hash) =>
      Ret (Ok (mkOfframpResponse offramp_id operator_address payment_hash "AwaitingDeposit"))
  end
  end.

Definition handle_offramp_deposit (ip : IpAddr) (req : OfframpDepositRequest) :
  relay_prog (result OfframpResponse HttpError) :=
  let* ok := rate_check ip in
  if negb ok then Ret (Err rate_limited)
  else if od_offramp_id req <=? 0 then Ret (Err (BAD_REQUEST, "invalid offramp_id"%string))
  else if (MAX_TX_HASH_LEN <? String.length (od_cbtc_tx_hash req))%nat
          || str_is_empty (od_cbtc_tx_hash req)
  then Ret (Err (BAD_REQUEST, "invalid cbtc_tx_hash"%string))
  else
  let* r := process_offramp_deposit (od_offramp_id req) (od_cbtc_tx_hash req) in
  match r with
  | Err e => Ret (Err (BAD_REQUEST, e))
  | Ok _ =>
      let* found := db_read (SwapDb.get_offramp_by_id (od_offramp_id req)) in
      match found with
      | None => Ret (Err (NOT_FOUND, "offramp not found"%string))
      | Some mapping =>
          Ret (Ok (mkOfframpResponse (od_offramp_id req) operator_address
                     (Offramp.payment_hash mapping)
                     (OfframpStatus.as_str (Offramp.status mapping))))
      end
  end.

Definition handle_offramp_status (id : Z) : relay_prog (result OfframpStatusResponse string) :=
  let* found := db_read (SwapDb.get_offramp_by_id id) in
  Ret (match found with
       | Some mapping => Ok (to_offramp_status mapping)
       | None => Err ("offramp not found for id " +:+ pretty id)
       end).

Definition handle_swap_history : relay_prog (list SwapStatusResponse) :=
  let* swaps := db_read (SwapDb.list_recent_swaps 20) in
  Ret (to_swap_status <$> swaps).

Definition handle_offramp_history : relay_prog (list OfframpStatusResponse) :=
  let* offramps := db_read (SwapDb.list_recent_offramps 20) in
  Ret (to_offramp_status <$> offramps).

Definition handle_metrics : relay_prog MetricsResponse :=
  let* swap_counts := db_read SwapDb.get_swap_counts in
  let* offramp_counts := db_read SwapDb.get_offramp_counts in
  Ret (mkMetrics (to_status_counts swap_counts) (to_status_counts offramp_counts)).
End handlers.

(** ** Authorisation *)

Lemma verify_operator_auth_Ok headers token :
  verify_operator_auth headers token = Ok tt <->
  match token with
  | None => True
  | Some t => headers !! "authorization"%string = Some (Some ("Bearer " +:+ t))
  end.
Proof.
  unfold verify_operator_auth. destruct token as [t|]; [|done].
  destruct (headers !! "authorization"%string) as [[v|]|]; [|naive_solver..].
  destruct (strip_prefix "Bearer " v) as [p|] eqn:E.
  - apply strip_prefix_Some in E as ->. destruct (String.eqb_spec p t) as [->|Hne]; [done|].
    split; [done|]. intros [= E]. apply (inj (String.append _)) in E. done.
  - split; [done|]. intros [= ->]. assert (strip_prefix "Bearer " ("Bearer " +:+ t) = Some t) as E'
      by (by apply strip_prefix_Some). congruence.
Qed.

Lemma verify_operator_auth_Err headers token e :
  verify_operator_auth headers token = Err e ->
  e = (UNAUTHORIZED, "unauthorized: invalid or missing bearer token"%string).
Proof. unfold verify_operator_auth. repeat case_match; naive_solver. Qed.

(** ** The pool handlers *)

Section pool.
Context `{Externals}.

(** A pool transaction: what is accepted, under the three possible outcomes. *)
Definition pool_tx_done (build : OpReq) (amount : Z) (s : Relay)
  (o : outcome (result PoolTxResponse HttpError)) (s' : Relay) (l : list (event resp)) : Prop :=
  s' = s /\
  Forall (fun e : event resp => match projT1 e with
    | RTimeout _ | ROp (SubmitTx _) | ROp QueryState => True
    | ROp r => r = build
    | _ => False
    end) l /\
  match o with
  | Done (Ok resp) => omap submitted l = [pt_tx_hash resp] /\ pt_amount resp = amount
  | Done (Err (SERVICE_UNAVAILABLE, _)) => (length (omap submitted l) <= 1)%nat
  | Done (Err (code, _)) => code = BAD_REQUEST /\ omap submitted l = []
  | Panicked _ => False
  end.

(** Run a pool transaction through every combination of answers. *)
Ltac pool_case HQ :=
  intros [?|?]; cbn; try intros [?|?]; cbn; try intros [?|?]; rewrite <- ?app_assoc; apply HQ;
  (split; [done|]); (split; [by repeat constructor|]); cbn; try done; lia.

Lemma wp_pool_deposit amount s l Q :
  (forall o l1, pool_tx_done (Deposit amount) amount s o s l1 -> Q o s (l ++ l1)) ->
  wp (pool_tx "deposit" amount (deposit_fut amount)) s l Q.
Proof.
  intros HQ. cbn. intros [n|]; cbn; [destruct n as [|[|n]]; cbn|]; pool_case HQ.
Qed.

Lemma wp_pool_withdraw amount s l Q :
  (forall o l1, pool_tx_done (Withdraw amount) amount s o s l1 -> Q o s (l ++ l1)) ->
  wp (pool_tx "withdraw" amount (withdraw_fut amount)) s l Q.
Proof.
  intros HQ. cbn. intros [n|]; cbn; [destruct n as [|[|n]]; cbn|]; pool_case HQ.
Qed.
End pool.

Section pool_theorems.
Context `{Externals} (st : ApiState) {W : Type} `{!Env W}.
Implicit Types (s : Relay) (w : W).

(** What a pool handler may do with operation [build]. *)
Definition pool_guarded (build : OpReq) (headers : HeaderMap) (amount : Z) (s : Relay)
  (o : outcome (result PoolTxResponse HttpError)) (s' : Relay) (l : list (event resp)) : Prop :=
  let authorised := match auth_token st with
    | None => True
    | Some t => headers !! "authorization"%string = Some (Some ("Bearer " +:+ t))
    end in
  (~ authorised -> s' = s /\ l = [] /\ exists msg, o = Done (Err (UNAUTHORIZED, msg))) /\
  (authorised -> amount <= 0 -> s' = s /\ l = [] /\ exists msg, o = Done (Err (BAD_REQUEST, msg))) /\
  (authorised -> 0 < amount -> pool_tx_done build amount s o s' l).

Lemma wp_pool_guarded build headers amount what fut s :
  (forall l Q, (forall o l1, pool_tx_done build amount s o s l1 -> Q o s (l ++ l1)) ->
     wp (pool_tx what amount fut) s l Q) ->
  wp (bind_try (Ret (verify_operator_auth headers (auth_token st))) (fun _ =>
    if amount <=? 0 then Ret (Err (BAD_REQUEST, what +:+ " amount must be positive"))
    else pool_tx what amount fut)) s [] (pool_guarded build headers amount s).
Proof.
  intros Hp. unfold pool_guarded, bind_try. cbn.
  pose proof (verify_operator_auth_Ok headers (auth_token st)) as Ha.
  destruct (verify_operator_auth _ _) as [[]|e] eqn:E.
  - destruct (Z.leb_spec amount 0); [cbn|apply Hp; intros o l1 Hd]; cbn; split_and!;
      intros; try done; try lia; try tauto; eauto.
  - apply verify_operator_auth_Err in E as ->. cbn. split_and!; [by eauto|..];
      intros Hauth; by apply Ha in Hauth.
Qed.

(** C25: the operator endpoints.  With a token configured, a request whose
    [authorization] header is not [Bearer] and that token is answered 401, and a
    non-positive amount 400, without any request to the outside and without any
    change.  Otherwise the only transaction built is a deposit (withdrawal) of the
    requested amount; the answer names the hash of the one accepted submission; a
    400 means that nothing was accepted, a 503 that at most one submission was.
    The shared state never changes. *)
Theorem pool_handlers_guarded headers amount s w :
  (let r := exec (handle_pool_deposit st headers amount) s w in
   pool_guarded (Deposit amount) headers amount s (out r) (fin r) (log r)) /\
  (let r := exec (handle_pool_withdraw st headers amount) s w in
   pool_guarded (Withdraw amount) headers amount s (out r) (fin r) (log r)).
Proof.
  split.
  - apply (wp_exec (handle_pool_deposit st headers amount) s w
      (pool_guarded (Deposit amount) headers amount s)).
    apply (wp_pool_guarded _ _ _ "deposit"). intros l Q. apply wp_pool_deposit.
  - apply (wp_exec (handle_pool_withdraw st headers amount) s w
      (pool_guarded (Withdraw amount) headers amount s)).
    apply (wp_pool_guarded _ _ _ "withdraw"). intros l Q. apply wp_pool_withdraw.
Qed.
End pool_theorems.

(** ** [handle_swap_request] *)

Section swap_request.
Context `{Externals} (st : ApiState).

(** The shared state but for the rate limiter. *)
Definition same_but_limiter (s s' : Relay) : Prop := s' = set_limiter s (rate_limiter s').

Lemma wp_rate_check {B} ip (k : bool -> relay_prog B) s l Q :
  (forall now, let '(ok, lim) := check ip now (rate_limiter s) in
     wp (k ok) (set_limiter s lim) (l ++ [existT RInstant now]) Q) ->
  wp (bind (rate_check ip) k) s l Q.
Proof. intros Hk. cbn. intros now. specialize (Hk now). by destruct (check _ _ _). Qed.

(** The mapping stored for a swap. *)
Definition new_swap (h : string) (id amount : Z) (addr : string) (created expires : Z)
  (hash : string) : SwapMapping :=
  Swap.mk h id amount addr SwapStatus.Pending created expires None (Some hash).

(** What the part of [handle_swap_request] after the checks leaves behind. *)
Definition swap_created (amount : Z) (addr : string) (s : Relay)
  (o : outcome (result SwapResponse HttpError)) (s' : Relay) (l : list (event resp)) : Prop :=
  match o with
  | Done (Ok r) => exists inv msat pkh now created hash,
      validate_address addr expected_prefix = Ok pkh /\ cbtc_to_msat amount = Some msat /\
      sp_bolt11 r = bolt11_to_string inv /\
      sp_payment_hash r = payment_hash_display (invoice_payment_hash inv) /\
      omap submitted l = [hash] /\
      SwapDb.get_by_payment_hash (sp_payment_hash r) (swap_db s) = None /\
      swap_row (sp_payment_hash r)
        (new_swap (sp_payment_hash r) (sp_invoice_id r) amount addr created
           (i64_add now (swap_expiry_ms st)) hash) (swap_db s) (swap_db s') /\
      inbound_payments s' = <[invoice_payment_hash inv := payment_entry inv HTLCStatus.Pending msat]>
                              (inbound_payments s)
  | Done (Err (code, _)) =>
      s' = s /\ (length (omap submitted l) <= 1)%nat /\
      (omap submitted l = [] \/ code = INTERNAL_SERVER_ERROR)
  | Panicked _ => swap_db s' = swap_db s /\ exists hash, omap submitted l = [hash]
  end.

Lemma wp_create_swap amount addr s l Q :
  (forall o s' l1, swap_created amount addr s o s' l1 -> Q o s' (l ++ l1)) ->
  wp (create_swap st amount addr) s l Q.
Proof.
  intros HQ. unfold create_swap. apply wp_bind, wp_request_swap.
  intros o l1 [_ Hr]. destruct (validate_address addr expected_prefix) as [pkh|e] eqn:Ev.
  2: { destruct Hr as [-> ->]. cbn. apply HQ. by repeat split; auto. }
  destruct Hr as (t & l2 & -> & HF & Ho).
  destruct o as [[[[id desc] hash]|e]|msg]; cbn [wp_cont]; [|cbn; apply HQ|done].
  2: { cbn. rewrite Ho. auto. }
  destruct Ho as [Hs _]. apply wp_bind, wp_create_invoice.
  intros o s1 l3 Hc. unfold invoice_created in Hc.
  destruct (cbtc_to_msat amount) as [msat|] eqn:Em.
  2: { destruct Hc as (-> & -> & ->). cbn. rewrite <- app_assoc. apply HQ. cbn.
       rewrite omap_app, Hs. cbn. auto. }
  destruct o as [[[b h]|]|msg]; cbn [wp_cont].
  - destruct Hc as (inv & -> & -> & -> & ->). wp_step. unfold store_swap_mapping. apply wp_bind. wp_step.
    unfold db_expect. apply wp_bind, wp_db_op. set (m := Swap.mk _ _ _ _ _ _ _ _ _).
    destruct (SwapDb.insert m _).1 eqn:Ei; cbn; rewrite <- !app_assoc; apply HQ.
    + exists inv, msat, pkh, (wrap_i64 (Z.of_N t0)), (wrap_i64 (Z.of_N t1)), hash. cbn in Ei |- *.
      split_and!; try done.
      * rewrite omap_app, Hs. done.
      * apply eq_None_not_Some. intros Hg. apply (insert_conflict m) in Hg. congruence.
      * split; [rewrite get_insert by done; by rewrite String.eqb_refl|].
        intros h' Hne. rewrite get_insert by done.
        destruct (String.eqb_spec (Swap.payment_hash m) h') as [E|]; [by destruct Hne|done].
    + split; [cbn; by apply insert_conflict_db|]. exists hash. cbn. by rewrite omap_app, Hs.
  - destruct Hc as (-> & e & ->). cbn. rewrite <- app_assoc. apply HQ. cbn.
    rewrite omap_app, Hs. cbn. auto.
  - destruct Hc as (_ & -> & ->). cbn. rewrite <- app_assoc. apply HQ. cbn. split; [done|].
    exists hash. by rewrite omap_app, Hs.
Qed.

(** The checks of [handle_swap_request] that need no request. *)
Definition swap_checks (req : SwapRequest) (db : SwapDb.t) : bool :=
  amount_in_range (sr_amount_cbtc req) &&
  negb (MAX_CARDANO_ADDR_LEN <? String.length (sr_cardano_address req))%nat &&
  match SwapDb.count_active_swaps db with
  | Ok n => n <? max_active_swaps st
  | Err _ => false
  end.

(** What [handle_swap_request] leaves behind: refused requests leave only their mark
    in the rate limiter. *)
Definition swap_handled (ip : IpAddr) (req : SwapRequest) (s : Relay)
  (o : outcome (result SwapResponse HttpError)) (s' : Relay) (l : list (event resp)) : Prop :=
  exists now l1, l = existT RInstant now :: l1 /\
    let '(ok, lim) := check ip now (rate_limiter s) in
    let s1 := set_limiter s lim in
    let create := swap_created (sr_amount_cbtc req) (sr_cardano_address req) s1 o s' in
    if negb ok then s' = s1 /\ l1 = [] /\ exists msg, o = Done (Err (TOO_MANY_REQUESTS, msg))
    else if negb (swap_checks req (swap_db s))
    then s' = s1 /\ l1 = [] /\ exists code msg, o = Done (Err (code, msg))
    else exists v l2, l1 = existT (ROp QueryState) v :: l2 /\
      match v with
      | Ok pool =>
          if available pool <? sr_amount_cbtc req
          then s' = s1 /\ l2 = [] /\ exists msg, o = Done (Err (BAD_REQUEST, msg))
          else create l2
      | Err _ => create l2
      end.

Lemma wp_swap_request ip req s :
  wp (handle_swap_request st ip req) s [] (swap_handled ip req s).
Proof.
  unfold handle_swap_request. apply wp_rate_check. intros now.
  destruct (check ip now (rate_limiter s)) as [ok lim] eqn:Ec. cbn [app].
  set (s1 := set_limiter s lim).
  assert (forall code msg, (if ok then swap_checks req (swap_db s) = false
                            else code = TOO_MANY_REQUESTS) ->
    swap_handled ip req s (Done (Err (code, msg))) s1 [existT RInstant now]) as Hrefuse.
  { intros code msg Hc. exists now, []. rewrite Ec. split; [done|]. destruct ok; [rewrite Hc|subst];
      cbn; eauto 10. }
  assert (forall v l2 o s', ok = true -> swap_checks req (swap_db s) = true ->
    match v with
    | Ok pool => if available pool <? sr_amount_cbtc req
                 then s' = s1 /\ l2 = [] /\ exists msg, o = Done (Err (BAD_REQUEST, msg))
                 else swap_created (sr_amount_cbtc req) (sr_cardano_address req) s1 o s' l2
    | Err _ => swap_created (sr_amount_cbtc req) (sr_cardano_address req) s1 o s' l2
    end ->
    swap_handled ip req s o s' ([existT RInstant now] ++ [existT (ROp QueryState) v] ++ l2)) as Hgo.
  { intros v l2 o s' -> Hch Hv. exists now, (existT (ROp QueryState) v :: l2). rewrite Ec, Hch.
    split; [done|]. cbn. by eauto. }
  destruct ok; cbn [negb]; [|by apply Hrefuse]. unfold swap_checks in *.
  destruct (amount_in_range (sr_amount_cbtc req)); cbn [negb andb] in *; [|by apply Hrefuse].
  destruct (_ <? String.length _)%nat; cbn [negb andb] in *; [by apply Hrefuse|].
  wp_step. change (swap_db s1) with (swap_db s).
  destruct (SwapDb.count_active_swaps (swap_db s)) as [n|e]; [|by apply Hrefuse].
  rewrite Z.leb_antisym. destruct (n <? max_active_swaps st); cbn [negb]; [|by apply Hrefuse].
  wp_step. destruct x as [pool|e]; [destruct (available pool <? sr_amount_cbtc req) eqn:Eav|].
  - apply (Hgo (Ok pool) []); [done..|]. rewrite Eav. by eauto.
  - apply wp_create_swap. intros o s' l2 Hc. rewrite <- app_assoc. apply Hgo; [done..|].
    by rewrite Eav.
  - apply wp_create_swap. intros o s' l2 Hc. rewrite <- app_assoc. by apply Hgo.
Qed.
End swap_request.

Section swap_request_theorems.
Context `{Externals} (st : ApiState) {W : Type} `{!Env W}.
Implicit Types (s : Relay) (w : W).

(** C12: [handle_swap_request].  A rate-limited request is answered 429, one that
    fails the amount, address-length or active-swap check an error, in both cases
    with no request to the outside and no change but the limiter's; a request
    over the liquidity the chain reports is answered 400.  Otherwise, success means
    that the address is valid, exactly one on-chain invoice was submitted, the
    BOLT11 invoice's payment hash was new and is now the key of a [Pending] swap
    with the requested amount and address, and the inbound payment table expects
    1000 millisatoshi per cBTC unit; an error leaves the tables unchanged, and an
    invoice submitted nevertheless is possible only with a 500 answer. *)
Theorem swap_request_correct ip req s w :
  let r := exec (handle_swap_request st ip req) s w in
  exists now l, log r = existT RInstant now :: l /\
    let '(ok, lim) := check ip now (rate_limiter s) in
    let s1 := set_limiter s lim in
    let create := swap_created st (sr_amount_cbtc req) (sr_cardano_address req) s1 (out r) (fin r) in
    if negb ok then fin r = s1 /\ l = [] /\ exists msg, out r = Done (Err (TOO_MANY_REQUESTS, msg))
    else if negb (swap_checks st req (swap_db s))
    then fin r = s1 /\ l = [] /\ exists code msg, out r = Done (Err (code, msg))
    else exists v l2, l = existT (ROp QueryState) v :: l2 /\
      match v with
      | Ok pool =>
          if available pool <? sr_amount_cbtc req
          then fin r = s1 /\ l2 = [] /\ exists msg, out r = Done (Err (BAD_REQUEST, msg))
          else create l2
      | Err _ => create l2
      end.
Proof. exact (wp_exec _ s w _ (wp_swap_request st ip req s)). Qed.

(** A granted swap: what was checked and created. *)
Lemma swap_granted ip req s w resp :
  let r := exec (handle_swap_request st ip req) s w in
  out r = Done (Ok resp) -> exists now v l lim,
    log r = existT RInstant now :: existT (ROp QueryState) v :: l /\
    swap_created st (sr_amount_cbtc req) (sr_cardano_address req) (set_limiter s lim)
      (Done (Ok resp)) (fin r) l.
Proof.
  cbn zeta. intros Ho. pose proof (wp_exec _ s w _ (wp_swap_request st ip req s)) as Hh.
  rewrite Ho in Hh. destruct Hh as (now & l & -> & Hh). destruct (check _ _ _) as [ok lim].
  destruct ok; cbn [negb] in Hh; [|by destruct Hh as (_ & _ & ? & ?)].
  destruct (swap_checks _ _ _); cbn [negb] in Hh; [|by destruct Hh as (_ & _ & ? & ? & ?)].
  destruct Hh as (v & l2 & -> & Hv). exists now, v, l2, lim. split; [done|].
  destruct v as [pool|]; [|done]. destruct (_ <? _); [|done]. by destruct Hv as (_ & _ & ? & ?).
Qed.

(** C20: a swap that was granted can be looked up: the status endpoint answers the
    payment hash with the same invoice id, the status [Pending], no fulfilment
    hash, and the hash of the creating transaction. *)
Theorem swap_request_then_status ip req s w w' resp :
  out (exec (handle_swap_request st ip req) s w) = Done (Ok resp) ->
  exists hash,
    out (exec (handle_swap_status (sp_payment_hash resp))
           (fin (exec (handle_swap_request st ip req) s w)) w')
    = Done (Ok (mkSwapStatus (sp_payment_hash resp) (sp_invoice_id resp) "Pending" None
                  (Some hash))) /\
    omap submitted (log (exec (handle_swap_request st ip req) s w)) = [hash].
Proof.
  intros Ho. destruct (swap_granted ip req s w resp Ho) as (now & v & l & lim & -> & Hc).
  destruct Hc as (inv & msat & pkh & t & created & hash & _ & _ & _ & _ & Hs & _ & [Hrow _] & _).
  exists hash. split; [|by destruct v].
  unfold handle_swap_status. by rewrite exec_db_read, Hrow.
Qed.

(** A granted offramp: what was checked and created. *)
Lemma offramp_granted ip req s w resp :
  let r := exec (handle_offramp_request st ip req) s w in
  out r = Done (Ok resp) -> exists lim l,
    offramp_requested (or_bolt11 req) (or_amount_cbtc req) (or_cardano_address req) (swap_expiry_ms st)
      (set_limiter s lim)
      (Done (Ok (op_offramp_id resp, op_operator_address resp, op_payment_hash resp))) (fin r) l.
Proof.
  cbn zeta. apply (wp_exec _ s w (fun o s' l0 => o = Done (Ok resp) -> exists lim l,
    offramp_requested (or_bolt11 req) (or_amount_cbtc req) (or_cardano_address req) (swap_expiry_ms st)
      (set_limiter s lim)
      (Done (Ok (op_offramp_id resp, op_operator_address resp, op_payment_hash resp))) s' l)).
  unfold handle_offramp_request. apply wp_rate_check. intros now.
  destruct (check ip now (rate_limiter s)) as [ok lim]. cbn [app].
  destruct (negb ok); [done|]. destruct (negb _); [done|]. destruct (_ <? _)%nat; [done|].
  destruct (_ <? _)%nat; [done|]. wp_step. destruct (SwapDb.count_active_offramps _) as [n|e]; [|done].
  destruct (_ <=? n); [done|]. apply wp_bind. rewrite <- (app_nil_r [existT RInstant now]). apply wp_frame.
  eapply wp_mono; [|apply wp_request_offramp]. intros [[[[id addr] h]|e]|msg] s' l Hr; cbn; [|done|done].
  intros [= <-]. exists lim, l. exact Hr.
Qed.
End swap_request_theorems.
