(* ===== verification/Router.v ===== *)
(** * Routing of the REST API ([src/src/api.rs], [create_router])

    From an HTTP request to the handler of [Api] and back to a response.  The table of
    routes and the layers are the source's; matching a path against a route, running
    the extractors and the layers follow axum's and tower's documentation.  Percent
    decoding and the JSON decoders that serde derives are the class [HttpLib]. *)

From S2P Require Import Prelude Effects Amounts HexUtils Text Mapping MappingFacts MappingSpec Types.
From S2P Require Import RateLimiter World Helpers CardanoSwap Payments CardanoOfframp Api.
Open Scope prog_scope.

Inductive Method := GET | HEAD | POST | OPTIONS | OtherMethod.

#[global] Instance Method_eq_dec : EqDecision Method.
Proof. solve_decision. Defined.

Inductive Endpoint :=
| Health | Info | NewSwap | SwapStatusOf | SwapHistory | PoolInfo | Balance | NewOfframp
| OfframpDeposit | OfframpStatusOf | OfframpHistory | Metrics | PoolDeposit | PoolWithdraw.

#[global] Instance Endpoint_eq_dec : EqDecision Endpoint.
Proof. solve_decision. Defined.

(** A path segment of a route: a literal, or a parameter in braces. *)
Inductive Segment := Lit (s : string) | Param.

(** ** The routes *)

Record Route := mkRoute { pattern : list Segment; verb : Method; endpoint : Endpoint }.

(** The segments of a route's text. *)
Definition segment (s : string) : Segment :=
  if starts_with s "{" then Param else Lit s.
Definition route (path : string) (verb : Method) (e : Endpoint) : Route :=
  mkRoute (segment <$> split_on (chr 47) path) verb e.

Definition create_router : list Route :=
  [route "/health" GET Health;
   route "/info" GET Info;
   route "/swap/request" POST NewSwap;
   route "/swap/status/{hash}" GET SwapStatusOf;
   route "/swap/history" GET SwapHistory;
   route "/pool/info" GET PoolInfo;
   route "/balance" GET Balance;
   route "/offramp/request" POST NewOfframp;
   route "/offramp/deposit" POST OfframpDeposit;
   route "/offramp/status/{id}" GET OfframpStatusOf;
   route "/offramp/history" GET OfframpHistory;
   route "/metrics" GET Metrics;
   route "/pool/deposit" POST PoolDeposit;
   route "/pool/withdraw" POST PoolWithdraw].

(** [RequestBodyLimitLayer::new(16 * 1024)] *)
Definition BODY_LIMIT : Z := 16 * 1024.

(** The parameters of a match; a parameter is never empty. *)
Fixpoint match_path (p : list Segment) (path : list string) : option (list string) :=
  match p, path with
  | [], [] => Some []
  | Lit a :: p, b :: path => if String.eqb a b then match_path p path else None
  | Param :: p, b :: path => if str_is_empty b then None else cons b <$> match_path p path
  | _, _ => None
  end.

(** A [GET] route answers [HEAD] as well. *)
Definition serves (v m : Method) : bool :=
  bool_decide (v = m) || (bool_decide (v = GET) && bool_decide (m = HEAD)).

Inductive routed := Found (e : Endpoint) (params : list string) | NotAllowed | NoRoute.

Fixpoint find_route (rs : list Route) (m : Method) (path : list string) : routed :=
  match rs with
  | [] => NoRoute
  | r :: rs =>
      match match_path (pattern r) path with
      | Some ps =>
          if serves (verb r) m then Found (endpoint r) ps
          else match find_route rs m path with Found e ps => Found e ps | _ => NotAllowed end
      | None => find_route rs m path
      end
  end.

(** ** Requests and responses *)

Record HttpRequest := mkHttp {
  method : Method;
  uri_path : string;
  headers : HeaderMap;
  content_length : option Z;      (** as declared by the client *)
  body : string;
  peer_ip : IpAddr;
}.

Inductive Body :=
| BHealth (r : HealthResponse) | BInfo (r : RelayInfoResponse) | BSwap (r : SwapResponse)
| BSwapStatus (r : SwapStatusResponse) | BSwaps (rs : list SwapStatusResponse)
| BPoolInfo (r : PoolInfoResponse) | BBalance (r : BalanceResponse) | BOfframp (r : OfframpResponse)
| BOfframpStatus (r : OfframpStatusResponse) | BOfframps (rs : list OfframpStatusResponse)
| BMetrics (r : MetricsResponse) | BPoolTx (r : PoolTxResponse)
| BError (error : string)
| BEmpty.                          (** no JSON: an empty body, or a text of a layer *)

(** A rejection of an extractor has a status of axum's choice. *)
Inductive Response := Reply (status : Z) (body : Body) | Rejection.

Definition status_u16 (c : StatusCode) : Z :=
  match c with
  | BAD_REQUEST => 400 | UNAUTHORIZED => 401 | NOT_FOUND => 404 | TOO_MANY_REQUESTS => 429
  | INTERNAL_SERVER_ERROR => 500 | SERVICE_UNAVAILABLE => 503
  end.

Definition ok_json (b : Body) : Response := Reply 200 b.

(** [IntoResponse] of [Result<Json<T>, (StatusCode, Json<ErrorResponse>)>], and of
    [Result<Json<T>, Json<ErrorResponse>>], whose error has no status of its own. *)
Definition respond {A} (f : A -> Body) (r : result A HttpError) : Response :=
  match r with Ok a => ok_json (f a) | Err (c, e) => Reply (status_u16 c) (BError e) end.
Definition respond_json {A} (f : A -> Body) (r : result A string) : Response :=
  match r with Ok a => ok_json (f a) | Err e => ok_json (BError e) end.

Class HttpLib := {
  percent_decode : string -> option string;
  json_swap_request : HeaderMap -> string -> option SwapRequest;
  json_offramp_request : HeaderMap -> string -> option OfframpRequest;
  json_deposit_request : HeaderMap -> string -> option OfframpDepositRequest;
  json_pool_amount : HeaderMap -> string -> option Z;
}.

Section router.
Context `{Externals} `{!HttpLib} (st : ApiState).

(** [Json(req): Json<T>]: a body over the limit cannot be read. *)
Definition extract {A} (decode : HeaderMap -> string -> option A) (q : HttpRequest)
  (k : A -> relay_prog Response) : relay_prog Response :=
  if BODY_LIMIT <? Z.of_nat (String.length (body q)) then Ret Rejection
  else match decode (headers q) (body q) with Some a => k a | None => Ret Rejection end.

(** [Path(..)] of the one parameter. *)
Definition path_param {A} (parse : string -> option A) (ps : list string)
  (k : A -> relay_prog Response) : relay_prog Response :=
  match ps with
  | [p] => match percent_decode p ≫= parse with Some a => k a | None => Ret Rejection end
  | _ => Ret Rejection
  end.

Definition call_endpoint (e : Endpoint) (ps : list string) (q : HttpRequest) : relay_prog Response :=
  let ip := peer_ip q in
  match e with
  | Health => let* r := handle_health in Ret (ok_json (BHealth r))
  | Info => let* r := handle_relay_info st in Ret (ok_json (BInfo r))
  | NewSwap => extract json_swap_request q (fun req =>
      let* r := handle_swap_request st ip req in Ret (respond BSwap r))
  | SwapStatusOf => path_param Some ps (fun hash =>
      let* r := handle_swap_status hash in Ret (respond_json BSwapStatus r))
  | SwapHistory => let* r := handle_swap_history in Ret (ok_json (BSwaps r))
  | PoolInfo => let* r := handle_pool_info in Ret (respond_json BPoolInfo r)
  | Balance => let* r := handle_balance in Ret (respond_json BBalance r)
  | NewOfframp => extract json_offramp_request q (fun req =>
      let* r := handle_offramp_request st ip req in Ret (respond BOfframp r))
  | OfframpDeposit => extract json_deposit_request q (fun req =>
      let* r := handle_offramp_deposit ip req in Ret (respond BOfframp r))
  | OfframpStatusOf => path_param parse_i64 ps (fun id =>
      let* r := handle_offramp_status id in Ret (respond_json BOfframpStatus r))
  | OfframpHistory => let* r := handle_offramp_history in Ret (ok_json (BOfframps r))
  | Metrics => let* r := handle_metrics in Ret (ok_json (BMetrics r))
  | PoolDeposit => extract json_pool_amount q (fun amount =>
      let* r := handle_pool_deposit st (headers q) amount in Ret (respond BPoolTx r))
  | PoolWithdraw => extract json_pool_amount q (fun amount =>
      let* r := handle_pool_withdraw st (headers q) amount in Ret (respond BPoolTx r))
  end.

(** A response to [HEAD] has no body. *)
Definition strip_body (m : Method) (r : Response) : Response :=
  match m, r with HEAD, Reply s _ => Reply s BEmpty | _, _ => r end.

Definition declared_too_long (q : HttpRequest) : bool :=
  match content_length q with Some n => BODY_LIMIT <? n | None => false end.

(** The limit layer is outermost, then the CORS layer, which answers preflights. *)
Definition dispatch (q : HttpRequest) : relay_prog Response :=
  if declared_too_long q then Ret (Reply 413 BEmpty)
  else if decide (method q = OPTIONS) then Ret (ok_json BEmpty)
  else match find_route create_router (method q) (split_on (chr 47) (uri_path q)) with
       | Found e ps => let* r := call_endpoint e ps q in Ret (strip_body (method q) r)
       | NotAllowed => Ret (Reply 405 BEmpty)
       | NoRoute => Ret (Reply 404 BEmpty)
       end.
End router.

(** ** Routes do not overlap *)

(** Two patterns that no path matches both. *)
Fixpoint disjoint_patterns (p q : list Segment) : bool :=
  match p, q with
  | [], [] => false
  | Lit a :: p, Lit b :: q => negb (String.eqb a b) || disjoint_patterns p q
  | _ :: p, _ :: q => disjoint_patterns p q
  | _, _ => true
  end.

Lemma disjoint_patterns_sound p q path :
  disjoint_patterns p q = true -> is_Some (match_path p path) -> match_path q path = None.
Proof.
  revert q path. induction p as [|[a|] p IH]; intros [|[b|] q] [|x path]; cbn; try done;
    try by intros _ [? [=]].
  - destruct (String.eqb_spec a x) as [->|]; [|by intros _ [? [=]]].
    destruct (String.eqb_spec b x) as [->|]; [|done]. rewrite String.eqb_refl. cbn. apply IH.
  - destruct (String.eqb_spec a x) as [->|]; [|by intros _ [? [=]]].
    destruct (str_is_empty x); [done|]. intros Hd Hp. by rewrite (IH _ _ Hd Hp).
  - destruct (str_is_empty x); [by intros _ [? [=]]|]. rewrite fmap_is_Some. intros Hd Hp.
    destruct (String.eqb_spec b x); [|done]. by apply IH.
  - destruct (str_is_empty x); [done|]. rewrite fmap_is_Some. intros Hd Hp.
    by rewrite (IH _ _ Hd Hp).
Qed.

Fixpoint pairwise_disjoint (rs : list Route) : bool :=
  match rs with
  | [] => true
  | r :: rs => forallb (fun r' => disjoint_patterns (pattern r) (pattern r')) rs && pairwise_disjoint rs
  end.

Lemma router_disjoint : pairwise_disjoint create_router = true.
Proof. vm_compute. reflexivity. Qed.

(** In a table without overlaps, the route that matches decides. *)
Lemma find_route_exact rs m path r ps :
  pairwise_disjoint rs = true -> r ∈ rs -> match_path (pattern r) path = Some ps ->
  find_route rs m path = if serves (verb r) m then Found (endpoint r) ps else NotAllowed.
Proof.
  induction rs as [|r' rs IH]; [by rewrite elem_of_nil|]. cbn.
  intros [Hd Hrs]%andb_true_iff Hr Hm. rewrite elem_of_cons in Hr. destruct Hr as [->|Hr].
  - rewrite Hm. destruct (serves (verb r') m); [done|].
    assert (find_route rs m path = NoRoute) as ->; [|done].
    clear IH Hrs. induction rs as [|r2 rs IH]; [done|]. cbn in *. apply andb_true_iff in Hd as [H1 H2].
    rewrite (disjoint_patterns_sound _ _ path H1) by (by eexists). auto.
  - rewrite (IH Hrs Hr Hm). destruct (match_path (pattern r') path) eqn:E; [|done].
    rewrite forallb_forall in Hd. apply list_elem_of_In in Hr. specialize (Hd _ Hr).
    rewrite (disjoint_patterns_sound _ _ path Hd) in Hm by (by eexists). done.
Qed.

(** The route a path matches is the only one. *)
Lemma matches_unique rs x y path :
  pairwise_disjoint rs = true -> x ∈ rs -> y ∈ rs ->
  is_Some (match_path (pattern x) path) -> is_Some (match_path (pattern y) path) -> y = x.
Proof.
  induction rs as [|z rs IH]; [by rewrite elem_of_nil|]. cbn.
  intros [Hd Hrs]%andb_true_iff Hx Hy Px Py. rewrite elem_of_cons in Hx, Hy.
  assert (forall u, u ∈ rs -> is_Some (match_path (pattern z) path) -> ~ is_Some (match_path (pattern u) path)) as Hz.
  { intros u Hu Pz. rewrite forallb_forall in Hd. apply list_elem_of_In in Hu.
    rewrite (disjoint_patterns_sound _ _ path (Hd _ Hu) Pz). by intros [??]. }
  destruct Hx as [->|Hx], Hy as [->|Hy]; [done|by edestruct (Hz y)|by edestruct (Hz x)|auto].
Qed.

Lemma find_route_none rs m path :
  (forall r, r ∈ rs -> match_path (pattern r) path = None) -> find_route rs m path = NoRoute.
Proof.
  induction rs as [|r rs IH]; intros Hn; [done|]. cbn. rewrite (Hn r) by (by left).
  apply IH. intros r' Hr'. apply Hn. by right.
Qed.

(** ** What a request may cause *)

Section safety.
Context `{Externals} `{!HttpLib} (st : ApiState).

(** Requests that ask and change nothing. *)
Definition reads_only (r : Req) : Prop :=
  match r with
  | ROp QueryState | RListChannels | RTrackedOutputs | RWalletBalance => True
  | _ => False
  end.

(** Everything but a transaction on the operator's own liquidity. *)
Definition not_pool (r : Req) : Prop :=
  match r with ROp (Deposit _) | ROp (Withdraw _) => False | _ => True end.

Abbreviation keeps_all := (fun s s' : Relay => s' = s).
Abbreviation anything := (fun _ _ : Relay => True).

Definition reading (e : Endpoint) : bool :=
  match e with
  | NewSwap | NewOfframp | OfframpDeposit | PoolDeposit | PoolWithdraw => false
  | _ => true
  end.

Lemma endpoint_reads e ps q : reading e = true -> steps_ok keeps_all reads_only (call_endpoint st e ps q).
Proof.
  intros He. destruct e; try done; cbn [call_endpoint]; unfold path_param;
    repeat case_match; try exact I; try done.
  all: apply steps_ok_bind; [|intros ?; exact I].
  all: unfold handle_health, handle_pool_info, handle_balance, handle_swap_status, handle_offramp_status,
    handle_swap_history, handle_offramp_history, handle_metrics; cbn; repeat (case_match || split || intro);
    done.
Qed.

(** Statements on the database, whose effect does not matter here. *)
Lemma any_read {A} R (f : SwapDb.t -> A) : steps_ok anything R (db_read f).
Proof. done. Qed.
Lemma any_op {A} R (f : SwapDb.t -> A * SwapDb.t) : steps_ok anything R (db_op f).
Proof. done. Qed.
Lemma any_write R (f : SwapDb.t -> SwapDb.t) : steps_ok anything R (db_write f).
Proof. done. Qed.
Lemma any_expect R (f : SwapDb.t -> bool * SwapDb.t) msg : steps_ok anything R (db_expect f msg).
Proof. apply steps_ok_bind; [done|]. by intros []. Qed.
Hint Resolve any_read any_op any_write any_expect : core.

(** Requests and the cases on their answers. *)
Ltac step_ok :=
  repeat match goal with
         | |- steps_ok _ _ _ => solve [auto]
         | |- context [match ?x with _ => _ end] => destruct x
         | |- steps_ok _ _ (bind_try _ _) => unfold bind_try
         | |- steps_ok _ _ (submit_contract_tx_with_retry _ _ _ _) =>
             apply steps_ok_calls, calls_ok_submit; [done|]
         | |- steps_ok _ _ (bind _ _) => apply steps_ok_bind; [|intros ?]
         | |- calls_ok _ (bind _ _) => apply calls_ok_bind; [|intros ?]
         | |- calls_ok _ (bind_try _ _) => unfold bind_try
         | |- steps_ok _ _ (set_error _ _ _) => unfold set_error
         | |- steps_ok _ _ _ => progress cbn
         | |- calls_ok _ _ => progress cbn
         | |- _ /\ _ => split
         | |- forall _, _ => intros ?
         | |- True => exact I
         end.

Lemma swap_request_no_pool ip req : steps_ok anything not_pool (handle_swap_request st ip req).
Proof.
  unfold handle_swap_request, create_swap, request_swap, create_invoice_and_submit,
    create_invoice_for_swap, store_swap_mapping, rate_check.
  step_ok.
Qed.

Lemma offramp_request_no_pool ip req : steps_ok anything not_pool (handle_offramp_request st ip req).
Proof.
  unfold handle_offramp_request, request_offramp, create_and_submit, rate_check. step_ok.
Qed.

Lemma offramp_deposit_no_pool ip req : steps_ok anything not_pool (handle_offramp_deposit ip req).
Proof.
  unfold handle_offramp_deposit, process_offramp_deposit, pay_offramp, send_payment, outbound_fail,
    rate_check, write_outbound. step_ok.
Qed.

(** An operator endpoint without the token stops at once. *)
Lemma pool_no_token {A} headers (k : unit -> relay_prog (result A HttpError)) R :
  verify_operator_auth headers (auth_token st) <> Ok tt ->
  steps_ok anything R (bind_try (Ret (verify_operator_auth headers (auth_token st))) k).
Proof. unfold bind_try. cbn. by destruct (verify_operator_auth _ _) as [[]|]. Qed.

Lemma extract_ok {A} P R (decode : HeaderMap -> string -> option A) q k :
  (forall a, steps_ok P R (k a)) -> steps_ok P R (extract decode q k).
Proof. intros Hk. unfold extract. by repeat case_match. Qed.

Lemma endpoint_no_pool e ps q :
  verify_operator_auth (headers q) (auth_token st) <> Ok tt ->
  steps_ok anything not_pool (call_endpoint st e ps q).
Proof.
  intros Ha. destruct (reading e) eqn:He.
  { eapply steps_ok_mono, endpoint_reads, He; [done|]. intros []; cbn; try done. by case_match. }
  destruct e; try done; cbn [call_endpoint]; apply extract_ok; intros a;
    (apply steps_ok_bind; [|done]); unfold handle_pool_deposit, handle_pool_withdraw;
    auto using swap_request_no_pool, offramp_request_no_pool, offramp_deposit_no_pool, pool_no_token.
Qed.

(** A route that is found is in the table, and its verb serves the method. *)
Lemma find_route_sound rs m path e ps :
  find_route rs m path = Found e ps ->
  exists r, r ∈ rs /\ endpoint r = e /\ match_path (pattern r) path = Some ps /\ serves (verb r) m = true.
Proof.
  induction rs as [|r rs IH]; [done|]. cbn. intros Hf.
  destruct (match_path (pattern r) path) as [ps'|] eqn:Em; [destruct (serves (verb r) m) eqn:Es|].
  - injection Hf as <- <-. exists r. split; [by left|]. done.
  - destruct (find_route rs m path); try done. destruct (IH Hf) as (r' & ? & ?). exists r'. split; [by right|done].
  - destruct (IH Hf) as (r' & ? & ?). exists r'. split; [by right|done].
Qed.

Lemma unserved_reads r m : r ∈ create_router -> serves (verb r) m = true -> m <> POST -> reading (endpoint r) = true.
Proof.
  intros Hr. apply list_elem_of_In in Hr. destruct m; cbn in Hr;
    decompose [or] Hr; subst; try done; vm_compute; intros Hs Hm; first [done|by destruct Hm].
Qed.

(** A program of the endpoint that was found, whatever the layers in front did. *)
Lemma dispatch_steps P R q :
  (forall e ps, find_route create_router (method q) (split_on (chr 47) (uri_path q)) = Found e ps ->
    steps_ok P R (call_endpoint st e ps q)) ->
  steps_ok P R (dispatch st q).
Proof.
  intros He. unfold dispatch. destruct (declared_too_long q); [exact I|].
  case_decide; [exact I|]. destruct (find_route _ _ _) as [e ps| |]; [|exact I..].
  apply steps_ok_bind; [by apply He|]. intros a. exact I.
Qed.

Context {W : Type} `{!Env W}.

(** A body over the limit, in a request that has one. *)
Lemma dispatch_oversized q s (w : W) :
  (method q = POST /\ BODY_LIMIT < Z.of_nat (String.length (body q))) \/
  (exists n, content_length q = Some n /\ BODY_LIMIT < n) ->
  fin (exec (dispatch st q) s w) = s /\ log (exec (dispatch st q) s w) = [].
Proof.
  intros [[Hm Hb]|(n & Hc & Hn)]; unfold dispatch.
  - destruct (declared_too_long q); [by split|]. rewrite decide_False by congruence.
    destruct (find_route _ _ _) as [e ps| |] eqn:Ef; [|by split..].
    apply find_route_sound in Ef as (r & Hr & <- & _ & Hv). rewrite Hm in Hv.
    apply Z.ltb_lt in Hb. apply list_elem_of_In in Hr. cbn in Hr.
    decompose [or] Hr; subst; try done; cbn [endpoint route call_endpoint]; unfold extract; by rewrite Hb.
  - unfold declared_too_long. rewrite Hc. apply Z.ltb_lt in Hn. by rewrite Hn.
Qed.

End safety.

(** Routing.  No path matches two routes.  A path that matches a route is handed to that
    route's handler with the path's parameters when the route serves the method ([GET]
    routes serve [HEAD] as well), and answered 405 otherwise; a path that matches no route
    is answered 404, a declared length over the limit 413, a preflight 200; none of these
    answers has any effect. *)
Lemma routing_exact `{Externals} `{!HttpLib} {W} `{!Env W} st q s (w : W) :
  let path := split_on (chr 47) (uri_path q) in
  let r := exec (dispatch st q) s w in
  let quiet status := out r = Done (Reply status BEmpty) /\ fin r = s /\ log r = [] in
  (forall x y, x ∈ create_router -> y ∈ create_router ->
     is_Some (match_path (pattern x) path) -> is_Some (match_path (pattern y) path) -> y = x) /\
  (forall x ps, method q <> OPTIONS -> declared_too_long q = false ->
     x ∈ create_router -> match_path (pattern x) path = Some ps ->
     if serves (verb x) (method q)
     then r = exec (let* a := call_endpoint st (endpoint x) ps q in Ret (strip_body (method q) a)) s w
     else quiet 405) /\
  (method q <> OPTIONS -> declared_too_long q = false ->
     (forall x, x ∈ create_router -> match_path (pattern x) path = None) -> quiet 404) /\
  (declared_too_long q = true -> quiet 413) /\
  (declared_too_long q = false -> method q = OPTIONS -> quiet 200).
Proof.
  cbn zeta. split_and!.
  - intros x y Hx Hy Px Py. by eapply (matches_unique create_router).
  - intros x ps Hm Hc Hx Hp. unfold dispatch. rewrite Hc, decide_False by done.
    rewrite (find_route_exact _ (method q) _ x ps router_disjoint Hx Hp). by destruct (serves _ _).
  - intros Hm Hc Hnone. unfold dispatch. by rewrite Hc, decide_False, find_route_none.
  - intros Hc. unfold dispatch. by rewrite Hc.
  - intros Hc Hm. unfold dispatch. by rewrite Hc, decide_True.
Qed.
