(* ===== verification/Compose.v ===== *)
(** * Composing components

    The handlers of [World] ask the outside for transactions and balances; the programs
    of [Wallet] answer such questions.  [compose] links the two: a request that the lower
    component handles is replaced by the lower component's program, the others go to the
    outside, and the state is the pair of the two states.  Seen from above, the lower
    component is just an environment, so that whatever holds of a handler in every
    environment holds of the composed program ([composed]). *)

From S2P Require Import Prelude Effects.

(** ** Running a program inside a larger one *)

Section lift.
Context {S R : Type} {resp : R -> Type} {T Q : Type} {respQ : Q -> Type}.
Context (get : T -> S) (put : S -> T -> T) (inj : R -> Q) (cast : forall r, respQ (inj r) -> resp r).

Fixpoint lift {A} (p : Prog (St := S) resp A) : Prog (St := T) respQ A :=
  match p with
  | Ret a => Ret a
  | Local f k => Local (fun t => let '(x, s) := f (get t) in (x, put s t)) (fun x => lift (k x))
  | Call r k => Call (inj r) (fun x => lift (k (cast r x)))
  | Panic m => Panic m
  end.

(** The event of the larger program that an event of the smaller one stands for. *)
Definition lift_event (l : list (event resp)) (l' : list (event respQ)) : Prop :=
  Forall2 (fun e e' => exists r x, e' = existT (inj r) x /\ e = existT r (cast r x)) l l'.

(** A lens between the two states. *)
Class Lens := {
  get_put s t : get (put s t) = s;
  put_put s s' t : put s (put s' t) = put s t;
  put_get t : put (get t) t = t;
}.

Lemma run_lift `{!Lens} {W A} (env : forall r : Q, W -> respQ r * W) (p : Prog (St := S) resp A) t w :
  let r := run (fun r w => let '(x, w) := env (inj r) w in (cast r x, w)) p (get t) w in
  let r' := run env (lift p) t w in
  out r' = out r /\ fin r' = put (fin r) t /\ world r' = world r /\ lift_event (log r) (log r').
Proof.
  revert t w. induction p as [a|X f k IH|q k IH|m]; intros t w; cbn.
  - rewrite put_get. repeat constructor.
  - destruct (f (get t)) as [x s] eqn:E. cbn. specialize (IH x (put s t) w).
    cbn zeta in IH. rewrite get_put, put_put in IH. exact IH.
  - destruct (env (inj q) w) as [x w'] eqn:E. cbn. destruct (IH (cast q x) t w') as (H1 & H2 & H3 & H4).
    split_and!; try done. constructor; [|done]. by exists q, x.
  - rewrite put_get. repeat constructor.
Qed.

(** Whatever holds after every run of the smaller program. *)
Lemma wp_lift `{!Lens} {A} (p : Prog (St := S) resp A) t l L (P : outcome A -> S -> list (event resp) -> Prop) :
  wp p (get t) l P ->
  wp (lift p) t L (fun o t' L' => exists l1 L1, lift_event l1 L1 /\ L' = L ++ L1 /\
    P o (get t') (l ++ l1) /\ t' = put (get t') t).
Proof.
  revert t l L. induction p as [a|X f k IH|q k IH|m]; intros t l L Hp; cbn in *.
  - exists [], []. rewrite !app_nil_r, put_get. repeat split; [constructor|done].
  - destruct (f (get t)) as [x s] eqn:E. cbn in *. eapply wp_mono; [|apply (IH x (put s t) l L)].
    + intros o t' L' (l1 & L1 & Hl & -> & Ho & Ht). exists l1, L1. rewrite put_put in Ht. done.
    + by rewrite get_put.
  - intros x. eapply wp_mono; [|apply (IH (cast q x) t (l ++ [existT q (cast q x)])), Hp].
    intros o t' L' (l1 & L1 & Hl & -> & Ho & Ht).
    exists (existT q (cast q x) :: l1), (existT (inj q) x :: L1). rewrite <- !app_assoc in *.
    split_and!; try done. constructor; [|done]. by exists q, x.
  - exists [], []. rewrite !app_nil_r, put_get. repeat split; [constructor|done].
Qed.
End lift.

(** ** Two components *)

Section compose.
Context {S1 R1 : Type} {resp1 : R1 -> Type} {S2 R2 : Type} {resp2 : R2 -> Type}.
(** What the lower component does for a request, when it is its business. *)
Context (handler : forall r : R1, option (Prog (St := S2) resp2 (resp1 r))).

Definition both_resp (r : R2 + R1) : Type :=
  match r with inl r => resp2 r | inr r => resp1 r end.

Definition below {A} (p : Prog (St := S2) resp2 A) : Prog (St := S1 * S2) both_resp A :=
  lift snd (fun s t => (t.1, s)) inl (fun _ x => x) p.

Fixpoint compose {A} (p : Prog (St := S1) resp1 A) : Prog (St := S1 * S2) both_resp A :=
  match p with
  | Ret a => Ret a
  | Local f k => Local (fun t => let '(x, s) := f t.1 in (x, (s, t.2))) (fun x => compose (k x))
  | Call r k =>
      match handler r with
      | Some q => bind (below q) (fun x => compose (k x))
      | None => Call (inr r) (fun x => compose (k x))
      end
  | Panic m => Panic m
  end.

Lemma compose_bind {A B} (p : Prog (St := S1) resp1 A) (f : A -> Prog (St := S1) resp1 B) {W}
  (env : forall r, W -> both_resp r * W) t w :
  run env (compose (bind p f)) t w = run env (bind (compose p) (fun a => compose (f a))) t w.
Proof.
  revert t w. induction p as [a|X g k IH|r k IH|m]; intros t w; cbn; try done.
  destruct (handler r) as [q|]; cbn; [|by rewrite IH].
  rewrite bind_assoc, !run_bind. unfold run_then. destruct (out _); [|done]. by rewrite IH.
Qed.

(** *** The lower component as an environment *)

Section above.
Context {W : Type} (env : forall r : R2 + R1, W -> both_resp r * W).

(** The lower component's state, the outside, what was asked of it so far, and the message
    when the lower component has panicked, which ends the process. *)
Record Lower := mkLower {
  low : S2;
  outside : W;
  asked : list (event both_resp);
  broken : option string;
}.

Definition low_env (r : R2) (w : W) : resp2 r * W := env (inl r) w.
Definition low_event (e : event resp2) : event both_resp := existT (inl (projT1 e)) (projT2 e).

Lemma run_below {A} (p : Prog (St := S2) resp2 A) (t : S1 * S2) w :
  let r := run low_env p t.2 w in
  run env (below p) t w = RunResult (out r) (t.1, fin r) (world r) (low_event <$> log r).
Proof.
  revert t w. unfold below. induction p as [a|X f k IH|q k IH|m]; intros [s1 s2] w; cbn; try done.
  - destruct (f s2) as [x s] eqn:E. cbn. by rewrite IH.
  - by rewrite IH.
Qed.

(** What of the requests of a run the outside has seen of the upper component. *)
Definition outer (l : list (event both_resp)) : list (event resp1) :=
  omap (fun e : event both_resp =>
    match e with existT (inr r) x => Some (existT r x) | existT (inl _) _ => None end) l.
Definition passed (e : event resp1) : bool :=
  match handler (projT1 e) with Some _ => false | None => true end.

Lemma outer_app l l' : outer (l ++ l') = outer l ++ outer l'.
Proof. apply omap_app. Qed.

Lemma outer_low l : outer (low_event <$> l) = [].
Proof. by induction l. Qed.

Context `{forall r : R1, Inhabited (resp1 r)}.

Definition env_above (r : R1) (v : Lower) : resp1 r * Lower :=
  match broken v with
  | Some _ => (inhabitant, v)
  | None =>
      match handler r with
      | Some q =>
          let x := run low_env q (low v) (outside v) in
          let asked' := asked v ++ (low_event <$> log x) in
          match out x with
          | Done a => (a, mkLower (fin x) (world x) asked' None)
          | Panicked m => (inhabitant, mkLower (fin x) (world x) asked' (Some m))
          end
      | None =>
          let x := env (inr r) (outside v) in
          (x.1, mkLower (low v) x.2 (asked v ++ [existT (inr r : R2 + R1) x.1]) None)
      end
  end.

Lemma broken_stays {A} (p : Prog (St := S1) resp1 A) s v m :
  broken v = Some m -> broken (world (run env_above p s v)) = Some m.
Proof.
  revert s v. induction p as [a|X f k IH|r k IH|m']; intros s v Hv; cbn; auto.
  apply IH. unfold env_above. by rewrite Hv.
Qed.

(** The composed program does what the handler does in that environment, unless the lower
    component panics; then the process does. *)
Lemma compose_run {A} (p : Prog (St := S1) resp1 A) s1 s2 w l :
  let v := run env_above p s1 (mkLower s2 w l None) in
  let r := run env (compose p) (s1, s2) w in
  match broken (world v) with
  | None => out r = out v /\ fin r = (fin v, low (world v)) /\ world r = outside (world v) /\
            asked (world v) = l ++ log r /\ outer (log r) = List.filter passed (log v)
  | Some m => out r = Panicked m
  end.
Proof.
  revert s1 s2 w l. induction p as [a|X f k IH|r k IH|m]; intros s1 s2 w l; cbn.
  - by rewrite app_nil_r.
  - destruct (f s1) as [x s] eqn:E. cbn. apply IH.
  - destruct (env_above r (mkLower s2 w l None)) as [x v'] eqn:Ev. unfold env_above in Ev. cbn [broken] in Ev.
    destruct (handler r) as [q|] eqn:Hq; cbn [low outside asked] in Ev.
    + rewrite run_bind, run_below. unfold run_then. cbn [out fin world log fst snd] in *.
      destruct (out (run low_env q s2 w)) as [a|m] eqn:Eo; injection Ev as <- <-.
      * specialize (IH a s1 (fin (run low_env q s2 w)) (world (run low_env q s2 w))
          (l ++ (low_event <$> log (run low_env q s2 w)))). cbn in *.
        destruct (broken _); [done|]. destruct IH as (-> & -> & -> & -> & El).
        rewrite app_assoc, outer_app, outer_low, El. unfold passed. cbn. by rewrite Hq.
      * cbn. by rewrite (broken_stays _ _ _ m).
    + injection Ev as <- <-. cbn. specialize (IH (env (inr r) w).1 s1 s2 (env (inr r) w).2
        (l ++ [existT (inr r : R2 + R1) (env (inr r) w).1])). cbn in *.
      destruct (broken _); [done|]. destruct IH as (-> & -> & -> & -> & El).
      rewrite <- app_assoc. split_and!; try done. unfold passed at 1. cbn. rewrite Hq. f_equal. exact El.
  - by rewrite app_nil_r.
Qed.

Lemma unhandled_unbroken {A} (p : Prog (St := S1) resp1 A) s v :
  steps_ok (fun _ _ => True) (fun r => handler r = None) p -> broken v = None ->
  broken (world (run env_above p s v)) = None.
Proof.
  revert s v. induction p as [a|X f k IH|r k IH|m]; intros s v Hp Hv; cbn in *; auto.
  - apply IH; [apply Hp|done].
  - destruct Hp as [Hr Hk]. apply IH; [done|]. unfold env_above. by rewrite Hv, Hr.
Qed.

(** Every run of the composed program is a run of the upper component in some environment,
    with the requests that were not handled below, unless the lower component panics. *)
Lemma composed {A} (p : Prog (St := S1) resp1 A) s1 s2 w :
  let r := run env (compose p) (s1, s2) w in
  let above := exists (V : Type) (env' : forall r, V -> resp1 r * V) v,
     let r' := run env' p s1 v in
     out r = out r' /\ (fin r).1 = fin r' /\ outer (log r) = List.filter passed (log r') in
  (above \/ exists m, out r = Panicked m) /\
  (steps_ok (fun _ _ => True) (fun r => handler r = None) p -> above).
Proof.
  cbn zeta. pose proof (compose_run p s1 s2 w []) as Hc. cbn zeta in Hc.
  pose proof (unhandled_unbroken p s1 (mkLower s2 w [] None)) as Hu.
  destruct (broken _) as [m|]; [split; [right; by exists m|intros Hp; by discriminate (Hu Hp eq_refl)]|].
  destruct Hc as (Ho & Hf & _ & _ & Hl). split; [left|intros _].
  all: exists Lower, env_above, (mkLower s2 w [] None); by rewrite Hf.
Qed.
End above.
End compose.
