(* ===== verification/Shell.v ===== *)
(** * The interactive shell ([src/src/cli/mod.rs])

    [poll_for_user_input] reads lines from standard input until it ends, fails, or the
    operator quits.  Standard input is the list of the results of [next_line]; the end
    of the list is the end of input.  A command returns what is left of the input, or
    [None] to leave the loop: [sendpayment] reads further lines to have a payment
    confirmed.  What the commands print is not modelled, except for the figures of
    [getbalance]. *)

From S2P Require Import Prelude Effects HexUtils Text Mapping Types RateLimiter World Helpers Rows.
From S2P Require Import Peers Payments CardanoSwap CardanoOfframp Recovery Background Api.
Open Scope prog_scope.

Abbreviation input := (list (result string string)).

Section shell.
Context `{Externals}.

(** The prompt for a confirmation: other answers are asked again. *)
Inductive confirmation := Confirmed (rest : input) | Declined (rest : input) | InputEnded.

Fixpoint confirm (inp : input) : confirmation :=
  match inp with
  | [] | Err _ :: _ => InputEnded
  | Ok line :: rest =>
      if starts_with line "Y" then Confirmed rest
      else if starts_with line "N" then Declined rest
      else confirm rest
  end.

(** [outbound_payments.lock().unwrap().payments.insert(..)], then the encoding of the
    table under a lock of its own. *)
Definition record_outbound (payment_id : bytes) (amt_msat : Z) : relay_prog unit :=
  local (fun s => (tt, set_outbound s
    (<[payment_id := mkPaymentInfo None None HTLCStatus.Pending (Some amt_msat)]>
       (outbound_payments s)))) ;;
  let* enc := reads outbound_payments in
  write_outbound enc.

Definition offer_amt (offer : Offer) (user_provided_amt : option Z) : option Z :=
  match offer_amount offer, user_provided_amt with
  | Some (BitcoinAmount amount_msats), _ => Some amount_msats
  | _, Some amt => Some amt
  | _, None => None
  end.

Definition send_offer (offer : Offer) (user_provided_amt : option Z) (rest : input) :
  relay_prog (option input) :=
  let* payment_id := call RRandomBytes in
  match offer_amt offer user_provided_amt with
  | None => Ret (Some rest)
  | Some amt_msat =>
      if match user_provided_amt with Some a => negb (a =? amt_msat) | None => false end
      then Ret (Some rest)
      else match match user_provided_amt with None => confirm rest | Some _ => Confirmed rest end with
           | InputEnded => Ret None
           | Declined rest => Ret (Some rest)
           | Confirmed rest =>
               record_outbound payment_id amt_msat ;;
               let* _ := call (RPayForOffer offer (Some amt_msat) payment_id) in
               Ret (Some rest)
           end
  end.

(** The loop that collects nodes that resolve DNS names: it stops once it has more than
    five. *)
Fixpoint dns_loop (nodes : list GraphNode.t) (dns_resolvers : list bytes) : list bytes :=
  match nodes with
  | [] => dns_resolvers
  | node :: rest =>
      let dns_resolvers :=
        if GraphNode.has_announcement node && GraphNode.supports_dns_resolution node
           && GraphNode.supports_onion_messages node
        then match GraphNode.as_pubkey node with
             | Some pubkey => dns_resolvers ++ [pubkey]
             | None => dns_resolvers
             end
        else dns_resolvers in
      if (5 <? length dns_resolvers)%nat then dns_resolvers else dns_loop rest dns_resolvers
  end.

Definition send_to_name (hrn : HumanReadableName) (user_provided_amt : option Z) (rest : input) :
  relay_prog (option input) :=
  let* payment_id := call RRandomBytes in
  match user_provided_amt with
  | None => Ret (Some rest)
  | Some amt_msat =>
      let* nodes := call RGraphNodes in
      match dns_loop nodes [] with
      | [] => Ret (Some rest)
      | dns_resolvers =>
          record_outbound payment_id amt_msat ;;
          let* _ := call (RPayForHrn hrn amt_msat payment_id dns_resolvers) in
          Ret (Some rest)
      end
  end.

Definition cmd_sendpayment (args : list string) (rest : input) : relay_prog (option input) :=
  match args with
  | [] => Ret (Some rest)
  | invoice_str :: more =>
      match match more with
            | [] => Some None
            | amt_msat_str :: _ => Some <$> parse_uint u64_max amt_msat_str
            end with
      | None => Ret (Some rest)
      | Some user_provided_amt =>
          match offer_from_str invoice_str with
          | Some offer => send_offer offer user_provided_amt rest
          | None =>
              match hrn_from_encoded invoice_str with
              | Some hrn => send_to_name hrn user_provided_amt rest
              | None =>
                  match bolt11_from_str invoice_str with
                  | Ok invoice =>
                      let* _ := send_payment invoice user_provided_amt in Ret (Some rest)
                  | Err _ => Ret (Some rest)
                  end
              end
          end
      end
  end.

(** The flags of [openchannel]: an unknown word prints an error, and [continue] resumes
    the loop over the words. *)
Fixpoint channel_flags (args : list string) (announce_channel with_anchors : bool) : bool * bool :=
  match args with
  | [] => (announce_channel, with_anchors)
  | word :: rest =>
      if String.eqb word "--public" || String.eqb word "--public=true"
      then channel_flags rest true with_anchors
      else if String.eqb word "--public=false" then channel_flags rest false with_anchors
      else if String.eqb word "--with-anchors" || String.eqb word "--with-anchors=true"
      then channel_flags rest announce_channel true
      else if String.eqb word "--with-anchors=false" then channel_flags rest announce_channel false
      else channel_flags rest announce_channel with_anchors
  end.

(** Whether the peer is connected, or could be. *)
Definition ensure_connected (peer : string) (pubkey : bytes) (peer_addr_str : option string) :
  relay_prog bool :=
  match peer_addr_str with
  | None => call (RPeerByNodeId pubkey)
  | Some _ =>
      let* info := parse_peer_info peer in
      match info with
      | Err _ => Ret false
      | Ok (pubkey, peer_addr) =>
          let* r := connect_peer_if_necessary pubkey peer_addr in Ret (is_ok r)
      end
  end.

Definition cmd_openchannel (args : list string) : relay_prog unit :=
  match args with
  | peer :: channel_value_sat :: flags =>
      let '(pubkey, peer_addr_str) := pubkey_and_addr peer in
      match pubkey ≫= compressed_pubkey with
      | None => Ret tt
      | Some pubkey =>
          let* ok := ensure_connected peer pubkey peer_addr_str in
          if negb ok then Ret tt
          else match parse_uint u64_max channel_value_sat with
               | None => Ret tt
               | Some chan_amt_sat =>
                   let '(announce_channel, with_anchors) := channel_flags flags false false in
                   let* _ := open_channel pubkey chan_amt_sat announce_channel with_anchors in
                   Ret tt
               end
      end
  | _ => Ret tt
  end.

Definition cmd_keysend (args : list string) : relay_prog unit :=
  match args with
  | [] => Ret tt
  | dest :: more =>
      match compressed_pubkey dest with
      | None => Ret tt
      | Some dest_pubkey =>
          match more with
          | [] => Ret tt
          | amt_msat_str :: _ =>
              match parse_uint u64_max amt_msat_str with
              | Some amt_msat => keysend dest_pubkey amt_msat
              | None => Ret tt
              end
          end
      end
  end.

Definition cmd_getoffer (args : list string) : relay_prog unit :=
  let* offer_builder := call RCreateOfferBuilder in
  match offer_builder with
  | Err _ => Ret tt
  | Ok _ =>
      match args with
      | amt_str :: _ =>
          match parse_uint u64_max amt_str with
          | Some amt_msat => let* _ := call (RBuildOffer (Some amt_msat)) in Ret tt
          | None => Ret tt
          end
      | [] => let* _ := call (RBuildOffer None) in Ret tt
      end
  end.

Definition cmd_getinvoice (args : list string) : relay_prog unit :=
  match args with
  | [] => Ret tt
  | amt_str :: more =>
      match parse_uint u64_max amt_str with
      | None => Ret tt
      | Some amt_msat =>
          match more with
          | [] => Ret tt
          | expiry_secs_str :: _ =>
              match parse_uint u32_max expiry_secs_str with
              | None => Ret tt
              | Some expiry_secs =>
                  get_invoice amt_msat expiry_secs ;;
                  let* enc := reads inbound_payments in
                  write_inbound enc
              end
          end
      end
  end.

Definition cmd_connectpeer (args : list string) : relay_prog unit :=
  match args with
  | [] => Ret tt
  | peer :: _ =>
      let* info := parse_peer_info peer in
      match info with
      | Err _ => Ret tt
      | Ok (pubkey, peer_addr) =>
          let* _ := connect_peer_if_necessary pubkey peer_addr in Ret tt
      end
  end.

Definition cmd_disconnectpeer (args : list string) : relay_prog unit :=
  match args with
  | [] => Ret tt
  | peer_pubkey :: _ =>
      match pubkey_from_str peer_pubkey with
      | None => Ret tt
      | Some pubkey => let* _ := do_disconnect_peer pubkey in Ret tt
      end
  end.

(** The arguments of [closechannel] and [forceclosechannel]. *)
Definition close_args (args : list string) : option (bytes * bytes) :=
  match args with
  | [] => None
  | channel_id_str :: more =>
      match to_vec channel_id_str with
      | None => None
      | Some channel_id =>
          if negb (length channel_id =? 32)%nat then None
          else match more with
               | [] => None
               | peer_pubkey_str :: _ =>
                   match to_vec peer_pubkey_str ≫= pubkey_from_slice with
                   | Some peer_pubkey => Some (channel_id, peer_pubkey)
                   | None => None
                   end
               end
      end
  end.

Definition cmd_closechannel (args : list string) : relay_prog unit :=
  match close_args args with
  | Some (channel_id, peer_pubkey) => close_channel channel_id peer_pubkey
  | None => Ret tt
  end.

Definition cmd_forceclosechannel (args : list string) : relay_prog unit :=
  match close_args args with
  | Some (channel_id, peer_pubkey) => force_close_channel channel_id peer_pubkey
  | None => Ret tt
  end.

Definition MSG_STARTPOS : nat := String.length "signmessage" + 1.

Definition cmd_signmessage (line : string) : relay_prog unit :=
  let text := trim line in
  if (String.length text <=? MSG_STARTPOS)%nat then Ret tt
  else
    let* _ := call (RSignMessage (byte_of <$> String.list_ascii_of_string
      (String.substring MSG_STARTPOS (String.length text - MSG_STARTPOS) text))) in
    Ret tt.

(** The figures [print_balance] prints: channel totals, sweeper sums, wallet balance,
    and the pool. *)
Record BalanceFigures := mkFigures {
  total_out : Z;
  total_in : Z;
  tracked_len : Z;
  pending_sum : Z;
  confirmed_sum : Z;
  sweeper_total : Z;
  wallet_balance : Z;
}.

Definition channel_totals (channels : list ChannelDetails.t) : Z * Z :=
  foldl (fun '(total_out, total_in) c =>
    (u64_add total_out (ChannelDetails.outbound_capacity_msat c),
     u64_add total_in (ChannelDetails.inbound_capacity_msat c))) (0, 0) channels.

Definition swept (acc : Z * Z) (o : TrackedSpendableOutput) : Z * Z :=
  let '(pending, confirmed) := acc in
  let v := match descriptor o with
           | StaticOutput v | DelayedPaymentOutput v | StaticPaymentOutput v => v
           end in
  match spend_status o with
  | PendingThresholdConfirmations => (pending, u64_add confirmed v)
  | PendingInitialBroadcast | PendingFirstConfirmation => (u64_add pending v, confirmed)
  end.

Definition balance_figures (channels : list ChannelDetails.t)
  (tracked : list TrackedSpendableOutput) (wallet : Z) : BalanceFigures :=
  let '(t_out, t_in) := channel_totals channels in
  let '(pending, confirmed) := foldl swept (0, 0) tracked in
  mkFigures t_out t_in (Z.of_nat (length tracked)) pending confirmed (u64_add pending confirmed)
    wallet.

Definition print_balance (cardano : bool) :
  relay_prog (BalanceFigures * option (result ChainState.t CardanoError)) :=
  let* channels := call RListChannels in
  let* tracked := call RTrackedOutputs in
  let* wallet := call RWalletBalance in
  let figures := balance_figures channels tracked wallet in
  if cardano then let* r := op QueryState in Ret (figures, Some r)
  else Ret (figures, None).

Definition cmd_pool_tx (tx : Z -> relay_prog (result string string)) (args : list string) :
  relay_prog unit :=
  match args with
  | [] => Ret tt
  | amount_str :: _ =>
      match parse_i64 amount_str with
      | Some amount => let* _ := tx amount in Ret tt
      | None => Ret tt
      end
  end.

(** One iteration of [read_command]; [cardano] says whether there is an operator agent.
    [help], [listchannels], [listpayments], [nodeinfo] and [listpeers] only print, as
    does an unknown command. *)
Definition run_command (cardano : bool) (line : string) (rest : input) :
  relay_prog (option input) :=
  let and_go_on (p : relay_prog unit) := p ;; Ret (Some rest) in
  let if_cardano (p : relay_prog unit) := if cardano then and_go_on p else Ret (Some rest) in
  match split_whitespace line with
  | [] => Ret (Some rest)
  | word :: args =>
      if String.eqb word "openchannel" then and_go_on (cmd_openchannel args)
      else if String.eqb word "sendpayment" then cmd_sendpayment args rest
      else if String.eqb word "keysend" then and_go_on (cmd_keysend args)
      else if String.eqb word "getoffer" then and_go_on (cmd_getoffer args)
      else if String.eqb word "getinvoice" then and_go_on (cmd_getinvoice args)
      else if String.eqb word "connectpeer" then and_go_on (cmd_connectpeer args)
      else if String.eqb word "disconnectpeer" then and_go_on (cmd_disconnectpeer args)
      else if String.eqb word "closechannel" then and_go_on (cmd_closechannel args)
      else if String.eqb word "forceclosechannel" then and_go_on (cmd_forceclosechannel args)
      else if String.eqb word "signmessage" then and_go_on (cmd_signmessage line)
      else if String.eqb word "pool-info" then if_cardano (pool_info ;; Ret tt)
      else if String.eqb word "getbalance" then and_go_on (print_balance cardano ;; Ret tt)
      else if String.eqb word "cardano-deposit" then if_cardano (cmd_pool_tx cardano_deposit args)
      else if String.eqb word "cardano-withdraw" then if_cardano (cmd_pool_tx cardano_withdraw args)
      else if String.eqb word "cancel-expired" then if_cardano (cancel_expired ;; Ret tt)
      else if String.eqb word "cancel-expired-offramps"
      then if_cardano (cancel_expired_offramps ;; Ret tt)
      else if String.eqb word "quit" || String.eqb word "exit" then Ret None
      else Ret (Some rest)
  end.

(** The loop, with fuel for its iterations: [None] when it runs out. *)
Fixpoint read_command (fuel : nat) (cardano : bool) (inp : input) : relay_prog (option unit) :=
  match fuel with
  | O => Ret None
  | S fuel =>
      match inp with
      | [] | Err _ :: _ => Ret (Some tt)
      | Ok line :: rest =>
          let* next := run_command cardano line rest in
          match next with
          | None => Ret (Some tt)
          | Some rest => read_command fuel cardano rest
          end
      end
  end.

(** Every iteration consumes a line. *)
Definition poll_for_user_input (cardano : bool) (inp : input) : relay_prog (option unit) :=
  read_command (S (length inp)) cardano inp.
End shell.

(** ** Paying an offer *)

Section offers.
Context `{Externals}.

Definition unanswered (l : result string string) : Prop :=
  exists line, l = Ok line /\ starts_with line "Y" = false /\ starts_with line "N" = false.

(** The operator gave the amount with the command, or typed a line that starts with [Y]
    at the prompt, before any that starts with [N]. *)
Definition approved (user_provided_amt : option Z) (rest rest' : input) : Prop :=
  match user_provided_amt with
  | Some _ => rest' = rest
  | None => exists asked yes, rest = asked ++ Ok yes :: rest' /\ starts_with yes "Y" = true /\
      Forall unanswered asked
  end.

Lemma confirm_approved rest rest' : confirm rest = Confirmed rest' <-> approved None rest rest'.
Proof.
  split.
  - induction rest as [|[line|e] rest IH]; cbn; try done.
    destruct (starts_with line "Y") eqn:Ey; [intros [= <-]; exists [], line; eauto|].
    destruct (starts_with line "N") eqn:En; [done|]. intros Hc.
    destruct (IH Hc) as (asked & yes & -> & Hy & Ha). exists (Ok line :: asked), yes.
    split_and!; [done|done|]. constructor; [by exists line|done].
  - intros (asked & yes & -> & Hy & Ha). induction Ha as [|l asked (line & -> & Hny & Hnn) Ha IH]; cbn.
    + by rewrite Hy.
    + by rewrite Hny, Hnn.
Qed.

Definition offer_paid (offer : Offer) (amt : Z) (payment_id : bytes) (s : Relay) (rest' : input)
  (o : outcome (option input)) (s' : Relay) (l : list (event resp)) : Prop :=
  s' = set_outbound s (<[payment_id := mkPaymentInfo None None HTLCStatus.Pending (Some amt)]>
         (outbound_payments s)) /\
  ((exists x, l = [existT (RWriteOutbound (outbound_payments s')) (Ok tt);
                   existT (RPayForOffer offer (Some amt) payment_id) x] /\
              o = Done (Some rest')) \/
   (exists e, l = [existT (RWriteOutbound (outbound_payments s')) (Err e)] /\ o = Panicked e)).

(** Why nothing is paid. *)
Definition refused (offer : Offer) (user_provided_amt : option Z) (rest : input) : Prop :=
  offer_amt offer user_provided_amt = None \/
  (exists u, user_provided_amt = Some u /\ offer_amt offer user_provided_amt <> Some u) \/
  (user_provided_amt = None /\ forall rest', ~ approved None rest rest').

Lemma wp_offer_paid offer amt id s rest' l Q :
  (forall o s' l', offer_paid offer amt id s rest' o s' l' -> Q o s' (l ++ l')) ->
  wp (bind (record_outbound id amt)
        (fun _ => bind (call (RPayForOffer offer (Some amt) id)) (fun _ => Ret (Some rest')))) s l Q.
Proof.
  intros HQ. cbn. intros [[]|e]; cbn.
  - intros x. rewrite <- app_assoc. apply HQ. split; [done|]. left. by exists x.
  - apply HQ. split; [done|]. right. by exists e.
Qed.
End offers.

Section offer_theorem.
Context `{Externals} {W : Type} `{!Env W}.

(** [sendpayment] with an offer pays only what the operator agreed to: the offer's
    amount (or the given one when the offer has none in bitcoin), and only when the
    given amount matches or the operator confirmed at the prompt.  Then the payment is
    recorded as pending under a fresh id, the table is written, and one payment is
    asked of LDK; the record stays pending also when LDK refuses.  Otherwise nothing is
    recorded and nothing asked for but the id. *)
Lemma offer_payment_correct offer user_provided_amt rest s (w : W) :
  let r := exec (send_offer offer user_provided_amt rest) s w in
  exists id l, log r = existT RRandomBytes id :: l /\
  ((exists amt rest', offer_amt offer user_provided_amt = Some amt /\
      (user_provided_amt = None \/ user_provided_amt = Some amt) /\
      approved user_provided_amt rest rest' /\
      offer_paid offer amt id s rest' (out r) (fin r) l) \/
   (refused offer user_provided_amt rest /\ fin r = s /\ l = [] /\ exists o, out r = Done o)).
Proof.
  apply (wp_exec (send_offer offer user_provided_amt rest) s w (fun o s' lg =>
    exists id l, lg = existT RRandomBytes id :: l /\
    ((exists amt rest', offer_amt offer user_provided_amt = Some amt /\
        (user_provided_amt = None \/ user_provided_amt = Some amt) /\
        approved user_provided_amt rest rest' /\ offer_paid offer amt id s rest' o s' l) \/
     (refused offer user_provided_amt rest /\ s' = s /\ l = [] /\ exists v, o = Done v)))).
  unfold send_offer. apply wp_call. intros id.
  destruct (offer_amt offer user_provided_amt) as [amt|] eqn:Ea.
  2: { cbn. exists id, []. split; [done|]. right. split_and!; [by left|done|done|eauto]. }
  destruct user_provided_amt as [u|].
  - destruct (Z.eqb_spec u amt) as [->|Hne]; cbn [negb].
    + apply wp_offer_paid. intros o s' l' Hp. exists id, l'. split; [done|]. left.
      exists amt, rest. split_and!; [done|by right|done|done].
    + cbn. exists id, []. split; [done|]. right. split_and!; [|done|done|eauto].
      right; left. exists u. split; [done|]. congruence.
  - pose proof (confirm_approved rest) as Hc. destruct (confirm rest) as [rest'|rest'|].
    + apply wp_offer_paid. intros o s' l' Hp. exists id, l'. split; [done|]. left.
      exists amt, rest'. split_and!; [done|by left|by apply Hc|done].
    + cbn. exists id, []. split; [done|]. right. split_and!; [|done|done|eauto].
      right; right. split; [done|]. intros r' Ha%Hc. done.
    + cbn. exists id, []. split; [done|]. right. split_and!; [|done|done|eauto].
      right; right. split; [done|]. intros r' Ha%Hc. done.
Qed.
End offer_theorem.

(** ** Opening a channel *)

Section channels.
Context `{Externals}.

Definition public_flag (word : string) : option bool :=
  if String.eqb word "--public" || String.eqb word "--public=true" then Some true
  else if String.eqb word "--public=false" then Some false else None.
Definition anchors_flag (word : string) : option bool :=
  if String.eqb word "--with-anchors" || String.eqb word "--with-anchors=true" then Some true
  else if String.eqb word "--with-anchors=false" then Some false else None.

(** The last of the flags that [f] recognises. *)
Definition last_flag (f : string -> option bool) (args : list string) (init : bool) : bool :=
  default init (last (omap f args)).

Lemma last_flag_cons f word args init :
  last_flag f (word :: args) init = last_flag f args (default init (f word)).
Proof.
  unfold last_flag. cbn. destruct (f word) as [b|]; cbn; [|done].
  rewrite last_cons. by destruct (last (omap f args)).
Qed.

(** The loop keeps the last value of each flag, and skips what is no flag. *)
Lemma channel_flags_last args a b :
  channel_flags args a b = (last_flag public_flag args a, last_flag anchors_flag args b).
Proof.
  revert a b. induction args as [|word args IH]; intros a b; [done|].
  rewrite !last_flag_cons. cbn. unfold public_flag, anchors_flag.
  repeat match goal with
  | |- context [String.eqb word ?w] => destruct (String.eqb_spec word w) as [->|]; cbn
  end; apply IH.
Qed.

(** The channels asked for. *)
Definition created (e : event resp) : option (bytes * Z * Z * Z * ChannelConfig.t) :=
  match projT1 e with RCreateChannel k v p u c => Some (k, v, p, u, c) | _ => None end.

Lemma dials_created pk addrs l : dials pk addrs l -> omap created l = [].
Proof. induction 1 as [|[r x] l Hr Hl IH]; [done|]. cbn. by destruct r. Qed.

Lemma wp_ensure_connected peer pko pk addr s l Q :
  pubkey_and_addr peer = (pko, addr) -> pko ≫= compressed_pubkey = Some pk ->
  (forall b l', attempted pk b l' -> omap created l' = [] -> Q (Done b) s (l ++ l')) ->
  wp (ensure_connected peer pk addr) s l Q.
Proof.
  intros Hp Hpk HQ. unfold ensure_connected. destruct addr as [a|].
  2: { intros []; apply HQ; try done; [by exists []|]. apply Forall_singleton. by intros []. }
  apply wp_bind. unfold parse_peer_info. rewrite Hp. apply wp_call. intros x.
  assert (~ known pk (existT (RResolve (Clearnet a)) x)) as Hx by (by intros []).
  assert (forall m, wp (Ret (Err m)) s (l ++ [existT (RResolve (Clearnet a)) x])
    (wp_cont (fun info : result (bytes * string) string => match info with
       | Ok (pubkey, peer_addr) =>
           bind (connect_peer_if_necessary pubkey peer_addr) (fun r => Ret (is_ok r))
       | Err _ => Ret false end) Q)) as Hfail.
  { intros m. cbn. apply HQ; [|done]. by apply Forall_singleton. }
  destruct (head <$> res_ok x) as [[sa|]|]; [|apply Hfail..]. rewrite Hpk. cbn [wp wp_cont].
  apply wp_bind, (attempt_connect pk [sa]); [set_solver|]. intros r l' Hd Ha. cbn.
  rewrite <- app_assoc. apply HQ; [by apply (attempted_cons pk)|].
  cbn. by eapply dials_created.
Qed.

Definition channel_config (flags : list string) : ChannelConfig.t :=
  ChannelConfig.mk 2016 (last_flag public_flag flags false) (last_flag anchors_flag flags false).

(** What [openchannel] has done. *)
Definition channel_opened (peer sats : string) (flags : list string) (s : Relay)
  (o : outcome unit) (s' : Relay) (l : list (event resp)) : Prop :=
  o = Done tt /\ s' = s /\
  match (pubkey_and_addr peer).1 ≫= compressed_pubkey with
  | None => l = []
  | Some pk => exists connected l0 l1, l = l0 ++ l1 /\ omap created l0 = [] /\
      attempted pk connected l0 /\
      match parse_uint u64_max sats with
      | Some v =>
          if connected then exists x, l1 = [existT (RCreateChannel pk v 0 0 (channel_config flags)) x]
          else l1 = []
      | None => l1 = []
      end
  end.

Lemma wp_openchannel peer sats flags s Q :
  (forall o s' l, channel_opened peer sats flags s o s' l -> Q o s' l) ->
  wp (cmd_openchannel (peer :: sats :: flags)) s [] Q.
Proof.
  intros HQ. unfold cmd_openchannel, channel_opened in *.
  destruct (pubkey_and_addr peer) as [pko addr] eqn:Ep. cbn [fst] in *.
  destruct (pko ≫= compressed_pubkey) as [pk|] eqn:Ek; [|by apply HQ].
  apply wp_bind, (wp_ensure_connected peer pko pk addr); [done|done|].
  intros b l' Ha Hc. cbn [wp_cont app]. destruct b; cbn [negb].
  - destruct (parse_uint u64_max sats) as [v|].
    + rewrite channel_flags_last. intros x. rewrite <- (app_nil_l (l' ++ _)).
      destruct x; cbn; apply HQ; (split; [done|]; split; [done|]);
        exists true, l'; eexists; split_and!; try done; by eexists.
    + cbn. apply HQ. split; [done|]. split; [done|]. exists true, l', [].
      by rewrite app_nil_r.
  - cbn. apply HQ. split; [done|]. split; [done|]. exists false, l', [].
    rewrite app_nil_r. by destruct (parse_uint u64_max sats).
Qed.
End channels.

Section channel_theorem.
Context `{Externals} {W : Type} `{!Env W}.

(** [openchannel] asks for a channel exactly when the key and the amount parse and
    the peer manager has just said that the peer is connected, once, with that key and
    amount and the last value of each flag; it changes nothing in the relay.  A word
    that is no flag does not stop it, although an error is printed. *)
Lemma openchannel_correct peer sats flags s (w : W) :
  let r := exec (cmd_openchannel (peer :: sats :: flags)) s w in
  channel_opened peer sats flags s (out r) (fin r) (log r) /\
  forall l1 word l2, flags = l1 ++ word :: l2 -> public_flag word = None -> anchors_flag word = None ->
    exec (cmd_openchannel (peer :: sats :: l1 ++ l2)) s w = r.
Proof.
  cbn zeta. split.
  - apply (wp_exec _ s w (channel_opened peer sats flags s)). by apply wp_openchannel.
  - intros l1 word l2 -> Hp Ha. unfold cmd_openchannel. rewrite !channel_flags_last.
    assert (forall f init, f word = None ->
      last_flag f (l1 ++ word :: l2) init = last_flag f (l1 ++ l2) init) as Hf.
    { intros f init Hf. unfold last_flag. rewrite !omap_app. cbn. by rewrite Hf. }
    by rewrite !Hf.
Qed.

(** The figures of [getbalance] are those of the balance endpoint. *)
Lemma channel_totals_sums chans a b :
  foldl (fun '(t_out, t_in) c =>
    (u64_add t_out (ChannelDetails.outbound_capacity_msat c),
     u64_add t_in (ChannelDetails.inbound_capacity_msat c))) (a, b) chans
  = (foldl u64_add a (ChannelDetails.outbound_capacity_msat <$> chans),
     foldl u64_add b (ChannelDetails.inbound_capacity_msat <$> chans)).
Proof. revert a b. induction chans as [|c chans IH]; intros a b; cbn; [done|]. apply IH. Qed.

Lemma balance_figures_agree chans tracked wallet :
  let f := balance_figures chans tracked wallet in
  let b := btc_balance chans tracked wallet in
  (total_out f, total_in f, tracked_len f) =
    (channels_outbound_msat b, channels_inbound_msat b, sweeper_outputs b) /\
  (pending_sum f, confirmed_sum f, sweeper_total f, wallet_balance f) =
    (sweeper_pending_sats b, sweeper_confirmed_sats b, on_chain_sweeper_sats b, wallet_sats b).
Proof.
  unfold balance_figures, btc_balance, channel_totals, sweeper_sums. rewrite channel_totals_sums.
  replace (foldl swept (0, 0) tracked) with (foldl (fun '(p, c) o =>
    match spend_status o with
    | PendingThresholdConfirmations => (p, u64_add c (spendable_output_value_sats o))
    | _ => (u64_add p (spendable_output_value_sats o), c)
    end) (0, 0) tracked).
  { by destruct (foldl _ _ tracked). }
  generalize (0, 0) as acc. induction tracked as [|o tracked IH]; intros acc; cbn; [done|].
  rewrite IH. f_equal. destruct acc as [p c]. by destruct o as [[] []].
Qed.
End channel_theorem.
