(* ===== verification/Listing.v ===== *)
(** * What the shell prints ([src/src/cli/payment_cmds.rs], [channel_cmds.rs], [peer_cmds.rs],
    [cli/mod.rs], messages of [src/src/events.rs])

    The listings as lines of text, one per [println!]; the order in which a [HashMap] is
    iterated is part of the argument.  The texts of hashes, keys and aliases come from their
    [Display]. *)

From S2P Require Import Prelude Effects Amounts HexUtils Text Mapping Types RateLimiter World Helpers.
From S2P Require Import Peers CardanoSwap Payments CardanoOfframp Recovery Background Api Shell.

Definition TAB : string := String (chr 9) EmptyString.
Definition TABS : string := TAB +:+ TAB.

(** ** [listpayments] *)

Definition htlc_status (s : HTLCStatus.t) : string :=
  match s with
  | HTLCStatus.Pending => "pending"
  | HTLCStatus.Succeeded => "succeeded"
  | HTLCStatus.Failed => "failed"
  end.

(** A payment as it is listed: whether it is inbound, its hash or id as text, and the entry. *)
Definition payment_lines (inbound : bool) (payment_hash : string) (info : PaymentInfo) : list string :=
  [""%string;
   TAB +:+ "{";
   TABS +:+ "amount_millisatoshis: " +:+ millisat_display (amt_msat info) +:+ ",";
   TABS +:+ "payment_hash: " +:+ payment_hash +:+ ",";
   TABS +:+ "htlc_direction: " +:+ (if inbound then "inbound" else "outbound") +:+ ",";
   TABS +:+ "htlc_status: " +:+ htlc_status (status info) +:+ ",";
   TAB +:+ "},"].

(** [print!] puts its text in front of the next line. *)
Definition print (s : string) (ls : list string) : list string :=
  match ls with l :: ls => (s +:+ l) :: ls | [] => [s] end.

Definition list_payments (inbound outbound : list (string * PaymentInfo)) : list string :=
  print "[" ((inbound ≫= (fun '(h, i) => payment_lines true h i)) ++
             (outbound ≫= (fun '(h, i) => payment_lines false h i)) ++ ["]"%string]).

(** ** [listchannels] *)

(** What the listing shows of a channel beyond [ChannelDetails]. *)
Record ListedChannel := mkListed {
  details : ChannelDetails.t;
  funding_txid : option string;
  peer_alias : option string;
  short_channel_id : option Z;
}.

Definition bool_display (b : bool) : string := if b then "true" else "false".
Definition optional {A} (o : option A) (f : A -> string) : list string :=
  match o with Some a => [f a] | None => [] end.

Definition channel_lines (c : ListedChannel) : list string :=
  let d := details c in
  [""%string; TAB +:+ "{"; TABS +:+ "channel_id: " +:+ ChannelDetails.channel_id d +:+ ","] ++
  optional (funding_txid c) (fun t => TABS +:+ "funding_txid: " +:+ t +:+ ",") ++
  [TABS +:+ "peer_pubkey: " +:+ hex_str (ChannelDetails.counterparty d) +:+ ","] ++
  optional (peer_alias c) (fun a => TABS +:+ "peer_alias: " +:+ a) ++
  optional (short_channel_id c) (fun i => TABS +:+ "short_channel_id: " +:+ pretty i +:+ ",") ++
  [TABS +:+ "is_channel_ready: " +:+ bool_display (ChannelDetails.is_channel_ready d) +:+ ",";
   TABS +:+ "channel_value_satoshis: " +:+ pretty (ChannelDetails.channel_value_satoshis d) +:+ ",";
   TABS +:+ "outbound_capacity_msat: " +:+ pretty (ChannelDetails.outbound_capacity_msat d) +:+ ","] ++
  (if ChannelDetails.is_usable d then
     [TABS +:+ "available_balance_for_send_msat: " +:+ pretty (ChannelDetails.outbound_capacity_msat d) +:+ ",";
      TABS +:+ "available_balance_for_recv_msat: " +:+ pretty (ChannelDetails.inbound_capacity_msat d) +:+ ","]
   else []) ++
  [TABS +:+ "channel_can_send_payments: " +:+ bool_display (ChannelDetails.is_usable d) +:+ ",";
   TABS +:+ "public: " +:+ bool_display (ChannelDetails.is_announced d) +:+ ",";
   TAB +:+ "},"].

Definition list_channels (cs : list ListedChannel) : list string :=
  print "[" ((cs ≫= channel_lines) ++ ["]"%string]).

(** ** [listpeers] and [nodeinfo] *)

Definition list_peers (peers : list string) : list string :=
  [TAB +:+ "{"] ++ ((fun p => TABS +:+ " pubkey: " +:+ p) <$> peers) ++ [TAB +:+ "},"].

(** [lightning::chain::channelmonitor::Balance]: its claimable amount, and what the command
    reads of the two variants it names. *)
Inductive Balance :=
| ClaimableOnChannelClose (amount : Z) (candidate_fees : list Z) (confirmed_index : nat)
| MaybeTimeoutClaimableHTLC (amount : Z) (outbound_payment : bool)
| OtherBalance (amount : Z).

Definition claimable_amount_satoshis (b : Balance) : Z :=
  match b with
  | ClaimableOnChannelClose a _ _ | MaybeTimeoutClaimableHTLC a _ | OtherBalance a => a
  end.

(** The closing fee of a balance; the index may be out of range, which panics. *)
Definition close_fee (b : Balance) : option Z :=
  match b with
  | ClaimableOnChannelClose _ fees i => fees !! i
  | _ => Some 0
  end.
Definition pending_payment (b : Balance) : Z :=
  match b with
  | MaybeTimeoutClaimableHTLC a true => a
  | _ => 0
  end.

(** [sum::<u64>()] wraps around. *)
Definition sum_u64 (xs : list Z) : Z := foldl u64_add 0 xs.

Record NodeInfo := mkNodeInfo {
  node_pubkey : string;
  chans : list ChannelDetails.t;
  balances : list Balance;
  num_peers : Z;
  network_nodes : Z;
  network_channels : Z;
}.

Definition node_info (n : NodeInfo) : option (list string) :=
  fees ← mapM close_fee (balances n);
  Some [TAB +:+ "{";
    TABS +:+ " node_pubkey: " +:+ node_pubkey n;
    TABS +:+ " num_channels: " +:+ pretty (Z.of_nat (length (chans n)));
    TABS +:+ " num_usable_channels: " +:+
      pretty (Z.of_nat (length (List.filter ChannelDetails.is_usable (chans n))));
    TABS +:+ " local_balance_sats: " +:+ pretty (sum_u64 (claimable_amount_satoshis <$> balances n));
    TABS +:+ " eventual_close_fees_sats: " +:+ pretty (sum_u64 fees);
    TABS +:+ " pending_outbound_payments_sats: " +:+ pretty (sum_u64 (pending_payment <$> balances n));
    TABS +:+ " num_peers: " +:+ pretty (num_peers n);
    TABS +:+ " network_nodes: " +:+ pretty (network_nodes n);
    TABS +:+ " network_channels: " +:+ pretty (network_channels n);
    TAB +:+ "},"].

(** ** [help] *)

Definition help (package_name package_version : string) : list string :=
  [""; "VERSION:"; "  " +:+ package_name +:+ " v" +:+ package_version;
   ""; "USAGE:"; "  Command [arguments]";
   ""; "COMMANDS:"; "  help" +:+ TAB +:+ "Shows a list of commands."; "  quit" +:+ TAB +:+ "Close the application.";
   ""; "  Channels:";
   "      openchannel pubkey@[host:port] <amt_satoshis> [--public] [--with-anchors]";
   "      closechannel <channel_id> <peer_pubkey>";
   "      forceclosechannel <channel_id> <peer_pubkey>";
   "      listchannels";
   ""; "  Peers:";
   "      connectpeer pubkey@host:port";
   "      disconnectpeer <peer_pubkey>";
   "      listpeers";
   ""; "  Payments:";
   "      sendpayment <invoice|offer|human readable name> [<amount_msat>]";
   "      keysend <dest_pubkey> <amt_msats>";
   "      listpayments";
   ""; "  Invoices:";
   "      getinvoice <amt_msats> <expiry_secs>";
   "      getoffer [<amt_msats>]";
   ""; "  Cardano (requires CARDANO_ENABLED=true):";
   "      pool-info";
   "      getbalance  (BTC + cBTC balances held by this relay)";
   "      cardano-deposit <cbtc_amount>";
   "      cardano-withdraw <cbtc_amount>";
   "      cancel-expired";
   "      cancel-expired-offramps";
   ""; "  Other:";
   "      signmessage <message>";
   "      nodeinfo"]%string.

(** ** Messages of the event handler *)

(** The peer of a channel in the network graph: not there, without an announcement, or with
    an alias. *)
Inductive GraphPeer := PrivateNode | UnnamedNode | NamedNode (alias : string).

(** [Event::PaymentForwarded]: [peer_of] is the peer of a channel that is still listed. *)
Definition node_str (peer_of : string -> option GraphPeer) (channel_id : option string) : string :=
  match channel_id with
  | None => ""
  | Some channel_id =>
      match peer_of channel_id with
      | None => ""
      | Some PrivateNode => "private node"
      | Some UnnamedNode => "unnamed node"
      | Some (NamedNode alias) => "node " +:+ alias
      end
  end.
Definition channel_str (channel_id : option string) : string :=
  match channel_id with Some id => " with channel " +:+ id | None => "" end.

Definition forwarded_message (peer_of : string -> option GraphPeer) (prev_channel_id next_channel_id : option string)
  (total_fee_earned_msat : option Z) (claim_from_onchain_tx : bool)
  (outbound_amount_forwarded_msat : option Z) : string :=
  let from_prev_str := " from " +:+ node_str peer_of prev_channel_id +:+ channel_str prev_channel_id in
  let to_next_str := " to " +:+ node_str peer_of next_channel_id +:+ channel_str next_channel_id in
  let from_onchain_str := (if claim_from_onchain_tx then "from onchain downstream claim"
                           else "from HTLC fulfill message")%string in
  let amt_args := match outbound_amount_forwarded_msat with Some v => pretty v | None => "?"%string end in
  match total_fee_earned_msat with
  | Some fee_earned =>
      "EVENT: Forwarded payment for " +:+ amt_args +:+ " msat" +:+ from_prev_str +:+ to_next_str +:+
      ", earning " +:+ pretty fee_earned +:+ " msat " +:+ from_onchain_str
  | None =>
      "EVENT: Forwarded payment for " +:+ amt_args +:+ " msat" +:+ from_prev_str +:+ to_next_str +:+
      ", claiming onchain " +:+ from_onchain_str
  end.

(** [ChannelPending], [ChannelReady] and [ChannelClosed]. *)
Definition channel_pending_message (channel_id : string) (peer : bytes) : string :=
  "EVENT: Channel " +:+ channel_id +:+ " with peer " +:+ hex_str peer +:+ " is pending awaiting funding lock-in!".
Definition channel_ready_message (channel_id : string) (peer : bytes) : string :=
  "EVENT: Channel " +:+ channel_id +:+ " with peer " +:+ hex_str peer +:+ " is ready to be used!".
Definition channel_closed_message (channel_id reason : string) (peer : option string) : string :=
  "EVENT: Channel " +:+ channel_id +:+ " with counterparty " +:+ default ""%string peer +:+
  " closed due to: " +:+ reason.

(** ** The listing of payments can be read back *)

(** The text before a last comma. *)
Fixpoint strip_comma (s : string) : option string :=
  match s with
  | EmptyString => None
  | String a EmptyString => if Ascii.eqb a (chr 44) then Some EmptyString else None
  | String a s => String a <$> strip_comma s
  end.

Definition field (key line : string) : option string :=
  strip_prefix (TABS +:+ key) line ≫= strip_comma.

(** One entry after another, up to the closing bracket. *)
Fixpoint read_entries (ls : list string) : option (list (string * string * string * string)) :=
  match ls with
  | _ :: _ :: amount :: hash :: direction :: htlc :: _ :: rest =>
      a ← field "amount_millisatoshis: " amount;
      h ← field "payment_hash: " hash;
      d ← field "htlc_direction: " direction;
      s ← field "htlc_status: " htlc;
      es ← read_entries rest;
      Some ((d, h, a, s) :: es)
  | _ => Some []
  end.

Definition read_payments (ls : list string) : option (list (string * string * string * string)) :=
  match ls with
  | l :: ls => l ← strip_prefix "[" l; read_entries (l :: ls)
  | [] => None
  end.

Definition direction (inbound : bool) : string := if inbound then "inbound" else "outbound".
(** An entry of the listing as text, and as values. *)
Definition entry_text (inbound : bool) (p : string * PaymentInfo) : string * string * string * string :=
  (direction inbound, p.1, millisat_display (amt_msat p.2), htlc_status (status p.2)).
Definition shown (inbound : bool) (p : string * PaymentInfo) : bool * string * option Z * HTLCStatus.t :=
  (inbound, p.1, amt_msat p.2, status p.2).

Lemma strip_comma_app s : strip_comma (s +:+ ",") = Some s.
Proof.
  induction s as [|c [|d s] IH]; [done|done|].
  change (strip_comma (String c (String d s) +:+ ",")) with (String c <$> strip_comma (String d s +:+ ",")).
  by rewrite IH.
Qed.

Lemma field_line key v : field key (TABS +:+ key +:+ v +:+ ",") = Some v.
Proof.
  unfold field. rewrite <- string_app_assoc.
  rewrite (proj2 (strip_prefix_Some (TABS +:+ key) _ (v +:+ ","))) by done. apply strip_comma_app.
Qed.

Lemma read_entry inbound h i rest :
  read_entries (payment_lines inbound h i ++ rest)
  = (es ← read_entries rest; Some (entry_text inbound (h, i) :: es)).
Proof.
  unfold payment_lines. cbn [app read_entries]. by rewrite !field_line.
Qed.

Lemma read_every inbound ps rest :
  read_entries ((ps ≫= (fun '(h, i) => payment_lines inbound h i)) ++ rest)
  = (es ← read_entries rest; Some ((entry_text inbound <$> ps) ++ es)).
Proof.
  induction ps as [|[h i] ps IH]; [by cbn; destruct (read_entries rest)|].
  rewrite bind_cons, <- app_assoc, read_entry, IH. by destruct (read_entries rest).
Qed.

Lemma print_read ls : ls <> [] -> read_payments (print "[" ls) = read_entries ls.
Proof. destruct ls as [|l ls]; [done|]. intros _. unfold read_payments, print. by rewrite (proj2 (strip_prefix_Some "[" _ l)). Qed.

Lemma list_payments_read inbound outbound :
  read_payments (list_payments inbound outbound)
  = Some ((entry_text true <$> inbound) ++ (entry_text false <$> outbound)).
Proof.
  unfold list_payments. rewrite print_read by (intros [_ [_ [=]]%app_eq_nil]%app_eq_nil).
  rewrite read_every, read_every. cbn. by rewrite app_nil_r.
Qed.

(** A number is not [unknown]. *)
Lemma pretty_N_go_head x s s' :
  s <> String (chr 117) s' -> pretty.pretty_N_go x s <> String (chr 117) s'.
Proof.
  revert s. induction (N.lt_wf_0 x) as [x _ IH]. intros s Hs.
  destruct (decide (x = 0)%N) as [->|Hx]; [by rewrite pretty.pretty_N_go_0|].
  rewrite pretty.pretty_N_go_step by lia. apply IH; [apply N.div_lt; lia|].
  unfold pretty.pretty_N_char. by repeat case_match.
Qed.

Lemma pretty_not_unknown (z : Z) : pretty z <> "unknown"%string.
Proof.
  destruct z as [|p|p]; [done| |done]. unfold pretty, pretty.pretty_Z, pretty, pretty.pretty_positive, pretty, pretty.pretty_N.
  case_decide; [done|]. by apply (pretty_N_go_head _ "" "nknown").
Qed.

#[local] Instance millisat_display_inj : Inj (=) (=) millisat_display.
Proof.
  intros [a|] [b|]; cbn; [by intros ->%(inj pretty)|by intros ?%pretty_not_unknown|
    by intros ?%eq_sym%pretty_not_unknown|done].
Qed.

Lemma entry_text_inj b b' p p' : entry_text b p = entry_text b' p' <-> shown b p = shown b' p'.
Proof.
  unfold entry_text, shown. split.
  - intros [= Hd Hh Ha%(inj millisat_display) Hs]. destruct b, b'; try done; rewrite Hh, Ha; f_equal;
      by destruct (status p.2), (status p'.2).
  - intros [= -> Hh Ha Hs]. by rewrite Hh, Ha, Hs.
Qed.

Lemma entries_inj (ps ps' : list (bool * (string * PaymentInfo))) :
  ((fun x => entry_text x.1 x.2) <$> ps) = ((fun x => entry_text x.1 x.2) <$> ps') <->
  ((fun x => shown x.1 x.2) <$> ps) = ((fun x => shown x.1 x.2) <$> ps').
Proof.
  revert ps'. induction ps as [|[b p] ps IH]; intros [|[b' p'] ps']; try done. cbn.
  pose proof (entry_text_inj b b' p p') as He. specialize (IH ps'). cbn in *. split.
  - intros H. injection H. intros. f_equal; [apply He|apply IH]; congruence.
  - intros H. injection H. intros. f_equal; [apply He|apply IH]; congruence.
Qed.

(** The lines of an entry from its texts. *)
Definition text_lines (e : string * string * string * string) : list string :=
  let '(d, h, a, s) := e in
  [""%string; TAB +:+ "{"; TABS +:+ "amount_millisatoshis: " +:+ a +:+ ",";
   TABS +:+ "payment_hash: " +:+ h +:+ ","; TABS +:+ "htlc_direction: " +:+ d +:+ ",";
   TABS +:+ "htlc_status: " +:+ s +:+ ","; TAB +:+ "},"].

Lemma list_payments_text inbound outbound :
  list_payments inbound outbound
  = print "[" ((((entry_text true <$> inbound) ++ (entry_text false <$> outbound)) ≫= text_lines) ++ ["]"%string]).
Proof.
  unfold list_payments. rewrite bind_app, <- app_assoc. f_equal.
  assert (forall b ps, (ps ≫= (fun '(h, i) => payment_lines b h i)) = (entry_text b <$> ps) ≫= text_lines) as E.
  { intros b ps. induction ps as [|[h i] ps IH]; [done|]. rewrite fmap_cons, !bind_cons. by rewrite IH. }
  by rewrite !E.
Qed.

(** The payments of a listing, with their directions. *)
Definition tagged (inbound outbound : list (string * PaymentInfo)) : list (bool * (string * PaymentInfo)) :=
  (pair true <$> inbound) ++ (pair false <$> outbound).

(** [listpayments] shows the tables faithfully: two listings are the same text exactly if
    they are of the same payments, in the same order, with the same direction, hash, amount
    (or its absence) and status.  Nothing else of a record, in particular no preimage or
    secret, has any influence on what is printed. *)
Lemma list_payments_faithful inbound outbound inbound' outbound' :
  list_payments inbound outbound = list_payments inbound' outbound' <->
  (shown true <$> inbound) ++ (shown false <$> outbound)
  = (shown true <$> inbound') ++ (shown false <$> outbound').
Proof.
  assert (forall i o, (entry_text true <$> i) ++ (entry_text false <$> o)
    = (fun x => entry_text x.1 x.2) <$> tagged i o) as Ht.
  { intros i o. unfold tagged. by rewrite fmap_app, <- !list_fmap_compose. }
  assert (forall i o, (shown true <$> i) ++ (shown false <$> o) = (fun x => shown x.1 x.2) <$> tagged i o) as Hs.
  { intros i o. unfold tagged. by rewrite fmap_app, <- !list_fmap_compose. }
  rewrite !Hs, <- entries_inj, <- !Ht. split.
  - intros E%(f_equal read_payments). rewrite !list_payments_read in E. by injection E.
  - intros E. by rewrite !list_payments_text, E.
Qed.

(** ** The commands that [help] lists *)

Definition help_commands : list string :=
  ["help"; "quit"]%string ++
  omap (fun l => if starts_with l "      " then head (split_whitespace l) else None) (help "" "").

Lemma help_commands_are :
  help_commands = ["help"; "quit"; "openchannel"; "closechannel"; "forceclosechannel"; "listchannels";
    "connectpeer"; "disconnectpeer"; "listpeers"; "sendpayment"; "keysend"; "listpayments"; "getinvoice";
    "getoffer"; "pool-info"; "getbalance"; "cardano-deposit"; "cardano-withdraw"; "cancel-expired";
    "cancel-expired-offramps"; "signmessage"; "nodeinfo"]%string.
Proof. vm_compute. reflexivity. Qed.

(** The shell has no hidden command: a line that does anything at all, or ends the shell,
    starts with a word that [help] lists, or with [exit]. *)
Lemma no_hidden_command `{Externals} cardano line rest :
  run_command cardano line rest = Ret (Some rest) \/
  exists w, head (split_whitespace line) = Some w /\ w ∈ "exit"%string :: help_commands.
Proof.
  unfold run_command. destruct (split_whitespace line) as [|w args]; [by left|].
  rewrite help_commands_are.
  repeat match goal with
         | |- context [String.eqb w ?c] => destruct (String.eqb_spec w c) as [E|_];
             [right; exists w; split; [done|]; rewrite E; by apply (bool_decide_unpack _)|]
         end.
  by left.
Qed.

(** ** [nodeinfo] *)

(** The command panics exactly if a balance names a candidate that is not there. *)
Lemma node_info_panics n :
  node_info n = None <->
  exists amount fees i, ClaimableOnChannelClose amount fees i ∈ balances n /\ (length fees <= i)%nat.
Proof.
  unfold node_info. trans (mapM close_fee (balances n) = None); [by destruct (mapM close_fee (balances n))|].
  rewrite mapM_None, Exists_exists. split.
  - intros ([amount fees i|amount out|amount] & Hb & Hf); try done. exists amount, fees, i.
    split; [done|]. by apply lookup_ge_None.
  - intros (amount & fees & i & Hb & Hf). eexists. split; [exact Hb|]. by apply lookup_ge_None.
Qed.

(** Only outbound payments count as pending. *)
Lemma pending_payment_outbound b :
  pending_payment b <> 0 -> exists amount, b = MaybeTimeoutClaimableHTLC amount true /\ pending_payment b = amount.
Proof. destruct b as [| amount [] |]; cbn; try done. by exists amount. Qed.
