(* ===== verification/ShellSafety.v ===== *)
(** * The shell does what is typed, and ends

    Two theorems about whole sessions of [Shell.poll_for_user_input]: the loop ends after
    at most one iteration per line of input, and every request of a session is one of a
    command that was typed. *)

From S2P Require Import Prelude Effects HexUtils Text Mapping Types RateLimiter World Helpers Rows.
From S2P Require Import Peers Payments CardanoSwap CardanoOfframp Recovery Background Api Shell.
Open Scope prog_scope.

(** ** What a session may do *)

Section authority.
Context `{Externals}.

(** The commands that make a request. *)
Definition request_words (r : Req) : list string :=
  match r with
  | ROp QueryState => ["pool-info"; "getbalance"; "cancel-expired"; "cancel-expired-offramps"]
  | ROp (Deposit _) => ["cardano-deposit"]
  | ROp (Withdraw _) => ["cardano-withdraw"]
  | ROp (CancelInvoice _) => ["cancel-expired"]
  | ROp (CancelOfframp _) => ["cancel-expired-offramps"]
  | ROp (SubmitTx _) =>
      ["cardano-deposit"; "cardano-withdraw"; "cancel-expired"; "cancel-expired-offramps"]
  | RSleep _ =>
      ["cardano-deposit"; "cardano-withdraw"; "cancel-expired"; "cancel-expired-offramps"]
  | RNow | RInstant => ["cancel-expired"; "cancel-expired-offramps"]
  | RPayBolt11 _ _ _ | RPayForOffer _ _ _ | RPayForHrn _ _ _ _ | RGraphNodes => ["sendpayment"]
  | RSendSpontaneous _ _ _ _ => ["keysend"]
  | RRandomBytes | RWriteOutbound _ => ["sendpayment"; "keysend"]
  | RCreateBolt11 _ _ None | RWriteInbound _ => ["getinvoice"]
  | RCreateOfferBuilder | RBuildOffer _ => ["getoffer"]
  | RCreateChannel _ _ _ _ _ => ["openchannel"]
  | RResolve _ | RConnectOutbound _ _ | RSleepMs _ => ["openchannel"; "connectpeer"]
  | RPeerByNodeId _ => ["openchannel"; "connectpeer"; "disconnectpeer"]
  | RListChannels => ["disconnectpeer"; "getbalance"]
  | RDisconnect _ => ["disconnectpeer"]
  | RCloseChannel _ _ => ["closechannel"]
  | RForceClose _ _ _ => ["forceclosechannel"]
  | RSignMessage _ => ["signmessage"]
  | RTrackedOutputs | RWalletBalance => ["getbalance"]
  | _ => []
  end%string.

Definition is_operator_request (r : Req) : bool := match r with ROp _ => true | _ => false end.

(** The command [word] may make the request [r]; requests to the operator need Cardano. *)
Definition allowed (cardano : bool) (word : string) (r : Req) : Prop :=
  word ∈ request_words r /\ (is_operator_request r = true -> cardano = true).

(** What no command changes, and that no payment is forgotten. *)
Definition keeps (s s' : Relay) : Prop :=
  swap_db s' = swap_db s /\ rate_limiter s' = rate_limiter s /\
  dom (inbound_payments s) ⊆ dom (inbound_payments s') /\
  dom (outbound_payments s) ⊆ dom (outbound_payments s').

#[export] Instance keeps_refl : Reflexive keeps.
Proof. by intros s. Qed.
#[export] Instance keeps_trans : Transitive keeps.
Proof.
  intros s1 s2 s3 (H1 & H2 & H3 & H4) (H5 & H6 & H7 & H8).
  split_and!; [congruence|congruence|set_solver|set_solver].
Qed.

Lemma keeps_outbound s id p : keeps s (set_outbound s (<[id := p]> (outbound_payments s))).
Proof. split_and!; [done|done|done|]. cbn. rewrite dom_insert_L. set_solver. Qed.
Lemma keeps_inbound s id p : keeps s (set_inbound s (<[id := p]> (inbound_payments s))).
Proof. split_and!; [done|done| |done]. cbn. rewrite dom_insert_L. set_solver. Qed.

Definition may (cardano : bool) (word : string) {A} (p : relay_prog A) : Prop :=
  steps_ok keeps (allowed cardano word) p.
End authority.

(** A request that the table [request_words] lists for the command. *)
Ltac listed := split; [cbn; set_solver | done].

Section commands.
Context `{Externals}.
Context (cardano : bool).

Lemma may_call {A} word r (k : resp r -> relay_prog A) :
  allowed cardano word r -> (forall x, may cardano word (k x)) -> may cardano word (bind (call r) k).
Proof. by split. Qed.

Lemma may_write_outbound word m :
  word = "sendpayment"%string \/ word = "keysend"%string -> may cardano word (write_outbound m).
Proof. intros Hw. split; [destruct Hw as [-> | ->]; listed|]. by intros []. Qed.

Lemma may_outbound_insert word id info : may cardano word (outbound_insert id info).
Proof. intros s. split; [apply keeps_outbound|done]. Qed.

Lemma may_outbound_fail word id : may cardano word (outbound_fail id).
Proof.
  intros s. destruct (outbound_payments s !! id) as [p|]; cbn; [|done].
  split; [apply keeps_outbound|done].
Qed.

Lemma may_record_outbound id amt : may cardano "sendpayment" (record_outbound id amt).
Proof.
  intros s. split; [apply keeps_outbound|]. intros s'. split; [done|].
  apply may_write_outbound. auto.
Qed.

Lemma may_send_payment invoice amt : may cardano "sendpayment" (send_payment invoice amt).
Proof.
  unfold send_payment, bind_try. apply steps_ok_bind; [done|]. intros [a|e]; [|done].
  apply steps_ok_bind; [apply may_outbound_insert|]. intros enc.
  apply steps_ok_bind; [apply may_write_outbound; auto|]. intros _. apply may_call; [listed|].
  intros [u|e]; [done|]. apply steps_ok_bind; [apply may_outbound_fail|]. intros enc'.
  apply steps_ok_bind; [apply may_write_outbound; auto|done].
Qed.

Lemma may_keysend args : may cardano "keysend" (cmd_keysend args).
Proof.
  unfold cmd_keysend. repeat case_match; try exact I. unfold keysend.
  apply may_call; [listed|]. intros preimage.
  apply steps_ok_bind; [apply may_outbound_insert|]. intros enc.
  apply steps_ok_bind; [apply may_write_outbound; auto|]. intros _. apply may_call; [listed|].
  intros [u|e]; [done|]. apply steps_ok_bind; [apply may_outbound_fail|]. intros enc'.
  apply may_write_outbound; auto.
Qed.

Lemma may_send_offer offer amt rest : may cardano "sendpayment" (send_offer offer amt rest).
Proof.
  apply may_call; [listed|]. intros id. repeat case_match; try exact I.
  all: apply steps_ok_bind; [apply may_record_outbound|]; intros _; apply may_call; [listed|done].
Qed.

Lemma may_send_to_name hrn amt rest : may cardano "sendpayment" (send_to_name hrn amt rest).
Proof.
  apply may_call; [listed|]. intros id. destruct amt; [|done].
  apply may_call; [listed|]. intros nodes. destruct (dns_loop nodes []); [done|].
  apply steps_ok_bind; [apply may_record_outbound|]; intros _; apply may_call; [listed|done].
Qed.

Lemma may_sendpayment args rest : may cardano "sendpayment" (cmd_sendpayment args rest).
Proof.
  unfold cmd_sendpayment. repeat case_match; try exact I;
    try apply may_send_offer; try apply may_send_to_name.
  all: apply steps_ok_bind; [apply may_send_payment|done].
Qed.

Lemma may_connect word pk a :
  word = "openchannel"%string \/ word = "connectpeer"%string ->
  may cardano word (connect_peer_if_necessary pk a).
Proof.
  intros Hw. assert (forall r, r = RPeerByNodeId pk \/ r = RConnectOutbound pk a \/ r = RSleepMs 10 ->
    allowed cardano word r) as Hr.
  { intros r Hr. destruct Hw as [-> | ->], Hr as [->|[->| ->]]; listed. }
  split; [apply Hr; auto|]. intros []; [done|]. split; [apply Hr; auto|]. intros [n|]; [|done].
  induction n as [|n IH]; [done|]. split; [apply Hr; auto|]. intros ?. split; [apply Hr; auto|].
  by intros [].
Qed.

Lemma may_parse_peer word peer :
  word = "openchannel"%string \/ word = "connectpeer"%string ->
  may cardano word (parse_peer_info peer).
Proof.
  intros Hw. unfold parse_peer_info. destruct (pubkey_and_addr peer) as [pk [a|]]; [|done].
  apply may_call; [destruct Hw as [-> | ->]; listed|]. intros x. repeat case_match; exact I.
Qed.

Lemma may_openchannel args : may cardano "openchannel" (cmd_openchannel args).
Proof.
  unfold cmd_openchannel. destruct args as [|peer [|sats flags]]; [done..|].
  destruct (pubkey_and_addr peer) as [pk addr]. destruct (pk ≫= compressed_pubkey); [|done].
  apply steps_ok_bind.
  - unfold ensure_connected. destruct addr; [|split; [listed|done]].
    apply steps_ok_bind; [apply may_parse_peer; auto|]. intros [[pk' a]|e]; [|done].
    apply steps_ok_bind; [apply may_connect; auto|done].
  - intros []; cbn; [|done]. destruct (parse_uint u64_max sats); [|done].
    destruct (channel_flags flags false false). split; [listed|]. by intros [].
Qed.

Lemma may_connectpeer args : may cardano "connectpeer" (cmd_connectpeer args).
Proof.
  unfold cmd_connectpeer. destruct args as [|peer more]; [done|].
  apply steps_ok_bind; [apply may_parse_peer; auto|]. intros [[pk' a]|e]; [|done].
  apply steps_ok_bind; [apply may_connect; auto|done].
Qed.

Lemma may_disconnectpeer args : may cardano "disconnectpeer" (cmd_disconnectpeer args).
Proof.
  unfold cmd_disconnectpeer. repeat case_match; try exact I.
  apply steps_ok_bind; [|done]. apply may_call; [listed|]. intros chans.
  case_match; [done|]. apply may_call; [listed|]. intros []; [|done]. apply may_call; [listed|done].
Qed.

Lemma may_getinvoice args : may cardano "getinvoice" (cmd_getinvoice args).
Proof.
  unfold cmd_getinvoice. repeat case_match; try exact I. apply steps_ok_bind.
  - apply may_call; [listed|]. intros [inv|e]; [|done]. intros st. split; [apply keeps_inbound|done].
  - intros _ st. split; [done|]. apply may_call; [listed|]. by intros [].
Qed.

Lemma may_getoffer args : may cardano "getoffer" (cmd_getoffer args).
Proof.
  apply may_call; [listed|]. intros [u|e]; [|done]. repeat case_match; try exact I.
  all: apply may_call; [listed|done].
Qed.

Lemma may_signmessage line : may cardano "signmessage" (cmd_signmessage line).
Proof. unfold cmd_signmessage. case_match; [done|]. apply may_call; [listed|done]. Qed.

Lemma may_close args : may cardano "closechannel" (cmd_closechannel args).
Proof.
  unfold cmd_closechannel. destruct (close_args args) as [[c p]|]; [|done].
  apply may_call; [listed|done].
Qed.

Lemma may_force_close args : may cardano "forceclosechannel" (cmd_forceclosechannel args).
Proof.
  unfold cmd_forceclosechannel. destruct (close_args args) as [[c p]|]; [|done].
  apply may_call; [listed|done].
Qed.
End commands.

(** The operator's commands: requests only, so their authority is that of the requests. *)
Section operator_commands.
Context `{Externals}.

Lemma may_deposit args : may true "cardano-deposit" (cmd_pool_tx cardano_deposit args).
Proof.
  unfold cmd_pool_tx. repeat case_match; try exact I. apply steps_ok_bind; [|done].
  apply steps_ok_calls, calls_ok_submit; [listed|]. apply calls_ok_call; [listed|].
  intros [tx|e]; [|done]. apply (calls_ok_call _ (ROp _)); [listed|done].
Qed.

Lemma may_withdraw args : may true "cardano-withdraw" (cmd_pool_tx cardano_withdraw args).
Proof.
  unfold cmd_pool_tx. repeat case_match; try exact I. apply steps_ok_bind; [|done].
  apply steps_ok_calls, calls_ok_submit; [listed|]. apply calls_ok_call; [listed|].
  intros [tx|e]; [|done]. apply (calls_ok_call _ (ROp _)); [listed|done].
Qed.

Lemma may_cancel_expired : may true "cancel-expired" (cancel_expired ;; Ret tt).
Proof.
  apply steps_ok_calls, calls_ok_bind; [|done]. apply calls_cancel_expired; [listed..|].
  intros id. listed.
Qed.

Lemma may_cancel_expired_offramps :
  may true "cancel-expired-offramps" (cancel_expired_offramps ;; Ret tt).
Proof.
  apply steps_ok_calls, calls_ok_bind; [|done]. apply calls_cancel_expired_offramps; [listed..|].
  intros id. listed.
Qed.

Lemma may_pool_info : may true "pool-info" (pool_info ;; Ret tt).
Proof. split; [listed|done]. Qed.

Lemma may_getbalance cardano : may cardano "getbalance" (print_balance cardano ;; Ret tt).
Proof.
  apply steps_ok_calls, calls_ok_bind; [|done].
  apply calls_ok_call; [listed|]. intros channels. apply calls_ok_call; [listed|]. intros tracked. apply calls_ok_call; [listed|].
  intros wallet. destruct cardano; [|done]. apply (calls_ok_call _ (ROp _)); [listed|done].
Qed.
End operator_commands.

Section sessions.
Context `{Externals}.

(** Some line of the input is a command that may make the request. *)
Definition typed (cardano : bool) (inp : input) (r : Req) : Prop :=
  exists line word, Ok line ∈ inp /\ head (split_whitespace line) = Some word /\
    allowed cardano word r.

Lemma may_go_on {A} cardano word (p : relay_prog unit) (x : A) :
  may cardano word p -> may cardano word (p ;; Ret x).
Proof. intros Hp. by apply steps_ok_bind. Qed.

Lemma run_command_may cardano line rest :
  match split_whitespace line with
  | [] => steps_ok keeps (fun _ => False) (run_command cardano line rest)
  | word :: _ => may cardano word (run_command cardano line rest)
  end.
Proof.
  unfold run_command. cbv zeta beta. destruct (split_whitespace line) as [|word args]; [done|].
  repeat match goal with
  | |- context [if String.eqb word ?w then _ else _] =>
      destruct (String.eqb_spec word w) as [->|];
        [clear; try (destruct cardano; [|exact I]); try apply may_go_on|]
  end.
  all: auto using may_openchannel, may_sendpayment, may_keysend, may_getoffer, may_getinvoice,
    may_connectpeer, may_disconnectpeer, may_close, may_force_close, may_signmessage, may_pool_info,
    may_getbalance, may_deposit, may_withdraw, may_cancel_expired, may_cancel_expired_offramps.
  by destruct (String.eqb word "quit" || String.eqb word "exit").
Qed.
End sessions.

(** ** Termination *)

Section termination.
Context `{Externals}.

(** What a command leaves of the input. *)
Definition shorter (rest : input) (o : option input) : Prop :=
  match o with Some rest' => rest' `suffix_of` rest | None => True end.

Lemma confirm_shorter inp :
  match confirm inp with
  | Confirmed rest | Declined rest => rest `suffix_of` inp
  | InputEnded => True
  end.
Proof.
  induction inp as [|[line|e] rest IH]; cbn; try done.
  destruct (starts_with line "Y"); [by apply suffix_cons_r|].
  destruct (starts_with line "N"); [by apply suffix_cons_r|].
  destruct (confirm rest); [by apply suffix_cons_r..|done].
Qed.

Lemma shorter_refl rest : shorter rest (Some rest).
Proof. cbn. done. Qed.
#[local] Hint Resolve shorter_refl : core.

Lemma returns_and_go_on (p : relay_prog unit) rest :
  returns (shorter rest) (bind p (fun _ => Ret (Some rest))).
Proof. apply returns_bind. intros _. apply shorter_refl. Qed.
#[local] Hint Resolve returns_and_go_on : core.

Lemma send_offer_shorter offer amt rest : returns (shorter rest) (send_offer offer amt rest).
Proof.
  apply returns_bind. intros payment_id. destruct (offer_amt offer amt) as [a|]; [|apply shorter_refl].
  destruct (match amt with Some _ => _ | None => _ end); [apply shorter_refl|].
  pose proof (confirm_shorter rest) as Hc.
  assert (forall rest', rest' `suffix_of` rest -> returns (shorter rest)
    (bind (record_outbound payment_id a)
       (fun _ => bind (call (RPayForOffer offer (Some a) payment_id)) (fun _ => Ret (Some rest')))))
    as Hpay.
  { intros rest' Hr. apply returns_bind. by intros _ x. }
  destruct amt; [by apply Hpay|]. destruct (confirm rest); [by apply Hpay|done|done].
Qed.

Lemma send_to_name_shorter hrn amt rest : returns (shorter rest) (send_to_name hrn amt rest).
Proof.
  apply returns_bind. intros payment_id. destruct amt as [a|]; [|apply shorter_refl].
  apply returns_bind. intros nodes. destruct (dns_loop nodes []); [apply shorter_refl|].
  apply returns_bind. intros _ x. apply shorter_refl.
Qed.

Lemma returns_go_on rest : returns (shorter rest) (Ret (resp := resp) (St := Relay) (Some rest)).
Proof. apply shorter_refl. Qed.
#[local] Hint Resolve returns_go_on send_offer_shorter send_to_name_shorter : core.

Lemma sendpayment_shorter args rest : returns (shorter rest) (cmd_sendpayment args rest).
Proof.
  unfold cmd_sendpayment. repeat (case_match; auto using returns_bind).
Qed.

Lemma run_command_shorter cardano line rest : returns (shorter rest) (run_command cardano line rest).
Proof.
  unfold run_command. cbv zeta beta. destruct (split_whitespace line) as [|word args]; auto.
  repeat (case_match; auto using sendpayment_shorter); done.
Qed.

Lemma read_command_returns fuel cardano inp :
  (length inp < fuel)%nat -> returns (fun o => o = Some tt) (read_command fuel cardano inp).
Proof.
  revert inp. induction fuel as [|fuel IH]; intros inp Hlt; [lia|]. cbn.
  destruct inp as [|[line|e] rest]; try done. cbn in Hlt.
  pose proof (run_command_shorter cardano line rest) as Hs. revert Hs.
  generalize (run_command cardano line rest) as p.
  induction p as [next|X f k IHk|r k IHk|m]; cbn; auto.
  destruct next as [rest'|]; cbn; [|done]. intros Hs%suffix_length. apply IH. lia.
Qed.

Lemma read_command_typed fuel cardano inp inp' :
  inp' `suffix_of` inp -> steps_ok keeps (typed cardano inp) (read_command fuel cardano inp').
Proof.
  revert inp'. induction fuel as [|fuel IH]; intros inp' Hsuf; [done|]. cbn.
  destruct inp' as [|[line|e] rest]; try done.
  assert (Ok line ∈ inp) as Hin.
  { destruct Hsuf as [pre ->]. apply elem_of_app. right. set_solver. }
  eapply steps_ok_bind_returns; [|apply run_command_shorter|].
  - pose proof (run_command_may cardano line rest) as Hm.
    destruct (split_whitespace line) as [|word args] eqn:Ew.
    + eapply steps_ok_mono; [done| |exact Hm]. done.
    + eapply steps_ok_mono; [done| |exact Hm]. intros r Hr. exists line, word.
      by rewrite Ew.
  - intros [rest'|] Hs; [|done]. apply IH. etrans; [exact Hs|]. etrans; [|exact Hsuf].
    by apply suffix_cons_r.
Qed.
End termination.

Section theorems.
Context `{Externals} {W : Type} `{!Env W}.

(** More fuel than lines changes nothing. *)
Lemma read_command_fuel n m cardano inp s (w : W) :
  (length inp < n)%nat -> (length inp < m)%nat ->
  exec (read_command n cardano inp) s w = exec (read_command m cardano inp) s w.
Proof.
  revert m inp s w. induction n as [|n IH]; intros m inp s w Hn Hm; [lia|].
  destruct m as [|m]; [lia|]. cbn. destruct inp as [|[line|e] rest]; try done. cbn in *.
  eapply run_bind_ext; [apply run_command_shorter|].
  intros [rest'|] s' w' Hs; [|done]. apply suffix_length in Hs. apply IH; lia.
Qed.

(** C28: the shell's loop always ends: whatever is typed and whatever the libraries
    answer, the session is left (or a handler panics) after at most one iteration per
    line of input, confirmation prompts included, and a larger bound on the
    iterations would make no difference. *)
Theorem shell_terminates cardano inp s (w : W) more :
  match out (exec (poll_for_user_input cardano inp) s w) with
  | Done o => o = Some tt
  | Panicked _ => True
  end /\
  exec (read_command (S (length inp) + more) cardano inp) s w
  = exec (poll_for_user_input cardano inp) s w.
Proof.
  split.
  - apply (returns_run answer (fun o => o = Some tt)), read_command_returns. lia.
  - apply read_command_fuel; lia.
Qed.

(** C27: the shell does nothing that was not typed.  Whatever the libraries answer, every
    request of a session is one of a command that stands at the head of a line of its
    input: a channel is opened, closed or force-closed, a peer dialled or dropped, a
    payment sent, a transaction submitted only for the command that says so, and
    the operator is asked for nothing when Cardano is not enabled.  No session changes
    the swap database or the rate limiter, or forgets a payment. *)
Theorem shell_does_what_is_typed cardano inp s (w : W) :
  let r := exec (poll_for_user_input cardano inp) s w in
  keeps s (fin r) /\ Forall (fun e : event resp => typed cardano inp (projT1 e)) (log r).
Proof. apply (steps_ok_run answer keeps (typed cardano inp)). by apply read_command_typed. Qed.
End theorems.
