(* ===== verification/Startup.v ===== *)
(** * Start-up and shutdown ([src/src/main.rs])

    The configuration read at start-up, the order in which a started relay recovers
    and serves, and what happens when it stops.  The environment variables and the
    files are those of [Args.Process]; the parser of the key file's JSON envelope is
    a parameter.  Which LDK objects are built, and the tasks that only forward to LDK,
    are not modelled. *)

From S2P Require Import Prelude Effects HexUtils Text Args Mapping MappingFacts MappingSpec Types.
From S2P Require Import RateLimiter World Helpers Rows CardanoSwap Payments CardanoOfframp Recovery.
From S2P Require Import Background Api.

(** ** The chain *)

Definition chain_name (network : Network) : string :=
  match network with
  | Mainnet => "main"
  | RegtestNet => "regtest"
  | SignetNet => "signet"
  | Testnet => "test"
  end.

(** The relay returns when bitcoind runs another network. *)
Definition check_chain (network : Network) (bitcoind_chain : string) : startup unit :=
  if String.eqb bitcoind_chain (chain_name network) then Started tt else Refused.

(** The Esplora backend: its URL, and the path of the wallet's seed. *)
Definition esplora_backend (p : Process) (ldk_data_dir : string) : option (string * string) :=
  esplora_url ← env_var p "BITCOIN_ESPLORA_URL";
  Some (esplora_url, default (ldk_data_dir +:+ "/wallet_seed.txt")
                       (env_var p "BITCOIN_WALLET_SEED_PATH")).

(** One tick of the task that syncs the wallet: whether it updates the fees, and the
    counter afterwards. *)
Definition sync_tick (fee_counter : Z) : bool * Z :=
  let fee_counter := wrap_u32 (fee_counter + 1) in (fee_counter mod 2 =? 0, fee_counter).

(** ** The node's key seed

    [file] is the content of [keys_seed] when it can be read, [fresh] what the random
    generator fills in, and the three flags say whether the file can be created,
    written and synced.  The result is the seed and the content of the file. *)
Definition keys_seed (file : option bytes) (fresh : bytes) (created written synced : bool) :
  startup (bytes * option bytes) :=
  match file with
  | Some seed =>
      if negb (length seed =? 32)%nat then Aborted "assertion `left == right` failed"
      else Started (seed, Some seed)
  | None =>
      if negb created then Refused
      else if negb written then Aborted "Failed to write node keys seed to disk"
      else if negb synced then Aborted "Failed to sync node keys seed to disk"
      else Started (fresh, Some fresh)
  end.

(** [minimum_depth] of a channel, when it is to be changed. *)
Definition min_depth (p : Process) : Z :=
  default 6 (env_var p "LDK_MIN_CHANNEL_CONFIRMATIONS" ≫= parse_uint u32_max).
Definition minimum_depth_override (p : Process) : option Z :=
  if negb (min_depth p =? 6) then Some (min_depth p) else None.

(** ** The operator agent *)

Definition expect {A} (o : option A) (msg : string) : startup A :=
  match o with Some a => Started a | None => Aborted msg end.

Section operator.
(** [serde_json::from_str], then [v["cborHex"].as_str()]. *)
Context (json_cbor_hex : string -> option (option string)).

Definition skey_hex (p : Process) (path : string) : startup string :=
  let! text := expect (read_to_string p path) "failed to read CARDANO_SKEY_PATH file" in
  let skey_raw := trim text in
  if starts_with skey_raw "{" then
    let! v := expect (json_cbor_hex skey_raw) "CARDANO_SKEY_PATH: invalid JSON envelope" in
    let! cbor_hex := expect v "CARDANO_SKEY_PATH: JSON missing 'cborHex' field" in
    Started (default cbor_hex (strip_prefix "5820" cbor_hex))
  else Started skey_raw.

(** [format!("{:0width$x}", n)] *)
Fixpoint hex_loop (fuel : nat) (n : Z) (acc : string) : string :=
  match fuel with
  | O => acc
  | S fuel =>
      let acc := String (hex_digit (n mod 16)) acc in
      if n <? 16 then acc else hex_loop fuel (n / 16) acc
  end.
Fixpoint zeros (n : nat) : string :=
  match n with O => EmptyString | S n => String (hex_digit 0) (zeros n) end.
(** A [usize] has at most sixteen hexadecimal digits. *)
Definition hex_fmt (width : nat) (n : Z) : string :=
  let digits := hex_loop 16 n EmptyString in
  zeros (width - String.length digits) +:+ digits.

(** The CBOR byte-string header put around the compiled script. *)
Definition wrap_script (script_cbor_raw : string) : string :=
  let script_bytes_len := Z.of_nat (String.length script_cbor_raw / 2) in
  if script_bytes_len <? 24 then hex_fmt 2 (0x40 + script_bytes_len) +:+ script_cbor_raw
  else if script_bytes_len <? 256 then "58" +:+ hex_fmt 2 script_bytes_len +:+ script_cbor_raw
  else "59" +:+ hex_fmt 4 script_bytes_len +:+ script_cbor_raw.

Definition script_cbor (p : Process) (path : string) : startup string :=
  let! text := expect (read_to_string p path) "failed to read CARDANO_SCRIPT_CBOR_PATH file" in
  Started (wrap_script (trim text)).

(** [CardanoConfig] and [OperatorConfig]. *)
Record OperatorConfig := mkOperatorConfig {
  oc_blockfrost_url : string;
  oc_blockfrost_key : string;
  oc_script_address : string;
  oc_skey_hex : string;
  oc_operator_address : string;
  oc_operator_pkh : string;
  oc_script_cbor : string;
  oc_cbtc_policy : string;
  oc_cbtc_name : string;
}.

(** [cost_models] says whether the agent's [init] succeeds. *)
Definition operator_agent (p : Process) (cardano : option CardanoRelayConfig) (cost_models : bool) :
  startup (option OperatorConfig) :=
  match cardano with
  | None => Started None
  | Some cfg =>
      let! key := skey_hex p (skey_path cfg) in
      let! script := script_cbor p (script_cbor_path cfg) in
      if negb cost_models then Aborted "failed to fetch cost models from Blockfrost"
      else Started (Some (mkOperatorConfig (blockfrost_url cfg) (blockfrost_key cfg)
             (cfg_script_address cfg) key (cfg_operator_address cfg) (operator_pkh cfg) script
             (cbtc_policy_id cfg) (cbtc_asset_name cfg)))
  end.
End operator.

(** ** The API server *)

Definition env_or (p : Process) (key dflt : string) : string := default dflt (env_var p key).

Record ApiServer := mkApiServer {
  server_state : ApiState;
  server_limiter : RateLimiter;
  server_port : Z;
}.

Definition api_server (p : Process) (op : OperatorConfig) : startup ApiServer :=
  let auth_token := env_var p "CARDANO_API_AUTH_TOKEN" in
  let! max_active_swaps := expect (parse_i64 (env_or p "CARDANO_MAX_ACTIVE_SWAPS" "50"))
    "CARDANO_MAX_ACTIVE_SWAPS must be a number" in
  let! max_active_offramps := expect (parse_i64 (env_or p "CARDANO_MAX_ACTIVE_OFFRAMPS" "50"))
    "CARDANO_MAX_ACTIVE_OFFRAMPS must be a number" in
  let! swap_expiry_secs := expect (parse_i64 (env_or p "CARDANO_SWAP_EXPIRY_SECONDS" "3600"))
    "CARDANO_SWAP_EXPIRY_SECONDS must be a number" in
  if swap_expiry_secs <=? 0
  then Aborted ("CARDANO_SWAP_EXPIRY_SECONDS must be positive (got " +:+ pretty swap_expiry_secs +:+ ")")
  else
    let swap_expiry_ms := wrap_i64 (swap_expiry_secs * 1000) in
    let! rate_limit_max := expect (parse_uint u32_max (env_or p "CARDANO_API_RATE_LIMIT_MAX" "10"))
      "CARDANO_API_RATE_LIMIT_MAX must be a number" in
    let! rate_limit_window_secs :=
      expect (parse_uint u64_max (env_or p "CARDANO_API_RATE_LIMIT_WINDOW_SECS" "60"))
        "CARDANO_API_RATE_LIMIT_WINDOW_SECS must be a number" in
    let! api_port := expect (parse_uint 65535 (env_or p "CARDANO_API_PORT" "3000"))
      "CARDANO_API_PORT must be a valid port number" in
    Started (mkApiServer
      (mkApi auth_token max_active_swaps max_active_offramps swap_expiry_ms
         (oc_script_address op) (oc_cbtc_policy op) (oc_cbtc_name op))
      (limiter_new rate_limit_max rate_limit_window_secs) api_port).

(** ** What runs before the API accepts requests *)

Section sequence.
Context `{Externals}.
Open Scope prog_scope.

(** [CARDANO_RECONCILE_ON_STARTUP] *)
Definition reconcile_on_startup (p : Process) : bool :=
  String.eqb (env_or p "CARDANO_RECONCILE_ON_STARTUP" "") "1".

Definition recover_and_reconcile (cardano reconcile : bool) : relay_prog unit :=
  (if cardano then recover_fulfilling_swaps ;; recover_depositing_offramps else Ret tt) ;;
  if cardano && reconcile then cancel_expired ;; cancel_expired_offramps ;; Ret tt else Ret tt.
End sequence.

(** ** Shutdown *)

Inductive ShutdownStep :=
| StopListening
| DisconnectAllPeers
| PersistChannelManager
| PanicExit (e : string)
| SignalProcessor
| AwaitProcessor.

(** [bg] is what the background processor's task returned when it ended before the
    shell did, [closed] whether it has dropped the exit channel. *)
Definition shutdown (bg : option (result (result unit string) string)) (closed : bool) :
  list ShutdownStep :=
  [StopListening; DisconnectAllPeers] ++
  match default (Ok (Ok tt)) bg with
  | Err e => [PersistChannelManager; PanicExit e]
  | Ok _ => if negb closed then [SignalProcessor; AwaitProcessor] else []
  end.

(** ** Theorems *)

(** The node keeps its identity: once a start has got a seed, by reading it or by
    creating it, every later start gets the same one, whatever the random generator
    would have said, and a seed is always 32 bytes. *)
Lemma keys_seed_stable file fresh c w y seed file' fresh' c' w' y' :
  length fresh = 32%nat -> keys_seed file fresh c w y = Started (seed, file') ->
  length seed = 32%nat /\ keys_seed file' fresh' c' w' y' = Started (seed, file').
Proof.
  unfold keys_seed. intros Hf. destruct file as [old|].
  - destruct (Nat.eqb_spec (length old) 32); cbn; [|done]. intros [= <- <-].
    split; [done|]. by destruct (Nat.eqb_spec (length old) 32).
  - destruct c; cbn; [|done]. destruct w; cbn; [|done]. destruct y; cbn; [|done].
    intros [= <- <-]. rewrite Hf. done.
Qed.

Lemma keys_seed_stable_witness :
  keys_seed (Some (replicate 32 7)) [1] false false false
  = Started (replicate 32 7, Some (replicate 32 7)).
Proof.
  apply (keys_seed_stable None (replicate 32 7) true true true (replicate 32 7)
    (Some (replicate 32 7)) [1] false false false); reflexivity.
Defined.

(** *** The script header *)

(** One CBOR byte string of definite length (RFC 8949, major type 2): its content. *)
Definition cbor_content (len : Z) (rest : list Z) : option (list Z) :=
  if Z.of_nat (length rest) =? len then Some rest else None.
Definition cbor_unwrap (bs : list Z) : option (list Z) :=
  match bs with
  | b :: rest =>
      if (0x40 <=? b) && (b <? 0x58) then cbor_content (b - 0x40) rest
      else if b =? 0x58 then
        match rest with n :: rest => cbor_content n rest | [] => None end
      else if b =? 0x59 then
        match rest with n1 :: n0 :: rest => cbor_content (256 * n1 + n0) rest | _ => None end
      else None
  | [] => None
  end.

Lemma hex_str_app a b : hex_str (a ++ b) = hex_str a +:+ hex_str b.
Proof. induction a as [|x a IH]; cbn; [done|]. by rewrite IH. Qed.

Lemma hex_fmt_byte n : is_byte n -> hex_fmt 2 n = hex_str [n].
Proof.
  unfold is_byte, hex_fmt. intros Hn. cbn [hex_loop]. destruct (Z.ltb_spec n 16) as [Hlt|Hge].
  - cbn. rewrite Z.mod_small, Z.div_small by lia. done.
  - assert (n / 16 < 16) by (apply Z.div_lt_upper_bound; lia).
    rewrite (proj2 (Z.ltb_lt (n / 16) 16)) by lia. cbn.
    rewrite (Z.mod_small (n / 16)) by (split; [apply Z.div_pos|]; lia). done.
Qed.

Lemma digits_of_low n : n mod 256 / 16 = n / 16 mod 16 /\ n mod 256 mod 16 = n mod 16.
Proof. Z.to_euclidean_division_equations. lia. Qed.

Lemma hex_fmt_two n : 256 <= n < 65536 -> hex_fmt 4 n = hex_str [n / 256; n mod 256].
Proof.
  unfold hex_fmt. intros Hn. destruct (digits_of_low n) as [E1 E2]. cbn [hex_str].
  rewrite E1, E2. cbn [hex_loop]. rewrite (proj2 (Z.ltb_ge n 16)) by lia.
  rewrite (proj2 (Z.ltb_ge (n / 16) 16)) by (apply Z.div_le_lower_bound; lia).
  rewrite !Z.div_div by lia. change (16 * 16) with 256.
  destruct (Z.ltb_spec (n / 256) 16) as [Hlt|Hge].
  - cbn [String.length Nat.sub zeros]. rewrite <- (Z.div_div n 256 16) by lia.
    rewrite (Z.div_small (n / 256)), (Z.mod_small (n / 256)); [done|..];
      (split; [apply Z.div_pos; lia|done]).
  - assert (n / 256 / 16 < 16).
    { rewrite Z.div_div by lia. apply Z.div_lt_upper_bound; lia. }
    rewrite (proj2 (Z.ltb_lt (n / (256 * 16)) 16)) by (rewrite <- Z.div_div; lia).
    cbn [String.length Nat.sub zeros]. rewrite <- (Z.div_div n 256 16) by lia.
    rewrite (Z.mod_small (n / 256 / 16)); [done|]. split; [apply Z.div_pos; lia|done].
Qed.

(** The header of a script of [n] bytes. *)
Definition cbor_header (n : Z) : list Z :=
  if n <? 24 then [0x40 + n] else if n <? 256 then [0x58; n] else [0x59; n / 256; n mod 256].

Lemma wrap_script_header bs :
  Z.of_nat (length bs) < 65536 ->
  wrap_script (hex_str bs) = hex_str (cbor_header (Z.of_nat (length bs)) ++ bs).
Proof.
  intros Hlen. unfold wrap_script, cbor_header. rewrite hex_str_length.
  replace (2 * length bs / 2)%nat with (length bs)
    by (rewrite Nat.mul_comm, Nat.div_mul; lia).
  destruct (Z.ltb_spec (Z.of_nat (length bs)) 24) as [H1|H1].
  { rewrite hex_fmt_byte by (unfold is_byte; lia). by rewrite hex_str_app. }
  destruct (Z.ltb_spec (Z.of_nat (length bs)) 256) as [H2|H2].
  - rewrite hex_fmt_byte by (unfold is_byte; lia). done.
  - rewrite hex_fmt_two by lia. done.
Qed.

Lemma cbor_header_bytes n : 0 <= n < 65536 -> Forall is_byte (cbor_header n).
Proof.
  intros Hn. unfold cbor_header, is_byte.
  destruct (Z.ltb_spec n 24); [repeat constructor; lia|].
  destruct (Z.ltb_spec n 256); repeat constructor; try lia; Z.to_euclidean_division_equations; lia.
Qed.

(** The double CBOR wrapping of the compiled script is undone by decoding one layer:
    for a script of fewer than 65536 bytes, the text handed to the Cardano client is the
    hexadecimal of one definite-length byte string whose content is exactly the file's
    bytes. *)
Lemma wrap_script_unwraps bs :
  Forall is_byte bs -> Z.of_nat (length bs) < 65536 ->
  to_vec (wrap_script (hex_str bs)) ≫= cbor_unwrap = Some bs.
Proof.
  intros Hb Hlen. rewrite wrap_script_header by done. rewrite to_vec_bytes.
  2: { apply Forall_app_2; [apply cbor_header_bytes; lia|done]. }
  cbn [mbind option_bind]. unfold cbor_header, cbor_unwrap, cbor_content.
  destruct (Z.ltb_spec (Z.of_nat (length bs)) 24) as [H1|H1]; cbn [app].
  { rewrite (proj2 (Z.leb_le _ _)), (proj2 (Z.ltb_lt _ 0x58)) by lia. cbn [andb].
    by rewrite (proj2 (Z.eqb_eq _ _)) by lia. }
  destruct (Z.ltb_spec (Z.of_nat (length bs)) 256) as [H2|H2]; cbn [app].
  - cbn -[Z.of_nat]. by rewrite Z.eqb_refl.
  - cbn -[Z.of_nat Z.div Z.modulo Z.mul]. rewrite <- Z.div_mod by lia. by rewrite Z.eqb_refl.
Qed.

(** A script of 300 bytes. *)
Lemma wrap_script_unwraps_witness :
  to_vec (wrap_script (hex_str (replicate 300 7))) ≫= cbor_unwrap = Some (replicate 300 7).
Proof.
  apply (wrap_script_unwraps (replicate 300 7)); [|vm_compute; reflexivity].
  apply Forall_replicate. split; vm_compute; congruence.
Defined.

(** From 65536 bytes on the length no longer fits the two bytes of the header: the text
    has an odd number of digits. *)
Lemma wrap_script_too_long bs :
  65536 <= Z.of_nat (length bs) < 2 ^ 20 ->
  String.length (wrap_script (hex_str bs)) = (2 * length bs + 7)%nat.
Proof.
  intros Hlen. unfold wrap_script. rewrite hex_str_length.
  replace (2 * length bs / 2)%nat with (length bs) by (rewrite Nat.mul_comm, Nat.div_mul; lia).
  rewrite (proj2 (Z.ltb_ge _ 24)), (proj2 (Z.ltb_ge _ 256)) by lia.
  rewrite !string_length_app, hex_str_length. unfold hex_fmt. cbn [hex_loop].
  rewrite (proj2 (Z.ltb_ge _ 16)) by lia. rewrite !Z.div_div by lia.
  rewrite !(proj2 (Z.ltb_ge (_ / _) 16)) by (apply Z.div_le_lower_bound; lia).
  rewrite (proj2 (Z.ltb_lt (_ / _) 16)) by (apply Z.div_lt_upper_bound; lia).
  cbn [zeros Nat.sub String.length]. rewrite string_length_app. cbn. lia.
Qed.

(** *** The API server *)

Lemma expect_started {A} (o : option A) msg a : expect o msg = Started a -> o = Some a.
Proof. destruct o; cbn; congruence. Qed.

Lemma parse_digits_bounds max s acc v :
  0 <= acc -> parse_digits max acc s = Some v -> acc <= v.
Proof.
  revert acc. induction s as [|c s IH]; intros acc Hacc; cbn; [intros [= ->]; lia|].
  destruct (_ && _) eqn:E; [|done]. apply andb_true_iff in E as [[Hd _]%andb_true_iff _].
  apply Z.leb_le in Hd. intros H%IH; lia.
Qed.

Lemma parse_digits_max max s acc v : acc <= max -> parse_digits max acc s = Some v -> v <= max.
Proof.
  revert acc. induction s as [|c s IH]; intros acc Hacc; cbn; [intros [= ->]; lia|].
  destruct (_ && _) eqn:E; [|done]. apply andb_true_iff in E as [_ Hm]. apply Z.leb_le in Hm.
  by apply IH.
Qed.

Lemma parse_uint_bounds max s v : 0 <= max -> parse_uint max s = Some v -> 0 <= v <= max.
Proof.
  intros Hm. unfold parse_uint. destruct s as [|c s]; [done|].
  destruct (_ =? 43); [destruct (str_is_empty s); [done|]|]; intros H;
    (split; [by eapply parse_digits_bounds|by eapply parse_digits_max]).
Qed.

Lemma parse_i64_bounds s v : parse_i64 s = Some v -> in_i64 v.
Proof.
  unfold parse_i64, in_i64, i64_min, i64_max. destruct s as [|c s]; [done|].
  destruct (Ascii.eqb c MINUS).
  - destruct (str_is_empty s); [done|]. intros (d & Hd & ->)%fmap_Some.
    pose proof (parse_digits_bounds _ _ _ _ (Z.le_refl 0) Hd).
    pose proof (parse_digits_max _ _ _ _ (ltac:(lia) : 0 <= 2 ^ 63) Hd). lia.
  - intros H%parse_uint_bounds; unfold i64_max in *; lia.
Qed.

(** The seconds an expiry setting stands for. *)
Definition expiry_setting (p : Process) : option Z :=
  parse_i64 (env_or p "CARDANO_SWAP_EXPIRY_SECONDS" "3600").

(** A relay whose API server starts has usable settings: the limits are 64-bit, the
    port is one, the limiter's window and maximum are not negative, and the time a swap
    or offramp stays open is the configured number of seconds, positive, in
    milliseconds, as long as that product fits 64 bits; a larger setting passes the
    check for positive numbers and wraps around. *)
Lemma api_server_settings p op srv :
  api_server p op = Started srv ->
  let st := server_state srv in
  auth_token st = env_var p "CARDANO_API_AUTH_TOKEN" /\
  in_i64 (max_active_swaps st) /\ in_i64 (max_active_offramps st) /\
  0 <= server_port srv <= 65535 /\
  0 <= max_per_window (server_limiter srv) <= u32_max /\ 0 <= window (server_limiter srv) /\
  exists secs, expiry_setting p = Some secs /\ 0 < secs /\
    (if secs <=? i64_max / 1000 then swap_expiry_ms st = secs * 1000 /\ 0 < swap_expiry_ms st
     else swap_expiry_ms st = wrap_i64 (secs * 1000)).
Proof.
  unfold api_server, startup_bind, expiry_setting.
  destruct (expect (parse_i64 (env_or p "CARDANO_MAX_ACTIVE_SWAPS" "50")) _) as [ms| |] eqn:E1; try done.
  destruct (expect (parse_i64 (env_or p "CARDANO_MAX_ACTIVE_OFFRAMPS" "50")) _) as [mo| |] eqn:E2;
    try done.
  destruct (expect (parse_i64 (env_or p "CARDANO_SWAP_EXPIRY_SECONDS" "3600")) _) as [secs| |] eqn:E3;
    try done.
  destruct (Z.leb_spec secs 0) as [|Hpos]; [done|].
  destruct (expect (parse_uint u32_max _) _) as [rl| |] eqn:E4; try done.
  destruct (expect (parse_uint u64_max _) _) as [rw| |] eqn:E5; try done.
  destruct (expect (parse_uint 65535 _) _) as [port| |] eqn:E6; try done.
  intros [= <-]. cbn -[i64_max Z.mul Z.div].
  apply expect_started in E1, E2, E3, E4, E5, E6.
  apply parse_i64_bounds in E1, E2. pose proof (parse_i64_bounds _ _ E3) as Hs.
  apply parse_uint_bounds in E4, E5, E6; [|unfold u64_max, u32_max in *; lia..].
  split_and!; try done; try lia. exists secs. split; [done|]. split; [done|].
  destruct (Z.leb_spec secs (i64_max / 1000)) as [Hle|]; [|done].
  assert (secs * 1000 <= i64_max) by (pose proof (Z.mul_div_le i64_max 1000); lia).
  rewrite wrap_i64_id by (unfold_ints; lia). split; [done|lia].
Qed.

(** A process with no variable set, and one with an expiry of 2^63 - 1 seconds. *)
Definition bare_process : Process := mkProcess [] (fun _ => None) None (fun _ => None).
Definition long_expiry : Process :=
  mkProcess [] (fun key =>
    if String.eqb key "CARDANO_SWAP_EXPIRY_SECONDS" then Some "9223372036854775807"%string else None)
    None (fun _ => None).
Definition demo_operator_config : OperatorConfig :=
  mkOperatorConfig "url" "key" "addr_script" "skey" "addr_op" "pkh" "4e4d01000033222220051200120011"
    "policy" "name".

Lemma api_server_settings_witness :
  api_server bare_process demo_operator_config
  = Started (mkApiServer (mkApi None 50 50 3600000 "addr_script" "policy" "name")
      (limiter_new 10 60) 3000) /\
  exists secs, expiry_setting bare_process = Some secs /\ 0 < secs.
Proof.
  split; [vm_compute; reflexivity|].
  destruct (api_server_settings bare_process demo_operator_config
    (mkApiServer (mkApi None 50 50 3600000 "addr_script" "policy" "name") (limiter_new 10 60) 3000))
    as (_ & _ & _ & _ & _ & _ & secs & Hs & Hpos & _); [vm_compute; reflexivity|].
  exists secs. split; [exact Hs|exact Hpos].
Defined.

(** The largest setting gives a negative expiry: every swap is expired when created. *)
Lemma expiry_wraps :
  api_server long_expiry demo_operator_config
  = Started (mkApiServer (mkApi None 50 50 (-1000) "addr_script" "policy" "name")
      (limiter_new 10 60) 3000).
Proof. vm_compute. reflexivity. Qed.

(** *** Recovery before service *)

Section recovery.
Context `{Externals} {W : Type} `{!Env W}.
Open Scope prog_scope.

(** Each recovery pass leaves the other table alone. *)
Definition same_offramps (s s' : Relay) : Prop :=
  SwapDb.offramp_mappings (swap_db s') = SwapDb.offramp_mappings (swap_db s).
Definition same_swaps (s s' : Relay) : Prop :=
  SwapDb.swap_mappings (swap_db s') = SwapDb.swap_mappings (swap_db s).

(** Recovery asks the operator, and waits between its attempts. *)
Definition recovering (r : Req) : Prop :=
  match r with ROp _ | RSleep _ | RNow | RInstant => True | _ => False end.

Lemma db_step P {A} (f : SwapDb.t -> A * SwapDb.t) :
  (forall s, P s (set_db s (f (swap_db s)).2)) ->
  steps_ok (resp := resp) P recovering (db_op f).
Proof. intros Hf s. specialize (Hf s). unfold db_op. by destruct (f (swap_db s)). Qed.

Lemma query_steps P {T} n delay ctx (f : ChainState.t -> option T) :
  steps_ok P recovering (query_state_with_retry n delay ctx f).
Proof. apply steps_ok_calls. by apply calls_ok_query. Qed.

Lemma recover_swaps_offramps :
  steps_ok same_offramps recovering recover_fulfilling_swaps.
Proof.
  assert (forall ms, steps_ok same_offramps recovering (for_each ms recover_swap)) as Hfor.
  { intros ms. apply steps_for_each. intros m. apply steps_ok_bind; [apply query_steps|].
    intros [i|e]; [|by apply db_step]. split; [done|]. intros [tx|e]; [|done].
    split; [done|]. intros [h|e]; [by apply db_step|done]. }
  intros s. split; [done|]. cbn [fst bind]. by destruct (SwapDb.get_by_status _ _).
Qed.

Lemma recover_offramps_swaps :
  steps_ok same_swaps recovering recover_depositing_offramps.
Proof.
  assert (forall id e n s, same_swaps s
    (set_db s (SwapDb.transition_offramp_status id e n (swap_db s)).2)) as Htr by done.
  assert (forall {A} (f : SwapDb.t -> A) (k : A -> relay_prog unit),
    (forall x, steps_ok same_swaps recovering (k x)) ->
    steps_ok same_swaps recovering (bind (db_read f) k)) as Hread.
  { intros A f k Hk s. split; [done|]. apply Hk. }
  apply Hread. intros vs. apply steps_ok_bind.
  { apply steps_for_each. intros m. apply steps_ok_bind; [by apply db_step|done]. }
  intros _. apply Hread. intros ps. apply steps_ok_bind.
  { apply steps_for_each. intros m. apply steps_ok_bind; [by apply db_step|].
    intros []; [by apply db_step|done]. }
  intros _. apply Hread. intros ds. apply steps_for_each. intros m.
  apply steps_ok_bind; [apply query_steps|].
  intros [o|e]; [|by apply db_step]. split; [done|]. intros [tx|e]; [|done].
  split; [done|]. intros [h|e]; [by apply db_step|done].
Qed.

(** What a swap is after the relay has started. *)
Definition swap_started (m m' : SwapMapping) : Prop :=
  m' = m \/ (Swap.status m = SwapStatus.Fulfilling /\
              exists tx, m' = Swap.set_status SwapStatus.Completed tx m).

(** What an offramp is after the relay has started: not being verified or paid, and as
    before unless it was in flight. *)
Definition offramp_started (m m' : OfframpMapping) : Prop :=
  Offramp.status m' <> OfframpStatus.PendingVerification /\
  Offramp.status m' <> OfframpStatus.PayingLightning /\
  (Offramp.status m <> OfframpStatus.PendingVerification ->
   Offramp.status m <> OfframpStatus.PayingLightning ->
   Offramp.status m <> OfframpStatus.DepositingToPool -> m' = m).

Definition rows_related {K M} (get : K -> SwapDb.t -> option M) (R : M -> M -> Prop) (s s' : Relay) :
  Prop :=
  forall k, match get k (swap_db s), get k (swap_db s') with
            | Some m, Some m' => R m m'
            | None, None => True
            | _, _ => False
            end.

Lemma swaps_after_recovery s (w : W) :
  db_wf (swap_db s) ->
  rows_related SwapDb.get_by_payment_hash swap_started s (fin (exec recover_fulfilling_swaps s w)).
Proof.
  intros Hwf h. pose proof (recover_swaps_row s w h Hwf) as Hr. cbn zeta in Hr.
  destruct (SwapDb.get_by_payment_hash h (swap_db s)) as [m|],
    (SwapDb.get_by_payment_hash h (swap_db (fin _))) as [m'|]; try done.
  destruct (decide (Swap.status m = SwapStatus.Fulfilling)) as [Hst|Hst]; [|by left].
  destruct Hr as (a & seg & b & _ & _ & [(hash & -> & _)|[(-> & _)|(-> & _)]]); [right..|left]; eauto.
Qed.

Lemma offramps_after_recovery s (w : W) :
  db_wf (swap_db s) ->
  let r := exec recover_depositing_offramps s w in
  out r = Done tt /\ db_wf (swap_db (fin r)) /\
  rows_related SwapDb.get_offramp_by_id offramp_started s (fin r).
Proof.
  intros Hwf. destruct (wp_exec _ s w _ (wp_recover_offramps s Hwf)) as (Ho & Hwf' & Hr).
  split; [done|]. split; [done|]. intros id. specialize (Hr id).
  destruct (SwapDb.get_offramp_by_id id (swap_db s)) as [m|],
    (SwapDb.get_offramp_by_id id (swap_db (fin _))) as [m'|]; [|done..].
  unfold offramp_started, offramp_recovered in *.
  destruct (Offramp.status m) eqn:Em; try (subst m'; cbn; rewrite ?Em; done).
  destruct Hr as (_ & _ & _ & _ & _ & [[-> _]|[-> _]]); cbn; rewrite ?Em; done.
Qed.

Lemma swaps_recovery_ends s (w : W) :
  db_wf (swap_db s) ->
  let r := exec recover_fulfilling_swaps s w in out r = Done tt /\ db_wf (swap_db (fin r)).
Proof.
  intros Hwf. apply (wp_exec recover_fulfilling_swaps s w (fun o s' _ => o = Done tt /\ db_wf (swap_db s'))).
  apply wp_recover_swaps; [done|]. intros s' l Hd. split; [done|]. apply Hd.
Qed.
End recovery.

Section sequence_theorem.
Context `{Externals} {W : Type} `{!Env W}.
Open Scope prog_scope.

Lemma rows_related_swaps R s s1 s2 :
  rows_related SwapDb.get_by_payment_hash R s s1 -> same_swaps s1 s2 ->
  rows_related SwapDb.get_by_payment_hash R s s2.
Proof.
  intros Hr E h. specialize (Hr h). unfold SwapDb.get_by_payment_hash in *. by rewrite E.
Qed.

Lemma rows_related_offramps R s s1 s2 :
  same_offramps s s1 -> rows_related SwapDb.get_offramp_by_id R s1 s2 ->
  rows_related SwapDb.get_offramp_by_id R s s2.
Proof.
  intros E Hr id. specialize (Hr id). unfold SwapDb.get_offramp_by_id in *. by rewrite <- E.
Qed.

#[local] Instance same_offramps_refl : Reflexive same_offramps.
Proof. by intros s. Qed.
#[local] Instance same_offramps_trans : Transitive same_offramps.
Proof. unfold same_offramps. intros s1 s2 s3. congruence. Qed.
#[local] Instance same_swaps_refl : Reflexive same_swaps.
Proof. by intros s. Qed.
#[local] Instance same_swaps_trans : Transitive same_swaps.
Proof. unfold same_swaps. intros s1 s2 s3. congruence. Qed.

Lemma reconcile_calls : calls_ok recovering (cancel_expired ;; cancel_expired_offramps ;; Ret tt).
Proof.
  apply calls_ok_bind; [by apply calls_cancel_expired|]. intros _.
  apply calls_ok_bind; [by apply calls_cancel_expired_offramps|done].
Qed.

Lemma recovery_settles reconcile s (w : W) :
  db_wf (swap_db s) ->
  let r := exec (recover_and_reconcile true reconcile) s w in
  out r = Done tt /\ db_wf (swap_db (fin r)) /\
  rows_related SwapDb.get_by_payment_hash swap_started s (fin r) /\
  rows_related SwapDb.get_offramp_by_id offramp_started s (fin r).
Proof.
  intros Hwf. cbn zeta.
  destruct (swaps_recovery_ends s w Hwf) as [Ho1 Hwf1]. pose proof (swaps_after_recovery s w Hwf) as Hs1.
  destruct (steps_ok_run answer _ _ _ s w recover_swaps_offramps) as [Hsame1 _].
  set (r1 := exec recover_fulfilling_swaps s w) in *.
  destruct (offramps_after_recovery (fin r1) (world r1) Hwf1) as (Ho2 & Hwf2 & Hs2).
  destruct (steps_ok_run answer _ _ _ (fin r1) (world r1) recover_offramps_swaps) as [Hsame2 _].
  set (r2 := exec recover_depositing_offramps (fin r1) (world r1)) in *.
  destruct (run_bind_done answer recover_fulfilling_swaps (fun _ => recover_depositing_offramps)
    s w tt Ho1) as [Ef1 Eo1].
  assert (out (exec (recover_fulfilling_swaps ;; recover_depositing_offramps) s w) = Done tt) as Ho
    by (etrans; [exact Eo1|exact Ho2]).
  destruct (run_bind_done answer (recover_fulfilling_swaps ;; recover_depositing_offramps)
    (fun _ => if true && reconcile then cancel_expired ;; cancel_expired_offramps ;; Ret tt else Ret tt)
    s w tt Ho) as [Ef Eo].
  set (rest := if true && reconcile then _ else _) in *.
  assert (calls_ok recovering rest) as Hrest by (destruct reconcile; [apply reconcile_calls|done]).
  destruct (run_calls answer _ rest (fin (run answer (recover_fulfilling_swaps ;;
    recover_depositing_offramps) s w)) (world (run answer (recover_fulfilling_swaps ;;
    recover_depositing_offramps) s w)) Hrest) as [Er [[] Eor]].
  change (exec (recover_and_reconcile true reconcile) s w)
    with (run answer ((recover_fulfilling_swaps ;; recover_depositing_offramps) ;; rest) s w).
  rewrite Ef, Eo, Er, Eor, Ef1.
  split; [done|]. split; [done|]. split; [by eapply rows_related_swaps|].
  by eapply rows_related_offramps.
Qed.

(** The sequence makes only the requests of recovery. *)
Lemma recover_and_reconcile_calls cardano reconcile :
  steps_ok (fun _ _ => True) recovering (recover_and_reconcile cardano reconcile).
Proof.
  unfold recover_and_reconcile. destruct cardano; cbn [andb]; [|by destruct reconcile].
  apply steps_ok_bind; [apply steps_ok_bind; [|intros _]|intros _].
  - eapply steps_ok_mono, recover_swaps_offramps; done.
  - eapply steps_ok_mono, recover_offramps_swaps; done.
  - destruct reconcile; [|done]. apply steps_ok_calls, reconcile_calls.
Qed.

(** Before the API accepts a request, the relay has settled what a crash left
    behind.  With Cardano enabled the start-up sequence never panics; it keeps the
    database well formed and every row in place; no offramp is then being verified or
    paid; a swap that was being fulfilled is completed or still waits for the next
    start; every other row, and every row when Cardano is off, is untouched.  The
    optional on-chain reconciliation changes nothing in the relay. *)
Lemma startup_settles reconcile s (w : W) :
  db_wf (swap_db s) ->
  let r := exec (recover_and_reconcile true reconcile) s w in
  out r = Done tt /\ db_wf (swap_db (fin r)) /\
  rows_related SwapDb.get_by_payment_hash swap_started s (fin r) /\
  rows_related SwapDb.get_offramp_by_id offramp_started s (fin r) /\
  fin (exec (recover_and_reconcile false reconcile) s w) = s.
Proof.
  intros Hwf. destruct (recovery_settles reconcile s w Hwf) as (Ho & Hw & Hs & Hf).
  split_and!; [exact Ho|exact Hw|exact Hs|exact Hf|done].
Qed.
End sequence_theorem.

(** A background processor that returned an error (it does so when it cannot write to
    disk) stops the relay without a last attempt to persist the channel manager; only a
    task that could not be joined leads to one. *)
Lemma shutdown_persists bg closed :
  PersistChannelManager ∈ shutdown bg closed <-> exists e, bg = Some (Err e).
Proof.
  unfold shutdown. rewrite elem_of_app. split.
  - intros [Hin|Hin]; [set_solver|]. destruct bg as [[r|e]|]; cbn in Hin; [|by eexists|];
      destruct closed; cbn in Hin; set_solver.
  - intros [e ->]. right. cbn. set_solver.
Qed.
