(* ===== verification/Wallet.v ===== *)
(** * Broadcast, fees and the on-chain wallet ([src/src/bitcoind_client.rs],
    [src/src/bdk_wallet.rs], [src/src/esplora.rs], start-up in [src/src/main.rs])

    LDK reaches the chain through one client with two backends: bitcoind's RPC, or
    Esplora's HTTP API together with a BDK wallet.  Both are services outside: a
    request carries what the code sends and is answered by what the code reads of the
    answer.  The state is the client itself, whose fee tables the polling tasks
    update.  The bodies of spawned tasks are the programs themselves. *)

From S2P Require Import Prelude Effects HexUtils Text Fees Args Types Convert Startup.
Open Scope prog_scope.

(** ** LDK's and BDK's view of an output *)

Record OutPoint := mkOutPoint { txid : bytes; vout : Z }.

(** [lightning::events::bump_transaction::Utxo] *)
Module LdkUtxo.
Record t := mk {
  outpoint : OutPoint;
  value : Z;                  (** satoshi *)
  script : bytes;
  satisfaction_weight : Z;
}.
End LdkUtxo.

(** [bdk_wallet::LocalOutput] *)
Module LocalOutput.
Record t := mk {
  outpoint : OutPoint;
  value : Z;
  script : bytes;
  is_confirmed : bool;
}.
End LocalOutput.

Inductive KeychainKind := External | Internal.

(** An HTTP answer: whether the status is a success, and the body when it can be read. *)
Record Response := mkResponse { is_success : bool; text : result string string }.

(** What else the relay uses of BDK, BIP 39 and serde. *)
Class WalletLib := {
  new_v0_p2wpkh : OutPoint -> Z -> bytes -> LdkUtxo.t;     (** [Utxo::new_v0_p2wpkh] *)
  Update : Type;                                            (** of a full scan *)
  Mnemonic : Type;
  mnemonic_parse : string -> result Mnemonic string;
  mnemonic_display : Mnemonic -> string;
  mnemonic_from_entropy : bytes -> result Mnemonic string;
  new_master : Network -> Mnemonic -> result string string; (** the xprv's text *)
  estimates_from_json : string -> result (gmap string f64) string;
  values_from_json : string -> result (list Json) string;   (** [Vec<serde_json::Value>] *)
  txid_from_response : Json -> result bytes IoError;        (** LDK's [TryInto<Txid>] *)
  block_hash_error : string -> string;                      (** why a text is no [BlockHash] *)
}.

Section wallet.
Context `{BitcoinLib} `{WalletLib}.

(** ** Requests *)

Inductive WReq :=
| Rpc (method : string) (params : list Json)
| HttpClientBuild (timeout_secs : Z)
| HttpGet (url : string)
| HttpPost (url body : string)
| BdkFullScan (stop_gap concurrency : Z)
| BdkApplyUpdate (u : Update)
| BdkBalance                                    (** confirmed, in satoshi *)
| BdkReveal (keychain : KeychainKind)
| BdkBuildTx (recipient : bytes) (sats fee_rate_sat_per_kwu : Z)
| BdkSign (psbt : Psbt)                         (** with default options *)
| BdkListUnspent
| BdkCreate (external internal : string) (network : Network)
| BdkEsploraBuild (url : string)
| FileExists (path : string)
| FileRead (path : string)
| FileWrite (path content : string)
| Entropy16
| SpawnFeePoll.                                  (** [handle.spawn] of the polling loop *)

Definition wresp (r : WReq) : Type :=
  match r with
  | Rpc _ _ => result Json IoError
  | HttpClientBuild _ => result unit string
  | HttpGet _ | HttpPost _ _ => result Response string
  | BdkFullScan _ _ => result Update string
  | BdkApplyUpdate _ => result unit string
  | BdkBalance => Z
  | BdkReveal _ => Address
  | BdkBuildTx _ _ _ => result Psbt string
  | BdkSign _ => result (bool * Psbt) string
  | BdkListUnspent => list LocalOutput.t
  | BdkCreate _ _ _ | BdkEsploraBuild _ => result unit string
  | FileExists _ => bool
  | FileRead _ => result string string
  | FileWrite _ _ => result unit string
  | Entropy16 => bytes
  | SpawnFeePoll => unit
  end.

(** ** The clients *)

Record EsploraClient := mkEsplora {
  base_url : string;
  esplora_fees : FeeTable;
  normal_max_feerate_sat_per_kwu : Z;
}.

Record BitcoindClient := mkClient {
  network : Network;
  fees : FeeTable;
  esplora : option EsploraClient;
  bdk_wallet : bool;           (** whether a BDK wallet is attached *)
}.

Definition set_esplora_backend (e : EsploraClient) (c : BitcoindClient) : BitcoindClient :=
  mkClient (network c) (fees c) (Some e) true.

Definition with_esplora_fees (f : FeeTable) (e : EsploraClient) : EsploraClient :=
  mkEsplora (base_url e) f (normal_max_feerate_sat_per_kwu e).

Abbreviation wprog := (Prog (St := BitcoindClient) wresp).

Definition unwrap_panic : string := "called `Option::unwrap()` on a `None` value".

(** [RpcClient::call_method]: the answer is converted, and the conversion may panic. *)
Definition call_method {A} (method : string) (params : list Json)
  (convert : Json -> option (result A IoError)) : wprog (result A IoError) :=
  let* r := call (Rpc method params) in
  match r with
  | Err e => Ret (Err e)
  | Ok j => match convert j with Some r => Ret r | None => Panic unwrap_panic end
  end.

Definition unwrap_rpc {A} (p : wprog (result A IoError)) : wprog A :=
  let* r := p in
  match r with
  | Ok a => Ret a
  | Err e => Panic ("called `Result::unwrap()` on an `Err` value: " +:+ io_display e)
  end.

(** [FeeEstimator]: the table of the Esplora client when there is one. *)
Definition est_sat_per_1000_weight (t : ConfirmationTarget) : wprog Z :=
  let* fee := reads (fun c =>
    get_est_sat_per_1000_weight (esplora_fees <$> esplora c) (fees c) t) in
  match fee with Some fee => Ret fee | None => Panic unwrap_panic end.

(** ** BDK *)

Definition BDK_CLIENT_STOP_GAP : Z := 20.
Definition BDK_CLIENT_CONCURRENCY : Z := 4.

Definition bdk_sync : wprog (result unit string) :=
  try* update := call (BdkFullScan BDK_CLIENT_STOP_GAP BDK_CLIENT_CONCURRENCY) in
  try* _ := call (BdkApplyUpdate update) in
  let* _balance := call BdkBalance in
  Ret (Ok tt).

Definition bdk_create_funding_transaction (output_script : bytes) (value_sats fee_rate : Z) :
  wprog (result Transaction string) :=
  let* r := bdk_sync in
  match r with
  | Err e => Ret (Err ("BDK wallet sync failed before funding: " +:+ e))
  | Ok _ =>
      let* r := call (BdkBuildTx output_script value_sats fee_rate) in
      match r with
      | Err e => Ret (Err ("BDK failed to build funding transaction: " +:+ e))
      | Ok psbt =>
          let* r := call (BdkSign psbt) in
          match r with
          | Err e => Ret (Err ("BDK failed to sign funding transaction: " +:+ e))
          | Ok (finalized, psbt) =>
              if negb finalized then Ret (Err "BDK did not finalize the funding transaction"%string)
              else Ret (map_err (fun e => "BDK failed to extract funding transaction: " +:+ e)
                          (extract_tx psbt))
          end
      end
  end.

(** [Some None] is an output that is left out, [None] a panic of the slice. *)
Definition bdk_utxo (u : LocalOutput.t) : option (option LdkUtxo.t) :=
  let script := LocalOutput.script u in
  if script_is_p2wpkh script then
    if (length script <? 22)%nat then None
    else Some (Some (new_v0_p2wpkh (LocalOutput.outpoint u) (LocalOutput.value u)
                       (take 20 (drop 2 script))))
  else if script_is_p2tr script then
    Some (Some (LdkUtxo.mk (LocalOutput.outpoint u) (LocalOutput.value u) script
                  (1 * 4 + 1 + 1 + 64)))
  else Some None.

(** [wallet.list_unspent().filter(confirmed).filter_map(..).collect()] *)
Definition bdk_list_confirmed_utxos : wprog (list LdkUtxo.t) :=
  let* unspent := call BdkListUnspent in
  match mapM bdk_utxo (List.filter LocalOutput.is_confirmed unspent) with
  | Some l => Ret (omap id l)
  | None => Panic "range end index 22 out of range for slice"
  end.

Definition bdk_get_change_script : wprog bytes :=
  let* addr := call (BdkReveal Internal) in Ret (script_pubkey addr).

Definition bdk_get_change_destination_script : wprog bytes := bdk_get_change_script.

(** The confirmed balance, and a new receiving address. *)
Definition bdk_balance_sats : wprog Z := call BdkBalance.
Definition bdk_new_address : wprog Address := call (BdkReveal External).

Definition bdk_sign_psbt (psbt : Psbt) : wprog (option Transaction) :=
  let* r := call (BdkSign psbt) in
  match r with
  | Err _ => Ret None
  | Ok (finalized, psbt) => if negb finalized then Ret None else Ret (res_ok (extract_tx psbt))
  end.

(** ** bitcoind *)

(** The one output of a funding transaction, its value in bitcoin. *)
Definition bitcoind_funding_outputs (output_script : bytes) (network : Network) (value_sats : Z) :
  result (list (list (string * f64))) string :=
  match address_from_script output_script network with
  | Err e => Err ("Lightning funding output was not a valid address: " +:+ e)
  | Ok addr => Ok [[(address_display addr, f64_div (f64_of_Z value_sats) f64_1e8)]]
  end.

Definition outputs_json (outputs : list (list (string * f64))) : Json :=
  JArr (map (fun o => JObj (map (fun '(a, v) => (a, JFloat v)) o)) outputs).

Definition create_raw_transaction (outputs : list (list (string * f64))) : wprog string :=
  unwrap_rpc (call_method "createrawtransaction" [JArr []; outputs_json outputs] to_raw).

(** Satoshi per virtual byte from satoshi per 1000 weight units. *)
Definition fund_options (fee : Z) : Json :=
  JObj [("fee_rate"%string, JFloat (f64_div (f64_of_Z fee) f64_250));
        ("replaceable"%string, JBool false)].

Definition try_fund_raw_transaction (raw_tx : string) : wprog (result FundedTx IoError) :=
  let* fee := est_sat_per_1000_weight NonAnchorChannelFee in
  call_method "fundrawtransaction" [JStr raw_tx; fund_options fee] to_funded.

Definition fund_raw_transaction (raw_tx : string) : wprog FundedTx :=
  unwrap_rpc (try_fund_raw_transaction raw_tx).

Definition try_sign_raw_transaction_with_wallet (tx_hex : string) : wprog (result SignedTx IoError) :=
  call_method "signrawtransactionwithwallet" [JStr tx_hex] to_signed.

Definition sign_raw_transaction_with_wallet (tx_hex : string) : wprog SignedTx :=
  unwrap_rpc (try_sign_raw_transaction_with_wallet tx_hex).

Definition create_funding_transaction (output_script : bytes) (value_sats : Z) :
  wprog (result Transaction string) :=
  let* bdk := reads bdk_wallet in
  if bdk then
    let* fee_rate := est_sat_per_1000_weight NonAnchorChannelFee in
    bdk_create_funding_transaction output_script value_sats fee_rate
  else
    let* network := reads network in
    try* outputs := Ret (bitcoind_funding_outputs output_script network value_sats) in
    let* raw_tx := create_raw_transaction outputs in
    let* funded := try_fund_raw_transaction raw_tx in
    match funded with
    | Err e => Ret (Err ("Failed to fund transaction with bitcoind wallet: " +:+ io_display e))
    | Ok funded =>
        let* signed := try_sign_raw_transaction_with_wallet (funded_hex funded) in
        match signed with
        | Err e => Ret (Err ("Failed to sign transaction with bitcoind wallet: " +:+ io_display e))
        | Ok signed =>
            if negb (signed_complete signed)
            then Ret (Err "bitcoind wallet did not completely sign funding transaction"%string)
            else match to_vec (signed_hex signed) with
                 | None => Ret (Err "bitcoind returned non-hex funding transaction"%string)
                 | Some b =>
                     Ret (map_err (fun e => "Failed to decode signed funding transaction: " +:+ e)
                            (deserialize b))
                 end
        end
    end.

Definition get_new_address : wprog Address :=
  let* network := reads network in
  let* addr := unwrap_rpc (call_method "getnewaddress" [JStr "LDK output address"] to_new_address) in
  match address_from_str addr with
  | Some a => if require_network network a then Ret a else Panic unwrap_panic
  | None => Panic unwrap_panic
  end.

Definition get_blockchain_info : wprog BlockchainInfo :=
  unwrap_rpc (call_method "getblockchaininfo" [] to_blockchain_info).

Definition get_wallet_balance_sats : wprog Z :=
  let* bdk := reads bdk_wallet in
  if bdk then bdk_balance_sats
  else
    let* r := call_method "getbalance" [] to_wallet_balance in
    match r with Ok sats => Ret sats | Err _ => Ret 0 end.

Definition list_unspent : wprog (list ListUnspentUtxo) :=
  unwrap_rpc (call_method "listunspent" [] to_list_unspent).

(** [encode::serialize_hex] *)
Definition serialize_hex (tx : Transaction) : string := hex_str (serialize tx).

(** The task that posts transactions to Esplora: failures are logged, each on its own. *)
Fixpoint esplora_broadcast (url : string) (txs : list Transaction) : wprog unit :=
  match txs with
  | [] => Ret tt
  | tx :: txs =>
      let* _ := call (HttpPost (url +:+ "/tx") (serialize_hex tx)) in
      esplora_broadcast url txs
  end.

(** [BroadcasterInterface] *)
Definition broadcast_transactions (txs : list Transaction) : wprog unit :=
  let* client := reads esplora in
  match client with
  | Some e => esplora_broadcast (base_url e) txs
  | None =>
      let txn := map serialize_hex txs in
      let* res :=
        match txn return wprog (result Json IoError) with
        | [tx] => call (Rpc "sendrawtransaction" [JStr tx])
        | _ => call (Rpc "submitpackage" [JArr (map JStr txn)])
        end in
      match res with
      | Ok _ => Ret tt
      | Err e => match io_inner e with Some _ => Ret tt | None => Panic unwrap_panic end
      end
  end.

Definition get_change_script : wprog bytes :=
  let* bdk := reads bdk_wallet in
  if bdk then bdk_get_change_script
  else let* addr := get_new_address in Ret (script_pubkey addr).

Definition get_change_destination_script : wprog bytes :=
  let* bdk := reads bdk_wallet in
  if bdk then bdk_get_change_destination_script
  else let* addr := get_new_address in Ret (script_pubkey addr).

Definition bitcoind_utxo (utxo : ListUnspentUtxo) : option LdkUtxo.t :=
  let outpoint := mkOutPoint (un_txid utxo) (un_vout utxo) in
  match witness_program (un_address utxo) with
  | Some prog =>
      if is_p2wpkh prog then
        wpkh ← wpubkey_hash (program prog);
        Some (new_v0_p2wpkh outpoint (un_amount utxo) wpkh)
      else if is_p2tr prog then
        _ ← xonly_public_key (program prog);
        Some (LdkUtxo.mk outpoint (un_amount utxo) (script_pubkey (un_address utxo))
                (1 * 4 + 1 + 1 + 64))
      else None
  | None => None
  end.

Definition list_confirmed_utxos : wprog (list LdkUtxo.t) :=
  let* bdk := reads bdk_wallet in
  if bdk then bdk_list_confirmed_utxos
  else let* utxos := list_unspent in Ret (omap bitcoind_utxo utxos).

Definition sign_psbt (tx : Psbt) : wprog (option Transaction) :=
  let* bdk := reads bdk_wallet in
  if bdk then bdk_sign_psbt tx
  else
    let* signed := sign_raw_transaction_with_wallet (hex_str (serialize (unsigned_tx tx))) in
    match to_vec (signed_hex signed) with
    | Some b => Ret (consensus_decode b)
    | None => Ret None
    end.

(** ** Esplora *)

(** The estimates that are fetched; [None] when the request or the decoding fails. *)
Definition fetch_fee_estimates (base_url : string) : wprog (option (gmap string f64)) :=
  let* resp := call (HttpGet (base_url +:+ "/fee-estimates")) in
  match resp with
  | Err _ => Ret None
  | Ok resp =>
      match text resp with
      | Err _ => Ret None
      | Ok body => Ret (res_ok (estimates_from_json body))
      end
  end.

(** [update_fee_estimates] of a client that is not shared yet. *)
Definition updated_fees (c : EsploraClient) (estimates : option (gmap string f64)) :
  option EsploraClient :=
  match estimates with
  | None => Some c
  | Some est =>
      st ← apply_fee_estimates (esplora_fees c) est (normal_max_feerate_sat_per_kwu c);
      Some (with_esplora_fees st.1 c)
  end.

(** [update_fee_estimates] of the attached client: the stores happen in one step. *)
Definition update_fee_estimates : wprog unit :=
  let* client := reads esplora in
  match client with
  | None => Ret tt
  | Some e =>
      let* estimates := fetch_fee_estimates (base_url e) in
      let* stored := local (fun c =>
        match (e ← esplora c; updated_fees e estimates) with
        | Some e => (true, mkClient (network c) (fees c) (Some e) (bdk_wallet c))
        | None => (false, c)
        end) in
      if stored : bool then Ret tt else Panic unwrap_panic
  end.

(** [broadcast_tx] *)
Definition broadcast_tx (url : string) (tx : Transaction) : wprog (result unit string) :=
  let* resp := call (HttpPost (url +:+ "/tx") (serialize_hex tx)) in
  match resp with
  | Err e => Ret (Err ("broadcast failed: " +:+ e))
  | Ok resp =>
      if is_success resp then Ret (Ok tt)
      else Ret (Err ("broadcast rejected: " +:+ default ""%string (res_ok (text resp))))
  end.

(** [str::trim_end_matches] with a character *)
Fixpoint trim_end_matches (c : Ascii.ascii) (s : string) : string :=
  match s with
  | EmptyString => EmptyString
  | String a s =>
      match trim_end_matches c s with
      | EmptyString => if Ascii.eqb a c then EmptyString else String a EmptyString
      | t => String a t
      end
  end.

Definition MAX_FEERATE_ENV_VAR : string := "LDK_MAX_FEERATE_SAT_PER_KWU".

(** [EsploraClient::new]; [None] is an error, which the caller only prints. *)
Definition esplora_new (p : Process) (url : string) : wprog (option EsploraClient) :=
  let url := trim_end_matches (chr 47) url in
  let* http := call (HttpClientBuild 30) in
  if negb (is_ok http) then Ret None
  else
  let* resp := call (HttpGet (url +:+ "/blocks/tip/height")) in
  match resp with
  | Err _ => Ret None
  | Ok resp =>
      if negb (is_success resp) then Ret None
      else match text resp with
           | Err _ => Ret None
           | Ok body =>
               match parse_uint u64_max (trim body) with
               | None => Ret None
               | Some _tip_height =>
                   let max := max_feerate_sat_per_kwu_from_value (env_var p MAX_FEERATE_ENV_VAR) in
                   let* estimates := fetch_fee_estimates url in
                   match updated_fees (mkEsplora url initial_fees max) estimates with
                   | Some c => Ret (Some c)
                   | None => Panic unwrap_panic
                   end
               end
           end
  end.

(** ** The BDK wallet's seed *)

(** The mnemonic of the seed file, or a new one that is written to it. *)
Definition wallet_mnemonic (seed_path : string) : wprog (result Mnemonic string) :=
  let* present := (call (FileExists seed_path) : wprog bool) in
  if present then
    try* words := call (FileRead seed_path) in
    Ret (mnemonic_parse (trim words))
  else
    let* entropy := call Entropy16 in
    try* mnemonic := Ret (mnemonic_from_entropy entropy) in
    try* _ := call (FileWrite seed_path (mnemonic_display mnemonic)) in
    Ret (Ok mnemonic).

Definition coin_type (network : Network) : string :=
  match network with Mainnet => "0" | _ => "1" end.

Definition descriptor (xprv : string) (network : Network) (branch : string) : string :=
  "wpkh(" +:+ xprv +:+ "/84'/" +:+ coin_type network +:+ "'/0'/0/" +:+ branch +:+ "/*)".

(** [BdkOnchainWallet::new]; the descriptors are returned. *)
Definition bdk_new (seed_path : string) (network : Network) (esplora_url : string) :
  wprog (result (string * string) string) :=
  try* mnemonic := wallet_mnemonic seed_path in
  try* xprv := Ret (new_master network mnemonic) in
  let external := descriptor xprv network "0" in
  let internal := descriptor xprv network "1" in
  try* _ := call (BdkCreate external internal network) in
  try* _ := call (BdkEsploraBuild esplora_url) in
  Ret (Ok (external, internal)).

(** ** Start-up *)

(** [BitcoindClient::new] *)
Definition client_new (network : Network) : wprog (option BitcoindClient) :=
  let* r := call_method "getblockchaininfo" [] to_blockchain_info in
  match r with
  | Err _ => Ret None
  | Ok _ => let* _ := call SpawnFeePoll in Ret (Some (mkClient network initial_fees None false))
  end.

(** One round of the loop that [BitcoindClient::new] spawns: five RPCs to bitcoind, whether an
    Esplora backend is attached later or not, and the stores in one step. *)
Definition estimate_smart_fee (blocks : Z) (mode : string) (default : Z) : wprog Z :=
  let* r := unwrap_rpc (call_method "estimatesmartfee" [JInt blocks; JStr mode] to_fee_response) in
  Ret (floor_or default r.2).

Definition fee_poll_round : wprog unit :=
  let* mempool := unwrap_rpc (call_method "getmempoolinfo" [] to_mempool) in
  let mempoolmin_estimate := floor_or MIN_FEERATE mempool.2 in
  let* background_estimate := estimate_smart_fee 144 "ECONOMICAL" MIN_FEERATE in
  let* normal_estimate := estimate_smart_fee 18 "ECONOMICAL" 2000 in
  let* high_prio_estimate := estimate_smart_fee 6 "CONSERVATIVE" 5000 in
  let* very_high_prio_estimate := estimate_smart_fee 2 "CONSERVATIVE" 50000 in
  let* stored := local (fun c =>
    match store_estimates mempoolmin_estimate background_estimate normal_estimate high_prio_estimate
            very_high_prio_estimate (fees c) with
    | Some fees => (true, mkClient (network c) fees (esplora c) (bdk_wallet c))
    | None => (false, c)
    end) in
  if stored : bool then Ret tt else Panic unwrap_panic.

(** The Esplora and BDK backend, when its URL is set; a failed first sync is a warning. *)
Definition start_backend (p : Process) (ldk_data_dir : string) (network : Network) :
  wprog (startup unit) :=
  match esplora_backend p ldk_data_dir with
  | None => Ret (Started tt)
  | Some (url, seed_path) =>
      let* e := esplora_new p url in
      match e with
      | None => Ret Refused
      | Some e =>
          let* w := bdk_new seed_path network (base_url e) in
          match w with
          | Err _ => Ret Refused
          | Ok _ =>
              let* _ := bdk_sync in
              local (fun c => (Started tt, set_esplora_backend e c))
          end
      end
  end.

(** From the construction of the client to the check of the chain. *)
Definition start_client (p : Process) (ldk_data_dir : string) (network : Network) :
  wprog (startup unit) :=
  let* c := client_new network in
  match c with
  | None => Ret Refused
  | Some c =>
      let* _ := local (fun _ => (tt, c)) in
      let* r := start_backend p ldk_data_dir network in
      match r with
      | Started _ =>
          let* info := get_blockchain_info in
          Ret (check_chain network (chain info))
      | r => Ret r
      end
  end.

(** One tick of the task that syncs the wallet and, every other time, the fees. *)
Definition sync_task (fee_counter : Z) : wprog Z :=
  let* _ := bdk_sync in
  let '(update, fee_counter) := sync_tick fee_counter in
  let* _ := (if update then update_fee_estimates else Ret tt) in
  Ret fee_counter.

(** ** Queries of the Esplora client, and the raw broadcast of the RPC client *)

(** [Display] of [ParseIntError]: the first character that stops the parse decides. *)
Fixpoint digits_error (max acc : Z) (s : string) : string :=
  match s with
  | EmptyString => ""
  | String c s' =>
      let d := Z.of_N (Ascii.N_of_ascii c) - 48 in
      if negb ((0 <=? d) && (d <=? 9)) then "invalid digit found in string"
      else if max <? acc * 10 + d then "number too large to fit in target type"
      else digits_error max (acc * 10 + d) s'
  end.
Definition parse_uint_error (max : Z) (s : string) : string :=
  match s with
  | EmptyString => "cannot parse integer from empty string"
  | String c s' =>
      if Z.of_N (Ascii.N_of_ascii c) =? 43
      then (if str_is_empty s' then "invalid digit found in string" else digits_error max 0 s')
      else digits_error max 0 s
  end.

(** The text of a page, whatever its status. *)
Definition get_text (url query_failed text_failed : string) : wprog (result string string) :=
  let* resp := call (HttpGet url) in
  match resp with
  | Err e => Ret (Err (query_failed +:+ e))
  | Ok resp => Ret (map_err (fun e => text_failed +:+ e) (text resp))
  end.

Definition get_tip_height (base_url : string) : wprog (result Z string) :=
  try* body := get_text (base_url +:+ "/blocks/tip/height")
                 "tip height query failed: " "tip height parse failed: " in
  Ret (ok_or (parse_uint u64_max (trim body))
         ("tip height not a number: " +:+ parse_uint_error u64_max (trim body))).

Definition get_tip_hash (base_url : string) : wprog (result bytes string) :=
  try* body := get_text (base_url +:+ "/blocks/tip/hash")
                 "tip hash query failed: " "tip hash parse failed: " in
  Ret (ok_or (block_hash_from_str (trim body))
         ("tip hash parse failed: " +:+ block_hash_error (trim body))).

(** The confirmed outputs of an address; the sum wraps around. *)
Definition confirmed_utxo (u : Json) : bool :=
  default false (as_bool (json_get (json_get u "status") "confirmed")).
Definition get_address_balance_sats (base_url address : string) : wprog Z :=
  let* resp := call (HttpGet (base_url +:+ "/address/" +:+ address +:+ "/utxo")) in
  match resp with
  | Err _ => Ret 0
  | Ok resp =>
      match text resp with
      | Err _ => Ret 0
      | Ok body =>
          match values_from_json body with
          | Err _ => Ret 0
          | Ok utxos =>
              Ret (foldl u64_add 0
                     (omap (fun u => as_u64 (json_get u "value")) (List.filter confirmed_utxo utxos)))
          end
      end
  end.

Definition send_raw_transaction (raw_tx : string) : wprog unit :=
  let* _ := unwrap_rpc (call_method "sendrawtransaction" [JStr raw_tx] (fun j => Some (txid_from_response j))) in
  Ret tt.
End wallet.
