(* ===== verification/WalletSafety.v ===== *)
(** * What the wallet does

    The properties of the two backends of [Wallet]: which service an operation uses,
    when a funding transaction is handed to LDK, which outputs LDK may spend, and that
    the wallet of a restarted relay is the same wallet. *)

From S2P Require Import Prelude Effects HexUtils Text Fees Args Types Convert Startup Wallet.
Open Scope prog_scope.

Section facts.
Context `{BitcoinLib} `{WalletLib}.
Implicit Types c : BitcoindClient.

Abbreviation wprog := (Prog (St := BitcoindClient) wresp).
Abbreviation wevent := (event wresp).

(** An RPC whose answer is converted. *)
Lemma wp_call_method {A B} m ps (conv : Json -> option (result A IoError))
  (k : result A IoError -> wprog B) c l Q :
  (forall x : result Json IoError, let l' := l ++ [existT (Rpc m ps) x : wevent] in
    match x with
    | Err e => wp (k (Err e)) c l' Q
    | Ok j => match conv j with Some r => wp (k r) c l' Q | None => Q (Panicked unwrap_panic) c l' end
    end) ->
  wp (bind (call_method m ps conv) k) c l Q.
Proof.
  intros HQ. cbn. intros x. specialize (HQ x). destruct x as [j|e]; cbn; [|done].
  by destruct (conv j).
Qed.

(** The same when an error panics too. *)
Lemma wp_unwrap_rpc {A B} m ps (conv : Json -> option (result A IoError)) (k : A -> wprog B) c l Q :
  (forall x : result Json IoError, let l' := l ++ [existT (Rpc m ps) x : wevent] in
    match x with
    | Ok j => match conv j with
              | Some (Ok a) => wp (k a) c l' Q
              | _ => forall msg, Q (Panicked msg) c l'
              end
    | Err e => forall msg, Q (Panicked msg) c l'
    end) ->
  wp (bind (unwrap_rpc (call_method m ps conv)) k) c l Q.
Proof.
  intros HQ. cbn. intros x. specialize (HQ x). destruct x as [j|e]; cbn; [|apply HQ].
  destruct (conv j) as [[a|e]|]; cbn; [done|apply HQ|apply HQ].
Qed.

Lemma wp_est {B} t (k : Z -> wprog B) c l Q :
  match get_est_sat_per_1000_weight (esplora_fees <$> esplora c) (fees c) t with
  | Some fee => wp (k fee) c l Q
  | None => Q (Panicked unwrap_panic) c l
  end -> wp (bind (est_sat_per_1000_weight t) k) c l Q.
Proof. cbn. by destruct (get_est_sat_per_1000_weight _ _ _). Qed.

(** ** Funding transactions *)

Definition funding_fee c : option Z :=
  get_est_sat_per_1000_weight (esplora_fees <$> esplora c) (fees c) NonAnchorChannelFee.

(** The requests after which bitcoind's wallet has funded [tx]. *)
Definition bitcoind_funded c script value tx (l : list wevent) : Prop :=
  exists addr fee jr raw jf funded js signed b,
    address_from_script script (network c) = Ok addr /\ funding_fee c = Some fee /\
    l = [existT (Rpc "createrawtransaction" [JArr []; JArr [JObj [(address_display addr,
           JFloat (f64_div (f64_of_Z value) f64_1e8))]]]) (Ok jr);
         existT (Rpc "fundrawtransaction" [JStr raw; fund_options fee]) (Ok jf);
         existT (Rpc "signrawtransactionwithwallet" [JStr (funded_hex funded)]) (Ok js)] /\
    to_raw jr = Some (Ok raw) /\ to_funded jf = Some (Ok funded) /\
    to_signed js = Some (Ok signed) /\ signed_complete signed = true /\
    to_vec (signed_hex signed) = Some b /\ deserialize b = Ok tx.

(** The requests after which the BDK wallet, synced first, has funded [tx]. *)
Definition bdk_funded c script value tx (l : list wevent) : Prop :=
  exists fee u bal psbt psbt',
    funding_fee c = Some fee /\
    l = [existT (BdkFullScan 20 4) (Ok u); existT (BdkApplyUpdate u) (Ok tt); existT BdkBalance bal;
         existT (BdkBuildTx script value fee) (Ok psbt); existT (BdkSign psbt) (Ok (true, psbt'))] /\
    extract_tx psbt' = Ok tx.

(** The answers that panic: an error of [createrawtransaction], and answers that the
    conversions do not expect. *)
Definition breaks (e : wevent) : Prop :=
  match e with
  | existT (Rpc m _) (Err _) => m = "createrawtransaction"%string
  | existT (Rpc m _) (Ok j) =>
      (m = "createrawtransaction"%string /\ to_raw j = None) \/
      (m = "fundrawtransaction"%string /\ to_funded j = None) \/
      (m = "signrawtransactionwithwallet"%string /\ to_signed j = None)
  | _ => False
  end.

Definition funding_result c script value (o : outcome (result Transaction string)) (c' : BitcoindClient)
  (l : list wevent) : Prop :=
  c' = c /\
  match o with
  | Done (Ok tx) =>
      if bdk_wallet c then bdk_funded c script value tx l else bitcoind_funded c script value tx l
  | Done (Err _) => True
  | Panicked _ => funding_fee c = None \/ (bdk_wallet c = false /\ exists e, last l = Some e /\ breaks e)
  end.

Lemma wp_bdk_funding c script value fee :
  bdk_wallet c = true -> funding_fee c = Some fee ->
  wp (bdk_create_funding_transaction script value fee) c [] (funding_result c script value).
Proof.
  intros Hb Hf. unfold funding_result. rewrite Hb. cbn. intros [u|e]; [|done]. cbn.
  intros [[]|e]; [|done]. cbn. intros bal [psbt|e]; [|done]. cbn.
  intros [[[] psbt']|e]; [|done|done]. cbn.
  destruct (extract_tx psbt') as [tx|e] eqn:E; cbn; [|done]. split; [done|].
  by exists fee, u, bal, psbt, psbt'.
Qed.

Lemma wp_bitcoind_funding c script value :
  bdk_wallet c = false ->
  wp (create_funding_transaction script value) c [] (funding_result c script value).
Proof.
  intros Hb. unfold create_funding_transaction, funding_result. cbn [bind reads wp fst snd].
  rewrite Hb. cbn [bind reads wp fst snd bind_try].
  unfold bitcoind_funding_outputs.
  destruct (address_from_script script (network c)) as [addr|e] eqn:Ea; [|done].
  apply wp_unwrap_rpc. intros [jr|e]; cbn zeta.
  2: { intros msg. split; [done|]. right. split; [done|]. by eexists. }
  destruct (to_raw jr) as [[raw|e]|] eqn:Er.
  2: { by destruct jr. }
  2: { intros msg. split; [done|]. right. split; [done|]. eexists. split; [done|]. by left. }
  apply wp_bind, wp_est. fold (funding_fee c).
  destruct (funding_fee c) as [fee|] eqn:Ef; [|by split; [|left]].
  cbn. intros [jf|e]; cbn; [|done].
  destruct (to_funded jf) as [[funded|e]|] eqn:Ejf; cbn; [|done|].
  2: { split; [done|]. right. split; [done|]. eexists. split; [done|]. right. by left. }
  intros [js|e]; cbn; [|done].
  destruct (to_signed js) as [[signed|e]|] eqn:Ejs; cbn; [|done|].
  2: { split; [done|]. right. split; [done|]. eexists. split; [done|]. right. by right. }
  destruct (signed_complete signed) eqn:Ec; cbn; [|done].
  destruct (to_vec (signed_hex signed)) as [b|] eqn:Ev; cbn; [|done].
  destruct (deserialize b) as [tx|e] eqn:Ed; cbn; [|done].
  split; [done|]. by exists addr, fee, jr, raw, jf, funded, js, signed, b.
Qed.

(** ** Which backend is used *)

(** What LDK and the relay ask of the wallet.  The syncing task exists only beside the
    Esplora backend. *)
Inductive WalletOp :=
| OpFund (script : bytes) (value : Z)
| OpBalance
| OpFee (t : ConfirmationTarget)
| OpBroadcast (txs : list Transaction)
| OpChangeScript
| OpChangeDestination
| OpUtxos
| OpSign (psbt : Psbt)
| OpSync (fee_counter : Z).

Definition wallet_prog (o : WalletOp) : wprog unit :=
  match o with
  | OpFund script value => create_funding_transaction script value ;; Ret tt
  | OpBalance => get_wallet_balance_sats ;; Ret tt
  | OpFee t => est_sat_per_1000_weight t ;; Ret tt
  | OpBroadcast txs => broadcast_transactions txs
  | OpChangeScript => get_change_script ;; Ret tt
  | OpChangeDestination => get_change_destination_script ;; Ret tt
  | OpUtxos => list_confirmed_utxos ;; Ret tt
  | OpSign psbt => sign_psbt psbt ;; Ret tt
  | OpSync n => let* client := reads esplora in
                match client with Some _ => sync_task n ;; Ret tt | None => Ret tt end
  end.

Fixpoint wallet_progs (os : list WalletOp) : wprog unit :=
  match os with [] => Ret tt | o :: os => wallet_prog o ;; wallet_progs os end.

Definition is_rpc (r : WReq) : bool := match r with Rpc _ _ => true | _ => false end.

(** A client with the Esplora backend, or without. *)
Definition attached (b : bool) c : Prop := bdk_wallet c = b /\ bool_decide (is_Some (esplora c)) = b.

(** A program that keeps the backend and makes requests of its kind only. *)
Definition stays {A} (b : bool) (p : wprog A) : Prop :=
  forall c l, attached b c -> wp p c l (fun _ c' l' =>
    attached b c' /\ exists l1, l' = l ++ l1 /\ Forall (fun e => is_rpc (projT1 e) = negb b) l1).

Lemma stays_ret {A} b (a : A) : stays b (Ret a).
Proof. intros c l Hc. split; [done|]. exists []. by rewrite app_nil_r. Qed.

Lemma stays_panic {A} b m : stays b (Panic (A := A) m).
Proof. intros c l Hc. split; [done|]. exists []. by rewrite app_nil_r. Qed.

Lemma stays_bind {A B} b (p : wprog A) (f : A -> wprog B) :
  stays b p -> (forall a, stays b (f a)) -> stays b (bind p f).
Proof.
  intros Hp Hf c l Hc. apply wp_bind. eapply wp_mono; [|by apply Hp].
  intros [a|m] c' l' (Hc' & l1 & -> & Hl1); cbn; [|by eauto].
  eapply wp_mono; [|by apply Hf]. intros o c2 l2 (Hc2 & l3 & -> & Hl3).
  split; [done|]. exists (l1 ++ l3). rewrite app_assoc. split; [done|]. by apply Forall_app.
Qed.

Lemma stays_call {A} b r (k : wresp r -> wprog A) :
  is_rpc r = negb b -> (forall x, stays b (k x)) -> stays b (Call r k).
Proof.
  intros Hr Hk c l Hc x. eapply wp_mono; [|by apply Hk].
  intros o c' l' (Hc' & l1 & -> & Hl1). split; [done|]. exists (existT r x :: l1).
  rewrite <- app_assoc. split; [done|]. by constructor.
Qed.

(** A read of the client, whose value may be taken from any client with the backend. *)
Lemma stays_reads {A X} b (f : BitcoindClient -> X) (k : X -> wprog A) :
  (forall c, attached b c -> stays b (k (f c))) -> stays b (Local (fun c => (f c, c)) k).
Proof. intros Hk c l Hc. by apply (Hk c). Qed.

Lemma stays_method {A} m ps (conv : Json -> option (result A IoError)) :
  stays false (call_method m ps conv).
Proof.
  apply stays_call; [done|]. intros [j|e]; [|apply stays_ret].
  destruct (conv j); [apply stays_ret|apply stays_panic].
Qed.

Lemma stays_unwrap {A} b (p : wprog (result A IoError)) : stays b p -> stays b (unwrap_rpc p).
Proof.
  intros Hp. apply stays_bind; [done|]. intros [a|e]; [apply stays_ret|apply stays_panic].
Qed.

Lemma stays_est b t : stays b (est_sat_per_1000_weight t).
Proof.
  apply stays_reads. intros c _. destruct (get_est_sat_per_1000_weight _ _ _);
    [apply stays_ret|apply stays_panic].
Qed.

Create HintDb stays discriminated.
Hint Resolve stays_ret stays_panic stays_method stays_unwrap stays_est : stays.

(** Straight-line programs: requests, conversions and the cases on their answers. *)
Ltac stay :=
  repeat first
    [ solve [eauto 3 with stays]
    | progress cbn zeta
    | match goal with
      | |- stays _ (match ?x with _ => _ end) => destruct x
      | |- stays _ (Call _ _) => apply stays_call; [done|intros ?]
      | |- stays _ (bind_try _ _) => unfold bind_try
      | |- stays _ (bind _ _) => apply stays_bind; [|intros ?]
      | |- stays _ (call _) => apply stays_call; [done|intros ?]
      end ].

Lemma stays_bdk_sync : stays true bdk_sync.
Proof. unfold bdk_sync. stay. Qed.
Hint Resolve stays_bdk_sync : stays.

Lemma stays_bdk_funding script value fee : stays true (bdk_create_funding_transaction script value fee).
Proof. unfold bdk_create_funding_transaction. stay. Qed.

Lemma stays_post url txs : stays true (esplora_broadcast url txs).
Proof. induction txs as [|tx txs IH]; cbn [esplora_broadcast]; stay. Qed.

Lemma stays_fetch url : stays true (fetch_fee_estimates url).
Proof. unfold fetch_fee_estimates. stay. Qed.
Hint Resolve stays_bdk_funding stays_post stays_fetch : stays.

Lemma stays_update_fees : stays true update_fee_estimates.
Proof.
  apply stays_reads. intros c [_ He]. destruct (esplora c) as [e|]; [|done].
  apply stays_bind; [apply stays_fetch|]. intros est c1 l Hc1. cbn.
  destruct (esplora c1 ≫= _) as [e2|]; cbn.
  - apply (stays_ret true tt). by destruct Hc1.
  - by apply (stays_panic true unwrap_panic (A := unit)).
Qed.
Hint Resolve stays_update_fees : stays.

(** An operation that looks for the BDK wallet first. *)
Lemma stays_backend {A} b (p q : wprog A) :
  (b = true -> stays b p) -> (b = false -> stays b q) ->
  stays b (let* bdk := reads bdk_wallet in if bdk then p else q).
Proof.
  intros Hp Hq. apply stays_reads. intros c [-> _]. destruct b; auto.
Qed.

Lemma stays_new_address : stays false get_new_address.
Proof. apply stays_reads. intros c _. cbn [bind]. unfold get_new_address. stay. Qed.
Hint Resolve stays_new_address : stays.

Lemma stays_op b o : stays b (wallet_prog o).
Proof.
  destruct o; cbn [wallet_prog]; try (apply stays_bind; [|intros ?; apply stays_ret]).
  - apply stays_backend; intros ->; [stay|]. apply stays_reads. intros c _. cbn [bind].
    unfold create_raw_transaction, try_fund_raw_transaction, try_sign_raw_transaction_with_wallet.
    stay.
  - apply stays_backend; intros ->; unfold bdk_balance_sats; stay.
  - apply stays_est.
  - apply stays_reads. intros c [_ He]. destruct (esplora c) as [e|]; rewrite <- He; cbn [bind]; stay.
  - apply stays_backend; intros ->; unfold bdk_get_change_script; stay.
  - apply stays_backend; intros ->; unfold bdk_get_change_destination_script, bdk_get_change_script; stay.
  - apply stays_backend; intros ->; unfold bdk_list_confirmed_utxos, list_unspent; stay.
  - apply stays_backend; intros ->; unfold bdk_sign_psbt, sign_raw_transaction_with_wallet,
      try_sign_raw_transaction_with_wallet; stay.
  - apply stays_reads. intros c [_ He]. destruct (esplora c) as [e|]; rewrite <- He; cbn [bind]; [|stay].
    unfold sync_task. stay.
Qed.

Lemma stays_ops b os : stays b (wallet_progs os).
Proof.
  induction os as [|o os IH]; [apply stays_ret|]. apply stays_bind; [apply stays_op|done].
Qed.

Section run.
Context {W : Type} (env : forall r : WReq, W -> wresp r * W).

Lemma funding_run c (w : W) script value :
  let r := run env (create_funding_transaction script value) c w in
  funding_result c script value (out r) (fin r) (log r).
Proof.
  cbn zeta.
  apply (wp_run env (create_funding_transaction script value) c [] w (funding_result c script value)).
  destruct (bdk_wallet c) eqn:Hb; [|by apply wp_bitcoind_funding].
  unfold create_funding_transaction. cbn [bind reads wp fst snd]. rewrite Hb. apply wp_est.
  fold (funding_fee c). destruct (funding_fee c) eqn:Hf; [by apply wp_bdk_funding|].
  split; [done|by left].
Qed.


(** *** Start-up *)

(** What start-up leaves, when it has started: the backend the environment asks for. *)
Definition backend_of (p : Process) : bool := bool_decide (is_Some (env_var p "BITCOIN_ESPLORA_URL")).

Lemma start_backend_attached p dir net c l :
  attached false c ->
  wp (start_backend p dir net) c l (fun o c' _ =>
    o = Done (Started tt) -> attached (backend_of p) c').
Proof.
  intros Hc. unfold start_backend, backend_of, esplora_backend.
  destruct (env_var p "BITCOIN_ESPLORA_URL") as [url|]; [|by intros _]. cbn [mbind option_bind mret].
  apply wp_bind, wp_any. intros [[e|]|m] c1 l1; [|done|done]. cbn [wp_cont].
  apply wp_bind, wp_any. intros [[w|]|m] c2 l2; [|done|done]. cbn [wp_cont]. cbn.
  intros [u|e1]; cbn; [|done]. by intros [u1|e1]; cbn.
Qed.

(** A client that has started is on the network that was asked for. *)
Definition chain_checked net (l : list wevent) : Prop :=
  exists j info, last l = Some (existT (Rpc "getblockchaininfo" []) (Ok j)) /\
    to_blockchain_info j = Some (Ok info) /\ chain info = chain_name net.

Lemma start_client_attached p dir net c l :
  wp (start_client p dir net) c l (fun o c' l' =>
    o = Done (Started tt) -> attached (backend_of p) c' /\ chain_checked net l' /\
      existT SpawnFeePoll tt ∈ l').
Proof.
  unfold start_client. apply wp_bind. unfold client_new. apply wp_call_method.
  intros [j|e]; cbn zeta; [|done]. destruct (to_blockchain_info j) as [[i|e]|]; [|done|done].
  cbn [wp wp_cont bind call local fst snd]. intros []. apply wp_bind.
  match goal with |- wp _ _ ?l _ => set (l2 := l) end.
  eapply wp_mono; [|apply wp_and; [by apply (start_backend_attached p dir net)|apply wp_extends]].
  intros [[[]| |m]|m] c3 l3 [Hc3 [l4 ->]]; cbn [wp_cont wp]; try done.
  unfold get_blockchain_info. apply wp_unwrap_rpc. intros [j2|e]; cbn zeta; [|done].
  destruct (to_blockchain_info j2) as [[i2|e]|] eqn:E2; [|done|done]. cbn [wp].
  unfold check_chain. destruct (String.eqb_spec (chain i2) (chain_name net)); [|done].
  intros _. split; [by apply Hc3|]. split; [exists j2, i2; by rewrite last_snoc|].
  unfold l2. rewrite !elem_of_app, !list_elem_of_singleton. auto.
Qed.

Definition polls (l : list wevent) : Prop := Forall (fun e : wevent => is_rpc (projT1 e) = true) l.

(** A program that makes RPCs to bitcoind only, [n] of them if it ends. *)
Definition polls_exactly (n : nat) (p : wprog unit) : Prop :=
  forall c l, wp p c l (fun o _ l' => exists l1, l' = l ++ l1 /\ polls l1 /\ (o = Done tt -> length l1 = n)).

Lemma polls_step {A} m ps (conv : Json -> option (result A IoError)) (k : A -> wprog unit) n :
  (forall a, polls_exactly n (k a)) -> polls_exactly (S n) (bind (unwrap_rpc (call_method m ps conv)) k).
Proof.
  intros Hk c l. apply wp_unwrap_rpc. intros x. cbn zeta.
  assert (forall msg : string, exists l1, l ++ [existT (Rpc m ps) x : wevent] = l ++ l1 /\ polls l1 /\
    (Panicked msg = Done tt -> length l1 = S n)) as Hp.
  { intros msg. eexists. split; [done|]. by repeat constructor. }
  destruct x as [j|e]; [|done]. destruct (conv j) as [[a|e]|]; [|done|done].
  eapply wp_mono; [|apply Hk]. cbn. intros o c' l' (l1 & -> & Hl & Hn).
  exists (existT (Rpc m ps) (Ok j) :: l1). rewrite <- app_assoc. split; [done|].
  split; [by constructor|]. intros Ho. cbn. by rewrite Hn.
Qed.

Lemma fee_poll_rpcs : polls_exactly 5 fee_poll_round.
Proof.
  unfold fee_poll_round. apply polls_step. intros mempool. cbn zeta.
  do 4 (intros c l; apply wp_assoc; revert c l; apply polls_step; intros ?; cbn [bind]).
  intros c l. cbn. destruct (store_estimates _ _ _ _ _ _); cbn; exists []; rewrite app_nil_r; by repeat constructor.
Qed.

(** C36: the environment variable [BITCOIN_ESPLORA_URL] decides the backend of the wallet for
    good.  A relay that has started is on bitcoind's network of the requested name; after
    that, with the variable set no operation on the wallet (funding, balance, outputs,
    signing, change), no lookup of a feerate, no broadcast and no sync makes an RPC to
    bitcoind, and without it they make no other request.  The one exception is the task
    that start-up has always spawned to poll bitcoind's own estimates: each of its rounds
    makes RPCs to bitcoind only, five if it ends, with either backend. *)
Theorem backend_used p dir net c0 (w : W) os :
  let r := run env (start_client p dir net) c0 w in
  let r' := run env (wallet_progs os) (fin r) (world r) in
  out r = Done (Started tt) ->
  chain_checked net (log r) /\
  Forall (fun e => is_rpc (projT1 e) = negb (backend_of p)) (log r') /\
  existT SpawnFeePoll tt ∈ log r /\
  forall w', let round := run env fee_poll_round (fin r') w' in
    polls (log round) /\ (out round = Done tt -> length (log round) = 5%nat).
Proof.
  cbn zeta. intros Ho.
  destruct (wp_run env _ c0 [] w _ (start_client_attached p dir net c0 []) Ho) as (Ha & Hc & Hp).
  split; [exact Hc|]. split; cycle 1.
  { split; [exact Hp|]. intros w'.
    match goal with |- context [run env fee_poll_round ?c w'] =>
      destruct (wp_run env _ c [] w' _ (fee_poll_rpcs c [])) as (l1 & E & Hl) end.
    rewrite !app_nil_l in E. by rewrite E. }
  destruct (wp_run env _ _ [] (world (run env (start_client p dir net) c0 w)) _
    (stays_ops _ os _ [] Ha)) as (_ & l1 & E & Hl). rewrite !app_nil_l in E. by rewrite E.
Qed.

(** ** Signing and broadcasting *)

Definition sign_result c psbt (o : outcome (option Transaction)) (c' : BitcoindClient)
  (l : list wevent) : Prop :=
  c' = c /\
  if bdk_wallet c then
    exists x, l = [existT (BdkSign psbt) x] /\
      o = Done (match x with Ok (true, signed) => res_ok (extract_tx signed) | _ => None end)
  else
    exists x, l = [existT (Rpc "signrawtransactionwithwallet"
                             [JStr (hex_str (serialize (unsigned_tx psbt)))]) x] /\
      match res_ok x ≫= to_signed with
      | Some (Ok signed) => o = Done (to_vec (signed_hex signed) ≫= consensus_decode)
      | _ => exists m, o = Panicked m
      end.

(** What signing returns to LDK.  The BDK wallet signs once, and its transaction is
    extracted only if every input is final; bitcoind's answer is decoded whether or not
    it is complete.  A transaction with an input that is not the wallet's, as an anchor
    bump has, is therefore signed by one backend and refused by the other. *)
Lemma sign_psbt_correct c (w : W) psbt :
  let r := run env (sign_psbt psbt) c w in sign_result c psbt (out r) (fin r) (log r).
Proof.
  cbn zeta. apply (wp_run env (sign_psbt psbt) c [] w (sign_result c psbt)).
  unfold sign_psbt, sign_result. cbn [bind reads wp fst snd]. destruct (bdk_wallet c).
  - cbn. intros x. destruct x as [[[] signed]|e]; cbn; (split; [done|]); by eexists.
  - apply wp_unwrap_rpc. intros x; cbn zeta. destruct x as [j|e].
    + destruct (to_signed j) as [[signed|e]|] eqn:E; cbn.
      * destruct (to_vec (signed_hex signed)) eqn:Ev; cbn; (split; [done|]); eexists;
          (split; [done|]); cbn; by rewrite E, Ev.
      * intros m. split; [done|]. eexists. split; [done|]. cbn. rewrite E. by eexists.
      * intros m. split; [done|]. eexists. split; [done|]. cbn. rewrite E. by eexists.
    + intros m. split; [done|]. eexists. split; [done|]. by eexists.
Qed.

(** Broadcasting.  Esplora gets every transaction on its own, in order, whatever it
    answered to the ones before, and no answer panics; bitcoind gets exactly one
    request, for a single transaction [sendrawtransaction] and otherwise the whole list
    as a package, and the process panics exactly when the answer is an error that does
    not wrap another one. *)
Lemma broadcast_correct c (w : W) txs :
  let r := run env (broadcast_transactions txs) c w in
  fin r = c /\
  match esplora c with
  | Some e =>
      out r = Done tt /\
      map (@projT1 _ _) (log r) = map (fun tx => HttpPost (base_url e +:+ "/tx") (serialize_hex tx)) txs
  | None =>
      exists x : result Json IoError, log r = [match txs with
                            | [tx] => existT (Rpc "sendrawtransaction" [JStr (serialize_hex tx)]) x
                            | _ => existT (Rpc "submitpackage" [JArr (map (fun tx => JStr (serialize_hex tx)) txs)]) x
                            end] /\
      match x with
      | Err (mkIoError _ None) => exists m, out r = Panicked m
      | _ => out r = Done tt
      end
  end.
Proof.
  cbn zeta. unfold broadcast_transactions. cbn [bind reads run fst snd].
  destruct (esplora c) as [e|].
  - revert w. induction txs as [|tx txs IH]; intros w; [done|]. cbn.
    destruct (IH (env (HttpPost (base_url e +:+ "/tx") (serialize_hex tx)) w).2) as (Hf & Ho & Hl).
    cbn in *. by rewrite Hl.
  - assert (forall m ps, let r := run env (let* res := (call (Rpc m ps) : wprog (result Json IoError)) in
        match res with
        | Ok _ => Ret tt
        | Err e => match io_inner e with Some _ => Ret tt | None => Panic unwrap_panic end
        end) c w in
      fin r = c /\ exists x : result Json IoError, log r = [existT (Rpc m ps) x] /\
        match x with Err (mkIoError _ None) => exists m, out r = Panicked m | _ => out r = Done tt end)
      as Hone.
    { intros m ps. cbn. destruct (env (Rpc m ps) w) as [[j|[d [i|]]] w1]; cbn; (split; [done|]);
        eexists; (split; [done|]); try done. by eexists. }
    rewrite <- (map_map serialize_hex JStr).
    destruct txs as [|tx [|tx' txs]]; apply Hone.
Qed.
End run.
End facts.

(** ** The outputs LDK may spend *)

(** What the bitcoin crate and LDK document of pay-to-witness-public-key-hash outputs:
    their script is [OP_0] and a push of the 20-byte hash, and [new_v0_p2wpkh] makes the
    output with that script. *)
Class WalletLaws `{BitcoinLib} `{WalletLib} := {
  p2wpkh_script s : script_is_p2wpkh s = true -> exists h, length h = 20%nat /\ s = 0 :: 20 :: h;
  p2wpkh_address a prog h :
    witness_program a = Some prog -> is_p2wpkh prog = true -> wpubkey_hash (program prog) = Some h ->
    script_pubkey a = 0 :: 20 :: h;
  new_v0_outpoint o v h : LdkUtxo.outpoint (new_v0_p2wpkh o v h) = o;
  new_v0_value o v h : LdkUtxo.value (new_v0_p2wpkh o v h) = v;
  new_v0_script o v h : LdkUtxo.script (new_v0_p2wpkh o v h) = 0 :: 20 :: h;
}.

Section utxos.
Context `{HB : BitcoinLib} `{HW : WalletLib} {HL : WalletLaws}.
Context {W : Type} (env : forall r : WReq, W -> wresp r * W).
Implicit Types c : BitcoindClient.

(** What identifies an output: where it is, its value and its script. *)
Definition ldk_view (u : LdkUtxo.t) := (LdkUtxo.outpoint u, LdkUtxo.value u, LdkUtxo.script u).
Definition local_view (u : LocalOutput.t) :=
  (LocalOutput.outpoint u, LocalOutput.value u, LocalOutput.script u).
Definition unspent_view (u : ListUnspentUtxo) :=
  (mkOutPoint (un_txid u) (un_vout u), un_amount u, script_pubkey (un_address u)).

(** The outputs whose witness LDK can account for. *)
Definition local_spendable (u : LocalOutput.t) : bool :=
  LocalOutput.is_confirmed u &&
  (script_is_p2wpkh (LocalOutput.script u) || script_is_p2tr (LocalOutput.script u)).
Definition unspent_spendable (u : ListUnspentUtxo) : bool :=
  match witness_program (un_address u) with
  | Some prog =>
      if is_p2wpkh prog then bool_decide (is_Some (wpubkey_hash (program prog)))
      else is_p2tr prog && bool_decide (is_Some (xonly_public_key (program prog)))
  | None => false
  end.

Lemma bdk_utxo_spec u :
  exists o, bdk_utxo u = Some o /\
    ldk_view <$> o = if script_is_p2wpkh (LocalOutput.script u) || script_is_p2tr (LocalOutput.script u)
                     then Some (local_view u) else None.
Proof.
  unfold bdk_utxo, local_view, ldk_view.
  destruct (script_is_p2wpkh (LocalOutput.script u)) eqn:E; cbn.
  - destruct (p2wpkh_script _ E) as (h & Hlen & Hs).
    rewrite Hs. cbn [length]. rewrite Hlen. eexists. split; [reflexivity|]. cbn.
    rewrite new_v0_outpoint, new_v0_value, new_v0_script, drop_0, firstn_all2 by lia. done.
  - destruct (script_is_p2tr (LocalOutput.script u)); by eexists.
Qed.

Lemma bdk_utxos_spec l :
  exists us, mapM bdk_utxo (List.filter LocalOutput.is_confirmed l) = Some us /\
    ldk_view <$> omap id us = local_view <$> List.filter local_spendable l.
Proof.
  induction l as [|u l (us & E & IH)]; [by exists []|]. cbn [List.filter].
  unfold local_spendable at 1. destruct (LocalOutput.is_confirmed u); cbn [andb]; [|by exists us].
  destruct (bdk_utxo_spec u) as (o & Eo & Hv). exists (o :: us). cbn. rewrite Eo. cbn. rewrite E.
  split; [done|]. destruct (_ || _); destruct o as [u'|]; cbn in *; simplify_eq; [|done].
  by rewrite IH, Hv.
Qed.

Lemma bitcoind_utxo_spec u :
  ldk_view <$> bitcoind_utxo u = if unspent_spendable u then Some (unspent_view u) else None.
Proof.
  unfold bitcoind_utxo, unspent_spendable, unspent_view, ldk_view.
  destruct (witness_program (un_address u)) as [prog|] eqn:Ep; [|done].
  destruct (is_p2wpkh prog) eqn:Ew.
  - destruct (wpubkey_hash (program prog)) as [h|] eqn:Eh; cbn; [|done].
    by rewrite new_v0_outpoint, new_v0_value, new_v0_script, (p2wpkh_address _ _ _ Ep Ew Eh).
  - destruct (is_p2tr prog); [|done]. by destruct (xonly_public_key (program prog)).
Qed.

Lemma bitcoind_utxos_spec l :
  ldk_view <$> omap bitcoind_utxo l = unspent_view <$> List.filter unspent_spendable l.
Proof.
  induction l as [|u l IH]; [done|]. cbn. pose proof (bitcoind_utxo_spec u) as Hu.
  destruct (bitcoind_utxo u), (unspent_spendable u); cbn in *; simplify_eq; [|done].
  by rewrite IH, Hu.
Qed.

Definition utxos_result c (o : outcome (list LdkUtxo.t)) (c' : BitcoindClient)
  (l : list (event wresp)) : Prop :=
  c' = c /\
  if bdk_wallet c then
    exists unspent us, l = [existT BdkListUnspent unspent] /\ o = Done us /\
      ldk_view <$> us = local_view <$> List.filter local_spendable unspent
  else
    exists x, l = [existT (Rpc "listunspent" []) x] /\
      match res_ok x ≫= to_list_unspent with
      | Some (Ok unspent) => exists us, o = Done us /\
          ldk_view <$> us = unspent_view <$> List.filter unspent_spendable unspent
      | _ => exists m, o = Panicked m
      end.

(** C37: the outputs handed to LDK as spendable are, in order, exactly the wallet's
    unspent outputs with a pay-to-witness-public-key-hash or taproot script (of the BDK
    wallet only the confirmed ones), each with the outpoint, the value and the script
    the wallet reports.  With BDK the listing never panics; with bitcoind it panics
    exactly when the RPC fails or its answer has an unexpected form. *)
Theorem list_utxos_correct c (w : W) :
  let r := run env list_confirmed_utxos c w in utxos_result c (out r) (fin r) (log r).
Proof.
  cbn zeta. apply (wp_run env list_confirmed_utxos c [] w (utxos_result c)).
  unfold list_confirmed_utxos, utxos_result. cbn [bind reads wp fst snd]. destruct (bdk_wallet c).
  - intros l. destruct (bdk_utxos_spec l) as (us & E & Hv). cbn. rewrite E. split; [done|].
    by exists l, (omap id us).
  - apply wp_unwrap_rpc. intros [j|e]; cbn zeta.
    2: { intros m. split; [done|]. eexists. split; [done|]. by exists m. }
    destruct (to_list_unspent j) as [[l|e]|] eqn:E.
    + split; [done|]. eexists. split; [done|]. cbn. rewrite E. eexists. split; [done|].
      apply bitcoind_utxos_spec.
    + intros m. split; [done|]. eexists. split; [done|]. cbn. rewrite E. by exists m.
    + intros m. split; [done|]. eexists. split; [done|]. cbn. rewrite E. by exists m.
Qed.
End utxos.

(** ** The same wallet after a restart *)

Section seed.
Context `{HB : BitcoinLib} `{HW : WalletLib} {W : Type} (env : forall r : WReq, W -> wresp r * W).

(** The environment has files: what is written is there, reading and drawing entropy
    change nothing. *)
Class FileEnv (files : W -> gmap string string) := {
  file_exists path w : @fst bool W (env (FileExists path) w) = bool_decide (is_Some (files w !! path));
  file_exists_keeps path w : files (@snd bool W (env (FileExists path) w)) = files w;
  file_read path w c : files w !! path = Some c ->
    @fst (result string string) W (env (FileRead path) w) = Ok c;
  file_read_keeps path w :
    files (@snd (result string string) W (env (FileRead path) w)) = files w;
  file_write path c w :
    match (env (FileWrite path c) w).1 with
    | Ok _ => files (env (FileWrite path c) w).2 = <[path := c]> (files w)
    | Err _ => True
    end;
  entropy_keeps w : files (env Entropy16 w).2 = files w;
}.

(** BIP 39: the words of a mnemonic parse back to it, white space around them apart. *)
Class MnemonicLaws := {
  mnemonic_words m : mnemonic_parse (trim (mnemonic_display m)) = Ok m;
}.

Context (files : W -> gmap string string) {HF : FileEnv files} {HM : MnemonicLaws}.

(** What the seed file says of the wallet. *)
Definition seed_of (path : string) (w : W) : option Mnemonic :=
  files w !! path ≫= fun words => res_ok (mnemonic_parse (trim words)).

Lemma wallet_mnemonic_read path c w words m :
  files w !! path = Some words -> mnemonic_parse (trim words) = Ok m ->
  out (run env (wallet_mnemonic path) c w) = Done (Ok m) /\
  files (world (run env (wallet_mnemonic path) c w)) = files w.
Proof.
  intros Hf Hm. unfold wallet_mnemonic. cbn. rewrite file_exists, Hf.
  rewrite bool_decide_eq_true_2 by done. cbn. rewrite (file_read path _ words).
  - cbn. by rewrite Hm, file_read_keeps, file_exists_keeps.
  - by rewrite file_exists_keeps.
Qed.

Lemma wallet_mnemonic_seed path c w m :
  out (run env (wallet_mnemonic path) c w) = Done (Ok m) ->
  seed_of path (world (run env (wallet_mnemonic path) c w)) = Some m.
Proof.
  destruct (files w !! path) as [words|] eqn:Hf.
  - destruct (mnemonic_parse (trim words)) as [m'|e] eqn:Hm.
    + destruct (wallet_mnemonic_read path c w words m' Hf Hm) as [-> Hw]. intros [= <-].
      unfold seed_of. rewrite Hw, Hf. cbn. by rewrite Hm.
    + unfold wallet_mnemonic. cbn. rewrite file_exists, Hf. rewrite bool_decide_eq_true_2 by done.
      cbn. rewrite (file_read path _ words) by (by rewrite file_exists_keeps). cbn. by rewrite Hm.
  - unfold wallet_mnemonic. cbn. rewrite file_exists, Hf. rewrite bool_decide_eq_false_2 by
      (by intros [? [=]]). cbn. destruct (mnemonic_from_entropy _) as [m'|e]; cbn; [|done].
    match goal with |- context [env (FileWrite _ _) ?x] =>
      pose proof (file_write path (mnemonic_display m') x) as Hw;
      destruct (env (FileWrite path (mnemonic_display m')) x) as [[u|e] w2] end; cbn in *; [|done].
    intros [= <-]. unfold seed_of. rewrite Hw, lookup_insert_eq. cbn. by rewrite mnemonic_words.
Qed.

(** What [bdk_new] does after the mnemonic. *)
Definition bdk_derive (net : Network) (url : string) (r : result Mnemonic string) :
  Prog (St := BitcoindClient) wresp (result (string * string) string) :=
  match r with
  | Ok mnemonic =>
      try* xprv := Ret (new_master net mnemonic) in
      try* _ := call (BdkCreate (descriptor xprv net "0") (descriptor xprv net "1") net) in
      try* _ := call (BdkEsploraBuild url) in
      Ret (Ok (descriptor xprv net "0", descriptor xprv net "1"))
  | Err e => Ret (Err e)
  end.

Lemma bdk_derive_descriptors net url m c w d :
  out (run env (bdk_derive net url (Ok m)) c w) = Done (Ok d) ->
  exists xprv, new_master net m = Ok xprv /\ d = (descriptor xprv net "0", descriptor xprv net "1").
Proof.
  cbn. destruct (new_master net m) as [xprv|e]; cbn; [|done].
  destruct (env (BdkCreate _ _ _) w) as [[u|e] w1]; cbn; [|done].
  destruct (env (BdkEsploraBuild _) w1) as [[u1|e] w2]; cbn; [|done]. intros [= <-]. by exists xprv.
Qed.

(** The descriptors are those of the mnemonic that the first part returned. *)
Lemma bdk_new_descriptors path net url c w d :
  out (run env (bdk_new path net url) c w) = Done (Ok d) ->
  exists m xprv, out (run env (wallet_mnemonic path) c w) = Done (Ok m) /\
    new_master net m = Ok xprv /\ d = (descriptor xprv net "0", descriptor xprv net "1").
Proof.
  change (bdk_new path net url) with (bind (wallet_mnemonic path) (bdk_derive net url)).
  rewrite run_bind. unfold run_then, log_app.
  destruct (run env (wallet_mnemonic path) c w) as [[[m|e]|msg] c1 w1 l1]; cbn [out fin world log];
    [|done|done].
  intros Ho. exists m. apply bdk_derive_descriptors in Ho as (xprv & Hx & ->). by exists xprv.
Qed.

(** The on-chain wallet of a restarted relay is the wallet it had.  Once the wallet was
    opened with a seed path, a later opening with the content the seed file had then
    derives the same descriptors, whatever entropy it would draw. *)
Lemma wallet_seed_stable path net url url' c c' w w' d d' :
  out (run env (bdk_new path net url) c w) = Done (Ok d) ->
  files w' !! path = files (world (run env (wallet_mnemonic path) c w)) !! path ->
  out (run env (bdk_new path net url') c' w') = Done (Ok d') -> d' = d.
Proof.
  intros Hd Hfiles Hd'.
  apply bdk_new_descriptors in Hd as (m & xprv & Hm & Hx & ->).
  apply bdk_new_descriptors in Hd' as (m' & xprv' & Hm' & Hx' & ->).
  pose proof (wallet_mnemonic_seed _ _ _ _ Hm) as Hs. unfold seed_of in Hs. rewrite <- Hfiles in Hs.
  destruct (files w' !! path) as [words|] eqn:Hw; [|done]. cbn in Hs.
  destruct (mnemonic_parse (trim words)) as [m0|e] eqn:Hp; [|done]. cbn in Hs. simplify_eq.
  destruct (wallet_mnemonic_read path c' w' words m Hw Hp) as [Ho _]. simplify_eq.
  congruence.
Qed.
End seed.

(** ** Queries *)

(** The text of the parse error is empty exactly when there is no error. *)
Lemma digits_error_none max acc s : digits_error max acc s = ""%string <-> is_Some (parse_digits max acc s).
Proof.
  revert acc. induction s as [|c s IH]; intros acc; cbn [digits_error parse_digits]; [by split; eauto|].
  destruct ((0 <=? _) && (_ <=? 9)); cbn [negb andb]; [|split; [done|by intros [? [=]]]].
  destruct (Z.ltb_spec max (acc * 10 + (Z.of_N (Ascii.N_of_ascii c) - 48))).
  - rewrite (proj2 (Z.leb_gt _ _)) by lia. split; [done|by intros [? [=]]].
  - rewrite (proj2 (Z.leb_le _ _)) by lia. apply IH.
Qed.

Lemma parse_uint_error_none max s : parse_uint_error max s = ""%string <-> is_Some (parse_uint max s).
Proof.
  destruct s as [|c s]; [split; [done|by intros [? [=]]]|]. cbn [parse_uint_error parse_uint].
  destruct (_ =? 43); [|apply digits_error_none].
  destruct (str_is_empty s); [split; [done|by intros [? [=]]]|apply digits_error_none].
Qed.

(** ** A concrete wallet

    Transactions are bytes, addresses are scripts, and a mnemonic is one word. *)

(** An opcode and a push of [n] bytes. *)
Definition is_script (op n : Z) (s : bytes) : bool :=
  match s with
  | o :: m :: h => (o =? op) && (m =? n) && (Z.of_nat (length h) =? n)
  | _ => false
  end.

Lemma is_script_Some op n s :
  is_script op n s = true -> exists h, Z.of_nat (length h) = n /\ s = op :: n :: h.
Proof.
  destruct s as [|o [|m h]]; cbn; try done.
  intros [[->%Z.eqb_eq ->%Z.eqb_eq]%andb_true_iff Hn%Z.eqb_eq]%andb_true_iff. by exists h.
Qed.

Definition demo_bitcoin : BitcoinLib := {|
  Address := bytes;
  address_from_str s := to_vec s;
  require_network _ _ := true;
  address_from_script s _ := Ok s;
  address_display := hex_str;
  script_pubkey a := a;
  witness_program a :=
    if is_script 0 20 a then Some (mkProgram (drop 2 a) true false)
    else if is_script 81 32 a then Some (mkProgram (drop 2 a) false true) else None;
  wpubkey_hash b := if (length b =? 20)%nat then Some b else None;
  xonly_public_key b := Some b;
  script_is_p2wpkh := is_script 0 20;
  script_is_p2tr := is_script 81 32;
  txid_from_str := to_vec;
  block_hash_from_str := to_vec;
  amount_from_btc _ := Ok 1000;
  Transaction := bytes;
  serialize := id;
  deserialize := Ok;
  consensus_decode := Some;
  Psbt := bytes;
  unsigned_tx := id;
  extract_tx := Ok;
|}.

Definition demo_wallet : WalletLib := {|
  new_v0_p2wpkh o v h := LdkUtxo.mk o v (0 :: 20 :: h) 108;
  Update := unit;
  Mnemonic := bool;
  mnemonic_parse s := if String.eqb s "zoo" then Ok true else if String.eqb s "abandon" then Ok false
                      else Err "unknown word"%string;
  mnemonic_display m := if m then "zoo"%string else "abandon"%string;
  mnemonic_from_entropy b := Ok (match b with 0 :: _ => false | _ => true end);
  new_master _ m := Ok (if m then "xprv1"%string else "xprv0"%string);
  estimates_from_json _ := Ok ∅;
  values_from_json _ := Ok [];
  txid_from_response _ := Ok [];
  block_hash_error _ := "bad hex string length"%string;
|}.

#[local] Existing Instances demo_bitcoin demo_wallet.

#[local] Instance demo_wallet_laws : WalletLaws.
Proof.
  split; cbn; try done.
  - intros s (h & Hn & ->)%is_script_Some. exists h. split; [lia|done].
  - intros a prog h. destruct (is_script 0 20 a) eqn:E.
    + apply is_script_Some in E as (k & Hk & ->). cbn. intros [= <-] _. cbn.
      destruct (_ =? 20)%nat; by intros [= <-].
    + destruct (is_script 81 32 a); [|done]. by intros [= <-].
Qed.

(** A world of files in which BDK and bitcoind accept everything, and the entropy is the
    number of the draw. *)
Record DemoFiles := mkDemoFiles { demo_files : gmap string string; draws : Z }.

Definition demo_env (r : WReq) (w : DemoFiles) : wresp r * DemoFiles :=
  match r return wresp r * DemoFiles with
  | Rpc m _ =>
      (Ok (if String.eqb m "getblockchaininfo"
           then JObj [("blocks"%string, JInt 1); ("bestblockhash"%string, JStr "00");
                      ("chain"%string, JStr "regtest")]
           else JStr ""), w)
  | HttpGet _ | HttpPost _ _ => (Ok (mkResponse true (Ok "1"%string)), w)
  | BdkFullScan _ _ => (Ok tt, w)
  | BdkApplyUpdate _ => (Ok tt, w)
  | BdkBalance => (0, w)
  | BdkReveal _ => ([], w)
  | BdkBuildTx _ _ _ => (Ok [], w)
  | BdkSign b => (Ok (true, b), w)
  | BdkListUnspent =>
      ([LocalOutput.mk (mkOutPoint [1] 0) 700 (0 :: 20 :: replicate 20 9) true;
        LocalOutput.mk (mkOutPoint [2] 0) 800 (0 :: 20 :: replicate 20 9) false;
        LocalOutput.mk (mkOutPoint [3] 1) 900 [106] true], w)
  | BdkCreate _ _ _ | BdkEsploraBuild _ | HttpClientBuild _ => (Ok tt, w)
  | FileExists p => (bool_decide (is_Some (demo_files w !! p)), w)
  | FileRead p => (match demo_files w !! p with Some c => Ok c | None => Err "not found"%string end, w)
  | FileWrite p c => (Ok tt, mkDemoFiles (<[p := c]> (demo_files w)) (draws w))
  | Entropy16 => ([draws w], mkDemoFiles (demo_files w) (draws w + 1))
  | SpawnFeePoll => (tt, w)
  end.

#[local] Instance demo_file_env : FileEnv demo_env demo_files.
Proof. split; cbn; try done. by intros path w c ->. Qed.

#[local] Instance demo_mnemonic_laws : MnemonicLaws.
Proof. split. by intros []. Qed.

Definition demo_client (bdk : bool) : BitcoindClient := mkClient RegtestNet initial_fees None bdk.

(** The wallet is created from draw 0; when it is opened again, draw 7 is not used. *)
Lemma wallet_seed_stable_witness :
  exists d', out (run demo_env (bdk_new "seed" SignetNet "http://esplora") (demo_client false)
    (mkDemoFiles {["seed" := "abandon"%string]} 7)) = Done (Ok d') /\
  d' = (descriptor "xprv0" SignetNet "0", descriptor "xprv0" SignetNet "1").
Proof.
  eexists. split; [vm_compute; reflexivity|].
  apply (wallet_seed_stable demo_env demo_files "seed" SignetNet "http://esplora" "http://esplora" (demo_client false)
    (demo_client false) (mkDemoFiles ∅ 0) (mkDemoFiles {["seed" := "abandon"%string]} 7));
    vm_compute; reflexivity.
Defined.

(** Of three outputs, the one that is unconfirmed and the one with another script are
    left out. *)
Lemma list_utxos_correct_witness :
  exists us, out (run demo_env list_confirmed_utxos (demo_client true) (mkDemoFiles ∅ 0)) = Done us /\
    ldk_view <$> us = [(mkOutPoint [1] 0, 700, 0 :: 20 :: replicate 20 9)].
Proof.
  destruct (list_utxos_correct demo_env (demo_client true) (mkDemoFiles ∅ 0))
    as (_ & unspent & us & El & Eo & Hv).
  exists us. split; [exact Eo|]. rewrite Hv.
  apply (f_equal (fun l => match l with [existT BdkListUnspent u] => u | _ => [] end)) in El.
  cbn in El. rewrite <- El. reflexivity.
Defined.

(** A relay on regtest with Esplora funds a channel and broadcasts two transactions. *)
Definition demo_process : Process :=
  mkProcess [] (fun v => if String.eqb v "BITCOIN_ESPLORA_URL" then Some "http://esplora/"%string
                         else None) None (fun _ => None).
Definition demo_ops : list WalletOp := [OpFund [81] 500; OpBroadcast [[1]; [2]]; OpSync 1; OpUtxos].

Lemma backend_used_witness :
  let r := run demo_env (start_client demo_process ".ldk" RegtestNet) (demo_client false)
             (mkDemoFiles ∅ 0) in
  let r' := run demo_env (wallet_progs demo_ops) (fin r) (world r) in
  out r = Done (Started tt) /\ length (log r') = 12%nat /\
  Forall (fun e => is_rpc (projT1 e) = false) (log r').
Proof.
  assert (out (run demo_env (start_client demo_process ".ldk" RegtestNet) (demo_client false)
    (mkDemoFiles ∅ 0)) = Done (Started tt)) as Ho by (vm_compute; reflexivity).
  split; [exact Ho|]. split; [vm_compute; reflexivity|].
  exact (proj1 (proj2 (backend_used demo_env demo_process ".ldk" RegtestNet (demo_client false)
    (mkDemoFiles ∅ 0) demo_ops Ho))).
Defined.
