(* ===== verification/Metrics.v ===== *)
(** * The metrics endpoint

    [handle_metrics] sums the groups of [SELECT status, COUNT( * ) ... GROUP BY
    status].  Here the sums are related to the rows of the tables. *)

From S2P Require Import Prelude Effects Mapping MappingFacts MappingSpec Types RateLimiter World.
From S2P Require Import Api.

(** The sum of the counts whose status satisfies [P]. *)
Fixpoint sum_counts (P : string -> bool) (counts : list (string * Z)) : Z :=
  match counts with
  | [] => 0
  | (s, c) :: counts => (if P s then c else 0) + sum_counts P counts
  end.

Definition is_completed (s : string) : bool := String.eqb s "completed".
Definition is_failed (s : string) : bool := String.eqb s "failed" || String.eqb s "expired".
Definition is_pending (s : string) : bool := negb (is_completed s) && negb (is_failed s).

(** ** Sums over groups *)

Lemma sum_counts_perm P l l' : l ≡ₚ l' -> sum_counts P l = sum_counts P l'.
Proof.
  induction 1 as [|[s c] l l' _ IH|[s c] [s' c'] l|l l' l'' _ IH1 _ IH2]; cbn; [done|lia|lia|].
  by rewrite IH1.
Qed.

Section groups.
Context {R : Type} (key : R -> string).

Definition group_size (rows : list R) (s : string) : Z :=
  Z.of_nat (length (List.filter (fun r => String.eqb (key r) s) rows)).

(** Adding one row adds one to the group of its key, once. *)
Lemma sum_counts_row P xs k r rows :
  NoDup xs -> k = key r ->
  sum_counts P ((fun s => (s, group_size (r :: rows) s)) <$> xs)
  = sum_counts P ((fun s => (s, group_size rows s)) <$> xs)
    + (if decide (k ∈ xs) then if P k then 1 else 0 else 0).
Proof.
  intros Hnd ->. induction Hnd as [|s xs Hs Hnd IH]; [done|].
  rewrite !fmap_cons. cbn [sum_counts]. rewrite IH. clear IH. unfold group_size. cbn [List.filter].
  destruct (String.eqb_spec (key r) s) as [<-|Hne].
  - rewrite (decide_True (P := key r ∈ key r :: xs)), (decide_False (P := key r ∈ xs)) by set_solver.
    cbn [length]. destruct (P (key r)); lia.
  - destruct (decide (key r ∈ xs)).
    + rewrite decide_True by set_solver. lia.
    + rewrite decide_False by set_solver. lia.
Qed.

Lemma sum_groups P xs rows :
  NoDup xs -> (forall r, r ∈ rows -> key r ∈ xs) ->
  sum_counts P ((fun s => (s, group_size rows s)) <$> xs)
  = Z.of_nat (length (List.filter (fun r => P (key r)) rows)).
Proof.
  intros Hnd. induction rows as [|r rows IH]; intros Hin.
  - cbn. clear. induction xs as [|s xs IH]; cbn; [done|]. rewrite IH. by destruct (P s).
  - rewrite (sum_counts_row _ _ (key r)), IH by (done || set_solver).
    rewrite decide_True by set_solver. cbn. destruct (P (key r)); cbn; lia.
Qed.

(** The groups of a table partition its rows. *)
Lemma sum_group_count P rows :
  sum_counts P (sql_group_count key rows)
  = Z.of_nat (length (List.filter (fun r => P (key r)) rows)).
Proof.
  unfold sql_group_count. fold (group_size rows).
  rewrite <- (sum_groups P (merge_sort String.le (remove_dups (key <$> rows)))).
  - done.
  - rewrite merge_sort_Permutation. apply NoDup_remove_dups.
  - intros r Hr. rewrite merge_sort_Permutation, elem_of_remove_dups. by apply list_elem_of_fmap_2.
Qed.
End groups.

(** ** The fold of [to_status_counts] *)

Lemma i64_add_wrap a b : i64_add (wrap_i64 a) b = wrap_i64 (a + b).
Proof.
  unfold i64_add, wrap_i64.
  replace ((a + 2 ^ 63) `mod` 2 ^ 64 - 2 ^ 63 + b + 2 ^ 63)
    with ((a + 2 ^ 63) `mod` 2 ^ 64 + b) by lia.
  rewrite Zplus_mod_idemp_l. do 2 f_equal. lia.
Qed.

Lemma to_status_counts_sums counts :
  to_status_counts counts =
  mkCounts (wrap_i64 (sum_counts is_completed counts)) (wrap_i64 (sum_counts is_pending counts))
    (wrap_i64 (sum_counts is_failed counts)) (wrap_i64 (sum_counts (fun _ => true) counts)).
Proof.
  unfold to_status_counts. change (mkCounts 0 0 0 0) with
    (mkCounts (wrap_i64 0) (wrap_i64 0) (wrap_i64 0) (wrap_i64 0)).
  assert (forall c p f t,
    foldl count_status (mkCounts (wrap_i64 c) (wrap_i64 p) (wrap_i64 f) (wrap_i64 t)) counts =
    mkCounts (wrap_i64 (c + sum_counts is_completed counts))
      (wrap_i64 (p + sum_counts is_pending counts)) (wrap_i64 (f + sum_counts is_failed counts))
      (wrap_i64 (t + sum_counts (fun _ => true) counts))) as Hgen; [|apply Hgen].
  induction counts as [|[s n] counts IH]; intros c p f t; cbn [foldl sum_counts].
  { by rewrite !Z.add_0_r. }
  unfold count_status at 2. cbn. rewrite !i64_add_wrap.
  change (is_completed s) with (String.eqb s "completed").
  change (is_pending s) with (negb (String.eqb s "completed") && negb (is_failed s)).
  change (is_failed s) with (String.eqb s "failed" || String.eqb s "expired").
  destruct (String.eqb_spec s "completed") as [->|]; cbn [negb andb orb String.eqb];
    [|destruct (_ || _)]; cbn [negb andb]; rewrite IH; f_equal; f_equal; lia.
Qed.

(** ** The two tables *)

Definition rows_with {R} (key : R -> string) (P : string -> bool) (rows : list R) : Z :=
  Z.of_nat (length (List.filter (fun r => P (key r)) rows)).

Definition table_counts {R} (key : R -> string) (rows : list R) : StatusCounts :=
  mkCounts (rows_with key is_completed rows) (rows_with key is_pending rows)
    (rows_with key is_failed rows) (Z.of_nat (length rows)).

Lemma rows_with_le {R} (key : R -> string) P rows : 0 <= rows_with key P rows <= Z.of_nat (length rows).
Proof. unfold rows_with. pose proof (filter_length_le (fun r => P (key r)) rows). lia. Qed.

Lemma status_counts_table {R} (key : R -> string) rows :
  Z.of_nat (length rows) <= i64_max ->
  to_status_counts (sql_group_count key rows) = table_counts key rows.
Proof.
  intros Hmax. rewrite to_status_counts_sums, !sum_group_count.
  fold (rows_with key is_completed rows) (rows_with key is_pending rows)
    (rows_with key is_failed rows).
  assert (List.filter (fun _ : R => true) rows = rows) as -> by (clear; by induction rows; cbn; f_equal).
  unfold table_counts. pose proof (rows_with_le key is_completed rows).
  pose proof (rows_with_le key is_pending rows). pose proof (rows_with_le key is_failed rows).
  by rewrite !wrap_i64_id by (unfold_ints; lia).
Qed.

Lemma rows_partition {R} (key : R -> string) rows :
  rows_with key is_completed rows + rows_with key is_pending rows + rows_with key is_failed rows
  = Z.of_nat (length rows).
Proof.
  unfold rows_with, is_pending. induction rows as [|r rows IH]; [done|]. cbn [List.filter].
  unfold is_failed, is_completed in *.
  destruct (String.eqb_spec (key r) "completed") as [->|]; cbn [negb andb orb String.eqb] in *;
    [|destruct (_ || _)]; cbn in *; lia.
Qed.

Section theorem.
Context `{Externals} {W : Type} `{!Env W}.

(** The metrics endpoint counts every row of both tables exactly once, as
    completed, as failed (or expired), or as pending, and the three add up to the
    total, the number of rows. *)
Lemma metrics_correct s (w : W) :
  Z.of_nat (length (SwapDb.swap_mappings (swap_db s))) <= i64_max ->
  Z.of_nat (length (SwapDb.offramp_mappings (swap_db s))) <= i64_max ->
  exec handle_metrics s w =
    RunResult (Done (mkMetrics (table_counts Swap.status (SwapDb.swap_mappings (swap_db s)))
                       (table_counts Offramp.status (SwapDb.offramp_mappings (swap_db s))))) s w [] /\
  forall c, c = table_counts Swap.status (SwapDb.swap_mappings (swap_db s)) \/
            c = table_counts Offramp.status (SwapDb.offramp_mappings (swap_db s)) ->
    completed c + pending c + failed c = total c.
Proof.
  intros H1 H2. split.
  - unfold handle_metrics. rewrite !exec_db_read.
    unfold SwapDb.get_swap_counts, SwapDb.get_offramp_counts.
    by rewrite !status_counts_table.
  - intros c [->| ->]; apply rows_partition.
Qed.
End theorem.
