(* ===== verification/Events.v ===== *)
(** * LDK events ([src/src/events.rs])

    [handle_ldk_events] is one [match] on the event.  Each arm that has an effect is
    a definition; arms that only print do nothing here.  [cardano] says whether the
    relay was started with a Cardano configuration: [swap_db] and [operator_agent]
    are then both present. *)

From S2P Require Import Prelude Effects Mapping MappingFacts Types RateLimiter World Payments.
Open Scope prog_scope.

Inductive PaymentPurpose :=
| Bolt11InvoicePayment (payment_preimage : option bytes) (payment_secret : bytes)
| Bolt12OfferPayment (payment_preimage : option bytes) (payment_secret : bytes)
| Bolt12RefundPayment (payment_preimage : option bytes) (payment_secret : bytes)
| SpontaneousPayment (preimage : bytes).

(** The fields are those the handler reads. *)
Inductive Event :=
| FundingGenerationReady (temporary_channel_id counterparty_node_id : bytes)
    (channel_value_satoshis : Z) (output_script : bytes)
| PaymentClaimable (payment_hash : bytes) (purpose : PaymentPurpose) (amount_msat : Z)
| PaymentClaimed (payment_hash : bytes) (purpose : PaymentPurpose) (amount_msat : Z)
| PaymentSent (payment_preimage payment_hash : bytes) (payment_id : option bytes)
| OpenChannelRequest (temporary_channel_id counterparty_node_id : bytes)
| PaymentFailed (payment_hash : option bytes) (payment_id : bytes)
| SpendableOutputs (outputs : list SpendableOutputDescriptor)
| BumpTransaction (event : bytes)
| ConnectionNeeded (node_id : bytes) (addresses : list NodeAddress)
| OtherEvent.

Section events.
Context `{Externals} (cardano : bool).

Definition purpose_preimage (p : PaymentPurpose) : option bytes :=
  match p with
  | Bolt11InvoicePayment pre _ | Bolt12OfferPayment pre _ | Bolt12RefundPayment pre _ => pre
  | SpontaneousPayment pre => Some pre
  end.

Definition purpose_secret (p : PaymentPurpose) : option bytes :=
  match p with
  | Bolt11InvoicePayment _ s | Bolt12OfferPayment _ s | Bolt12RefundPayment _ s => Some s
  | SpontaneousPayment _ => None
  end.

Definition on_funding_generation_ready (tmp peer : bytes) (value : Z) (script : bytes) :
  relay_prog unit :=
  let* r := call (RCreateFundingTx script value) in
  match r with
  | Err _ => Ret tt
  | Ok final_tx => call (RFundingGenerated tmp peer final_tx) ;; Ret tt
  end.

Definition on_payment_claimable (purpose : PaymentPurpose) : relay_prog unit :=
  match purpose_preimage purpose with
  | Some preimage => call (RClaimFunds preimage)
  | None => Ret tt
  end.

(** The update of the inbound table on [PaymentClaimed]. *)
Definition claim_inbound (hash : bytes) (purpose : PaymentPurpose) (amount_msat : Z)
  (m : InboundPaymentInfoStorage) : InboundPaymentInfoStorage :=
  let preimage := purpose_preimage purpose in
  let secret := purpose_secret purpose in
  match m !! hash with
  | Some p => <[hash := mkPaymentInfo preimage secret HTLCStatus.Succeeded (amt_msat p)]> m
  | None => <[hash := mkPaymentInfo preimage secret HTLCStatus.Succeeded (Some amount_msat)]> m
  end.

Definition on_payment_claimed (hash : bytes) (purpose : PaymentPurpose) (amount_msat : Z) :
  relay_prog unit :=
  let* enc := local (fun s =>
    let m := claim_inbound hash purpose amount_msat (inbound_payments s) in
    (m, set_inbound s m)) in
  write_inbound enc ;;
  if cardano then
    let hash_hex := payment_hash_display hash in
    let* found := db_read (SwapDb.get_by_payment_hash hash_hex) in
    match found with
    | Some _ => spawn (SpawnFulfillSwap hash_hex)
    | None => Ret tt
    end
  else Ret tt.

(** The loop over [outbound.payments.iter_mut()] that updates the entry of [pid]. *)
Definition settle_outbound (pid preimage : bytes) (m : OutboundPaymentInfoStorage) :
  OutboundPaymentInfoStorage :=
  map_imap (fun id p => Some
    (if decide (id = pid)
     then mkPaymentInfo (Some preimage) (secret p) HTLCStatus.Succeeded (amt_msat p) else p)) m.

Definition on_payment_sent (preimage hash : bytes) (payment_id : option bytes) : relay_prog unit :=
  match payment_id with
  | None => Ret tt
  | Some pid =>
      let* enc := local (fun s =>
        let m := settle_outbound pid preimage (outbound_payments s) in (m, set_outbound s m)) in
      write_outbound enc ;;
      if cardano then
        let hash_hex := payment_hash_display hash in
        let* found := db_read (SwapDb.get_offramp_by_payment_hash hash_hex) in
        match found with
        | Some _ => spawn (SpawnCompleteOfframp hash_hex (preimage_display preimage))
        | None => Ret tt
        end
      else Ret tt
  end.

(** [u128::from_be_bytes] *)
Definition from_be_bytes (bs : bytes) : Z := foldl (fun acc b => acc * 256 + b) 0 bs.

(** [&bytes[..16]] panics on fewer than sixteen bytes. *)
Definition on_open_channel_request (tmp peer : bytes) : relay_prog unit :=
  let* random := call RRandomBytes in
  if (length random <? 16)%nat then Panic "range end index 16 out of range for slice"
  else call (RAcceptChannel tmp peer (from_be_bytes (take 16 random))) ;; Ret tt.

Definition on_payment_failed (hash : option bytes) (payment_id : bytes) : relay_prog unit :=
  let* enc := local (fun s =>
    let m := alter (set_payment_status HTLCStatus.Failed) payment_id (outbound_payments s) in
    (m, set_outbound s m)) in
  write_outbound enc ;;
  match hash with
  | Some hash =>
      if cardano then spawn (SpawnOfframpPaymentFailed (payment_hash_display hash)) else Ret tt
  | None => Ret tt
  end.

Definition on_spendable_outputs (outputs : list SpendableOutputDescriptor) : relay_prog unit :=
  let* r := call (RTrackOutputs outputs) in
  match r with Ok _ => Ret tt | Err e => Panic e end.

Definition handle_ldk_events (e : Event) : relay_prog unit :=
  match e with
  | FundingGenerationReady tmp peer value script => on_funding_generation_ready tmp peer value script
  | PaymentClaimable _ purpose _ => on_payment_claimable purpose
  | PaymentClaimed hash purpose amount_msat => on_payment_claimed hash purpose amount_msat
  | PaymentSent preimage hash payment_id => on_payment_sent preimage hash payment_id
  | OpenChannelRequest tmp peer => on_open_channel_request tmp peer
  | PaymentFailed hash payment_id => on_payment_failed hash payment_id
  | SpendableOutputs outputs => on_spendable_outputs outputs
  | BumpTransaction event => call (RHandleBump event)
  | ConnectionNeeded node_id addresses => spawn (SpawnConnect node_id addresses)
  | OtherEvent => Ret tt
  end.
End events.

(** ** Theorems *)

Section theorems.
Context `{Externals} {W : Type} `{!Env W} (cardano : bool).
Implicit Types (s : Relay) (w : W).

(** The handlers a run spawned. *)
Definition spawned (e : event resp) : option Spawned :=
  match e with existT (RSpawn t) _ => Some t | _ => None end.

(** What a claimed payment leads to. *)
Definition claimed (hash : bytes) (purpose : PaymentPurpose) (amount : Z) (s : Relay)
  (o : outcome unit) (s' : Relay) (l : list (event resp)) : Prop :=
  let m := claim_inbound hash purpose amount (inbound_payments s) in
  s' = set_inbound s m /\ exists v l1, l = existT (RWriteInbound m) v :: l1 /\
  match v with
  | Err e => o = Panicked e /\ l1 = []
  | Ok _ => o = Done tt /\
      omap spawned l1 =
        if cardano then
          match SwapDb.get_by_payment_hash (payment_hash_display hash) (swap_db s) with
          | Some _ => [SpawnFulfillSwap (payment_hash_display hash)]
          | None => []
          end
        else []
  end.

Lemma wp_payment_claimed hash purpose amount s :
  wp (on_payment_claimed cardano hash purpose amount) s [] (claimed hash purpose amount s).
Proof.
  unfold claimed. cbn. intros [[]|e]; cbn; [destruct cardano; cbn; [wp_step; cbn;
    destruct (SwapDb.get_by_payment_hash _ _); cbn; [intros []|]|]|];
    (split; [done|]); eexists _, _; (split; [done|]); done.
Qed.

Lemma claim_inbound_entry hash purpose amount m :
  exists p, claim_inbound hash purpose amount m !! hash = Some p /\ status p = HTLCStatus.Succeeded /\
            preimage p = purpose_preimage purpose.
Proof. unfold claim_inbound. destruct (m !! hash); eexists; by rewrite lookup_insert_eq. Qed.

Lemma claim_inbound_other hash purpose amount m h :
  h <> hash -> claim_inbound hash purpose amount m !! h = m !! h.
Proof. intros Hne. unfold claim_inbound. destruct (m !! hash); by rewrite lookup_insert_ne. Qed.

(** C17: a claimed payment is recorded as succeeded, with the preimage of its purpose,
    in the inbound table (the amount of a known payment is kept), the table is
    written to disk before anything else happens, and [fulfill_swap] is spawned for
    its payment hash exactly when the write succeeded, Cardano is configured and
    the database has a swap with that hash.  The database is not changed, and no
    other payment is. *)
Theorem payment_claimed_correct hash purpose amount s w :
  let r := exec (on_payment_claimed cardano hash purpose amount) s w in
  let m := claim_inbound hash purpose amount (inbound_payments s) in
  fin r = set_inbound s m /\
  (exists p, m !! hash = Some p /\ status p = HTLCStatus.Succeeded /\
             preimage p = purpose_preimage purpose) /\
  (forall h, h <> hash -> m !! h = inbound_payments s !! h) /\
  exists v l, log r = existT (RWriteInbound m) v :: l /\
    match v with
    | Err e => out r = Panicked e /\ l = []
    | Ok _ => out r = Done tt /\
        omap spawned l =
          if cardano then
            match SwapDb.get_by_payment_hash (payment_hash_display hash) (swap_db s) with
            | Some _ => [SpawnFulfillSwap (payment_hash_display hash)]
            | None => []
            end
          else []
    end.
Proof.
  destruct (wp_exec _ s w _ (wp_payment_claimed hash purpose amount s)) as [Hf Hl].
  split_and!; [done|apply claim_inbound_entry|apply claim_inbound_other|done].
Qed.

(** [PaymentSent]: the state, and what is spawned. *)
Lemma payment_sent_run pre hash pid s w :
  let r := exec (on_payment_sent cardano pre hash (Some pid)) s w in
  fin r = set_outbound s (settle_outbound pid pre (outbound_payments s)) /\
  (out r = Done tt -> omap spawned (log r) =
     match cardano, SwapDb.get_offramp_by_payment_hash (payment_hash_display hash) (swap_db s) with
     | true, Some _ => [SpawnCompleteOfframp (payment_hash_display hash) (preimage_display pre)]
     | _, _ => []
     end).
Proof.
  apply (wp_exec _ s w (fun o s' l =>
    s' = set_outbound s (settle_outbound pid pre (outbound_payments s)) /\
    (o = Done tt -> omap spawned l =
      match cardano, SwapDb.get_offramp_by_payment_hash (payment_hash_display hash) (swap_db s) with
      | true, Some _ => [SpawnCompleteOfframp (payment_hash_display hash) (preimage_display pre)]
      | _, _ => []
      end))).
  cbn. intros [[]|e]; cbn; [|done]. destruct cardano; cbn; [wp_step|done]. cbn.
  by destruct (SwapDb.get_offramp_by_payment_hash _ _).
Qed.

(** The table [m] is written first, a failed write panics, and after it exactly the tasks
    [ts] are spawned. *)
Definition written_then (m : OutboundPaymentInfoStorage) (ts : list Spawned) (o : outcome unit)
  (l : list (event resp)) : Prop :=
  exists y, l = existT (RWriteOutbound m) y ::
                match y with Ok _ => (fun t => existT (RSpawn t) tt : event resp) <$> ts | Err _ => [] end /\
  match y with Ok _ => o = Done tt | Err _ => exists msg, o = Panicked msg end.

(** C18: [PaymentSent] without a payment id does nothing at all.  With one, it settles exactly
    the outbound payment with that id, as succeeded with the event's preimage;
    [PaymentFailed] settles exactly the one with its id, as failed.  The table is written to
    disk first, and a failed write panics.  After it, if Cardano is configured, the
    completion is spawned for the payment hash of a [PaymentSent] that some offramp in the
    database has, and the failure handler for the payment hash of a [PaymentFailed] that
    carries one; nothing else is requested.  The database is not changed. *)
Theorem payment_settled_correct pre hash pid fhash s w :
  (let r := exec (on_payment_sent cardano pre hash (Some pid)) s w in
   let m := settle_outbound pid pre (outbound_payments s) in
   fin r = set_outbound s m /\
   (forall id, m !! id = if decide (id = pid)
      then (fun p => mkPaymentInfo (Some pre) (secret p) HTLCStatus.Succeeded (amt_msat p))
             <$> outbound_payments s !! pid
      else outbound_payments s !! id) /\
   written_then m
      match cardano, SwapDb.get_offramp_by_payment_hash (payment_hash_display hash) (swap_db s) with
      | true, Some _ => [SpawnCompleteOfframp (payment_hash_display hash) (preimage_display pre)]
      | _, _ => []
      end (out r) (log r)) /\
  (let r := exec (on_payment_sent cardano pre hash None) s w in
   out r = Done tt /\ fin r = s /\ log r = []) /\
  (let r := exec (on_payment_failed cardano fhash pid) s w in
   let m := alter (set_payment_status HTLCStatus.Failed) pid (outbound_payments s) in
   fin r = set_outbound s m /\
   written_then m
      match cardano, fhash with
      | true, Some h => [SpawnOfframpPaymentFailed (payment_hash_display h)]
      | _, _ => []
      end (out r) (log r)).
Proof.
  split; cbn zeta; [split_and!|split; [done|split]].
  - apply payment_sent_run.
  - intros id. unfold settle_outbound. rewrite map_lookup_imap. case_decide as Hid; [subst id|].
    + by destruct (outbound_payments s !! pid).
    + by destruct (outbound_payments s !! id).
  - apply (wp_exec _ s w (fun o _ l => written_then _ _ o l)). cbn.
    intros [[]|e]; cbn; [|exists (Err e); by eauto].
    destruct cardano; cbn; [wp_step|by eexists (Ok tt)]. cbn.
    destruct (SwapDb.get_offramp_by_payment_hash _ _); [intros []|]; by eexists (Ok tt).
  - apply (wp_exec _ s w (fun _ s' _ => s' = set_outbound s
      (alter (set_payment_status HTLCStatus.Failed) pid (outbound_payments s)))).
    cbn. intros [[]|e]; cbn; [|done]. by destruct fhash, cardano.
  - apply (wp_exec _ s w (fun o _ l => written_then _ _ o l)). cbn.
    intros [[]|e]; cbn; [|exists (Err e); by eauto].
    destruct fhash, cardano; cbn; [intros []|..]; by eexists (Ok tt).
Qed.
End theorems.
