(* ===== verification/Disk.v ===== *)
(** * The payment tables on disk ([src/src/disk.rs], start-up in [src/src/main.rs])

    The two payment tables are written whole, each to its file, and read back when the
    relay starts.  The encoding is generated by LDK's serialisation macros
    ([impl_writeable_tlv_based!] in [types.rs]): it is a class with the law that makes
    it a serialisation.  LDK's [FilesystemStore] replaces a file atomically, so a failed
    write leaves the old content. *)

From stdpp Require Import countable.
From S2P Require Import Prelude Effects Amounts HexUtils Text Args Mapping Types RateLimiter World Helpers.
From S2P Require Import Rows Peers Payments CardanoSwap CardanoOfframp Recovery Background Api Shell.
From S2P Require Import Events.
Open Scope prog_scope.

Definition INBOUND_PAYMENTS_FNAME : string := "inbound_payments".
Definition OUTBOUND_PAYMENTS_FNAME : string := "outbound_payments".

(** [Writeable::encode] and [Readable::read] of a payment table. *)
Class PaymentCodec := {
  encode_payments : gmap bytes PaymentInfo -> bytes;
  decode_payments : bytes -> option (gmap bytes PaymentInfo);
  decode_encode_payments m : decode_payments (encode_payments m) = Some m;
}.

(** ** The network graph and the scorer

    LDK's readers: a file that is missing or does not decode gives a fresh one. *)

Class GraphLib := {
  NetworkGraph : Type;
  graph_read : bytes -> option NetworkGraph;
  graph_new : Network -> NetworkGraph;
  ProbabilisticScorer : Type;
  scorer_read : NetworkGraph -> bytes -> option ProbabilisticScorer;
  scorer_new : NetworkGraph -> ProbabilisticScorer;
}.

Definition read_network `{GraphLib} (file : option bytes) (network : Network) : NetworkGraph :=
  match file with
  | Some content =>
      match graph_read content with
      | Some graph => graph
      | None => graph_new network
      end
  | None => graph_new network
  end.

Definition read_scorer `{GraphLib} (file : option bytes) (graph : NetworkGraph) : ProbabilisticScorer :=
  match file with
  | Some content =>
      match scorer_read graph content with
      | Some scorer => scorer
      | None => scorer_new graph
      end
  | None => scorer_new graph
  end.

(** ** The log file *)

Record LogRecord := mkLog {
  is_gossip : bool;              (** [record.level == Level::Gossip] *)
  level : string;                (** the level's text *)
  module_path : string;
  line : Z;
  raw_log : string;
}.

Fixpoint spaces (n : nat) : string :=
  match n with O => EmptyString | S n => String (chr 32) (spaces n) end.

(** [format!("{} {:<5} [{}:{}] {}\n", ..)]: the time comes formatted. *)
Definition log_line (now : string) (r : LogRecord) : string :=
  now +:+ " " +:+ level r +:+ spaces (5 - String.length (level r)) +:+ " [" +:+
  module_path r +:+ ":" +:+ pretty (line r) +:+ "] " +:+ raw_log r +:+ String (chr 10) EmptyString.

(** [FilesystemLogger::log]: what is in [logs.txt] afterwards. *)
Definition logger_log (now : string) (file : option string) (r : LogRecord) : option string :=
  if is_gossip r then file else Some (default EmptyString file +:+ log_line now r).

(** The log only grows, by one line for every record that is not gossip. *)
Lemma logger_appends now file rs :
  default EmptyString (foldl (logger_log now) file rs)
  = default EmptyString file +:+ foldr (fun r acc => log_line now r +:+ acc) EmptyString
      (List.filter (fun r => negb (is_gossip r)) rs).
Proof.
  revert file. induction rs as [|r rs IH]; intros file; cbn; [by rewrite string_app_nil_r|].
  rewrite IH. unfold logger_log. destruct (is_gossip r); cbn; [done|]. by rewrite string_app_assoc.
Qed.

(** The files of the data directory, by path. *)
Abbreviation files := (gmap string bytes).

Section disk.
Context `{Externals} `{!PaymentCodec} (ldk_data_dir : string).

Definition payments_path (name : string) : string := ldk_data_dir +:+ "/" +:+ name.

(** [read_inbound_payment_info] and [read_outbound_payment_info]: a file that is missing
    or does not decode is an empty table. *)
Definition read_info (file : option bytes) : gmap bytes PaymentInfo :=
  match file with
  | Some content =>
      match decode_payments content with
      | Some info => info
      | None => ∅
      end
  | None => ∅
  end.
Definition read_payment_info (fs : files) (path : string) : gmap bytes PaymentInfo :=
  read_info (fs !! path).

(** What an answered request leaves on disk. *)
Definition disk_event (fs : files) (e : event resp) : files :=
  match e with
  | existT (RWriteInbound m) (Ok _) => <[payments_path INBOUND_PAYMENTS_FNAME := encode_payments m]> fs
  | existT (RWriteOutbound m) (Ok _) =>
      <[payments_path OUTBOUND_PAYMENTS_FNAME := encode_payments m]> fs
  | _ => fs
  end.

Definition disk_after (fs : files) (l : list (event resp)) : files := foldl disk_event fs l.

(** The tables a start reads, and the files it leaves: pending outbound payments that
    LDK no longer knows are failed, and the table is written back at once. *)
Definition load_payments (recent : list bytes) (fs : files) :
  InboundPaymentInfoStorage * OutboundPaymentInfoStorage * files :=
  let inbound := read_payment_info fs (payments_path INBOUND_PAYMENTS_FNAME) in
  let outbound :=
    reconcile_outbound recent (read_payment_info fs (payments_path OUTBOUND_PAYMENTS_FNAME)) in
  (inbound, outbound,
   <[payments_path OUTBOUND_PAYMENTS_FNAME := encode_payments outbound]> fs).

(** ** Tables and files agree *)

Definition synced (fs : files) (s : Relay) : Prop :=
  read_payment_info fs (payments_path INBOUND_PAYMENTS_FNAME) = inbound_payments s /\
  read_payment_info fs (payments_path OUTBOUND_PAYMENTS_FNAME) = outbound_payments s.

Lemma paths_differ :
  payments_path INBOUND_PAYMENTS_FNAME <> payments_path OUTBOUND_PAYMENTS_FNAME.
Proof.
  unfold payments_path, INBOUND_PAYMENTS_FNAME, OUTBOUND_PAYMENTS_FNAME.
  induction ldk_data_dir as [|c d IH]; cbn; [done|]. intros [= E]. by apply IH.
Qed.

Lemma read_written path fs m :
  read_payment_info (<[path := encode_payments m]> fs) path = m.
Proof. unfold read_payment_info, read_info. by rewrite lookup_insert_eq, decode_encode_payments. Qed.

Lemma read_other path path' fs c :
  path <> path' -> read_payment_info (<[path := c]> fs) path' = read_payment_info fs path'.
Proof. intros Hne. unfold read_payment_info, read_info. by rewrite lookup_insert_ne. Qed.

(** A program after which the files agree with the tables again, unless it panicked. *)
Definition syncing {A} (p : relay_prog A) : Prop :=
  forall s l fs, synced fs s ->
    wp p s l (fun o s' l' => exists l1, l' = l ++ l1 /\
      match o with Done _ => synced (disk_after fs l1) s' | Panicked _ => True end).

Lemma syncing_bind {A B} (p : relay_prog A) (f : A -> relay_prog B) :
  syncing p -> (forall a, syncing (f a)) -> syncing (bind p f).
Proof.
  intros Hp Hf s l fs Hs. apply wp_bind. eapply wp_mono; [|by apply Hp].
  intros o s' l' (l1 & -> & Ho). destruct o as [a|m]; cbn; [|by exists l1].
  eapply wp_mono; [|by apply Hf]. intros o' s2 l2 (l3 & -> & Ho'). exists (l1 ++ l3).
  rewrite app_assoc. split; [done|]. destruct o'; [|done]. unfold disk_after in *.
  by rewrite foldl_app.
Qed.

Lemma syncing_ret {A} (a : A) : syncing (Ret a).
Proof. intros s l fs Hs. exists []. by rewrite app_nil_r. Qed.
Lemma syncing_panic {A} m : syncing (Panic (A := A) m).
Proof. intros s l fs Hs. exists []. by rewrite app_nil_r. Qed.

Definition not_write (r : Req) : Prop :=
  match r with RWriteInbound _ | RWriteOutbound _ => False | _ => True end.

Lemma syncing_call {A} r (k : resp r -> relay_prog A) :
  not_write r -> (forall x, syncing (k x)) -> syncing (bind (call r) k).
Proof.
  intros Hr Hk. apply (syncing_bind (call r) k); [|done]. intros s l fs Hs x.
  exists [existT r x]. split; [done|]. by destruct r.
Qed.

Lemma syncing_read {A B} (f : SwapDb.t -> A) (k : A -> relay_prog B) :
  (forall x, syncing (k x)) -> syncing (bind (db_read f) k).
Proof. intros Hk s l fs Hs. by apply Hk. Qed.

(** Updating a table and writing it. *)
Lemma syncing_outbound {A : Type} (f : OutboundPaymentInfoStorage -> OutboundPaymentInfoStorage)
  (k : unit -> relay_prog A) :
  (forall x, syncing (k x)) ->
  syncing (bind (local (fun s => let m := f (outbound_payments s) in (m, set_outbound s m)))
             (fun enc => bind (write_outbound enc) k)).
Proof.
  intros Hk s l fs [Hi Ho]. cbn. intros [u|e]; cbn.
  - eapply wp_mono; [|apply (Hk tt _ _ (disk_event fs (existT (RWriteOutbound (f (outbound_payments s))) (Ok u))))].
    + intros o s' l' (l1 & -> & Hl). eexists (_ :: l1). rewrite <- app_assoc. split; [done|].
      exact Hl.
    + cbn. split; cbn; [|by rewrite read_written].
      rewrite read_other by (apply not_eq_sym, paths_differ). done.
  - eexists [_]. done.
Qed.

Lemma syncing_inbound {A : Type} (f : InboundPaymentInfoStorage -> InboundPaymentInfoStorage)
  (k : unit -> relay_prog A) :
  (forall x, syncing (k x)) ->
  syncing (bind (local (fun s => let m := f (inbound_payments s) in (m, set_inbound s m)))
             (fun enc => bind (write_inbound enc) k)).
Proof.
  intros Hk s l fs [Hi Ho]. cbn. intros [u|e]; cbn.
  - eapply wp_mono; [|apply (Hk tt _ _ (disk_event fs (existT (RWriteInbound (f (inbound_payments s))) (Ok u))))].
    + intros o s' l' (l1 & -> & Hl). eexists (_ :: l1). rewrite <- app_assoc. split; [done|].
      exact Hl.
    + cbn. split; cbn; [by rewrite read_written|].
      rewrite read_other by apply paths_differ. done.
  - eexists [_]. done.
Qed.

Lemma syncing_outbound_fail {A : Type} id (k : unit -> relay_prog A) :
  (forall x, syncing (k x)) ->
  syncing (bind (outbound_fail id) (fun enc => bind (write_outbound enc) k)).
Proof.
  intros Hk s l fs Hs. unfold outbound_fail. cbn.
  destruct (outbound_payments s !! id) as [p|]; cbn; [|by exists []; rewrite app_nil_r].
  exact (syncing_outbound (fun m => <[id := set_payment_status HTLCStatus.Failed p]> m) k Hk s l fs Hs).
Qed.

(** Writing the table as it is. *)
Lemma syncing_write_outbound {A : Type} (f : OutboundPaymentInfoStorage -> OutboundPaymentInfoStorage)
  (k : unit -> relay_prog A) :
  (forall x, syncing (k x)) ->
  syncing (bind (local (fun s => (tt, set_outbound s (f (outbound_payments s)))))
    (fun _ => bind (reads outbound_payments) (fun enc => bind (write_outbound enc) k))).
Proof. intros Hk s l fs Hs. exact (syncing_outbound f k Hk s l fs Hs). Qed.

Lemma syncing_write_inbound {A : Type} (f : InboundPaymentInfoStorage -> InboundPaymentInfoStorage)
  (k : unit -> relay_prog A) :
  (forall x, syncing (k x)) ->
  syncing (bind (local (fun s => (tt, set_inbound s (f (inbound_payments s)))))
    (fun _ => bind (reads inbound_payments) (fun enc => bind (write_inbound enc) k))).
Proof. intros Hk s l fs Hs. exact (syncing_inbound f k Hk s l fs Hs). Qed.

Lemma syncing_send_payment invoice amt : syncing (send_payment invoice amt).
Proof.
  unfold send_payment, bind_try. apply syncing_bind; [apply syncing_ret|].
  intros [a|e]; [|apply syncing_ret]. apply (syncing_outbound (fun m => <[_ := _]> m)). intros _.
  apply syncing_call; [done|]. intros [u|e]; [apply syncing_ret|].
  apply syncing_outbound_fail. intros _. apply syncing_ret.
Qed.

Lemma wp_bind_ret {A} (p : relay_prog A) s l Q : wp (bind p Ret) s l Q -> wp p s l Q.
Proof.
  revert s l. induction p as [a|X f k IH|r k IH|m]; intros s l; cbn; auto.
Qed.

(** A program whose last action is the write. *)
Lemma syncing_tail {X A} (p : relay_prog X) (f : X -> relay_prog A) :
  syncing (bind p (fun x => bind (f x) Ret)) -> syncing (bind p f).
Proof.
  intros Hp s l fs Hs. specialize (Hp s l fs Hs). revert Hp.
  generalize (fun (o : outcome A) s' l' => exists l1, l' = l ++ l1 /\
    match o with Done _ => synced (disk_after fs l1) s' | Panicked _ => True end) as Q.
  intros Q. clear Hs. revert s l. induction p as [a|Y g k IH|r k IH|m]; intros s l; cbn; auto.
  apply wp_bind_ret.
Qed.

Lemma syncing_keysend payee amt : syncing (keysend payee amt).
Proof.
  unfold keysend. apply syncing_call; [done|]. intros preimage.
  apply (syncing_outbound (fun m => <[_ := _]> m)). intros _.
  apply syncing_call; [done|]. intros [u|e]; [apply syncing_ret|].
  apply syncing_tail, syncing_outbound_fail, syncing_ret.
Qed.

Lemma syncing_record_outbound {A : Type} id amt (k : unit -> relay_prog A) :
  (forall x, syncing (k x)) -> syncing (bind (record_outbound id amt) k).
Proof. intros Hk s l fs Hs. exact (syncing_write_outbound (fun m => <[id := _]> m) k Hk s l fs Hs). Qed.

Lemma syncing_sendpayment args rest : syncing (cmd_sendpayment args rest).
Proof.
  assert (forall a : option input, syncing (Ret a)) as Hret by (intros; apply syncing_ret).
  unfold cmd_sendpayment. repeat case_match; try apply Hret;
    try (apply syncing_bind; [apply syncing_send_payment|intros; apply Hret]);
    (apply syncing_call; [done|]; intros id; repeat case_match; try apply Hret);
    try (apply syncing_record_outbound; intros _; apply syncing_call; [done|]; intros; apply Hret).
  all: apply syncing_call; [done|]; intros nodes; destruct (dns_loop nodes []); [apply Hret|];
    apply syncing_record_outbound; intros _; apply syncing_call; [done|]; intros; apply Hret.
Qed.

(** A write of the inbound table that agrees with the file already. *)
Lemma syncing_rewrite_inbound : syncing (bind (reads inbound_payments) write_inbound).
Proof.
  intros s l fs [Hi Ho]. cbn. intros [u|e]; cbn; eexists [_]; (split; [done|]); [|done].
  split; cbn; [by rewrite read_written|]. by rewrite read_other by apply paths_differ.
Qed.

Lemma syncing_assoc {X Y A} (p : relay_prog X) (f : X -> relay_prog Y) (g : Y -> relay_prog A) :
  syncing (bind p (fun x => bind (f x) g)) -> syncing (bind (bind p f) g).
Proof.
  intros Hp s l fs Hs. specialize (Hp s l fs Hs). revert Hp.
  generalize (fun (o : outcome A) s' l' => exists l1, l' = l ++ l1 /\
    match o with Done _ => synced (disk_after fs l1) s' | Panicked _ => True end) as Q.
  intros Q. clear Hs. revert s l. induction p as [a|Z h k IH|r k IH|m]; intros s l; cbn; auto.
Qed.

Lemma syncing_getinvoice args : syncing (cmd_getinvoice args).
Proof.
  unfold cmd_getinvoice. repeat case_match; try apply syncing_ret. unfold get_invoice.
  apply syncing_assoc, syncing_call; [done|]. intros [inv|e].
  - apply (syncing_tail (inbound_insert _ _)).
    intros s1 l1 fs Hs. exact (syncing_write_inbound (fun m => <[_ := _]> m) Ret syncing_ret s1 l1 fs Hs).
  - exact syncing_rewrite_inbound.
Qed.

Lemma syncing_event cardano e : syncing (handle_ldk_events cardano e).
Proof.
  assert (forall r (k : resp r -> relay_prog unit), not_write r -> (forall x, syncing (k x)) ->
    syncing (Call r k)) as Hcall by (intros; by apply syncing_call).
  destruct e as [tmp peer value script|h purpose amt|h purpose amt|pre h [pid|]|tmp peer|h pid|outs|b|id
    addrs|]; cbn [handle_ldk_events].
  - apply syncing_call; [done|]. intros [tx|e]; [|apply syncing_ret].
    apply syncing_call; [done|]. intros ?. apply syncing_ret.
  - unfold on_payment_claimable. destruct (purpose_preimage purpose); [|apply syncing_ret].
    apply Hcall; [done|]. intros ?. apply syncing_ret.
  - apply (syncing_inbound (claim_inbound h purpose amt)). intros _.
    destruct cardano; [|apply syncing_ret]. apply syncing_read. intros [m|]; [|apply syncing_ret].
    apply Hcall; [done|]. intros ?. apply syncing_ret.
  - apply (syncing_outbound (settle_outbound pid pre)). intros _.
    destruct cardano; [|apply syncing_ret]. apply syncing_read. intros [m|]; [|apply syncing_ret].
    apply Hcall; [done|]. intros ?. apply syncing_ret.
  - apply syncing_ret.
  - apply syncing_call; [done|]. intros random. destruct (_ <? _)%nat; [apply syncing_panic|].
    apply syncing_call; [done|]. intros ?. apply syncing_ret.
  - apply (syncing_outbound (alter (set_payment_status HTLCStatus.Failed) pid)). intros _.
    destruct h; [|apply syncing_ret]. destruct cardano; [|apply syncing_ret].
    apply Hcall; [done|]. intros ?. apply syncing_ret.
  - apply syncing_call; [done|]. intros [u|e]; [apply syncing_ret|apply syncing_panic].
  - apply Hcall; [done|]. intros ?. apply syncing_ret.
  - apply Hcall; [done|]. intros ?. apply syncing_ret.
  - apply syncing_ret.
Qed.
End disk.

(** ** Restarts *)

(** What changes a payment table, or what the shell does with payments. *)
Inductive PaymentOp `{Externals} :=
| PayInvoice (invoice : Bolt11Invoice) (required : option Z)
| PayCommand (args : list string) (rest : input)
| PayKeysend (payee : bytes) (amt_msat : Z)
| InvoiceCommand (args : list string)
| LdkEvent (cardano : bool) (e : Event).

Definition payment_prog `{Externals} (o : PaymentOp) : relay_prog unit :=
  match o with
  | PayInvoice invoice required => send_payment invoice required ;; Ret tt
  | PayCommand args rest => cmd_sendpayment args rest ;; Ret tt
  | PayKeysend payee amt => keysend payee amt
  | InvoiceCommand args => cmd_getinvoice args
  | LdkEvent cardano e => handle_ldk_events cardano e
  end.

Section restart.
Context `{Externals} `{!PaymentCodec} (ldk_data_dir : string) {W : Type} `{!Env W}.

Lemma syncing_payment o : syncing ldk_data_dir (payment_prog o).
Proof.
  destruct o; cbn [payment_prog].
  - apply syncing_bind; [apply syncing_send_payment|intros ?; apply syncing_ret].
  - apply syncing_bind; [apply syncing_sendpayment|intros ?; apply syncing_ret].
  - apply syncing_keysend.
  - apply syncing_getinvoice.
  - apply syncing_event.
Qed.

(** C26: no payment is lost in a restart.  If the payment files agree with the tables, they
    agree again after any payment, payment command or LDK event that ends without a
    panic; a start from those files then reads the inbound table as it was; in
    the outbound table it has an entry for a payment exactly when there was one, the entry
    there was, unless that was pending and LDK does not report the payment: then the entry is
    marked as failed and otherwise as it was; and the start leaves files that agree with the tables it starts with. *)
Theorem tables_survive_restart o recent s (w : W) fs :
  synced ldk_data_dir fs s ->
  let r := exec (payment_prog o) s w in
  out r = Done tt ->
  let fs' := disk_after ldk_data_dir fs (log r) in
  let '(inbound, outbound, fs'') := load_payments ldk_data_dir recent fs' in
  synced ldk_data_dir fs' (fin r) /\
  inbound = inbound_payments (fin r) /\
  (forall id, outbound !! id =
     (fun p => if decide (status p = HTLCStatus.Pending /\ id ∉ recent)
               then mkPaymentInfo (preimage p) (secret p) HTLCStatus.Failed (amt_msat p) else p)
     <$> outbound_payments (fin r) !! id) /\
  synced ldk_data_dir fs'' (mkRelay (swap_db (fin r)) inbound outbound (rate_limiter (fin r))).
Proof.
  intros Hs. cbn zeta. intros Ho.
  destruct (wp_exec _ s w _ (syncing_payment o s [] fs Hs)) as (l1 & El & Hsync).
  cbn [app] in El. subst l1. rewrite Ho in Hsync. pose proof Hsync as [Hi Hout].
  unfold load_payments. rewrite Hi, Hout.
  split; [done|]. split; [done|]. split; [apply lookup_reconcile|]. split; cbn.
  - rewrite read_other by (apply not_eq_sym, paths_differ). done.
  - by rewrite read_written.
Qed.

(** A payment file that does not decode is replaced by an empty one at the next start. *)
Lemma corrupt_table_is_dropped recent fs content :
  fs !! payments_path ldk_data_dir OUTBOUND_PAYMENTS_FNAME = Some content ->
  decode_payments content = None ->
  let '(_, outbound, fs') := load_payments ldk_data_dir recent fs in
  outbound = ∅ /\
  fs' !! payments_path ldk_data_dir OUTBOUND_PAYMENTS_FNAME = Some (encode_payments ∅).
Proof.
  intros Hc Hd. unfold load_payments, read_payment_info, read_info. rewrite Hc, Hd.
  assert (reconcile_outbound recent ∅ = ∅) as -> by (apply map_imap_empty).
  split; [done|]. by rewrite lookup_insert_eq.
Qed.

(** The invoice of a swap is recorded in memory only: [create_invoice_for_swap] writes
    nothing, unlike [getinvoice]. *)
Lemma swap_invoice_not_written amount desc secs s (w : W) fs b h :
  out (exec (create_invoice_for_swap amount desc secs) s w) = Done (Some (b, h)) ->
  disk_after ldk_data_dir fs (log (exec (create_invoice_for_swap amount desc secs) s w)) = fs /\
  exists id info,
    inbound_payments (fin (exec (create_invoice_for_swap amount desc secs) s w))
    = <[id := info]> (inbound_payments s).
Proof.
  apply (wp_exec (create_invoice_for_swap amount desc secs) s w (fun o s' l =>
    o = Done (Some (b, h)) -> disk_after ldk_data_dir fs l = fs /\ exists id info,
      inbound_payments s' = <[id := info]> (inbound_payments s))).
  apply wp_create_invoice. intros o s' l1 Hc Ho. cbn. subst o. unfold invoice_created in Hc.
  destruct (cbtc_to_msat amount); [|by destruct Hc].
  destruct Hc as (inv & -> & _ & _ & ->). split; [done|]. by eexists _, _.
Qed.
End restart.

(** ** An encoding

    stdpp's encoding of countable types is one, in a single "byte". *)

#[global] Instance HTLCStatus_countable : Countable HTLCStatus.t.
Proof.
  refine (inj_countable' (fun s => match s with HTLCStatus.Pending => 0%nat
    | HTLCStatus.Succeeded => 1%nat | HTLCStatus.Failed => 2%nat end)
    (fun n => match n with O => HTLCStatus.Pending | 1%nat => HTLCStatus.Succeeded
      | _ => HTLCStatus.Failed end) _). by intros [].
Defined.

#[global] Instance PaymentInfo_countable : Countable PaymentInfo.
Proof.
  refine (inj_countable' (fun p => (preimage p, secret p, status p, amt_msat p))
    (fun '(a, b, c, d) => mkPaymentInfo a b c d) _). by intros [].
Defined.

Definition demo_codec : PaymentCodec := {|
  encode_payments m := [Z.pos (encode m)];
  decode_payments b := match b with [Z.pos p] => decode p | _ => None end;
  decode_encode_payments m := decode_encode m;
|}.
