(* ===== verification/Node.v ===== *)
(** * The running node ([src/src/main.rs], [start_ldk])

    Two things that no component says by itself.

    The handlers of the relay run on the same process as the on-chain client: what they
    ask of the client is answered by the programs of [Wallet] ([wallet_handler]), through
    [Compose].

    [start_ldk] is the start-up sequence as the source writes it: its early returns, its
    panics, the tasks it spawns and the order of it all.  LDK's objects are types of
    [NodeLib]; what is asked of LDK, of the file system and of the runtime is [BootReq].
    The clones, the random bytes and the clock readings that only go into constructors of
    LDK are left out, and so is what is printed.  The sequence is that of the awaiting main
    task: the tasks it spawns, the background processor among them, run in [Pool]. *)

From S2P Require Import Prelude Effects Compose HexUtils Text Fees Args Mapping MappingFacts MappingSpec.
From S2P Require Import Types Convert RateLimiter World Helpers Rows Payments CardanoSwap CardanoOfframp.
From S2P Require Import Recovery Background Api Startup Wallet WalletSafety Events Disk.
Open Scope prog_scope.

(** ** LDK's objects and the tasks *)

(** LDK's objects that are built or read at start-up. *)
Class NodeLib := {
  ChannelMonitor : Type;
  monitor_channel_id : ChannelMonitor -> bytes;
  ValidatedBlockHeader : Type;
  to_best_block : ValidatedBlockHeader -> bytes;       (** its hash *)
  ChannelManager : Type;
  current_best_block : ChannelManager -> bytes;        (** its hash *)
  OutputSweeper : Type;
}.

(** [ChannelMonitorUpdateStatus] *)
Inductive UpdateStatus := Completed | InProgress | UnrecoverableError.

Inductive RecentPayment := Pending (id : bytes) | Fulfilled (id : bytes) | Abandoned (id : bytes) | AwaitingInvoice (id : bytes).

(** What the attempt to store a new key seed came to. *)
Inductive SeedStored := NotCreated | NotWritten | NotSynced | Stored.

(** The tasks of [tokio::spawn]. *)
Inductive Task :=
| WalletSync | PeerListener (port : Z) | ChainPoll (tip : bytes) | BackgroundProcessor
| ReconnectPeers | NodeAnnouncement | SweepMigration | MonitorSwaps | MonitorOfframps
| ApiTask (server : ApiServer) | Cli.

(** ** The tasks of steps 18 and 19

    What the listener does with a connection, given whether the flag of shutdown is set when
    it looks, and how long the chain poll sleeps. *)

Inductive Accept := AcceptFailed | Accepted (into_std : bool).
Inductive ListenerStep := KeepListening | EndListening | SetupInbound.

Definition accept_step (a : Accept) (stop_listen : bool) : ListenerStep :=
  match a with
  | AcceptFailed => KeepListening
  | Accepted into_std =>
      if stop_listen then EndListening else if into_std then SetupInbound else KeepListening
  end.

(** The connections handed to LDK, as positions in the sequence of accepts. *)
Fixpoint listener (i : nat) (xs : list (Accept * bool)) : list nat :=
  match xs with
  | [] => []
  | (a, stop) :: xs =>
      match accept_step a stop with
      | KeepListening => listener (S i) xs
      | EndListening => []
      | SetupInbound => i :: listener (S i) xs
      end
  end.

Definition poll_sleep (polled : bool) : Z := if polled then 1 else 5.

(** Once the flag is set, no connection is handed to LDK any more. *)
Lemma listener_stops i xs ys : Forall (fun x => x.2 = true) ys -> listener i (xs ++ ys) = listener i xs.
Proof.
  intros Hy. revert i. induction xs as [|[a stop] xs IH]; intros i; cbn.
  - induction Hy as [|[a stop] ys Hs _ IH] in i |- *; cbn in *; [done|]. subst. destruct a; cbn; auto.
  - destruct (accept_step a stop); [done|done|]. by rewrite IH.
Qed.

(** ** The relay's handlers on top of the client *)

Section node.
Context `{Externals} `{BitcoinLib} `{WalletLib}.

(** [bitcoind_client.create_funding_transaction] and [get_wallet_balance_sats]; a
    transaction is its serialisation. *)
Definition wallet_handler (r : Req) : option (Prog (St := BitcoindClient) wresp (resp r)) :=
  match r with
  | RCreateFundingTx script value =>
      Some (let* tx := create_funding_transaction script value in 
            Ret (match tx with Ok tx => Ok (serialize tx) | Err e => Err e end))
  | RWalletBalance => Some get_wallet_balance_sats
  | _ => None
  end.

#[local] Instance result_inhabited {A} : Inhabited (result A string) := populate (Err ""%string).
#[local] Instance state_inhabited : Inhabited ChainState.t := populate (ChainState.mk 0 0 0 [] 0 []).

#[global] Instance resp_inhabited (r : Req) : Inhabited (resp r).
Proof.
  destruct r; cbn; try exact _.
  match goal with r : OpReq |- _ => destruct r end; cbn; exact (populate (Ok inhabitant)).
Qed.

Abbreviation node := (Relay * BitcoindClient)%type.
Abbreviation node_resp := (both_resp (resp1 := resp) (resp2 := wresp)).

Definition linked {A} (p : relay_prog A) : Prog (St := node) node_resp A := compose wallet_handler p.

(** ** What start-up asks for *)

Context `{NodeLib} `{GraphLib} `{!PaymentCodec}.
Context {SocketAddress : Type} (socket_from_str : string -> option SocketAddress).
Context (envelope_cbor_hex : string -> option (option string)).

(** A block listener that [synchronize_listeners] brings to the tip. *)
Inductive Listener :=
| LManager (m : ChannelManager) | LSweeper (s : OutputSweeper) | LMonitor (m : ChannelMonitor).

Inductive BootReq :=
| CreateDirAll (path : string)
| ReadFile (path : string)                                    (** [None]: cannot be opened *)
| RandomKey
| StoreSeed (path : string) (key : bytes)
| ReadMonitors
| BestBlockHeader
| ReadManager (file : bytes) (monitors : list ChannelMonitor)
| NewManager (network : Network) (tip : ValidatedBlockHeader) (minimum_depth : option Z)
| ReadSweeper
| NewSweeper (best_block : bytes)
| DecodeSweeper (file : bytes)
| SynchronizeListeners (network : Network) (listeners : list (bytes * Listener))
| LoadMonitor (m : ChannelMonitor)
| ResolveDns
| ListRecentPayments
| AgentInit (cfg : OperatorConfig)
| OpenDatabase (path : string)
| BindApi (port : Z)
| Spawn (t : Task)
| Select                       (** the first of the shell and the background processor to end *)
| ExitClosed
| Stop (s : ShutdownStep).

Definition boot_resp (r : BootReq) : Type :=
  match r with
  | CreateDirAll _ => result unit string
  | ReadFile _ => option bytes
  | RandomKey => bytes
  | StoreSeed _ _ => SeedStored
  | ReadMonitors => result (list (bytes * ChannelMonitor)) string
  | BestBlockHeader => result ValidatedBlockHeader string
  | ReadManager _ _ => result (bytes * ChannelManager) string
  | NewManager _ _ _ => ChannelManager
  | ReadSweeper => result bytes (option string)     (** [None]: [ErrorKind::NotFound] *)
  | NewSweeper _ => OutputSweeper
  | DecodeSweeper _ => result (bytes * OutputSweeper) string
  | SynchronizeListeners _ _ => result ValidatedBlockHeader string
  | LoadMonitor _ => result UpdateStatus unit
  | ResolveDns => result (option string) string
  | ListRecentPayments => list RecentPayment
  | AgentInit _ => bool
  | OpenDatabase _ => result (option SwapDb.t) string
  | BindApi _ => bool
  | Spawn _ => unit
  | Select => option (result (result unit string) string)
  | ExitClosed => bool
  | Stop (StopListening | DisconnectAllPeers | PanicExit _) => unit
  | Stop _ => result unit string
  end.

Abbreviation boot_prog := (Prog (St := node) (both_resp (resp1 := node_resp) (resp2 := boot_resp))).

(** The requests of start-up itself, the programs of the client, those of the relay. *)
Definition boot (r : BootReq) : boot_prog (boot_resp r) := Call (inl r) Ret.
Definition running {A} (p : Prog (St := node) node_resp A) : boot_prog A :=
  lift (fun t => t) (fun s _ => s) inr (fun _ x => x) p.
Definition client {A} (p : Prog (St := BitcoindClient) wresp A) : boot_prog A := running (below p).
Definition relay {A} (p : relay_prog A) : boot_prog A := running (linked p).

(** [return], [unwrap] and [expect]. *)
Definition or_return {A B} (m : boot_prog (startup A)) (k : A -> boot_prog (startup B)) :
  boot_prog (startup B) :=
  let* r := m in
  match r with Started a => k a | Refused => Ret Refused | Aborted msg => Panic msg end.
Definition unwrap {A} (r : result A string) : boot_prog A :=
  match r with Ok a => Ret a | Err e => Panic e end.
Definition expect_ok {A} (r : result A string) (msg : string) : boot_prog A :=
  match r with Ok a => Ret a | Err e => Panic (msg +:+ ": " +:+ e) end.

Notation "'let?' x := m 'in' k" := (or_return m (fun x => k))
  (at level 10, x name, m at level 100, k at level 200).

(** ** The steps of [start_ldk] *)

Definition boot_dirs (ldk_data_dir : string) : boot_prog unit :=
  let* r := boot (CreateDirAll ldk_data_dir) in
  let* _ := unwrap r in
  let* r := boot (CreateDirAll (ldk_data_dir +:+ "/logs")) in
  unwrap r.

(** The client, the optional Esplora and BDK backend with its task, the check of the chain. *)
Definition boot_client (p : Process) (ldk_data_dir : string) (network : Network) :
  boot_prog (startup unit) :=
  let* c := client (client_new network) in
  match c with
  | None => Ret Refused
  | Some c =>
      let* _ := client (local (fun _ => (tt, c))) in
      let? _ := client (start_backend p ldk_data_dir network) in
      let* _ := match esplora_backend p ldk_data_dir with
                | Some _ => boot (Spawn WalletSync)
                | None => Ret tt
                end in
      let* info := client get_blockchain_info in
      Ret (check_chain network (chain info))
  end.

(** Step 4: the key seed. *)
Definition boot_seed (ldk_data_dir : string) : boot_prog (startup bytes) :=
  let path := ldk_data_dir +:+ "/keys_seed" in
  let* file := boot (ReadFile path) in
  match file with
  | Some seed =>
      Ret (let! '(key, _) := keys_seed (Some seed) [] false false false in Started key)
  | None =>
      let* key := boot RandomKey in
      let* stored := boot (StoreSeed path key) in
      let created := match stored with NotCreated => false | _ => true end in
      let written := match stored with NotCreated | NotWritten => false | _ => true end in
      let synced := match stored with Stored => true | _ => false end in
      Ret (let! '(key, _) := keys_seed None key created written synced in Started key)
  end.

(** Step 11: the channel manager, and whether the node is restarting. *)
Definition boot_manager (p : Process) (ldk_data_dir : string) (network : Network)
  (monitors : list (bytes * ChannelMonitor)) (polled_chain_tip : ValidatedBlockHeader) :
  boot_prog (bool * bytes * ChannelManager) :=
  let* file := boot (ReadFile (ldk_data_dir +:+ "/manager")) in
  match file with
  | Some f =>
      let* r := boot (ReadManager f (snd <$> monitors)) in
      let* '(blockhash, manager) := unwrap r in
      Ret (true, blockhash, manager)
  | None =>
      let* manager := boot (NewManager network polled_chain_tip (minimum_depth_override p)) in
      Ret (false, to_best_block polled_chain_tip, manager)
  end.

(** Step 12: the sweeper. *)
Definition boot_sweeper (manager : ChannelManager) : boot_prog (bytes * OutputSweeper) :=
  let* r := boot ReadSweeper in
  match r with
  | Err None =>
      let* sweeper := boot (NewSweeper (current_best_block manager)) in
      Ret (current_best_block manager, sweeper)
  | Ok file =>
      let* r := boot (DecodeSweeper file) in
      expect_ok r "Failed to deserialize OutputSweeper"
  | Err (Some e) => Panic ("Failed to read OutputSweeper with " +:+ e)
  end.

(** Step 13: the listeners are brought to the tip.  The monitors are drained only when the
    node is restarting. *)
Definition chain_listeners (manager_hash : bytes) (manager : ChannelManager) (sweeper_hash : bytes)
  (sweeper : OutputSweeper) (monitors : list (bytes * ChannelMonitor)) : list (bytes * Listener) :=
  [(manager_hash, LManager manager); (sweeper_hash, LSweeper sweeper)] ++
  ((fun '(h, m) => (h, LMonitor m)) <$> monitors).

Definition boot_sync (network : Network) (restarting_node : bool) (listeners : list (bytes * Listener))
  (monitors : list (bytes * ChannelMonitor)) (polled_chain_tip : ValidatedBlockHeader) :
  boot_prog (ValidatedBlockHeader * list ChannelMonitor) :=
  if restarting_node then
    let* r := boot (SynchronizeListeners network listeners) in
    let* tip := unwrap r in
    Ret (tip, snd <$> monitors)
  else Ret (polled_chain_tip, []).

(** Step 14: [assert_eq!(.., Ok(Completed))] for each. *)
Fixpoint load_monitors (ms : list ChannelMonitor) : boot_prog unit :=
  match ms with
  | [] => Ret tt
  | m :: ms =>
      let* r := boot (LoadMonitor m) in
      match r with
      | Ok Completed => load_monitors ms
      | _ => Panic "assertion `left == right` failed"
      end
  end.

(** Steps 15 to 19: the resolver's address, then the listener and the chain poll. *)
Definition boot_network (port : Z) (tip : ValidatedBlockHeader) : boot_prog unit :=
  let* r := boot ResolveDns in
  let* addr := expect_ok r "failed to resolve DNS address 8.8.8.8:53" in
  match addr with
  | None => Panic "no socket address resolved for 8.8.8.8:53"
  | Some _ =>
      let* _ := boot (Spawn (PeerListener port)) in
      boot (Spawn (ChainPoll (to_best_block tip)))
  end.

Definition recent_id (p : RecentPayment) : bytes :=
  match p with Pending id | Fulfilled id | Abandoned id | AwaitingInvoice id => id end.

(** The payment tables. *)
Definition boot_payments (ldk_data_dir : string) : boot_prog unit :=
  let* inbound := boot (ReadFile (payments_path ldk_data_dir INBOUND_PAYMENTS_FNAME)) in
  let* outbound := boot (ReadFile (payments_path ldk_data_dir OUTBOUND_PAYMENTS_FNAME)) in
  let* recent := boot ListRecentPayments in
  relay (let* _ := local (fun s => (tt, set_outbound (set_inbound s (read_info inbound)) (read_info outbound))) in
         reconcile_outbound_payments (recent_id <$> recent)).

(** The operator agent and the swap database. *)
Definition boot_operator (p : Process) (cardano : option CardanoRelayConfig) :
  boot_prog (option OperatorConfig) :=
  match operator_agent envelope_cbor_hex p cardano true with
  | Started None => Ret None
  | Started (Some cfg) =>
      let* ok := boot (AgentInit cfg) in
      if ok then Ret (Some cfg) else Panic "failed to fetch cost models from Blockfrost"
  | Refused => Ret None
  | Aborted msg => Panic msg
  end.

Definition boot_database (cardano : bool) (storage_dir : string) : boot_prog unit :=
  if cardano then
    let* r := boot (OpenDatabase (storage_dir +:+ "/swaps.db")) in
    let* file := expect_ok r "failed to open swap database" in
    relay (local (fun s => (tt, set_db s (SwapDb.open_ file))))
  else Ret tt.

(** Steps 20 and 21, and the tasks next to them. *)
Fixpoint spawn_all (ts : list Task) : boot_prog unit :=
  match ts with
  | [] => Ret tt
  | t :: ts => let* _ := boot (Spawn t) in spawn_all ts
  end.

(** The REST API. *)
Definition boot_api (p : Process) (op : option OperatorConfig) : boot_prog unit :=
  match op with
  | None => Ret tt
  | Some cfg =>
      match api_server p cfg with
      | Started srv =>
          let* _ := relay (local (fun s => (tt, set_limiter s (server_limiter srv)))) in
          let* bound := boot (BindApi (server_port srv)) in
          if bound then boot (Spawn (ApiTask srv)) else Panic "failed to bind API server"
      | Refused => Ret tt
      | Aborted msg => Panic msg
      end
  end.

(** The shell, and the end. *)
Definition boot_wait : boot_prog unit :=
  let* _ := boot (Spawn Cli) in
  let* bg := boot Select in
  let* _ := boot (Stop StopListening) in
  let* _ := boot (Stop DisconnectAllPeers) in
  match default (Ok (Ok tt)) bg with
  | Err e =>
      let* r := boot (Stop PersistChannelManager) in
      let* _ := unwrap r in
      Panic ("ERR: background processing stopped with result " +:+ e)
  | Ok _ =>
      let* closed := boot ExitClosed in
      if closed then Ret tt
      else
        let* r := boot (Stop SignalProcessor) in
        let* _ := unwrap r in
        let* r := boot (Stop AwaitProcessor) in
        unwrap r
  end.

(** What runs once the node's objects are there.  A [Spawn] starts a task of the runtime; the
    task's own steps are not part of this sequence: the tasks run in [Pool], and [Gate] has
    them interleave with recovery. *)
Definition boot_services (p : Process) (args : LdkUserInfo (SocketAddress := SocketAddress))
  (ldk_data_dir : string) (tip : ValidatedBlockHeader) : boot_prog unit :=
  let* _ := boot_network (ldk_peer_listening_port args) tip in
  let* _ := boot_payments ldk_data_dir in
  let* op := boot_operator p (cardano args) in
  let cardano := match op with Some _ => true | None => false end in
  let* _ := boot_database cardano (ldk_storage_dir_path args) in
  let* _ := spawn_all [BackgroundProcessor; ReconnectPeers; NodeAnnouncement; SweepMigration] in
  let* _ := relay (recover_and_reconcile cardano (reconcile_on_startup p)) in
  let* _ := spawn_all (if cardano then [MonitorSwaps; MonitorOfframps] else []) in
  let* _ := boot_api p op in
  boot_wait.

Definition start_node (p : Process) (args : LdkUserInfo (SocketAddress := SocketAddress)) :
  boot_prog (startup unit) :=
  let ldk_data_dir := ldk_storage_dir_path args +:+ "/.ldk" in
  let network := Args.network args in
  let* _ := boot_dirs ldk_data_dir in
  let? _ := boot_client p ldk_data_dir network in
  let? _ := boot_seed ldk_data_dir in
  let* r := boot ReadMonitors in
  let* monitors := unwrap r in
  let* r := boot BestBlockHeader in
  let* polled := expect_ok r "Failed to fetch best block header and best block" in
  let* graph := boot (ReadFile (ldk_data_dir +:+ "/network_graph")) in
  let network_graph := read_network graph network in
  let* scorer := boot (ReadFile (ldk_data_dir +:+ "/scorer")) in
  let _scorer := read_scorer scorer network_graph in
  let* '(restarting_node, manager_hash, manager) :=
    boot_manager p ldk_data_dir network monitors polled in
  let* '(sweeper_hash, sweeper) := boot_sweeper manager in
  let* '(tip, loaded) := boot_sync network restarting_node
    (chain_listeners manager_hash manager sweeper_hash sweeper monitors) monitors polled in
  let* _ := load_monitors loaded in
  let* _ := boot_services p args ldk_data_dir tip in
  Ret (Started tt).

Definition start_ldk (p : Process) : boot_prog (startup unit) :=
  let? args := Ret (parse_startup_args socket_from_str p) in
  start_node p args.

(** ** The order of start-up *)

Abbreviation boot_req := (BootReq + (WReq + Req))%type.
Abbreviation all_resp := (both_resp (resp1 := node_resp) (resp2 := boot_resp)).

(** When a request is made; a file may be read at any time. *)
Definition phase (r : boot_req) : option nat :=
  match r with
  | inl r =>
      match r with
      | ReadFile _ => None
      | CreateDirAll _ | RandomKey | StoreSeed _ _ | ReadMonitors | BestBlockHeader
      | Spawn WalletSync => Some 0%nat
      | ReadManager _ _ | NewManager _ _ _ => Some 1%nat
      | ReadSweeper | NewSweeper _ | DecodeSweeper _ => Some 2%nat
      | SynchronizeListeners _ _ => Some 3%nat
      | LoadMonitor _ => Some 4%nat
      | ResolveDns => Some 5%nat
      | Spawn (PeerListener _) => Some 6%nat
      | Spawn (ChainPoll _) => Some 7%nat
      | ListRecentPayments => Some 8%nat
      | AgentInit _ | OpenDatabase _ => Some 9%nat
      | Spawn (BackgroundProcessor | ReconnectPeers | NodeAnnouncement | SweepMigration) => Some 10%nat
      | Spawn (MonitorSwaps | MonitorOfframps) => Some 12%nat
      | BindApi _ | Spawn (ApiTask _) => Some 13%nat
      | Spawn Cli | Select | ExitClosed | Stop _ => Some 14%nat
      end
  | inr (inl _) => Some 0%nat                                 (** the on-chain client *)
  | inr (inr (RWriteOutbound _)) => Some 8%nat
  | inr (inr _) => Some 11%nat                                (** recovery *)
  end.

(** [within lo hi p]: the requests of [p] are of phases between [lo] and [hi], in order. *)
Fixpoint within {A} (lo hi : nat) (p : boot_prog A) : Prop :=
  match p with
  | Ret _ | Panic _ => True
  | Local f k => forall s, within lo hi (k (f s).1)
  | Call r k =>
      match phase r with
      | Some n => (lo <= n <= hi)%nat /\ forall x, within n hi (k x)
      | None => forall x, within lo hi (k x)
      end
  end.

Lemma stages_mono {A} lo lo' hi hi' (p : boot_prog A) :
  (lo' <= lo)%nat -> (hi <= hi')%nat -> within lo hi p -> within lo' hi' p.
Proof.
  intros Hl Hh. revert lo lo' Hl. induction p as [a|X f k IH|r k IH|m]; intros lo lo' Hl; cbn; eauto.
  destruct (phase r) as [n|]; [|eauto]. intros [Hn Hk]. split; [lia|]. eauto.
Qed.

Lemma stages_bind {A B} lo mid hi (p : boot_prog A) (f : A -> boot_prog B) :
  (lo <= mid <= hi)%nat -> within lo mid p -> (forall a, within mid hi (f a)) ->
  within lo hi (bind p f).
Proof.
  intros Hm Hp Hf. revert lo Hm Hp. induction p as [a|X g k IH|r k IH|m]; intros lo Hm Hp; cbn in *; auto.
  - eapply stages_mono, Hf; lia.
  - destruct (phase r) as [n|]; [|auto]. destruct Hp as [Hn Hk]. split; [lia|]. intros x. apply IH; [lia|auto].
Qed.

Lemma within_client {A} (p : Prog (St := BitcoindClient) wresp A) : within 0 0 (client p).
Proof.
  unfold client, running, below. induction p as [a|X f k IH|r k IH|m]; cbn; auto.
Qed.

Lemma within_relay {A} n (p : relay_prog A) :
  steps_ok (fun _ _ => True) (fun r => phase (inr (inr r)) = Some n /\ wallet_handler r = None) p ->
  within n n (relay p).
Proof.
  unfold relay, running, linked. induction p as [a|X f k IH|r k IH|m]; cbn [steps_ok compose lift within]; auto.
  - intros Hp s. destruct (f s.1) as [x s1] eqn:E. cbn. apply IH. specialize (Hp s.1). rewrite E in Hp. apply Hp.
  - intros [[Hr Hw] Hk]. rewrite Hw. cbn [lift within]. rewrite Hr. split; [lia|]. auto.
Qed.

(** Programs of start-up's own requests: every answer. *)
Ltac phased :=
  repeat (cbn;
    match goal with
    | |- _ /\ _ => split
    | |- forall _, _ => intros ?
    | |- True => exact I
    | |- (_ <= _)%nat => lia
    | |- context [unwrap ?x] => is_var x; destruct x
    | |- context [expect_ok ?x _] => is_var x; destruct x
    | |- context [match ?x with _ => _ end] => destruct x
    end).

Lemma within_dirs dir : within 0 0 (boot_dirs dir).
Proof. phased. Qed.

Lemma within_return {A B} lo mid hi (p : boot_prog (startup A)) (f : A -> boot_prog (startup B)) :
  (lo <= mid <= hi)%nat -> within lo mid p -> (forall a, within mid hi (f a)) -> within lo hi (or_return p f).
Proof. intros Hm Hp Hf. apply (stages_bind lo mid); [done..|]. intros []; done. Qed.

Lemma within_boot_client p dir net : within 0 0 (boot_client p dir net).
Proof.
  unfold boot_client. apply (stages_bind 0 0); [done|apply within_client|]. intros [c|]; [|done].
  apply (stages_bind 0 0); [done|apply within_client|]. intros _.
  apply (within_return 0 0); [done|apply within_client|]. intros _.
  apply (stages_bind 0 0); [done|phased|]. intros _.
  apply (stages_bind 0 0); [done|apply within_client|done].
Qed.

Lemma within_seed dir : within 0 0 (boot_seed dir).
Proof. phased. Qed.
Lemma within_manager p dir net ms tip : within 1 1 (boot_manager p dir net ms tip).
Proof. phased. Qed.
Lemma within_sweeper m : within 2 2 (boot_sweeper m).
Proof. phased. Qed.
Lemma within_sync net b ls ms tip : within 3 3 (boot_sync net b ls ms tip).
Proof. unfold boot_sync. phased. Qed.
Lemma within_load ms : within 4 4 (load_monitors ms).
Proof. induction ms as [|m ms IH]; phased. done. Qed.
Lemma within_network port tip : within 5 7 (boot_network port tip).
Proof. phased. Qed.

Lemma within_payments dir : within 8 8 (boot_payments dir).
Proof.
  unfold boot_payments, boot. cbn [bind within phase]. intros inb outb. split; [lia|]. intros recent.
  apply (within_relay 8). cbn. intros s. split; [done|]. intros s'. split; [done|]. split; [done|].
  by intros [].
Qed.

Lemma within_operator p c : within 9 9 (boot_operator p c).
Proof. unfold boot_operator. phased. Qed.
Lemma within_database b dir : within 9 9 (boot_database b dir).
Proof. unfold boot_database. phased. Qed.

Lemma within_spawn n ts : Forall (fun t => phase (inl (Spawn t)) = Some n) ts -> within n n (spawn_all ts).
Proof.
  induction 1 as [|t ts Ht _ IH]; [done|]. cbn [spawn_all boot bind within]. rewrite Ht. auto.
Qed.

Lemma within_recovery c r : within 11 11 (relay (recover_and_reconcile c r)).
Proof.
  apply within_relay. eapply steps_ok_mono, recover_and_reconcile_calls; [done|]. by intros [].
Qed.

Lemma within_api p op : within 13 13 (boot_api p op).
Proof. unfold boot_api. phased. Qed.
Lemma within_wait : within 14 14 boot_wait.
Proof. phased. Qed.

Lemma within_services p args dir tip : within 5 14 (boot_services p args dir tip).
Proof.
  unfold boot_services.
  apply (stages_bind 5 7); [lia|apply within_network|]. intros _.
  apply (stages_bind 7 8); [lia|eapply stages_mono, within_payments; lia|]. intros _.
  apply (stages_bind 8 9); [lia|eapply stages_mono, within_operator; lia|]. intros op.
  apply (stages_bind 9 9); [lia|apply within_database|]. intros _.
  apply (stages_bind 9 10); [lia|eapply stages_mono, (within_spawn 10); [lia..|by repeat constructor]|].
  intros _. apply (stages_bind 10 11); [lia|eapply stages_mono, within_recovery; lia|]. intros _.
  apply (stages_bind 11 12); [lia|eapply stages_mono, (within_spawn 12); [lia..|by destruct op; repeat constructor]|].
  intros _. apply (stages_bind 12 13); [lia|eapply stages_mono, within_api; lia|]. intros _.
  eapply stages_mono, within_wait; lia.
Qed.

Lemma within_start p : within 0 14 (start_ldk p).
Proof.
  unfold start_ldk. apply (within_return 0 0); [lia|done|]. intros args. unfold start_node.
  apply (stages_bind 0 0); [lia|apply within_dirs|]. intros _.
  apply (within_return 0 0); [lia|apply within_boot_client|]. intros _.
  apply (within_return 0 0); [lia|apply within_seed|]. intros _.
  apply (stages_bind 0 0); [lia|phased|]. intros r. apply (stages_bind 0 0); [lia|by destruct r|]. intros ms.
  apply (stages_bind 0 0); [lia|phased|]. intros tip. apply (stages_bind 0 0); [lia|by destruct tip|].
  intros polled. apply (stages_bind 0 0); [lia|phased|]. intros graph.
  apply (stages_bind 0 0); [lia|phased|]. intros scorer.
  apply (stages_bind 0 1); [lia|eapply stages_mono, within_manager; lia|]. intros [[restarting h] manager].
  apply (stages_bind 1 2); [lia|eapply stages_mono, within_sweeper; lia|]. intros [h' sweeper].
  apply (stages_bind 2 3); [lia|eapply stages_mono, within_sync; lia|]. intros [chain_tip loaded].
  apply (stages_bind 3 4); [lia|eapply stages_mono, within_load; lia|]. intros _.
  apply (stages_bind 4 14); [lia|eapply stages_mono, within_services; lia|done].
Qed.

(** Preparation, and service. *)
Definition until (k : nat) (r : boot_req) : Prop := match phase r with Some n => (n <= k)%nat | None => True end.
Definition late (r : boot_req) : Prop := match phase r with Some n => (5 <= n)%nat | None => True end.

Lemma within_until {A} lo hi (p : boot_prog A) : within lo hi p -> steps_ok (fun _ _ => True) (until hi) p.
Proof.
  revert lo. induction p as [a|X f k IH|r k IH|m]; intros lo Hp; cbn in *; try done.
  - intros s. split; [done|]. apply (IH _ lo), Hp.
  - unfold until. destruct (phase r) as [n|]; [|split; [done|]; intros x; apply (IH _ lo), Hp].
    destruct Hp as [Hn Hk]. split; [lia|]. intros x. apply (IH _ n), Hk.
Qed.

Lemma within_late {A} lo hi (p : boot_prog A) :
  (5 <= lo)%nat -> within lo hi p -> steps_ok (fun _ _ => True) late p.
Proof.
  revert lo. induction p as [a|X f k IH|r k IH|m]; intros lo Hl Hp; cbn in *; try done.
  - intros s. split; [done|]. apply (IH _ lo); [done|apply Hp].
  - unfold late. destruct (phase r) as [n|]; [|split; [done|]; intros x; apply (IH _ lo); auto].
    destruct Hp as [Hn Hk]. split; [lia|]. intros x. apply (IH _ n); [lia|auto].
Qed.

Definition boot_event (r : BootReq) (x : boot_resp r) : event all_resp := existT (inl r) x.
Abbreviation all_until k := (Forall (fun e : event all_resp => until k (projT1 e))).

(** The manager file of the node that the arguments name. *)
Definition manager_path (p : Process) : string :=
  match parse_startup_args socket_from_str p with
  | Started args => (ldk_storage_dir_path args +:+ "/.ldk") +:+ "/manager"
  | _ => ""
  end.

Section order.
Context (path : string).

(** The node may serve: the manager file was opened and decoded together with the monitors,
    everything was brought to the tip, and every monitor is being watched; or the manager
    file could not be opened, the manager is new, and no monitor was handed to LDK. *)
Definition ready (l : list (event all_resp)) : Prop :=
  exists ms, boot_event ReadMonitors (Ok ms) ∈ l /\
    ((exists f x net ls tip,
        boot_event (ReadFile path) (Some f) ∈ l /\ boot_event (ReadManager f ms.*2) (Ok x) ∈ l /\
        boot_event (SynchronizeListeners net ls) (Ok tip) ∈ l /\ (x.1, LManager x.2) ∈ ls /\
        forall h m, (h, m) ∈ ms -> (h, LMonitor m) ∈ ls /\ boot_event (LoadMonitor m) (Ok Completed) ∈ l) \/
     (exists net tip depth mgr, boot_event (ReadFile path) None ∈ l /\
        boot_event (NewManager net tip depth) mgr ∈ l /\
        forall m, inl (LoadMonitor m) ∉ (projT1 <$> l : list boot_req))).

Definition prepared {A} (o : outcome A) (t : node) (l : list (event all_resp)) : Prop :=
  exists pre rest, l = pre ++ rest /\ all_until 4 pre /\
    Forall (fun e : event all_resp => late (projT1 e)) rest /\ (rest <> [] -> ready pre).

Lemma until_mono j k l : (j <= k)%nat -> all_until j l -> all_until k l.
Proof.
  intros Hjk Hl. eapply Forall_impl; [exact Hl|]. intros e. unfold until. destruct (phase _); [lia|done].
Qed.

Lemma until_snoc k l r x : all_until k l -> until k r -> all_until k (l ++ [existT r x]).
Proof. intros. apply Forall_app. split; [done|by constructor]. Qed.

Lemma prepared_early {A} (o : outcome A) t k l : (k <= 4)%nat -> all_until k l -> prepared o t l.
Proof. intros Hk Hl%(until_mono k 4); [|done]. exists l, []. rewrite app_nil_r. by repeat split. Qed.

(** A step of preparation. *)
Lemma wp_step {A B} lo hi (p : boot_prog A) (f : A -> boot_prog B) t l :
  within lo hi p -> (hi <= 4)%nat -> all_until hi l ->
  (forall a t' l', all_until hi (l ++ l') -> wp (f a) t' (l ++ l') prepared) ->
  wp (bind p f) t l prepared.
Proof.
  intros Hp Hk Hl Hf. apply wp_bind. apply (wp_requests (until hi)); [by apply (within_until lo)|].
  intros o t' l' Hl'. assert (all_until hi (l ++ l')) by (by apply Forall_app).
  destruct o; cbn; [auto|by eapply prepared_early].
Qed.

Lemma wp_step_return {A B} lo hi (p : boot_prog (startup A)) (f : A -> boot_prog (startup B)) t l :
  within lo hi p -> (hi <= 4)%nat -> all_until hi l ->
  (forall a t' l', all_until hi (l ++ l') -> wp (f a) t' (l ++ l') prepared) ->
  wp (or_return p f) t l prepared.
Proof.
  intros Hp Hk Hl Hf. apply (wp_step lo hi); [done..|]. intros [a| |m] t' l' Hl'; [by apply Hf|..];
    by eapply prepared_early.
Qed.

(** The monitors, each watched before the next is handed over. *)
Lemma wp_load {B} ms (f : unit -> boot_prog B) t l :
  all_until 4 l ->
  (forall l', all_until 4 (l ++ l') -> (forall m, m ∈ ms -> boot_event (LoadMonitor m) (Ok Completed) ∈ l') ->
     (ms = [] -> l' = []) -> wp (f tt) t (l ++ l') prepared) ->
  wp (bind (load_monitors ms) f) t l prepared.
Proof.
  revert l. induction ms as [|m ms IH]; intros l Hl Hf; cbn.
  - rewrite <- (app_nil_r l) at 1. apply Hf; [by rewrite app_nil_r|set_solver|done].
  - intros x. assert (all_until 4 (l ++ [boot_event (LoadMonitor m) x])) as Hl1
      by (apply until_snoc; [done|cbn; lia]).
    destruct x as [[]|]; cbn; try (by eapply prepared_early).
    apply IH; [done|]. intros l' Hl' Hin _. rewrite <- app_assoc in *. apply Hf; [done| |done].
    intros m' [->|Hm]%elem_of_cons; [left|right; auto].
Qed.

Lemma wp_services p args dir tip t l :
  all_until 4 l -> ready l ->
  wp (let* _ := boot_services p args dir tip in Ret (Started tt)) t l prepared.
Proof.
  intros Hl Hr. apply wp_bind. apply (wp_requests late);
    [eapply within_late, within_services; lia|].
  intros o t' l' Hl'. assert (forall B (o : outcome B), prepared o t' (l ++ l')).
  { intros B o'. by exists l, l'. }
  destruct o; cbn; auto.
Qed.
(** No monitor is loaded before the listeners are in sync. *)
Lemma until_no_loads l m : all_until 3 l -> inl (LoadMonitor m) ∉ (projT1 <$> l : list boot_req).
Proof.
  intros Hl (e & E & He)%list_elem_of_fmap. rewrite Forall_forall in Hl. specialize (Hl e He).
  rewrite <- E in Hl. unfold until in Hl. cbn in Hl. lia.
Qed.

(** The manager, with what was asked of LDK for it. *)
Lemma wp_manager {B} p dir net ms tip (f : bool * bytes * ChannelManager -> boot_prog B) t l :
  dir +:+ "/manager" = path -> all_until 3 l ->
  (forall file h m l', all_until 3 (l ++ l') -> boot_event (ReadFile path) (Some file) ∈ l' ->
     boot_event (ReadManager file ms.*2) (Ok (h, m)) ∈ l' ->
     wp (f (true, h, m)) t (l ++ l') prepared) ->
  (forall depth m l', all_until 3 (l ++ l') -> boot_event (ReadFile path) None ∈ l' ->
     boot_event (NewManager net tip depth) m ∈ l' ->
     wp (f (false, to_best_block tip, m)) t (l ++ l') prepared) ->
  wp (bind (boot_manager p dir net ms tip) f) t l prepared.
Proof.
  intros <- Hl Hr Hf. cbn. intros [file|]; cbn; intros x.
  - destruct x as [[h m]|e]; cbn; [|eapply prepared_early with (k := 3%nat); [lia|]; by repeat apply until_snoc; try (cbn; lia)].
    rewrite <- app_assoc. eapply Hr; [|left|right; left].
    rewrite app_assoc. by repeat apply until_snoc; try (cbn; lia).
  - rewrite <- app_assoc. eapply Hf; [|left|right; left].
    rewrite app_assoc. by repeat apply until_snoc; try (cbn; lia).
Qed.

(** From the channel manager on. *)
Lemma wp_chain p args dir net ms polled t l :
  dir +:+ "/manager" = path -> all_until 3 l -> boot_event ReadMonitors (Ok ms) ∈ l ->
  wp (let* '(restarting_node, manager_hash, manager) := boot_manager p dir net ms polled in
      let* '(sweeper_hash, sweeper) := boot_sweeper manager in
      let* '(tip, loaded) := boot_sync net restarting_node
        (chain_listeners manager_hash manager sweeper_hash sweeper ms) ms polled in
      let* _ := load_monitors loaded in
      let* _ := boot_services p args dir tip in
      Ret (Started tt)) t l prepared.
Proof.
  intros Hdir Hl Hms. apply wp_manager; [done|done|..].
  - intros file h m l1 Hl1 Hfile Hm. apply (wp_step 2 3); [eapply stages_mono, within_sweeper; lia|lia|done|].
    intros [h' sw] t' l2 Hl2. cbn. intros [tip|e]; cbn.
    2: { eapply prepared_early; [|apply until_snoc; [exact Hl2|cbn; lia]]; lia. }
    apply wp_load; [apply until_snoc; [by eapply until_mono, Hl2; lia|cbn; lia]|].
    intros l3 Hl3 Hin _. apply wp_services; [done|]. exists ms. split; [set_solver|]. left.
    eexists file, (h, m), net, _, tip. split_and!; [set_solver|set_solver| |left|].
    + rewrite !elem_of_app. left; right. by apply list_elem_of_singleton.
    + intros h0 m0 Hm0. split; [|set_solver]. right; right. apply list_elem_of_fmap. by exists (h0, m0).
  - intros depth m l1 Hl1 Hfile Hm. apply (wp_step 2 3); [eapply stages_mono, within_sweeper; lia|lia|done|].
    intros [h' sw] t' l2 Hl2. cbn. apply wp_services; [by eapply until_mono, Hl2; lia|].
    exists ms. split; [set_solver|]. right. exists net, polled, depth, m. split; [set_solver|]. split; [set_solver|].
    intros m'. by apply until_no_loads.
Qed.

End order.

Lemma wp_start p t : wp (start_ldk p) t [] (prepared (manager_path p)).
Proof.
  unfold start_ldk, manager_path, or_return at 1. cbn [bind].
  destruct (parse_startup_args socket_from_str p) as [args| |m];
    [|by apply (prepared_early _ _ _ 0); [lia|]..].
  pose (t1 := t). pose (l1 := [] : list (event all_resp)). change (wp (start_node p args) t ([] ++ l1)
    (prepared ((ldk_storage_dir_path args +:+ "/.ldk") +:+ "/manager"))). unfold start_node.
  assert (all_until 0 ([] ++ l1)) as Hl1 by done. clearbody l1.
  apply (wp_step _ 0 0); [apply within_dirs|lia|done|]. intros _ t2 l2 Hl2.
  apply (wp_step_return _ 0 0); [apply within_boot_client|lia|done|]. intros _ t3 l3 Hl3.
  apply (wp_step_return _ 0 0); [apply within_seed|lia|done|]. intros _ t4 l4 Hl4.
  cbn [boot bind wp]. intros r.
  assert (all_until 0 ((((([] ++ l1) ++ l2) ++ l3) ++ l4) ++ [existT (inl ReadMonitors) r])) as Hl5
    by (apply until_snoc; [done|cbn; lia]).
  destruct r as [ms|e]; cbn [unwrap bind wp]; [|by eapply prepared_early, Hl5; lia].
  apply (wp_step _ 0 0 (boot BestBlockHeader)); [phased|lia|done|]. intros r t6 l6 Hl6.
  apply (wp_step _ 0 0); [by destruct r|lia|done|]. intros polled t7 l7 Hl7.
  apply (wp_step _ 0 0 (boot (ReadFile _))); [phased|lia|done|]. intros graph t8 l8 Hl8.
  apply (wp_step _ 0 0 (boot (ReadFile _))); [phased|lia|done|]. intros scorer t9 l9 Hl9.
  apply wp_chain; [done|by eapply until_mono, Hl9; lia|]. set_solver.
Qed.
(** ** What the API finds *)

Definition not_bind (r : boot_req) : Prop := match r with inl (BindApi _) => False | _ => True end.

#[local] Instance not_bind_dec r : Decision (not_bind r).
Proof. destruct r as [[]|]; apply _. Defined.

Lemma within_not_bind {A} lo (p : boot_prog A) : within lo 12 p -> steps_ok (fun _ _ => True) not_bind p.
Proof.
  intros Hp%within_until. eapply steps_ok_mono, Hp; [done|]. intros [[]|]; try done. unfold until. cbn. lia.
Qed.

(** The relay's part of the state under a program of the relay. *)
Lemma relay_steps {A} (P : Relay -> Relay -> Prop) (R : boot_req -> Prop) (p : relay_prog A) :
  steps_ok P (fun r => R (inr (inr r)) /\ wallet_handler r = None) p ->
  steps_ok (fun t t' : node => P t.1 t'.1) R (relay p).
Proof.
  unfold relay, running, linked. induction p as [a|X f k IH|r k IH|m]; cbn [steps_ok compose lift]; auto.
  - intros Hp t. specialize (Hp t.1). destruct (f t.1) as [x s1] eqn:E. cbn in *. split; [apply Hp|]. apply IH, Hp.
  - intros [[Hr Hw] Hk]. rewrite Hw. cbn [lift steps_ok]. auto.
Qed.

(** The database stays as it is. *)
Definition same_db (t t' : node) : Prop := swap_db t'.1 = swap_db t.1.
#[local] Instance same_db_refl : Reflexive same_db.
Proof. done. Qed.
#[local] Instance same_db_trans : Transitive same_db.
Proof. unfold same_db. intros ???. congruence. Qed.

Abbreviation keeps_db := (steps_ok same_db not_bind).

Ltac kept :=
  repeat (cbn;
    match goal with
    | |- _ /\ _ => split
    | |- forall _, _ => intros ?
    | |- True => exact I
    | |- same_db _ _ => reflexivity
    | |- context [unwrap ?x] => is_var x; destruct x
    | |- context [expect_ok ?x _] => is_var x; destruct x
    | |- context [match ?x with _ => _ end] => destruct x
    end).

Lemma network_keeps port tip : keeps_db (boot_network port tip).
Proof. kept. Qed.
Lemma payments_keeps dir : keeps_db (boot_payments dir).
Proof. unfold boot_payments. kept. Qed.
Lemma operator_keeps p c : keeps_db (boot_operator p c).
Proof. unfold boot_operator. kept. Qed.
Lemma spawn_keeps ts : keeps_db (spawn_all ts).
Proof. induction ts as [|t ts IH]; kept. done. Qed.
Lemma wait_keeps : steps_ok eq not_bind boot_wait.
Proof. kept. Qed.
Section runs.
Context {W : Type} (env : forall r : boot_req, W -> all_resp r * W).

Lemma within_sorted {A} lo hi (p : boot_prog A) t w :
  within lo hi p ->
  let ns := omap (fun e : event all_resp => phase (projT1 e)) (log (run env p t w)) in
  StronglySorted le ns /\ Forall (fun n => (lo <= n <= hi)%nat) ns.
Proof.
  cbn zeta. revert lo t w. induction p as [a|X f k IH|r k IH|m]; intros lo t w Hp; cbn in *;
    [by repeat constructor|apply IH, Hp| |by repeat constructor].
  destruct (phase r) as [n|]; [|apply IH, Hp]. destruct Hp as [Hn Hk].
  destruct (IH _ n t (env r w).2 (Hk (env r w).1)) as [Hs Hf]. split.
  - constructor; [exact Hs|]. eapply Forall_impl; [exact Hf|]. cbn. lia.
  - constructor; [exact Hn|]. eapply Forall_impl; [exact Hf|]. cbn. lia.
Qed.

#[local] Instance running_lens : Lens (fun t : node => t) (fun s _ => s).
Proof. by constructor. Qed.

(** A program of the relay that asks nothing of the client runs as it does alone. *)
Lemma relay_runs {A} (p : relay_prog A) t w :
  steps_ok (fun _ _ => True) (fun r => wallet_handler r = None) p ->
  exists (V : Type) (E : Env V) (v : V),
    out (run env (relay p) t w) = out (exec p t.1 v) /\ (fin (run env (relay p) t w)).1 = fin (exec p t.1 v).
Proof.
  intros Hp. unfold relay, running.
  destruct (run_lift (fun t : node => t) (fun s _ => s) inr (fun _ x => x) env (linked p) t w)
    as (-> & -> & _). cbn zeta.
  set (env' := fun (r : WReq + Req) (w : W) => _). destruct t as [s c].
  destruct (composed wallet_handler env' p s c w) as [_ Hc].
  destruct (Hc Hp) as (V & e & v & Ho & Hf & _). by exists V, (Build_Env _ V e), v.
Qed.

(** What start-up makes of the database it opens. *)
Definition settled (file : option SwapDb.t) (t : node) : Prop :=
  let before := set_db t.1 (SwapDb.open_ file) in
  db_wf (SwapDb.open_ file) ->
  db_wf (swap_db t.1) /\
  rows_related SwapDb.get_by_payment_hash swap_started before t.1 /\
  rows_related SwapDb.get_offramp_by_id offramp_started before t.1.

Definition served (p : Process) (args : LdkUserInfo (SocketAddress := SocketAddress)) (t : node)
  (l : list (event all_resp)) : Prop :=
  exists cfg srv file,
    operator_agent envelope_cbor_hex p (cardano args) true = Started (Some cfg) /\
    api_server p cfg = Started srv /\ rate_limiter t.1 = server_limiter srv /\
    boot_event (OpenDatabase (ldk_storage_dir_path args +:+ "/swaps.db")) (Ok file) ∈ l /\
    settled file t.

Lemma served_app p args t l l' : served p args t l -> served p args t (l' ++ l).
Proof.
  intros (cfg & srv & file & Hc & Hs & Hr & Hd & Ht). exists cfg, srv, file. split_and!; try done. set_solver.
Qed.

Abbreviation binds l := (~ Forall (fun e : event all_resp => not_bind (projT1 e)) l).

Lemma settled_same file t t' : same_db t t' -> settled file t -> settled file t'.
Proof.
  unfold same_db, settled, rows_related. intros E Hs Hwf. cbn in *. rewrite E. by apply Hs.
Qed.

(** The API: only the limiter is set, before the port is bound. *)
Lemma run_api p cfg t w :
  let r := run env (let* _ := boot_api p (Some cfg) in boot_wait) t w in
  binds (log r) ->
  same_db t (fin r) /\ exists srv, api_server p cfg = Started srv /\ rate_limiter (fin r).1 = server_limiter srv.
Proof.
  cbn zeta. unfold boot_api. intros Hb.
  assert (forall t w, t = fin (run env boot_wait t w) /\
    Forall (fun e : event all_resp => not_bind (projT1 e)) (log (run env boot_wait t w))) as Hw.
  { intros t' w'. apply (steps_ok_run env _ _ _ t' w' wait_keeps). }
  destruct (api_server p cfg) as [srv| |]; [|by destruct Hb; apply Hw|by destruct Hb].
  cbn -[boot_wait]. destruct (env (inl (BindApi (server_port srv))) w) as [[] w']; cbn -[boot_wait].
  - rewrite <- (proj1 (Hw _ _)). split; [done|]. by exists srv.
  - split; [done|]. by exists srv.
Qed.

#[local] Instance any_refl : Reflexive (fun _ _ : node => True).
Proof. done. Qed.
#[local] Instance any_trans : Transitive (fun _ _ : node => True).
Proof. done. Qed.

(** Steps before the port is bound. *)
Lemma reach {A B} (p : boot_prog A) (f : A -> boot_prog B) t w :
  steps_ok (fun _ _ => True) not_bind p -> binds (log (run env (bind p f) t w)) ->
  exists a, out (run env p t w) = Done a /\
    run env (bind p f) t w = log_app (log (run env p t w)) (run env (f a) (fin (run env p t w)) (world (run env p t w))) /\
    binds (log (run env (f a) (fin (run env p t w)) (world (run env p t w)))).
Proof.
  intros Hp Hb. destruct (run_reach env (fun _ _ => True) not_bind p f t w) as (a & ? & _ & ? & ?); try done.
  by exists a.
Qed.

Lemma reach_db {A B} (p : boot_prog A) (f : A -> boot_prog B) t w :
  keeps_db p -> binds (log (run env (bind p f) t w)) ->
  exists a, out (run env p t w) = Done a /\ same_db t (fin (run env p t w)) /\
    run env (bind p f) t w = log_app (log (run env p t w)) (run env (f a) (fin (run env p t w)) (world (run env p t w))) /\
    binds (log (run env (f a) (fin (run env p t w)) (world (run env p t w)))).
Proof. intros Hp Hb. by apply (run_reach env same_db not_bind p f t w). Qed.

(** The operator agent that start-up gets is the configured one. *)
Lemma run_operator p c t w cfg :
  out (run env (boot_operator p c) t w) = Done cfg ->
  cfg = None \/ operator_agent envelope_cbor_hex p c true = Started cfg.
Proof.
  unfold boot_operator. destruct (operator_agent _ _ _ _) as [[cfg'|]| |] eqn:E; cbn; try (intros [= <-]; auto).
  destruct (env (inl (AgentInit cfg')) w) as [[] w']; cbn; [|done]. intros [= <-]. auto.
Qed.

Lemma recovery_unhandled c r :
  steps_ok (fun _ _ => True) (fun r => wallet_handler r = None) (recover_and_reconcile c r).
Proof. eapply steps_ok_mono, recover_and_reconcile_calls; [done|]. by intros []. Qed.

Lemma recovery_not_bind c r : steps_ok (fun _ _ => True) not_bind (relay (recover_and_reconcile c r)).
Proof. apply (within_not_bind 11). eapply stages_mono, within_recovery; lia. Qed.

Lemma run_recovery file reconcile t w :
  swap_db t.1 = SwapDb.open_ file ->
  settled file (fin (run env (relay (recover_and_reconcile true reconcile)) t w)).
Proof.
  intros E Hwf. destruct (relay_runs (recover_and_reconcile true reconcile) t w) as (V & HE & v & _ & ->);
    [apply recovery_unhandled|].
  rewrite <- E in Hwf. destruct (recovery_settles reconcile t.1 v Hwf) as (_ & Hw & Hs & Ho).
  split; [done|]. unfold rows_related in *. cbn. rewrite <- E. done.
Qed.

Lemma run_database {B} dir (f : unit -> boot_prog B) t w :
  binds (log (run env (bind (boot_database true dir) f) t w)) ->
  exists file t1 w1 l, boot_event (OpenDatabase (dir +:+ "/swaps.db")) (Ok file) ∈ l /\
    swap_db t1.1 = SwapDb.open_ file /\
    run env (bind (boot_database true dir) f) t w = log_app l (run env (f tt) t1 w1) /\
    binds (log (run env (f tt) t1 w1)).
Proof.
  cbn. set (r := inl _). destruct (env r w) as [[file|e] w1] eqn:E; cbn; intros Hb.
  - eexists file, _, w1, [existT r (Ok file)]. split; [by left|]. split; [|split]; [|reflexivity|]; [done|].
    intros Hf. apply Hb. by constructor.
  - destruct Hb. by repeat constructor.
Qed.

(** Without Cardano the port is never bound. *)
Lemma no_cardano p reconcile :
  steps_ok (fun _ _ => True) not_bind
    (let* _ := spawn_all [BackgroundProcessor; ReconnectPeers; NodeAnnouncement; SweepMigration] in
     let* _ := relay (recover_and_reconcile false reconcile) in
     let* _ := spawn_all [] in
     let* _ := boot_api p None in
     boot_wait).
Proof.
  apply steps_ok_bind; [eapply steps_ok_mono, spawn_keeps; done|]. intros _.
  apply steps_ok_bind; [apply recovery_not_bind|]. intros _.
  cbn -[boot_wait]. eapply steps_ok_mono, wait_keeps; done.
Qed.

(** From the payment tables to the end. *)
Lemma run_services p args dir tip t w :
  let r := run env (boot_services p args dir tip) t w in
  binds (log r) -> served p args (fin r) (log r).
Proof.
  cbn zeta. unfold boot_services. intros Hb.
  apply reach_db in Hb as (a & _ & _ & -> & Hb); [|apply network_keeps]. apply served_app. cbn [fin log].
  apply reach_db in Hb as (a1 & _ & _ & -> & Hb); [|apply payments_keeps]. apply served_app. cbn [fin log].
  apply reach_db in Hb as (op & Hop & _ & -> & Hb); [|apply operator_keeps]. apply served_app. cbn [fin log].
  apply run_operator in Hop. destruct op as [cfg|].
  2: { destruct Hb. apply (steps_ok_run env (fun _ _ => True) not_bind), no_cardano. }
  destruct Hop as [|Hop]; [done|].
  apply run_database in Hb as (file & t1 & w1 & l1 & Hfile & Hdb & -> & Hb). cbn [fin log log_app].
  apply reach_db in Hb as (a2 & _ & Hsame & -> & Hb); [|apply spawn_keeps]. cbn [fin log log_app].
  set (t2 := fin _) in *. set (w2 := world _) in *.
  assert (settled file (fin (run env (relay (recover_and_reconcile true (reconcile_on_startup p))) t2 w2))) as Hst
    by (apply run_recovery; congruence).
  apply reach in Hb as (a3 & _ & -> & Hb); [|apply recovery_not_bind].
  cbn [fin log log_app]. set (t3 := fin (run env (relay _) _ _)) in *. set (w3 := world (run env (relay _) _ _)) in *.
  apply reach_db in Hb as (a4 & _ & Hsame' & -> & Hb); [|apply spawn_keeps]. cbn [fin log log_app].
  apply run_api in Hb as (Hsame'' & srv & Hsrv & Hlim).
  exists cfg, srv, file. split_and!; [done..|rewrite elem_of_app; auto|].
  eapply settled_same; [exact Hsame''|]. by eapply settled_same.
Qed.

(** A step of preparation before services that are [served]. *)
Lemma reach_served {A} p args lo (q : boot_prog A) (f : A -> boot_prog (startup unit)) t w :
  within lo 4 q ->
  (forall a t' w', binds (log (run env (f a) t' w')) -> served p args (fin (run env (f a) t' w')) (log (run env (f a) t' w'))) ->
  binds (log (run env (bind q f) t w)) ->
  served p args (fin (run env (bind q f) t w)) (log (run env (bind q f) t w)).
Proof.
  intros Hq Hf Hb. apply reach in Hb as (a & _ & -> & Hb).
  - apply served_app, Hf, Hb.
  - apply (within_not_bind lo). eapply stages_mono, Hq; lia.
Qed.

Lemma reach_return {A} p args lo (q : boot_prog (startup A)) (f : A -> boot_prog (startup unit)) t w :
  within lo 4 q ->
  (forall a t' w', binds (log (run env (f a) t' w')) -> served p args (fin (run env (f a) t' w')) (log (run env (f a) t' w'))) ->
  binds (log (run env (or_return q f) t w)) ->
  served p args (fin (run env (or_return q f) t w)) (log (run env (or_return q f) t w)).
Proof.
  intros Hq Hf. apply (reach_served p args lo); [done|]. intros [a| |m] t' w'; [apply Hf|..]; intros []; constructor.
Qed.

Lemma run_start p t w :
  let r := run env (start_ldk p) t w in
  binds (log r) -> exists args, parse_startup_args socket_from_str p = Started args /\
                                served p args (fin r) (log r).
Proof.
  cbn zeta. unfold start_ldk, or_return. cbn [bind].
  destruct (parse_startup_args socket_from_str p) as [args| |]; [|intros []; constructor..].
  intros Hb. exists args. split; [done|]. revert Hb. unfold start_node.
  apply (reach_served p args 0); [by eapply stages_mono, within_dirs; lia|]. intros _ t1 w1.
  apply (reach_return p args 0); [by eapply stages_mono, within_boot_client; lia|]. intros _ t2 w2.
  apply (reach_return p args 0); [by eapply stages_mono, within_seed; lia|]. intros _ t3 w3.
  apply (reach_served p args 0); [phased|]. intros r t4 w4.
  apply (reach_served p args 0); [by destruct r|]. intros ms t5 w5.
  apply (reach_served p args 0); [phased|]. intros r' t6 w6.
  apply (reach_served p args 0); [by destruct r'|]. intros polled t7 w7.
  apply (reach_served p args 0); [phased|]. intros graph t8 w8.
  apply (reach_served p args 0); [phased|]. intros scorer t9 w9.
  apply (reach_served p args 1); [by eapply stages_mono, within_manager; lia|]. intros [[b h] m] t10 w10.
  apply (reach_served p args 2); [by eapply stages_mono, within_sweeper; lia|]. intros [h' sw] t11 w11.
  apply (reach_served p args 3); [by eapply stages_mono, within_sync; lia|]. intros [tip loaded] t12 w12.
  apply (reach_served p args 4); [by eapply stages_mono, within_load; lia|]. intros _ t13 w13.
  intros Hb. rewrite run_bind in Hb |- *. unfold run_then in *.
  pose proof (run_services p args (ldk_storage_dir_path args +:+ "/.ldk") tip t13 w13) as Hs. cbn zeta in Hs.
  destruct (out (run env (boot_services _ _ _ _) t13 w13)); cbn in *; [rewrite app_nil_r in *|]; auto.
Qed.

(** C13: the order of start-up, whatever the file system, bitcoind and LDK answer.  The
    requests come in the order of their phases: client and chain check, channel manager,
    sweeper, synchronisation, monitors, networking, payment tables, operator and database,
    background tasks, recovery, expiry monitors, API, shell, shutdown.  The sequence splits
    into preparation and service, and service begins only when the node is ready: either
    the manager file in the node's directory was opened and its content decoded together
    with all the monitors on disk, the manager and every one of these monitors was brought
    to the chain tip, and LDK has accepted to watch every one of them; or the manager file
    could not be opened, the manager is a new one, and no monitor was handed to LDK. *)
Theorem start_up_order p t w :
  let l := log (run env (start_ldk p) t w) in
  StronglySorted le (omap (fun e : event all_resp => phase (projT1 e)) l) /\
  exists pre rest, l = pre ++ rest /\
    Forall (fun e : event all_resp => until 4 (projT1 e)) pre /\
    Forall (fun e : event all_resp => late (projT1 e)) rest /\ (rest <> [] -> ready (manager_path p) pre).
Proof.
  cbn zeta. split; [apply (within_sorted 0 14), within_start|].
  exact (wp_run env (start_ldk p) t [] w (prepared (manager_path p)) (wp_start p t)).
Qed.

(** What the start-up sequence itself does before it binds the port, the tasks it has spawned
    left aside: Cardano is configured and every setting of the API is valid, the rate limiter
    is the configured one, and the database is that of the file with recovery applied: no
    offramp is being verified or paid, a swap that was being fulfilled is completed or
    unchanged, and all other rows are as they were on disk.  What holds when LDK's replayed
    events interleave with recovery is in [Gate]. *)
Lemma api_serves_settled p t w :
  let r := run env (start_ldk p) t w in
  (forall port, inl (BindApi port) ∉ (projT1 <$> log r : list boot_req)) \/
  exists args, parse_startup_args socket_from_str p = Started args /\ served p args (fin r) (log r).
Proof.
  cbn zeta. pose proof (run_start p t w) as Hs. cbn zeta in Hs.
  destruct (decide (Forall (fun e : event all_resp => not_bind (projT1 e)) (log (run env (start_ldk p) t w))))
    as [Hf|Hn]; [left|right; by apply Hs].
  intros port (e & E & He)%list_elem_of_fmap. rewrite Forall_forall in Hf. specialize (Hf e He). by rewrite <- E in Hf.
Qed.
End runs.

(** ** Handlers and client together *)

Section together.
Context {W : Type} (env : forall r : WReq + Req, W -> node_resp r * W).

(** A handler that runs on top of the client does what it does alone in some environment, with
    the same result, the same shared state and the same requests to the rest of the world, in
    order; only a panic of the client can cut it short, and only if the handler asks the
    client at all.  This holds of any lower handler; what the client really does is in
    [WalletSafety]. *)
Lemma linked_refines {A} (p : relay_prog A) s c (w : W) :
  let r := run env (linked p) (s, c) w in
  let alone := exists (V : Type) (E : Env V) (v : V),
    out r = out (exec p s v) /\ (fin r).1 = fin (exec p s v) /\
    outer (log r) = List.filter (passed wallet_handler) (log (exec p s v)) in
  (alone \/ exists m, out r = Panicked m) /\
  (steps_ok (fun _ _ => True) (fun r => wallet_handler r = None) p -> alone).
Proof.
  cbn zeta. destruct (composed wallet_handler env p s c w) as [Ha Hb]. split.
  - destruct Ha as [(V & e & v & Hr)|Hp]; [left; by exists V, (Build_Env _ V e), v|by right].
  - intros Hp. destruct (Hb Hp) as (V & e & v & Hr). by exists V, (Build_Env _ V e), v.
Qed.

(** What the client did for a channel, and what LDK was told. *)
Definition funded_channel (tmp peer script : bytes) (value : Z) (c : BitcoindClient)
  (l : list (event node_resp)) : Prop :=
  exists lw tx x, l = (low_event <$> lw) ++ [existT (inr (RFundingGenerated tmp peer (serialize tx))) x] /\
    if bdk_wallet c then bdk_funded c script value tx lw else bitcoind_funded c script value tx lw.

(** C34: a channel is funded end to end.  When LDK announces that a channel is ready to be
    funded, the relay's own state and the client's stay as they are, and LDK is given a
    transaction only if the wallet in use has built, funded and completely signed it for
    exactly the announced script and value; LDK is then given that transaction, once, for
    that channel and that peer.  In every other case LDK is given nothing. *)
Theorem channel_funding cardano_on tmp peer value script s c (w : W) :
  let r := run env (linked (handle_ldk_events cardano_on (FundingGenerationReady tmp peer value script))) (s, c) w in
  fin r = (s, c) /\
  (funded_channel tmp peer script value c (log r) \/
   Forall (fun e : event node_resp => match projT1 e with inl _ => True | inr _ => False end) (log r)).
Proof.
  cbn zeta. unfold linked. cbn [handle_ldk_events on_funding_generation_ready call bind compose wallet_handler].
  rewrite run_bind, run_below, run_bind. unfold run_then. cbn [snd].
  pose proof (funding_run (low_env env) c w script value) as [Hc Hf].
  assert (forall l, Forall (fun e : event node_resp => match projT1 e with inl _ => True | inr _ => False end)
    (low_event <$> l)) as Hlow.
  { intros l. by induction l; constructor. }
  destruct (run (low_env env) (create_funding_transaction script value) c w) as [o c' w' l].
  cbn in Hc, Hf |- *. subst c'. destruct o as [[tx|e]|m]; cbn; rewrite ?app_nil_r; (split; [done|]); auto.
  left. exists l, tx. eexists. split; [done|exact Hf].
Qed.
End together.
End node.
