(* ===== verification/Pool.v ===== *)
(** * Concurrent handlers

    The relay runs many handlers at once on one runtime.  A [pool] is the shared
    state, the tasks in flight with what is left of each, and the trace of answered
    requests, each with the task that made it.  A step lets one task take its next
    atomic step, with any answer to a request; starts a handler; or restarts the
    process: every task is lost and the database survives.

    [recovery] is awaited by [main.rs] before the API server is started, so a
    deposit request and the recovery of offramps are never in flight together;
    everything else may interleave freely, recovery with LDK's events included. *)

From S2P Require Import Prelude Effects Mapping MappingFacts MappingSpec Types RateLimiter World.
From S2P Require Import Helpers Rows CardanoSwap Payments CardanoOfframp Recovery Background Api.
From S2P Require Import Peers Shell Events.

(** ** Entry points *)

Inductive Task :=
| TSwapRequest (ip : IpAddr) (req : SwapRequest)
| TOfframpRequest (ip : IpAddr) (req : OfframpRequest)
| TDeposit (ip : IpAddr) (req : OfframpDepositRequest)
| TEvent (cardano : bool) (e : Event)
| TFulfillSwap (payment_hash : string)
| TCompleteOfframp (payment_hash preimage : string)
| TPaymentFailed (payment_hash : string)
| TConnect (node_id : bytes) (addresses : list NodeAddress)
| TReconnect
| TAnnounce (name : bytes) (addresses : list string)
| TShell (cardano : bool) (inp : input)
| TPoolDeposit (headers : HeaderMap) (amount : Z)
| TPoolWithdraw (headers : HeaderMap) (amount : Z)
| TSwapsTick
| TOfframpsTick
| TRecoverSwaps
| TRecoverOfframps.

Section pool.
Context `{Externals} (st : ApiState).

Definition ignore {A} (p : relay_prog A) : relay_prog unit := bind p (fun _ => Ret tt).

Definition task_prog (t : Task) : relay_prog unit :=
  match t with
  | TSwapRequest ip req => ignore (handle_swap_request st ip req)
  | TOfframpRequest ip req => ignore (handle_offramp_request st ip req)
  | TDeposit ip req => ignore (handle_offramp_deposit ip req)
  | TEvent cardano e => handle_ldk_events cardano e
  | TFulfillSwap h => fulfill_swap h
  | TCompleteOfframp h preimage => complete_offramp h preimage
  | TPaymentFailed h => handle_offramp_payment_failed h
  | TConnect node_id addresses => connection_needed node_id addresses
  | TReconnect => ignore reconnect_peers_tick
  | TAnnounce name addresses => broadcast_node_announcement_tick name addresses
  | TShell cardano inp => ignore (poll_for_user_input cardano inp)
  | TPoolDeposit headers amount => ignore (handle_pool_deposit st headers amount)
  | TPoolWithdraw headers amount => ignore (handle_pool_withdraw st headers amount)
  | TSwapsTick => monitor_expired_swaps_tick
  | TOfframpsTick => monitor_expired_offramps_tick
  | TRecoverSwaps => recover_fulfilling_swaps
  | TRecoverOfframps => recover_depositing_offramps
  end.

(** The task a [tokio::spawn] starts. *)
Definition spawn_task (t : Spawned) : Task :=
  match t with
  | SpawnFulfillSwap h => TFulfillSwap h
  | SpawnCompleteOfframp h pre => TCompleteOfframp h pre
  | SpawnOfframpPaymentFailed h => TPaymentFailed h
  | SpawnConnect node_id addresses => TConnect node_id addresses
  end.

Definition spawned_tasks (r : Req) : list (Task * relay_prog unit) :=
  match r with
  | RSpawn t => [(spawn_task t, task_prog (spawn_task t))]
  | _ => []
  end.

Record pool := mkPool {
  shared : Relay;
  tasks : list (Task * relay_prog unit);
  trace : list (nat * event resp);
}.

Definition finished (p : relay_prog unit) : Prop :=
  match p with Ret _ | Panic _ => True | _ => False end.

(** What [main.rs] orders: recovery of offramps before the API. *)
Definition may_start (t : Task) (ts : list (Task * relay_prog unit)) : Prop :=
  match t with
  | TDeposit _ _ => forall p, (TRecoverOfframps, p) ∈ ts -> finished p
  | TRecoverOfframps => forall ip req p, (TDeposit ip req, p) ∈ ts -> finished p
  | _ => True
  end.

Inductive step : pool -> pool -> Prop :=
| step_start P t :
    may_start t (tasks P) ->
    step P (mkPool (shared P) (tasks P ++ [(t, task_prog t)]) (trace P))
| step_local P i t X (f : Relay -> X * Relay) k :
    tasks P !! i = Some (t, Local f k) ->
    step P (mkPool (f (shared P)).2 (<[i := (t, k (f (shared P)).1)]> (tasks P)) (trace P))
| step_call P i t r k x :
    tasks P !! i = Some (t, Call r k) ->
    step P (mkPool (shared P) (<[i := (t, k x)]> (tasks P) ++ spawned_tasks r)
              (trace P ++ [(i, existT r x)]))
| step_restart P s :
    swap_db s = swap_db (shared P) ->
    step P (mkPool s ((fun tp => (tp.1, Ret tt)) <$> tasks P) (trace P)).

(** Executions from a well-formed database, with no task in flight. *)
Inductive reachable : pool -> Prop :=
| reach_init s : db_wf (swap_db s) -> reachable (mkPool s [] [])
| reach_step P P' : reachable P -> step P P' -> reachable P'.

(** The trace of a task. *)
Definition did (P : pool) (i : nat) (Q : Req -> Prop) : Prop :=
  exists e, (i, e) ∈ trace P /\ Q (projT1 e).

(** ** Phases

    A task's ghost phase says what it has won so far.  [phase_ok ph p]: from phase
    [ph], every atomic step of [p] on a well-formed database keeps it well formed
    and moves the phase along [pstep], its requests are allowed by [preq], and it
    ends in a phase of [pend]. *)

Section phases.
Context {Ph : Type} (pstep : Ph -> SwapDb.t -> SwapDb.t -> Ph -> Prop)
  (preq : Ph -> Req -> Prop) (pend : Ph -> Prop).

Fixpoint phase_ok {A} (ph : Ph) (p : relay_prog A) : Prop :=
  match p with
  | Ret _ | Panic _ => pend ph
  | Call r k => preq ph r /\ forall x, phase_ok ph (k x)
  | Local f k => forall s, db_wf (swap_db s) -> db_wf (swap_db (f s).2) /\
      exists ph', pstep ph (swap_db s) (swap_db (f s).2) ph' /\ phase_ok ph' (k (f s).1)
  end.

Lemma phase_ok_bind {A B} ph (p : relay_prog A) (k : A -> relay_prog B) :
  phase_ok ph p -> (forall ph' a, pend ph' -> phase_ok ph' (k a)) -> phase_ok ph (bind p k).
Proof.
  intros Hp Hk. revert ph Hp. induction p as [a|X f g IH|r g IH|m]; intros ph Hp; cbn in *.
  - auto.
  - intros s Hs. destruct (Hp s Hs) as (Hw & ph' & Hst & Hok). split; [done|]. eauto.
  - destruct Hp as [Hr Hp]. auto.
  - done.
Qed.

Lemma phase_ok_calls R {A B} ph (p : relay_prog A) (k : A -> relay_prog B) :
  calls_ok R p -> (forall r, R r -> preq ph r) -> (forall a, phase_ok ph (k a)) ->
  phase_ok ph (bind p k).
Proof.
  intros Hp HR Hk. induction p as [a|X f g IH|r g IH|m]; cbn in *; try done; auto.
  destruct Hp as [Hr Hp]. auto.
Qed.

(** The steps on the database, one lemma per primitive. *)
Lemma phase_db_read {A B} ph (f : SwapDb.t -> A) (k : A -> relay_prog B) :
  (forall db, pstep ph db db ph) ->
  (forall db, db_wf db -> phase_ok ph (k (f db))) -> phase_ok ph (bind (db_read f) k).
Proof. intros Hr Hk s Hs. cbn. split; [done|]. eauto. Qed.

Lemma phase_db_op {A B} ph (f : SwapDb.t -> A * SwapDb.t) (k : A -> relay_prog B) :
  (forall db, db_wf db -> db_wf (f db).2 /\
     exists ph', pstep ph db (f db).2 ph' /\ phase_ok ph' (k (f db).1)) ->
  phase_ok ph (bind (db_op f) k).
Proof.
  intros Hk. unfold db_op. cbn. intros s Hs. specialize (Hk _ Hs).
  by destruct (f (swap_db s)).
Qed.

Lemma phase_db_write {B} ph ph' (f : SwapDb.t -> SwapDb.t) (k : unit -> relay_prog B) :
  (forall db, db_wf db -> db_wf (f db) /\ pstep ph db (f db) ph') ->
  phase_ok ph' (k tt) -> phase_ok ph (bind (db_write f) k).
Proof.
  intros Hf Hk. apply phase_db_op. intros db Hdb. destruct (Hf db Hdb). cbn. eauto.
Qed.

Lemma phase_db_write_ret ph ph' (f : SwapDb.t -> SwapDb.t) :
  (forall db, db_wf db -> db_wf (f db) /\ pstep ph db (f db) ph') -> pend ph' ->
  phase_ok ph (db_write f).
Proof. intros Hf He s Hs. destruct (Hf _ Hs). cbn. eauto. Qed.
End phases.

(** ** The invariant of a pool, for a family of phases *)

Section invariant.
Context {Ph : Type} (ph0 : Ph) (pstep : Ph -> SwapDb.t -> SwapDb.t -> Ph -> Prop)
  (preq : Ph -> Req -> Prop) (pend won : Ph -> Prop) (kill : Ph -> Ph)
  (sel : Task -> bool) (ord : Task -> SwapDb.t -> SwapDb.t -> Prop)
  (cond : (nat -> Ph) -> SwapDb.t -> Prop) (Qr : Req -> Prop).

Definition ord_ok (t : Task) {A} (p : relay_prog A) : Prop :=
  phase_ok (fun (_ : unit) db db' _ => ord t db db') (fun _ _ => True) (fun _ => True) tt p.

Definition upd (i : nat) (a : Ph) (ph : nat -> Ph) (j : nat) : Ph :=
  if decide (j = i) then a else ph j.

Definition is_deposit (t : Task) : Prop := exists ip req, t = TDeposit ip req.

(** The laws the family of phases obeys. *)
Record phase_laws : Prop := {
  law_init db : db_wf db -> cond (fun _ => ph0) db;
  law_start : pend ph0;
  law_sel t : sel t = true -> phase_ok pstep preq pend ph0 (task_prog t);
  law_ord t : sel t = false -> ord_ok t (task_prog t);
  law_pstep ph i db db' b :
    db_wf db -> cond ph db -> pstep (ph i) db db' b -> cond (upd i b ph) db';
  law_ordstep t ph db db' :
    db_wf db -> cond ph db -> (t = TRecoverOfframps -> forall i, pend (ph i)) -> ord t db db' ->
    cond ph db';
  law_kill ph db : cond ph db -> cond (fun i => kill (ph i)) db;
  law_kill_end a : pend (kill a);
  law_kill_start : kill ph0 = ph0;
  law_req a r : preq a r -> Qr r -> won a;
  law_won_step a db db' b : pstep a db db' b -> won a -> won b;
  law_won_kill a : won a -> won (kill a);
  law_excl t : sel t = true -> (forall a, pend a) \/ is_deposit t;
}.

Record inv (P : pool) (ph : nat -> Ph) : Prop := {
  inv_wf : db_wf (swap_db (shared P));
  inv_cond : cond ph (swap_db (shared P));
  inv_sel i t p : tasks P !! i = Some (t, p) -> sel t = true -> phase_ok pstep preq pend (ph i) p;
  inv_ord i t p : tasks P !! i = Some (t, p) -> sel t = false -> ord_ok t p /\ ph i = ph0;
  inv_out i : (length (tasks P) <= i)%nat -> ph i = ph0;
  inv_trace i e : (i, e) ∈ trace P -> exists t p, tasks P !! i = Some (t, p) /\
    (sel t = true -> Qr (projT1 e) -> won (ph i));
  inv_excl i j p ip req q : tasks P !! i = Some (TRecoverOfframps, p) ->
    tasks P !! j = Some (TDeposit ip req, q) -> finished p \/ finished q;
}.

Context (laws : phase_laws).

Lemma upd_eq i a ph : upd i a ph i = a.
Proof. unfold upd. by rewrite decide_True. Qed.
Lemma upd_ne i j a ph : j <> i -> upd i a ph j = ph j.
Proof. intros. unfold upd. by rewrite decide_False. Qed.

Lemma finished_phase ph (p : relay_prog unit) :
  phase_ok pstep preq pend ph p -> finished p -> pend ph.
Proof. by destruct p. Qed.

(** While recovery runs, no deposit is in flight, so every phase has ended. *)
Lemma inv_recover P ph i p :
  inv P ph -> tasks P !! i = Some (TRecoverOfframps, p) -> ~ finished p -> forall j, pend (ph j).
Proof.
  intros Hi Hp Hf j. destruct (tasks P !! j) as [[t q]|] eqn:E.
  - destruct (sel t) eqn:Es.
    + destruct (law_excl laws t Es) as [Hall|(ip & req & ->)]; [done|].
      destruct (inv_excl _ _ Hi _ _ _ _ _ _ Hp E) as [?|Hq]; [done|].
      eapply finished_phase; [|done]. by eapply inv_sel.
    + destruct (inv_ord _ _ Hi _ _ _ E Es) as [_ ->]. apply laws.
  - rewrite (inv_out _ _ Hi); [apply laws|]. by apply lookup_ge_None.
Qed.

(** Appending a task that may start. *)
Lemma inv_append P ph t :
  inv P ph -> may_start t (tasks P) ->
  inv (mkPool (shared P) (tasks P ++ [(t, task_prog t)]) (trace P)) ph.
Proof.
  intros [Hwf Hc Hs Ho Hout Htr Hex] Hm.
  assert (ph (length (tasks P)) = ph0) as Hnew by (by apply Hout).
  split; cbn; [done|done|..].
  - intros i t' p [[_ Hi]|[-> [= <- <-]]]%lookup_snoc_Some Ht; [eauto|].
    rewrite Hnew. by apply laws.
  - intros i t' p [[_ Hi]|[-> [= <- <-]]]%lookup_snoc_Some Ht; [eauto|].
    split; [by apply laws|done].
  - intros i Hi. rewrite length_app in Hi. cbn in Hi. apply Hout. lia.
  - intros i e Hie. destruct (Htr i e Hie) as (t' & p & Hi & Hw). exists t', p.
    split; [by apply lookup_app_l_Some|done].
  - intros i j p ip req q [[_ Hi]|[-> [= -> <-]]]%lookup_snoc_Some
      [[_ Hj]|[-> [= -> <-]]]%lookup_snoc_Some; [eauto|..].
    + left. apply (Hm p). by eapply list_elem_of_lookup_2.
    + right. apply (Hm ip req q). by eapply list_elem_of_lookup_2.
Qed.

(** Replacing the program of task [i] by what is left of it. *)
Lemma inv_advance P ph ph' i t p p' s' :
  inv P ph -> tasks P !! i = Some (t, p) -> ~ finished p ->
  db_wf (swap_db s') -> cond ph' (swap_db s') -> (forall j, j <> i -> ph' j = ph j) ->
  (sel t = true -> phase_ok pstep preq pend (ph' i) p' /\ (won (ph i) -> won (ph' i))) ->
  (sel t = false -> ord_ok t p' /\ ph' i = ph0) ->
  inv (mkPool s' (<[i := (t, p')]> (tasks P)) (trace P)) ph'.
Proof.
  intros [Hwf Hc Hs Ho Hout Htr Hex] Hi Hnf Hwf' Hc' Hph Hsel Hord.
  assert (i < length (tasks P))%nat as Hlt by (by eapply lookup_lt_Some).
  split; cbn; [done|done|..].
  - intros j t' q. rewrite list_lookup_insert. case_decide as Hj.
    + destruct Hj as [-> _]. intros [= <- <-] Ht. by apply Hsel.
    + intros Hq Ht. rewrite Hph by (intros ->; tauto). eauto.
  - intros j t' q. rewrite list_lookup_insert. case_decide as Hj.
    + destruct Hj as [-> _]. intros [= <- <-] Ht. by apply Hord.
    + intros Hq Ht. rewrite Hph by (intros ->; tauto). eauto.
  - intros j Hj. rewrite length_insert in Hj. rewrite Hph by lia. auto.
  - intros j e Hje. destruct (Htr j e Hje) as (t' & q & Hq & Hw).
    rewrite list_lookup_insert. destruct (decide (j = i)) as [->|Hne].
    + simplify_eq. rewrite decide_True by done. exists t, p'. split; [done|].
      intros Ht HQ. apply Hsel; auto.
    + rewrite decide_False by naive_solver. exists t', q. rewrite Hph by done. done.
  - intros j k q ip req q'. rewrite !list_lookup_insert. intros Hj Hk.
    destruct (decide (i = j /\ _)) as [[<- _]|_], (decide (i = k /\ _)) as [[<- _]|_]; simplify_eq.
    + destruct (Hex _ _ _ _ _ _ Hi Hk); [done|by right].
    + destruct (Hex _ _ _ _ _ _ Hj Hi); [by left|done].
    + eauto.
Qed.

Lemma inv_local P ph i t X (f : Relay -> X * Relay) k :
  inv P ph -> tasks P !! i = Some (t, Local f k) ->
  exists ph', inv (mkPool (f (shared P)).2 (<[i := (t, k (f (shared P)).1)]> (tasks P)) (trace P)) ph'.
Proof.
  intros Hinv Hi. pose proof Hinv as [Hwf Hc Hs Ho Hout Htr Hex]. destruct (sel t) eqn:Et.
  - destruct (Hs _ _ _ Hi Et _ Hwf) as (Hwf' & b & Hst & Hok). exists (upd i b ph).
    eapply (inv_advance _ _ _ _ _ _ _ _ Hinv Hi (fun F => F)); try done.
    + exact (law_pstep laws ph i _ _ b Hwf Hc Hst).
    + intros j Hj. by apply upd_ne.
    + rewrite upd_eq. intros _. split; [done|]. by eapply (law_won_step laws).
    + congruence.
  - destruct (Ho _ _ _ Hi Et) as [Hok Hph]. destruct (Hok _ Hwf) as (Hwf' & [] & Hst & Hok').
    exists ph. eapply (inv_advance _ _ _ _ _ _ _ _ Hinv Hi (fun F => F)); try done; [|congruence].
    eapply (law_ordstep laws t); [exact Hwf|done| |exact Hst].
    intros ->. exact (inv_recover _ _ _ _ Hinv Hi (fun F => F)).
Qed.

Lemma inv_call P ph i t r k x :
  inv P ph -> tasks P !! i = Some (t, Call r k) ->
  inv (mkPool (shared P) (<[i := (t, k x)]> (tasks P)) (trace P ++ [(i, existT r x)])) ph.
Proof.
  intros Hinv Hi. pose proof Hinv as [Hwf Hc Hs Ho Hout Htr Hex].
  assert (inv (mkPool (shared P) (<[i := (t, k x)]> (tasks P)) (trace P)) ph) as Hadv.
  { eapply (inv_advance _ _ _ _ _ _ _ _ Hinv Hi (fun F => F)); try done.
    - intros Ht. destruct (Hs _ _ _ Hi Ht) as [_ Hk]. split; [apply Hk|done].
    - intros Ht. destruct (Ho _ _ _ Hi Ht) as [[_ Hk] ->]. split; [apply Hk|done]. }
  destruct Hadv as [Hwf' Hc' Hs' Ho' Hout' Htr' Hex']. split; cbn in *; try done.
  intros j e [Hje|Hje]%elem_of_app; [by apply Htr'|]. apply list_elem_of_singleton in Hje as [= -> ->].
  exists t, (k x). rewrite list_lookup_insert_eq by (by eapply lookup_lt_Some).
  split; [done|]. intros Ht HQ. destruct (Hs _ _ _ Hi Ht) as [Hr _]. by eapply (law_req laws).
Qed.

Lemma inv_restart P ph s :
  inv P ph -> swap_db s = swap_db (shared P) ->
  inv (mkPool s ((fun tp => (tp.1, Ret tt)) <$> tasks P) (trace P)) (fun i => kill (ph i)).
Proof.
  intros [Hwf Hc Hs Ho Hout Htr Hex] Es. split; cbn; rewrite ?Es; [done|by apply laws|..].
  - intros i t p. rewrite list_lookup_fmap. intros ([t' p'] & _ & [= -> ->])%fmap_Some _. cbn. apply laws.
  - intros i t p. rewrite list_lookup_fmap. intros ([t' p'] & Hi & [= -> ->])%fmap_Some Ht.
    split; [done|]. destruct (Ho _ _ _ Hi Ht) as [_ ->]. apply laws.
  - intros i Hi. rewrite length_fmap in Hi. rewrite Hout by done. apply laws.
  - intros i e Hie. destruct (Htr i e Hie) as (t & p & Hi & Hw). exists t, (Ret tt).
    rewrite list_lookup_fmap, Hi. split; [done|]. intros Ht HQ. apply laws. auto.
  - intros i j p ip req q. rewrite list_lookup_fmap.
    intros ([t' p'] & _ & [= _ ->])%fmap_Some _. by left.
Qed.

(** Every reachable pool has phases that satisfy the invariant. *)
Lemma reachable_inv P : reachable P -> exists ph, inv P ph.
Proof.
  induction 1 as [s Hwf|P P' _ [ph IH] Hstep].
  - exists (fun _ => ph0). split; cbn; try done; [by apply laws|set_solver].
  - destruct Hstep as [P t Hm|P i t X f k Hi|P i t r k x Hi|P s Es].
    + exists ph. by apply inv_append.
    + by eapply inv_local.
    + exists ph. pose proof (inv_call _ _ _ _ _ _ x IH Hi) as Hc.
      destruct r; cbn [spawned_tasks]; rewrite ?app_nil_r; try exact Hc.
      apply (inv_append _ _ _ Hc). by destruct task.
    + eexists. by apply inv_restart.
Qed.
End invariant.
End pool.
