(* ===== verification/PoolSafety.v ===== *)
(** * Safety of concurrent handlers

    What holds in every interleaving of [Pool]: a swap's invoice is fulfilled by at
    most one [fulfill_swap] task, and a Lightning payment is made for an offramp by
    at most one deposit request. *)

From S2P Require Import Prelude Effects Mapping MappingFacts MappingSpec Types RateLimiter World.
From S2P Require Import Helpers Rows CardanoSwap Payments CardanoOfframp Recovery Background Api.
From S2P Require Import Peers Shell ShellSafety Events Pool.
Open Scope prog_scope.

(** ** What the handlers may do to a row *)

(** The swap is there and no longer pending. *)
Definition closed (h : string) (db : SwapDb.t) : Prop :=
  exists m, SwapDb.get_by_payment_hash h db = Some m /\ Swap.status m <> SwapStatus.Pending.

Definition offramp_st (id : Z) (db : SwapDb.t) : option OfframpStatus.t :=
  Offramp.status <$> SwapDb.get_offramp_by_id id db.

(** A step that neither creates a way back to the three statuses before the payment
    nor loses the row; it may insert a row that awaits its deposit. *)
Definition settles (id : Z) (db db' : SwapDb.t) : Prop :=
  (offramp_st id db' = Some OfframpStatus.AwaitingDeposit ->
     offramp_st id db = Some OfframpStatus.AwaitingDeposit \/ offramp_st id db = None) /\
  (offramp_st id db' = Some OfframpStatus.PendingVerification ->
     offramp_st id db = Some OfframpStatus.PendingVerification) /\
  (offramp_st id db' = Some OfframpStatus.PayingLightning ->
     offramp_st id db = Some OfframpStatus.PayingLightning) /\
  (offramp_st id db' = None -> offramp_st id db = None).

(** The columns that are written once, when the row is inserted. *)
Definition swap_terms (m : SwapMapping) : Swap.t_of unit := Swap.set_status tt None m.
Definition offramp_terms (m : OfframpMapping) : Offramp.t_of unit := Offramp.set "" tt None None None m.

(** No row is deleted, and its terms do not change. *)
Definition keeps_rows (db db' : SwapDb.t) : Prop :=
  (forall h m, SwapDb.get_by_payment_hash h db = Some m ->
     exists m', SwapDb.get_by_payment_hash h db' = Some m' /\ swap_terms m' = swap_terms m) /\
  (forall id m, SwapDb.get_offramp_by_id id db = Some m ->
     exists m', SwapDb.get_offramp_by_id id db' = Some m' /\ offramp_terms m' = offramp_terms m).

Definition lasts (db db' : SwapDb.t) : Prop :=
  (forall h, closed h db -> closed h db') /\ keeps_rows db db'.

(** What every handler but the deposit request and the recovery of offramps does. *)
Definition calm (db db' : SwapDb.t) : Prop := lasts db db' /\ forall id, settles id db db'.

(** The statuses after the payment. *)
Definition late (s : OfframpStatus.t) : Prop :=
  s = OfframpStatus.DepositingToPool \/ s = OfframpStatus.Completed \/ s = OfframpStatus.Failed.

Lemma settles_refl id db : settles id db db.
Proof. unfold settles. auto. Qed.

Lemma settles_same id db db' :
  SwapDb.get_offramp_by_id id db' = SwapDb.get_offramp_by_id id db -> settles id db db'.
Proof. intros E. unfold settles, offramp_st. rewrite E. auto. Qed.

Lemma lasts_refl db : lasts db db.
Proof. split; [done|]. split; eauto. Qed.

Lemma keeps_rows_trans db1 db2 db3 : keeps_rows db1 db2 -> keeps_rows db2 db3 -> keeps_rows db1 db3.
Proof.
  intros [Hs Ho] [Hs' Ho']. split.
  - intros h m (m' & Hm' & E)%Hs. destruct (Hs' _ _ Hm') as (m2 & Hm2 & E2). exists m2.
    split; [done|congruence].
  - intros id m (m' & Hm' & E)%Ho. destruct (Ho' _ _ Hm') as (m2 & Hm2 & E2). exists m2.
    split; [done|congruence].
Qed.

Lemma calm_refl db : calm db db.
Proof. split; [apply lasts_refl|]. intros id. apply settles_refl. Qed.

(** A statement on one offramp row that keeps its terms. *)
Lemma lasts_offramp id g db db' :
  SwapDb.swap_mappings db' = SwapDb.swap_mappings db ->
  (forall id', SwapDb.get_offramp_by_id id' db'
     = if id =? id' then g <$> SwapDb.get_offramp_by_id id db else SwapDb.get_offramp_by_id id' db) ->
  (forall m, offramp_terms (g m) = offramp_terms m) -> lasts db db'.
Proof.
  intros Hs Ho Hg. unfold lasts, keeps_rows, closed, SwapDb.get_by_payment_hash. rewrite Hs.
  split; [done|]. split; [eauto|]. intros id' m Hm. rewrite Ho.
  destruct (Z.eqb_spec id id') as [->|]; [|eauto]. rewrite Hm. cbn. eauto.
Qed.

Lemma lasts_update_offramp id s pre dep err db :
  lasts db (SwapDb.update_offramp_status id s pre dep err db).
Proof. eapply lasts_offramp; [done|apply get_update_offramp_status|done]. Qed.
Lemma lasts_set_offramp id s db : lasts db (set_offramp_status id s db).
Proof. eapply lasts_offramp; [done|apply get_set_offramp_status|done]. Qed.
Lemma lasts_set_cbtc id tx s db : lasts db (set_offramp_cbtc_status id tx s db).
Proof. eapply lasts_offramp; [done|apply get_set_offramp_cbtc_status|done]. Qed.

Lemma lasts_update h s tx db :
  s <> SwapStatus.Pending -> lasts db (SwapDb.update_status h s tx db).
Proof.
  intros Hs. split; [|split; [|eauto]].
  - intros h' (m & Hm & Hst). unfold closed. rewrite get_update_status.
    destruct (String.eqb_spec h h') as [->|]; [|eauto]. rewrite Hm. by eexists.
  - intros h' m Hm. rewrite get_update_status.
    destruct (String.eqb_spec h h') as [->|]; [|eauto]. rewrite Hm. by eexists.
Qed.

Lemma calm_update_status h s tx db :
  s <> SwapStatus.Pending -> calm db (SwapDb.update_status h s tx db).
Proof. intros Hs. split; [by apply lasts_update|]. intros id. by apply settles_same. Qed.

Lemma calm_transition_status h e n tx db :
  db_wf db -> n <> SwapStatus.Pending -> calm db (SwapDb.transition_status h e n tx db).2.
Proof.
  intros Hwf Hn. rewrite transition_status_spec by done.
  case_decide; [by apply calm_update_status|apply calm_refl].
Qed.

Lemma calm_insert m db : calm db (SwapDb.insert m db).2.
Proof.
  destruct (SwapDb.insert m db).1 eqn:E; [|rewrite insert_conflict_db by done; apply calm_refl].
  assert (forall h x, SwapDb.get_by_payment_hash h db = Some x ->
    SwapDb.get_by_payment_hash h (SwapDb.insert m db).2 = Some x) as Hold.
  { intros h x Hx. rewrite get_insert by done.
    destruct (String.eqb_spec (Swap.payment_hash m) h) as [<-|]; [|done].
    assert ((SwapDb.insert m db).1 = false) by (apply insert_conflict; eauto). congruence. }
  split; [split; [|split]|].
  - intros h (x & Hx & Hst). exists x. auto.
  - eauto.
  - intros id x Hx. exists x. unfold SwapDb.insert. by destruct (existsb _ _).
  - intros id. apply settles_same. unfold SwapDb.insert. by destruct (existsb _ _).
Qed.

Lemma settles_update id id' s pre dep err db :
  late s -> settles id db (SwapDb.update_offramp_status id' s pre dep err db).
Proof.
  intros Hs. unfold settles, offramp_st. rewrite get_update_offramp_status.
  destruct (Z.eqb_spec id' id) as [->|]; [|auto].
  destruct (SwapDb.get_offramp_by_id id db); cbn; [|auto]. destruct Hs as [->|[->| ->]]; naive_solver.
Qed.

Lemma calm_update_offramp id s pre dep err db :
  late s -> calm db (SwapDb.update_offramp_status id s pre dep err db).
Proof. intros Hs. split; [apply lasts_update_offramp|]. intros id'. by apply settles_update. Qed.

Lemma settles_set id id' s db : late s -> settles id db (set_offramp_status id' s db).
Proof.
  intros Hs. unfold settles, offramp_st. rewrite get_set_offramp_status.
  destruct (Z.eqb_spec id' id) as [->|]; [|auto].
  destruct (SwapDb.get_offramp_by_id id db); cbn; [|auto]. destruct Hs as [->|[->| ->]]; naive_solver.
Qed.

Lemma calm_transition_offramp id e n db :
  db_wf db -> late n -> calm db (SwapDb.transition_offramp_status id e n db).2.
Proof.
  intros Hwf Hn. rewrite transition_offramp_status_spec by done. case_decide; [|apply calm_refl].
  split; [apply lasts_set_offramp|]. intros id'. by apply settles_set.
Qed.

Lemma calm_insert_offramp m db :
  Offramp.status m = OfframpStatus.AwaitingDeposit -> calm db (SwapDb.insert_offramp m db).2.
Proof.
  intros Hm. destruct (SwapDb.insert_offramp m db).1 eqn:E;
    [|rewrite insert_offramp_conflict_db by done; apply calm_refl].
  assert (SwapDb.get_offramp_by_id (Offramp.offramp_id m) db = None) as Hn.
  { apply eq_None_not_Some. rewrite <- insert_offramp_conflict, E. done. }
  assert (SwapDb.swap_mappings (SwapDb.insert_offramp m db).2 = SwapDb.swap_mappings db) as Hs
    by (unfold SwapDb.insert_offramp; by destruct (existsb _ _)).
  split.
  - unfold lasts, keeps_rows, closed, SwapDb.get_by_payment_hash. rewrite Hs.
    split; [done|]. split; [eauto|]. intros id x Hx. exists x. split; [|done].
    rewrite get_insert_offramp by done. destruct (Z.eqb_spec (Offramp.offramp_id m) id); [congruence|done].
  - intros id. unfold settles, offramp_st. rewrite get_insert_offramp by done.
    destruct (Z.eqb_spec (Offramp.offramp_id m) id) as [<-|]; [|auto].
    rewrite Hn. cbn. rewrite Hm. naive_solver.
Qed.

Lemma late_deposit : late OfframpStatus.DepositingToPool.
Proof. by left. Qed.
Lemma late_completed : late OfframpStatus.Completed.
Proof. by right; left. Qed.
Lemma late_failed : late OfframpStatus.Failed.
Proof. by right; right. Qed.

Create HintDb calm.
#[export] Hint Resolve calm_refl calm_update_status calm_transition_status calm_insert
  calm_update_offramp calm_transition_offramp calm_insert_offramp
  late_deposit late_completed late_failed : calm.
#[export] Hint Extern 1 (_ <> _) => discriminate : calm.

(** Relations that allow the statements of the handlers that own a swap or an offramp:
    a swap never becomes pending, an offramp only moves to a status after its payment. *)
Class Tame (C : SwapDb.t -> SwapDb.t -> Prop) : Prop := {
  #[global] tame_refl :: Reflexive C;
  tame_update_status h s tx db : s <> SwapStatus.Pending -> C db (SwapDb.update_status h s tx db);
  tame_transition_status h e n tx db :
    db_wf db -> n <> SwapStatus.Pending -> C db (SwapDb.transition_status h e n tx db).2;
  tame_update_offramp id s pre dep err db :
    late s -> C db (SwapDb.update_offramp_status id s pre dep err db);
  tame_transition_offramp id e n db :
    db_wf db -> late n -> C db (SwapDb.transition_offramp_status id e n db).2;
}.

(** A statement in the relation of the handler: by the hints, or because it is tame. *)
Ltac statement :=
  first [ solve [eauto with calm]
        | first [apply tame_update_status | apply tame_transition_status | apply tame_update_offramp
                | apply tame_transition_offramp]; solve [eauto with calm] ].

#[global] Instance calm_tame : Tame calm.
Proof.
  split; [exact calm_refl|exact calm_update_status|exact calm_transition_status
    |exact calm_update_offramp|exact calm_transition_offramp].
Qed.

(** ** Programs all of whose steps are in a relation *)

Section quiet.
Context `{Externals} (C : SwapDb.t -> SwapDb.t -> Prop) `{!Reflexive C}.

Definition quiet {A} (p : relay_prog A) : Prop :=
  phase_ok (fun (_ : unit) db db' _ => C db db') (fun _ _ => True) (fun _ => True) tt p.

Lemma quiet_bind {A B} (p : relay_prog A) (k : A -> relay_prog B) :
  quiet p -> (forall a, quiet (k a)) -> quiet (bind p k).
Proof. intros Hp Hk. apply phase_ok_bind; [done|]. intros [] a _. apply Hk. Qed.

Lemma quiet_calls {A} (p : relay_prog A) : calls_ok (fun _ => True) p -> quiet p.
Proof.
  unfold quiet. induction p as [a|X f g IH|r g IH|m]; cbn; try done. intros [_ Hp]. auto.
Qed.

Lemma quiet_call {A} r (k : resp r -> relay_prog A) : (forall x, quiet (k x)) -> quiet (bind (call r) k).
Proof. intros Hk. by split. Qed.
Lemma quiet_op {A} r (k : op_resp r -> relay_prog A) : (forall x, quiet (k x)) -> quiet (bind (op r) k).
Proof. intros Hk. by split. Qed.
Lemma quiet_now {A} (k : Z -> relay_prog A) : (forall x, quiet (k x)) -> quiet (bind current_timestamp_ms k).
Proof. intros Hk. split; [done|]. intros x. apply Hk. Qed.

(** A step on the tables other than the database. *)
Lemma quiet_local {X A} (f : Relay -> X * Relay) (k : X -> relay_prog A) :
  (forall s, swap_db (f s).2 = swap_db s) -> (forall x, quiet (k x)) -> quiet (bind (local f) k).
Proof. intros Hf Hk s Hs. cbn. rewrite Hf. split; [done|]. exists tt. split; [done|]. apply Hk. Qed.

Lemma quiet_read {X A} (f : SwapDb.t -> X) (k : X -> relay_prog A) :
  (forall x, quiet (k x)) -> quiet (bind (db_read f) k).
Proof. intros Hk. apply phase_db_read; [done|]. intros db _. apply Hk. Qed.

Lemma quiet_db_op {X A} (f : SwapDb.t -> X * SwapDb.t) (k : X -> relay_prog A) :
  (forall db, db_wf db -> db_wf (f db).2 /\ C db (f db).2) -> (forall x, quiet (k x)) ->
  quiet (bind (db_op f) k).
Proof.
  intros Hf Hk. apply phase_db_op. intros db Hdb. destruct (Hf db Hdb). split; [done|].
  exists tt. split; [done|]. apply Hk.
Qed.

Lemma quiet_write {A} (f : SwapDb.t -> SwapDb.t) (k : unit -> relay_prog A) :
  (forall db, db_wf db -> db_wf (f db) /\ C db (f db)) -> quiet (k tt) -> quiet (bind (db_write f) k).
Proof. intros Hf Hk. by apply phase_db_write with (ph' := tt). Qed.

Lemma quiet_write_ret (f : SwapDb.t -> SwapDb.t) :
  (forall db, db_wf db -> db_wf (f db) /\ C db (f db)) -> quiet (db_write f).
Proof. intros Hf. by apply phase_db_write_ret with (ph' := tt). Qed.

Lemma quiet_submit {T A} ctx n d (body : relay_prog (result T CardanoError))
  (k : result T string -> relay_prog A) :
  calls_ok (fun _ => True) body -> (forall x, quiet (k x)) ->
  quiet (bind (submit_contract_tx_with_retry ctx n d body) k).
Proof. intros Hb Hk. apply quiet_bind; [|done]. by apply quiet_calls, calls_ok_submit. Qed.

Lemma quiet_query {T A} n d ctx (f : ChainState.t -> option T) (k : result T string -> relay_prog A) :
  (forall x, quiet (k x)) -> quiet (bind (query_state_with_retry n d ctx f) k).
Proof. intros Hk. apply quiet_bind; [|done]. by apply quiet_calls, calls_ok_query. Qed.

Lemma quiet_for_each {A} (xs : list A) (body : A -> relay_prog unit) :
  (forall x, quiet (body x)) -> quiet (for_each xs body).
Proof. intros Hb. induction xs as [|x xs IH]; [done|]. by apply quiet_bind. Qed.
End quiet.

(** A program that does not touch the database. *)
Definition leaves_db (s s' : Relay) : Prop := swap_db s' = swap_db s.

Lemma quiet_steps `{Externals} C `{!Reflexive C} R {A} (p : relay_prog A) :
  steps_ok leaves_db R p -> quiet C p.
Proof.
  unfold quiet. induction p as [a|X f g IH|r g IH|m]; cbn; try done.
  - intros Hp s Hs. destruct (Hp s) as [Hdb Hk]. rewrite Hdb. split; [done|]. exists tt. eauto.
  - intros [_ Hp]. auto.
Qed.

(** Weakening the relation. *)
Lemma quiet_mono `{Externals} (C C' : SwapDb.t -> SwapDb.t -> Prop) {A} (p : relay_prog A) :
  (forall db db', C db db' -> C' db db') -> quiet C p -> quiet C' p.
Proof.
  intros HC. unfold quiet. induction p as [a|X f g IH|r g IH|m]; cbn; try done.
  - intros Hp s Hs. destruct (Hp s Hs) as (Hw & [] & Hst & Hk). split; [done|]. eauto.
  - intros [_ Hp]. auto.
Qed.

(** A run of such a program keeps the database well formed. *)
Lemma quiet_exec_wf `{Externals} {W} `{!Env W} C {A} (p : relay_prog A) s (w : W) :
  quiet C p -> db_wf (swap_db s) -> db_wf (swap_db (fin (exec p s w))).
Proof.
  unfold quiet, exec. revert s w. induction p as [a|X f g IH|r g IH|m]; intros s w Hp Hs; cbn in *; try done.
  - destruct (Hp s Hs) as (Hw & [] & _ & Hk). by apply IH.
  - destruct Hp as [_ Hp]. by apply IH.
Qed.

(** Step through a handler. *)
Ltac quiet_step :=
  lazymatch goal with
  | |- quiet _ (Ret _) => done
  | |- quiet _ (Panic _) => done
  | |- quiet _ (call _) => by split
  | |- quiet _ (spawn _) => by split
  | |- quiet _ (bind_try _ _) => unfold bind_try
  | |- quiet _ (bind (Ret _) _) => cbn [bind]
  | |- quiet _ (bind (bind_try _ _) _) => unfold bind_try
  | |- quiet _ (bind (db_read _) _) => apply quiet_read; [apply _|intros ?]
  | |- quiet _ (bind (db_op _) _) =>
      apply quiet_db_op; [intros ? ?; split; [solve [eauto with swapdb]|try statement]|intros ?]
  | |- quiet _ (bind (db_write _) _) =>
      apply quiet_write; [intros ? ?; split; [solve [eauto with swapdb]|try statement]|]
  | |- quiet _ (db_write _) => apply quiet_write_ret; intros ? ?; split; [solve [eauto with swapdb]|try statement]
  | |- quiet _ (bind (set_error _ _ _) _) => unfold set_error at 1
  | |- quiet _ (set_error _ _ _) => unfold set_error
  | |- quiet _ (bind (op _) _) => apply quiet_op; intros ?
  | |- quiet _ (bind (call _) _) => apply quiet_call; intros ?
  | |- quiet _ (bind current_timestamp_ms _) => apply quiet_now; intros ?
  | |- quiet _ (bind (local _) _) => apply quiet_local; [apply _|try done|intros ?]
  | |- quiet _ (bind (submit_contract_tx_with_retry _ _ _ _) _) =>
      apply quiet_submit; [|intros ?]
  | |- quiet _ (bind (query_state_with_retry _ _ _ _) _) => apply quiet_query; intros ?
  | |- quiet _ (for_each _ _) => apply quiet_for_each; intros ?
  | |- quiet _ (match ?x with _ => _ end) => destruct x
  | |- quiet _ (bind (match ?x with _ => _ end) _) => destruct x
  | |- quiet _ (bind (bind _ _) _) => apply quiet_bind; [|intros ?]
  end.
Ltac quiet := repeat quiet_step.

(** Check that a retried closure only makes requests. *)
Ltac calls :=
  cbn; repeat first [done | split | let x := fresh "x" in intros x; cbn in x;
    first [destruct x as [[? ?]|?] | destruct x as [?|?] | idtac]; cbn].

(** ** The handlers *)

(** Handlers whose steps are in every tame relation. *)
Section tame.
Context `{Externals} (C : SwapDb.t -> SwapDb.t -> Prop) `{!Tame C}.

Lemma quiet_fulfill_swap h : quiet C (fulfill_swap h).
Proof. unfold fulfill_swap, fulfill_owned. quiet. calls. Qed.

Lemma quiet_complete_offramp h pre : quiet C (complete_offramp h pre).
Proof. unfold complete_offramp, complete_owned. quiet. calls. Qed.

Lemma quiet_cancel m : quiet C (cancel_offramp_on_chain m).
Proof. unfold cancel_offramp_on_chain. quiet. Qed.

Lemma quiet_payment_failed h : quiet C (handle_offramp_payment_failed h).
Proof.
  unfold handle_offramp_payment_failed. quiet. apply quiet_bind; [|intros ?].
  - unfold refund_message. quiet.
  - quiet. apply quiet_cancel.
Qed.

Lemma quiet_swaps_tick : quiet C monitor_expired_swaps_tick.
Proof. unfold monitor_expired_swaps_tick, cancel_expired_swap. quiet. Qed.

Lemma quiet_offramps_tick : quiet C monitor_expired_offramps_tick.
Proof. unfold monitor_expired_offramps_tick. quiet. apply quiet_cancel. Qed.

Lemma quiet_recover_swaps : quiet C recover_fulfilling_swaps.
Proof. unfold recover_fulfilling_swaps, recover_swap. quiet. Qed.
Lemma quiet_event cardano e : quiet C (handle_ldk_events cardano e).
Proof.
  destruct e; cbn [handle_ldk_events];
    unfold on_funding_generation_ready, on_payment_claimable, on_payment_claimed, on_payment_sent,
      on_open_channel_request, on_payment_failed, on_spendable_outputs, write_inbound, write_outbound;
    quiet.
Qed.

Lemma quiet_pay_offramp id m : quiet C (pay_offramp id m).
Proof.
  unfold pay_offramp, send_payment, outbound_insert, outbound_fail, write_outbound. quiet.
  intros s. by destruct (outbound_payments s !! _).
Qed.

Lemma quiet_truncate {A} n (p : relay_prog A) :
  calls_ok (fun _ => True) p -> calls_ok (fun _ => True) (truncate n p).
Proof.
  revert n. induction p as [a|X f g IH|r g IH|m]; intros n Hp; cbn in *; try done.
  destruct Hp as [_ Hp]. destruct n; cbn; auto.
Qed.

Lemma quiet_pool_tx what amount fut :
  calls_ok (fun _ => True) fut -> quiet C (pool_tx what amount fut).
Proof.
  intros Hf. apply quiet_calls, calls_ok_bind.
  - apply calls_ok_call; [done|]. intros [n|]; [by apply quiet_truncate|].
    apply calls_ok_bind; [done|]. by intros a.
  - intros [[tx|e]|]; cbn; auto.
Qed.

Lemma quiet_pool_deposit st headers amount : quiet C (handle_pool_deposit st headers amount).
Proof. unfold handle_pool_deposit. quiet. apply quiet_pool_tx. calls. Qed.
Lemma quiet_pool_withdraw st headers amount : quiet C (handle_pool_withdraw st headers amount).
Proof. unfold handle_pool_withdraw. quiet. apply quiet_pool_tx. calls. Qed.

(** Peers and the shell leave the database alone. *)
Lemma quiet_connection_needed node_id addresses : quiet C (connection_needed node_id addresses).
Proof. apply quiet_calls, calls_connection_needed. Qed.
Lemma quiet_reconnect : quiet C reconnect_peers_tick.
Proof. apply quiet_calls, calls_reconnect_tick. Qed.
Lemma quiet_announce name addresses : quiet C (broadcast_node_announcement_tick name addresses).
Proof. unfold broadcast_node_announcement_tick. quiet. Qed.
Lemma quiet_shell cardano inp : quiet C (poll_for_user_input cardano inp).
Proof.
  eapply (quiet_steps _ (typed cardano inp)), steps_ok_mono;
    [|done|by apply read_command_typed]. by intros s s' [].
Qed.
End tame.

Section handlers.
Context `{Externals} (st : ApiState).

Lemma quiet_request_swap {A} a addr e (k : _ -> relay_prog A) :
  (forall x, quiet calm (k x)) -> quiet calm (bind (request_swap a addr e) k).
Proof.
  intros Hk. apply quiet_bind; [|done]. unfold request_swap, bind_try. cbn [bind].
  quiet. calls.
Qed.

Lemma quiet_rate_check C `{!Reflexive C} {A} ip (k : bool -> relay_prog A) :
  (forall x, quiet C (k x)) -> quiet C (bind (rate_check ip) k).
Proof.
  intros Hk. apply quiet_bind; [|done]. unfold rate_check. apply quiet_call. intros now s Hs. cbn.
  by destruct (check _ _ _); cbn; split; [|exists tt].
Qed.

Lemma quiet_swap_request ip req : quiet calm (handle_swap_request st ip req).
Proof.
  assert (quiet calm (create_swap st (sr_amount_cbtc req) (sr_cardano_address req))) as Hc.
  { unfold create_swap. apply quiet_request_swap. intros r. quiet. apply quiet_bind.
    - unfold create_invoice_for_swap, inbound_insert. quiet.
    - intros b. quiet. unfold store_swap_mapping, db_expect. quiet. }
  unfold handle_swap_request. apply quiet_rate_check; [apply _|]. intros ok. quiet; exact Hc.
Qed.

Lemma quiet_offramp_request ip req : quiet calm (handle_offramp_request st ip req).
Proof.
  unfold handle_offramp_request. apply quiet_rate_check; [apply _|]. intros ok. quiet.
  apply quiet_bind; [|intros ?; quiet].
  unfold request_offramp, db_expect. quiet; calls.
Qed.
End handlers.

(** ** The deposit request and the recovery of offramps *)

(** What a deposit request for [id] does: it moves no other offramp. *)
Definition deposits (id : Z) (db db' : SwapDb.t) : Prop :=
  lasts db db' /\ forall id', id' <> id -> settles id' db db'.

(** What the recovery of offramps does: an interrupted verification may be reset. *)
Definition resets (id : Z) (db db' : SwapDb.t) : Prop :=
  (offramp_st id db' = Some OfframpStatus.AwaitingDeposit ->
     offramp_st id db <> Some OfframpStatus.PayingLightning /\
     forall s, late s -> offramp_st id db <> Some s) /\
  (offramp_st id db' = Some OfframpStatus.PendingVerification ->
     offramp_st id db = Some OfframpStatus.PendingVerification) /\
  (offramp_st id db' = None -> offramp_st id db = None).

Definition recovers (db db' : SwapDb.t) : Prop :=
  lasts db db' /\ forall id, resets id db db'.

Lemma settles_resets id db db' : settles id db db' -> resets id db db'.
Proof.
  intros (H1 & H2 & _ & H4). split_and!; [|done|done]. intros Ha%H1.
  destruct Ha as [->| ->]; (split; [done|]); intros s [->|[->| ->]]; done.
Qed.

Lemma calm_recovers db db' : calm db db' -> recovers db db'.
Proof. intros [H1 H2]. split; [done|]. intros id. by apply settles_resets. Qed.

Lemma calm_deposits id db db' : calm db db' -> deposits id db db'.
Proof. intros [H1 H2]. by split. Qed.

Lemma deposits_other id db db' :
  lasts db db' ->
  (forall id', id' <> id -> SwapDb.get_offramp_by_id id' db' = SwapDb.get_offramp_by_id id' db) ->
  deposits id db db'.
Proof. intros Hl Ho. split; [done|]. intros id' Hne. by apply settles_same, Ho. Qed.

Lemma deposits_update id s pre dep err db :
  deposits id db (SwapDb.update_offramp_status id s pre dep err db).
Proof.
  apply deposits_other; [apply lasts_update_offramp|]. intros id' Hne.
  by rewrite get_update_offramp_status, (proj2 (Z.eqb_neq _ _) (not_eq_sym Hne)).
Qed.

Lemma deposits_transition id e n db :
  db_wf db -> deposits id db (SwapDb.transition_offramp_status id e n db).2.
Proof.
  intros Hwf. rewrite transition_offramp_status_spec by done.
  case_decide; apply deposits_other; cbn; auto using lasts_set_offramp, lasts_refl. intros id' Hne.
  cbn. by rewrite get_set_offramp_status, (proj2 (Z.eqb_neq _ _) (not_eq_sym Hne)).
Qed.

Lemma deposits_transition_cbtc id tx e n db :
  db_wf db -> deposits id db (SwapDb.transition_offramp_with_cbtc_tx id tx e n db).2.
Proof.
  intros Hwf. rewrite transition_offramp_with_cbtc_tx_spec by done.
  case_decide; apply deposits_other; cbn; auto using lasts_set_cbtc, lasts_refl. intros id' Hne.
  cbn. by rewrite get_set_offramp_cbtc_status, (proj2 (Z.eqb_neq _ _) (not_eq_sym Hne)).
Qed.

Lemma recovers_verifying id db :
  db_wf db -> recovers db (SwapDb.transition_offramp_status id OfframpStatus.PendingVerification
                             OfframpStatus.AwaitingDeposit db).2.
Proof.
  intros Hwf. rewrite transition_offramp_status_spec by done.
  case_decide as Hst; [|apply calm_recovers, calm_refl]. split; [apply lasts_set_offramp|].
  intros id'. unfold resets, offramp_st. cbn. rewrite get_set_offramp_status.
  destruct (Z.eqb_spec id id') as [->|].
  - destruct (SwapDb.get_offramp_by_id id' db) as [m|] eqn:E; cbn in *; simplify_eq.
    split_and!; [|done|done]. intros _. rewrite Hst. split; [done|]. by intros s [->|[->| ->]].
  - fold (offramp_st id' db). apply settles_resets, settles_refl.
Qed.

#[global] Instance deposits_reflexive id : Reflexive (deposits id).
Proof. intros db. apply calm_deposits, calm_refl. Qed.
#[global] Instance recovers_reflexive : Reflexive recovers.
Proof. intros db. apply calm_recovers, calm_refl. Qed.

#[export] Hint Resolve deposits_update deposits_transition deposits_transition_cbtc
  recovers_verifying : calm.
#[export] Hint Resolve calm_deposits calm_recovers | 5 : calm.

Section deposit.
Context `{Externals}.

Lemma quiet_process_deposit id tx : quiet (deposits id) (process_offramp_deposit id tx).
Proof.
  unfold process_offramp_deposit. quiet.
  eapply quiet_mono; [apply calm_deposits|apply (quiet_pay_offramp calm)].
Qed.

Lemma quiet_deposit ip req : quiet (deposits (od_offramp_id req)) (handle_offramp_deposit ip req).
Proof.
  unfold handle_offramp_deposit. apply quiet_rate_check; [apply _|]. intros ok. quiet.
  apply quiet_bind; [apply quiet_process_deposit|intros ?; quiet].
Qed.

Lemma quiet_recover_offramps : quiet recovers recover_depositing_offramps.
Proof.
  unfold recover_depositing_offramps, recover_verifying, recover_paying, recover_depositing. quiet.
  apply quiet_bind; [quiet|intros _]. quiet. apply quiet_bind; [quiet|intros _]. quiet.
Qed.
End deposit.

Section tasks.
Context `{Externals} (st : ApiState).

Lemma quiet_ignore C {A} (p : relay_prog A) : quiet C p -> quiet C (ignore p).
Proof. intros Hp. by apply quiet_bind. Qed.

(** What each task does to the database. *)
Definition effect (t : Task) : SwapDb.t -> SwapDb.t -> Prop :=
  match t with
  | TDeposit _ req => deposits (od_offramp_id req)
  | TRecoverOfframps => recovers
  | _ => calm
  end.

Lemma task_effect t : quiet (effect t) (task_prog st t).
Proof.
  destruct t; cbn [task_prog effect]; try apply quiet_ignore;
    [apply quiet_swap_request|apply quiet_offramp_request|apply quiet_deposit|apply quiet_event
    |apply quiet_fulfill_swap|apply quiet_complete_offramp|apply quiet_payment_failed
    |apply quiet_connection_needed|apply quiet_reconnect|apply quiet_announce|apply quiet_shell
    |apply quiet_pool_deposit|apply quiet_pool_withdraw
    |apply quiet_swaps_tick|apply quiet_offramps_tick|apply quiet_recover_swaps
    |apply quiet_recover_offramps]; apply _.
Qed.

(** A program whose steps keep the phase. *)
Lemma phase_of_quiet {Ph A} (pstep : Ph -> SwapDb.t -> SwapDb.t -> Ph -> Prop) preq pend a C
  (p : relay_prog A) :
  quiet C p -> (forall db db', C db db' -> pstep a db db' a) -> (forall r, preq a r) -> pend a ->
  phase_ok pstep preq pend a p.
Proof.
  intros Hq Hs Hr He. unfold quiet in Hq. induction p as [x|X f g IH|r g IH|m]; cbn in *; try done.
  - intros s Hw. destruct (Hq s Hw) as (Hw' & [] & Hst & Hk). split; [done|]. eauto.
  - destruct Hq as [_ Hq]. auto.
Qed.
End tasks.

(** ** At most one fulfilment of a swap *)

Section fulfill_once.
Context `{Externals} (st : ApiState) (h : string).

Definition is_op (r : Req) : Prop := match r with ROp _ => True | _ => False end.

Definition win_step (a : bool) (db db' : SwapDb.t) (b : bool) : Prop :=
  (closed h db -> closed h db') /\
  (b = a \/ (a = false /\ b = true /\ ~ closed h db /\ closed h db')).

Definition one_winner (ph : nat -> bool) (db : SwapDb.t) : Prop :=
  (forall i j, ph i = true -> ph j = true -> i = j) /\ (forall i, ph i = true -> closed h db).

Definition fulfills (t : Task) : bool :=
  match t with TFulfillSwap h' => String.eqb h' h | _ => false end.

Lemma fulfill_phase :
  phase_ok win_step (fun a r => is_op r -> a = true) (fun _ => True) false (fulfill_swap h).
Proof.
  unfold fulfill_swap. apply phase_db_read; [unfold win_step; auto|]. intros db0 _.
  destruct (SwapDb.get_by_payment_hash h db0) as [m|]; [|done].
  apply phase_db_op. intros db Hwf. rewrite transition_status_spec by done.
  case_decide as Hst; cbn [fst snd negb].
  - split; [auto with swapdb|]. exists true.
    assert (closed h (SwapDb.update_status h SwapStatus.Fulfilling None db)) as Hcl.
    { unfold closed. rewrite get_update_status, String.eqb_refl.
      destruct (SwapDb.get_by_payment_hash h db); [|done]. by eexists. }
    split.
    + split; [done|]. right. split_and!; [done|done| |done].
      intros (x & Hx & Hne). rewrite Hx in Hst. cbn in Hst. congruence.
    + apply (phase_of_quiet _ _ _ _ calm); [|unfold win_step, calm, lasts; naive_solver|done|done].
      unfold fulfill_owned. quiet. calls.
  - split; [done|]. exists false. split; [|done]. unfold win_step. auto.
Qed.

Lemma fulfill_laws :
  phase_laws st false win_step (fun a r => is_op r -> a = true) (fun _ => True)
    (fun a => a = true) id fulfills (fun _ db db' => closed h db -> closed h db') one_winner is_op.
Proof.
  split; try done.
  - intros t Ht. destruct t; try done. cbn in Ht. apply String.eqb_eq in Ht as ->.
    apply fulfill_phase.
  - intros t _. unfold ord_ok. change (quiet (fun db db' => closed h db -> closed h db') (task_prog st t)).
    eapply quiet_mono; [|apply task_effect]. intros db db' He.
    assert (lasts db db') as Hc by (destruct t; apply He). apply Hc.
  - intros ph i db db' b _ [H1 H2] [Hc Hb]. destruct Hb as [->|(Ha & -> & Ho & Hc')].
    + assert (forall j, upd i (ph i) ph j = ph j) as E by (intros j; unfold upd; by case_decide; subst).
      split; [intros j k; rewrite !E; auto|]. intros j. rewrite E. eauto.
    + assert (forall j, ph j = false) as Hall.
      { intros j. destruct (ph j) eqn:Ej; [|done]. by destruct Ho; eapply H2. }
      split; [|done]. intros j k. unfold upd. repeat case_decide; rewrite ?Hall; congruence.
  - intros t ph db db' _ [H1 H2] _ Ho. split; [done|]. eauto.
  - unfold win_step. naive_solver.
  - intros t _. by left.
Qed.

(** C1: in every interleaving of handlers, restarts and recoveries included, at most
    one of the [fulfill_swap] tasks started for a payment hash ever makes a request
    to the Cardano operator: the others lose the compare-and-set. *)
Theorem fulfill_at_most_once P i j p q :
  reachable st P ->
  tasks P !! i = Some (TFulfillSwap h, p) -> tasks P !! j = Some (TFulfillSwap h, q) ->
  did P i is_op -> did P j is_op -> i = j.
Proof.
  intros HP Hi Hj (e & He & Qe) (e' & He' & Qe').
  destruct (reachable_inv _ _ _ _ _ _ _ _ _ _ _ fulfill_laws P HP) as [ph Hinv].
  destruct (inv_cond _ _ _ _ _ _ _ _ _ _ _ Hinv) as [H1 _].
  destruct (inv_trace _ _ _ _ _ _ _ _ _ _ _ Hinv _ _ He) as (t & p' & Ht & Hw).
  destruct (inv_trace _ _ _ _ _ _ _ _ _ _ _ Hinv _ _ He') as (t' & q' & Ht' & Hw').
  simplify_eq. cbn in Hw, Hw'. rewrite String.eqb_refl in Hw, Hw'. auto.
Qed.
End fulfill_once.

(** ** At most one Lightning payment for an offramp *)

Section pay_once.
Context `{Externals} (st : ApiState) (id : Z).

Inductive Phase := Idle | Verifying | Paying | Over.

Definition is_pay (r : Req) : Prop := match r with RPayBolt11 _ _ _ => True | _ => False end.

(** A deposit request: it takes the offramp from [AwaitingDeposit], may then pay it
    from [PendingVerification], or give it back. *)
Definition deposit_step (a : Phase) (db db' : SwapDb.t) (b : Phase) : Prop :=
  (settles id db db' /\ b = a) \/
  (a = Idle /\ b = Verifying /\ offramp_st id db = Some OfframpStatus.AwaitingDeposit /\
     offramp_st id db' = Some OfframpStatus.PendingVerification) \/
  (a = Verifying /\ b = Over) \/
  (a = Verifying /\ b = Paying /\ offramp_st id db = Some OfframpStatus.PendingVerification /\
     offramp_st id db' = Some OfframpStatus.PayingLightning).

Definition active (a : Phase) : Prop := a = Verifying \/ a = Paying.

(** One request at most owns the offramp, and its status says so. *)
Definition one_owner (ph : nat -> Phase) (db : SwapDb.t) : Prop :=
  (forall i j, active (ph i) -> active (ph j) -> i = j) /\
  (forall i, ph i = Verifying ->
     offramp_st id db <> None /\ offramp_st id db <> Some OfframpStatus.AwaitingDeposit /\
     offramp_st id db <> Some OfframpStatus.PayingLightning) /\
  (forall i, ph i = Paying ->
     offramp_st id db <> None /\ offramp_st id db <> Some OfframpStatus.AwaitingDeposit /\
     offramp_st id db <> Some OfframpStatus.PendingVerification).

Definition deposits_for (t : Task) : bool :=
  match t with TDeposit _ req => od_offramp_id req =? id | _ => false end.

Definition kill_phase (a : Phase) : Phase := match a with Verifying => Over | a => a end.

Abbreviation dep_ok := (phase_ok deposit_step (fun a r => is_pay r -> a = Paying) (fun a => a <> Verifying)).

Lemma deposit_keep a db : deposit_step a db db a.
Proof. left. split; [apply settles_refl|done]. Qed.

Lemma process_phase tx : dep_ok Idle (process_offramp_deposit id tx).
Proof.
  unfold process_offramp_deposit. apply phase_db_read; [intros; apply deposit_keep|]. intros db0 _.
  destruct (SwapDb.get_offramp_by_id id db0) as [m|]; [|done].
  apply phase_db_read; [intros; apply deposit_keep|]. intros db1 _.
  destruct (claimed_by_other id tx db1); [done|]. apply phase_db_op. intros db Hwf.
  rewrite transition_offramp_status_spec by done. case_decide as Hst; cbn [fst snd negb].
  2: { split; [done|]. exists Idle. split; [apply deposit_keep|done]. }
  split; [auto with swapdb|]. exists Verifying. split.
  { right. left. split_and!; [done|done|done|]. unfold offramp_st.
    rewrite get_set_offramp_status, Z.eqb_refl. by destruct (SwapDb.get_offramp_by_id id db). }
  split; [done|]. cbn beta. intros [[]|e].
  - apply phase_db_op. clear Hst Hwf db. intros db Hwf.
    rewrite transition_offramp_with_cbtc_tx_spec by done. case_decide as Hst; cbn [fst snd negb].
    + split; [auto with swapdb|]. exists Paying. split.
      * right. right. right. split_and!; [done|done|done|]. unfold offramp_st.
        rewrite get_set_offramp_cbtc_status, Z.eqb_refl. by destruct (SwapDb.get_offramp_by_id id db).
      * apply (phase_of_quiet _ _ _ _ calm); [apply (quiet_pay_offramp calm)| |done|done].
        intros db1' db2' [_ Hs]. left. split; [apply Hs|done].
    + split; [done|]. exists Over. split; [|done]. right. right. by left.
  - apply phase_db_write with (ph' := Over); [|done]. intros db' Hwf'. split; [auto with swapdb|].
    right. right. by left.
  - apply phase_db_write with (ph' := Over); [|done]. intros db' Hwf'. split; [auto with swapdb|].
    right. right. by left.
Qed.

Lemma rate_check_phase {A} ip (k : bool -> relay_prog A) :
  (forall ok, dep_ok Idle (k ok)) -> dep_ok Idle (bind (rate_check ip) k).
Proof.
  intros Hk. cbn. split; [done|]. intros now s Hs. destruct (check _ _ _) as [ok lim].
  split; [done|]. exists Idle. split; [apply deposit_keep|apply Hk].
Qed.

Lemma deposit_phase ip req :
  od_offramp_id req = id -> dep_ok Idle (ignore (handle_offramp_deposit ip req)).
Proof.
  intros Hid. unfold ignore. apply phase_ok_bind; [|done].
  unfold handle_offramp_deposit. apply rate_check_phase. intros ok.
  destruct (negb ok); [done|]. destruct (_ <=? 0); [done|]. destruct (_ || _); [done|].
  apply phase_ok_bind; [rewrite Hid; apply process_phase|]. intros ph [[]|e] Hph; [|done].
  apply phase_db_read; [intros; apply deposit_keep|]. intros db _.
  by destruct (SwapDb.get_offramp_by_id _ db).
Qed.

Lemma one_owner_settles ph db db' : settles id db db' -> one_owner ph db -> one_owner ph db'.
Proof. intros (S1 & S2 & S3 & S4) (H1 & H2 & H3). split_and!; [done|..]; naive_solver. Qed.

Lemma one_owner_resets ph db db' :
  (forall i, ph i <> Verifying) -> resets id db db' -> one_owner ph db -> one_owner ph db'.
Proof.
  intros Hv (R1 & R2 & R3) (H1 & H2 & H3). split_and!; [done|by intros i ?%Hv|].
  intros i Hi. destruct (H3 i Hi) as (E1 & E2 & E3). split_and!; [naive_solver| |naive_solver].
  intros [N1 N2]%R1. destruct (offramp_st id db) as [[]|]; try done;
    eapply N2; try done; unfold late; auto.
Qed.

(** Owners do not overlap: the offramp changes hands only when nobody owns it. *)
Lemma one_owner_step ph i db db' b :
  one_owner ph db -> deposit_step (ph i) db db' b -> one_owner (upd i b ph) db'.
Proof.
  intros Ho [[Hs ->]|Hstep].
  { assert (forall j, upd i (ph i) ph j = ph j) as E by (intros j; unfold upd; by case_decide; subst).
    apply (one_owner_settles _ _ _ Hs) in Ho as (H1 & H2 & H3).
    split_and!; [intros j k; rewrite !E; auto|intros j; rewrite E; eauto|intros j; rewrite E; eauto]. }
  destruct Ho as (H1 & H2 & H3).
  assert (forall j, j <> i -> ~ active (ph j)) as Hother.
  { intros j Hj Ha. destruct Hstep as [(Hi & -> & E & E')|[(Hi & _)|(Hi & _)]].
    - destruct Ha as [Ha|Ha]; [destruct (H2 j Ha)|destruct (H3 j Ha)]; naive_solver.
    - apply Hj, H1; [done|by left].
    - apply Hj, H1; [done|by left]. }
  unfold upd. split_and!.
  - intros j k. case_decide; case_decide; subst; try done.
    + intros _ Hk. by destruct (Hother k).
    + intros Hj. by destruct (Hother j).
    + intros Hj. by destruct (Hother j).
  - intros j. case_decide as E; [|intros Hj; by destruct (Hother j); [|left]]. intros ->.
    destruct Hstep as [(_ & _ & _ & E')|[(_ & ?)|(_ & ? & _)]]; [|done|done].
    by rewrite E'.
  - intros j. case_decide as E; [|intros Hj; by destruct (Hother j); [|right]]. intros ->.
    destruct Hstep as [(_ & ? & _)|[(_ & ?)|(_ & _ & _ & E')]]; [done|done|].
    by rewrite E'.
Qed.

(** What the other tasks do to the offramp. *)
Definition other_step (t : Task) (db db' : SwapDb.t) : Prop :=
  match t with TRecoverOfframps => resets id db db' | _ => settles id db db' end.

Lemma deposit_laws :
  phase_laws st Idle deposit_step (fun a r => is_pay r -> a = Paying) (fun a => a <> Verifying)
    (fun a => a = Paying) kill_phase deposits_for other_step one_owner is_pay.
Proof.
  split; try done.
  - intros db Hdb. split_and!; [by intros i j [?|?]|done|done].
  - intros t Ht. destruct t; try done. cbn in Ht. by apply deposit_phase, Z.eqb_eq.
  - intros t Ht. change (quiet (other_step t) (task_prog st t)).
    eapply quiet_mono; [|apply task_effect]. intros db db'.
    destruct t; cbn in *; try (intros [_ He]; apply He). lia.
  - intros ph i db db' b _. apply one_owner_step.
  - intros t ph db db' _ Ho Hr Hs. destruct t; cbn in Hs;
      try (by apply (one_owner_settles _ _ _ Hs)).
    by apply (one_owner_resets _ _ _ (Hr eq_refl) Hs).
  - intros ph db (H1 & H2 & H3). split_and!.
    + intros i j Hi Hj. apply H1; unfold active, kill_phase in *; destruct (ph i), (ph j); naive_solver.
    + intros i. unfold kill_phase. by destruct (ph i).
    + intros i Hi. apply (H3 i). unfold kill_phase in Hi. by destruct (ph i).
  - by intros [].
  - unfold deposit_step. naive_solver.
  - by intros a ->.
  - intros t Ht. right. destruct t; try done. by eexists _, _.
Qed.

(** C2: in every interleaving of handlers, restarts and recoveries included, at most
    one of the deposit requests for an offramp ever asks LDK for a payment: the
    deposit that pays had taken the offramp from [AwaitingDeposit] alone, and from
    then on the offramp never returns to that status. *)
Theorem pay_at_most_once P i j ip ip' req req' p q :
  reachable st P ->
  tasks P !! i = Some (TDeposit ip req, p) -> tasks P !! j = Some (TDeposit ip' req', q) ->
  od_offramp_id req = id -> od_offramp_id req' = id ->
  did P i is_pay -> did P j is_pay -> i = j.
Proof.
  intros HP Hi Hj Ei Ej (e & He & Qe) (e' & He' & Qe').
  destruct (reachable_inv _ _ _ _ _ _ _ _ _ _ _ deposit_laws P HP) as [ph Hinv].
  destruct (inv_cond _ _ _ _ _ _ _ _ _ _ _ Hinv) as [H1 _].
  destruct (inv_trace _ _ _ _ _ _ _ _ _ _ _ Hinv _ _ He) as (t & p' & Ht & Hw).
  destruct (inv_trace _ _ _ _ _ _ _ _ _ _ _ Hinv _ _ He') as (t' & q' & Ht' & Hw').
  rewrite Hi in Ht. rewrite Hj in Ht'. injection Ht as <- <-. injection Ht' as <- <-.
  cbn in Hw, Hw'. rewrite Ei, Z.eqb_refl in Hw. rewrite Ej, Z.eqb_refl in Hw'.
  apply H1; right; auto.
Qed.
End pay_once.
