(* ===== verification/Persistence.v ===== *)
(** * The database under all handlers

    An invariant of every interleaving: the database stays well formed, its rows are
    permanent, and what a row was created with does not change. *)

From stdpp Require Import relations.
From S2P Require Import Prelude Effects Mapping MappingFacts MappingSpec Types RateLimiter World.
From S2P Require Import Helpers Rows CardanoSwap Payments CardanoOfframp Recovery Background Api.
From S2P Require Import Peers Shell ShellSafety Events Pool PoolSafety.

(** ** Pools whose tasks stay within their effects *)

Section within.
Context `{Externals} (st : ApiState) (E : Task -> SwapDb.t -> SwapDb.t -> Prop) (I : SwapDb.t -> SwapDb.t -> Prop).
Context `{!PreOrder I} (task_within : forall t, quiet (E t) (task_prog st t))
  (within_I : forall t db db', E t db db' -> I db db').

(** The invariant: a well-formed database, and tasks that stay within their effect. *)
Definition settled (P : pool) : Prop :=
  db_wf (swap_db (shared P)) /\
  forall i t p, tasks P !! i = Some (t, p) -> quiet (E t) p.

Lemma settled_tasks (ts : list (Task * relay_prog unit)) t :
  (forall i t p, ts !! i = Some (t, p) -> quiet (E t) p) ->
  forall i t' p, (ts ++ [(t, task_prog st t)]) !! i = Some (t', p) -> quiet (E t') p.
Proof.
  intros Hts i t' p [[_ Hi]|[_ [= <- <-]]]%lookup_snoc_Some; [eauto|]. apply task_within.
Qed.

Lemma settled_insert (ts : list (Task * relay_prog unit)) i t p :
  (forall j t p, ts !! j = Some (t, p) -> quiet (E t) p) -> quiet (E t) p ->
  forall j t' p', <[i := (t, p)]> ts !! j = Some (t', p') -> quiet (E t') p'.
Proof.
  intros Hts Hp j t' p'. rewrite list_lookup_insert. case_decide; [|eauto]. by intros [= <- <-].
Qed.

(** One step keeps the invariant and is in the relation all effects are in. *)
Lemma settled_step P P' :
  settled P -> step st P P' -> settled P' /\ I (swap_db (shared P)) (swap_db (shared P')).
Proof.
  intros [Hwf Hts] Hstep. destruct Hstep as [P t Hm|P i t X f k Hi|P i t r k x Hi|P s Hs]; cbn.
  - split; [|done]. split; [done|]. apply settled_tasks, Hts.
  - destruct (Hts _ _ _ Hi _ Hwf) as (Hwf' & [] & He & Hk).
    split; [|by eapply within_I]. split; [done|]. apply (settled_insert _ _ _ _ Hts), Hk.
  - split; [|done]. split; [done|]. cbn. destruct (Hts _ _ _ Hi) as [_ Hk].
    assert (forall j t' p', <[i := (t, k x)]> (tasks P) !! j = Some (t', p') -> quiet (E t') p')
      as Hts' by (apply (settled_insert _ _ _ _ Hts), Hk).
    destruct r; cbn [spawned_tasks]; rewrite ?app_nil_r; try exact Hts'. apply settled_tasks, Hts'.
  - rewrite Hs. split; [|done]. split; [cbn; congruence|]. cbn.
    intros i t p. rewrite list_lookup_fmap. intros ([t' p'] & _ & [= -> ->])%fmap_Some. done.
Qed.

Lemma reachable_settled P : reachable st P -> settled P.
Proof.
  induction 1 as [s Hs|P P' _ IH Hstep]; [done|]. by eapply settled_step.
Qed.

Lemma settled_steps P P' :
  reachable st P -> rtc (step st) P P' ->
  db_wf (swap_db (shared P')) /\ I (swap_db (shared P)) (swap_db (shared P')).
Proof.
  intros HP%reachable_settled Hsteps. induction Hsteps as [P|P P1 P' Hstep _ IH].
  - split; [apply HP|done].
  - destruct (settled_step _ _ HP Hstep) as [HP1 Hl]. destruct (IH HP1) as [Hwf Hl'].
    split; [done|]. by etrans.
Qed.
End within.

(** ** Rows are permanent *)

Section persistence.
Context `{Externals} (st : ApiState).

Lemma effect_lasts t db db' : effect t db db' -> lasts db db'.
Proof. destruct t; cbn; by intros []. Qed.

#[global] Instance lasts_preorder : PreOrder lasts.
Proof.
  split; [exact lasts_refl|]. intros db1 db2 db3 [H1 H2] [H3 H4].
  split; [eauto|by eapply keeps_rows_trans].
Qed.

(** C4: an invariant of every interleaving of handlers, monitors, shell sessions,
    restarts and recoveries: the database is well formed (keys are unique, the status
    texts are those of the enums), no row is ever deleted, the terms of a swap or an
    offramp (hash, invoice, amount, address, expiry, creating transaction) are those it
    was inserted with, and a swap that has left [Pending] never returns to it. *)
Theorem rows_are_permanent P P' :
  reachable st P -> rtc (step st) P P' ->
  db_wf (swap_db (shared P')) /\ lasts (swap_db (shared P)) (swap_db (shared P')).
Proof. apply (settled_steps st effect lasts); [apply task_effect|apply effect_lasts]. Qed.
End persistence.
