(* ===== verification/Gate.v ===== *)
(** * What recovery leaves when other tasks run

    [main.rs] spawns the background processor before it awaits recovery, and binds the API
    only after it: the events that LDK replays, and whatever they spawn, interleave with
    recovery, and deposit requests do not.  [rwp] is a weakest precondition that allows for
    steps of others, in a relation [R], between any two steps of a program. *)

From stdpp Require Import relations.
From S2P Require Import Prelude Effects Mapping MappingFacts MappingSpec Types RateLimiter World.
From S2P Require Import Helpers Rows CardanoSwap Payments CardanoOfframp Recovery Background Api.
From S2P Require Import Peers Shell ShellSafety Events Pool PoolSafety Persistence.
Open Scope prog_scope.

(** ** Weakest preconditions under interference *)

Section rely.
Context `{Externals} (R : SwapDb.t -> SwapDb.t -> Prop) `{!PreOrder R}.

Fixpoint rwp {A} (p : relay_prog A) (db : SwapDb.t) (Q : A -> SwapDb.t -> Prop) : Prop :=
  forall db', db_wf db' -> R db db' ->
  match p with
  | Ret a => Q a db'
  | Local f k => forall s, swap_db s = db' ->
      db_wf (swap_db (f s).2) /\ rwp (k (f s).1) (swap_db (f s).2) Q
  | Call r k => forall x, rwp (k x) db' Q
  | Panic _ => True
  end.

Lemma rwp_rely {A} (p : relay_prog A) db db1 Q : R db db1 -> rwp p db Q -> rwp p db1 Q.
Proof.
  intros HR. destruct p; cbn; intros Hp db' Hw HR'; by apply (Hp db' Hw (transitivity HR HR')).
Qed.

Lemma rwp_intro {A} (p : relay_prog A) db Q :
  (forall db', db_wf db' -> R db db' -> rwp p db' Q) -> rwp p db Q.
Proof. intros Hp. destruct p; cbn in *; intros db' Hw HR; by apply (Hp db' Hw HR db' Hw). Qed.

Lemma rwp_bind {A B} (p : relay_prog A) (f : A -> relay_prog B) db Q :
  rwp p db (fun a db' => rwp (f a) db' Q) -> rwp (bind p f) db Q.
Proof.
  revert db. induction p as [a|X g k IH|r k IH|m]; intros db Hp; cbn in *.
  - by apply rwp_intro.
  - intros db' Hw HR s Hs. destruct (Hp db' Hw HR s Hs). auto.
  - intros db' Hw HR x. apply IH, Hp; done.
  - done.
Qed.

Lemma rwp_mono {A} (p : relay_prog A) db (Q Q' : A -> SwapDb.t -> Prop) :
  (forall a db', Q a db' -> Q' a db') -> rwp p db Q -> rwp p db Q'.
Proof.
  intros HQ. revert db. induction p as [a|X g k IH|r k IH|m]; intros db Hp; cbn in *; try done.
  - eauto.
  - intros db' Hw HR s Hs. destruct (Hp db' Hw HR s Hs). eauto.
  - intros db' Hw HR x. apply IH, Hp; done.
Qed.

Lemma rwp_db_read {X A} (g : SwapDb.t -> X) (k : X -> relay_prog A) db Q :
  (forall db', db_wf db' -> R db db' -> rwp (k (g db')) db' Q) -> rwp (bind (db_read g) k) db Q.
Proof. intros Hk db' Hw HR s <-. split; [done|]. by apply Hk. Qed.

Lemma rwp_db_op {X A} (g : SwapDb.t -> X * SwapDb.t) (k : X -> relay_prog A) db Q :
  (forall db', db_wf db' -> R db db' -> db_wf (g db').2 /\ rwp (k (g db').1) (g db').2 Q) ->
  rwp (bind (db_op g) k) db Q.
Proof.
  intros Hk db' Hw HR s <-. cbn. specialize (Hk (swap_db s) Hw HR).
  by destruct (g (swap_db s)) as [x db1].
Qed.

(** A program whose own steps are in the relation too. *)
Lemma rwp_quiet {A} (p : relay_prog A) db : quiet R p -> rwp p db (fun _ => R db).
Proof.
  assert (forall db0, R db0 db -> quiet R p -> rwp p db (fun _ => R db0)) as Hgen; [|by apply Hgen].
  revert db. unfold quiet. induction p as [a|X g k IH|r k IH|m]; intros db db0 H0 Hp; cbn in *; try done.
  - intros db' Hw HR. by etrans.
  - intros db' Hw HR s <-. destruct (Hp s Hw) as (Hw' & [] & HC & Hk). split; [done|].
    apply IH; [|done]. etrans; [exact H0|]. by etrans.
  - intros db' Hw HR x. destruct Hp as [_ Hp]. apply IH; [by etrans|apply Hp].
Qed.

(** A loop with an invariant on what is left. *)
Lemma rwp_for_each {A} (J : list A -> SwapDb.t -> Prop) xs (body : A -> relay_prog unit) db :
  (forall x xs db, J (x :: xs) db -> rwp (body x) db (fun _ => J xs)) ->
  (forall db db', db_wf db' -> R db db' -> J [] db -> J [] db') ->
  J xs db -> rwp (for_each xs body) db (fun _ => J []).
Proof.
  intros Hb Hn. revert db. induction xs as [|x xs IH]; intros db Hx.
  - intros db' Hw HR. by apply (Hn db).
  - apply rwp_bind. eapply rwp_mono; [|by apply Hb]. intros [] db'. apply IH.
Qed.
End rely.

(** ** Recovery of offramps *)

(** The offramps that were in the hands of a deposit request. *)
Definition in_hand (s : OfframpStatus.t) : Prop :=
  s = OfframpStatus.PendingVerification \/ s = OfframpStatus.PayingLightning.

(** A step that takes no offramp in hand: what every task but a deposit request does. *)
Definition no_entry (db db' : SwapDb.t) : Prop :=
  forall id s, in_hand s -> offramp_st id db' = Some s -> offramp_st id db = Some s.

#[global] Instance no_entry_preorder : PreOrder no_entry.
Proof. split; [by intros db id s|]. intros db1 db2 db3 H1 H2 id s Hs E. eauto. Qed.

Lemma calm_no_entry db db' : calm db db' -> no_entry db db'.
Proof. intros [_ Hc] id s [->| ->] E; destruct (Hc id) as (_ & H1 & H2 & _); auto. Qed.

Lemma no_entry_set id s db :
  ~ in_hand s -> no_entry db (set_offramp_status id s db).
Proof.
  intros Hs id' s' Hs'. unfold offramp_st. rewrite get_set_offramp_status.
  destruct (Z.eqb_spec id id') as [->|]; [|done].
  destruct (SwapDb.get_offramp_by_id id' db); cbn; [|done]. by intros [= <-].
Qed.

Lemma no_entry_transition id e n db :
  db_wf db -> ~ in_hand n -> no_entry db (SwapDb.transition_offramp_status id e n db).2.
Proof.
  intros Hwf Hn. rewrite transition_offramp_status_spec by done.
  case_decide; [by apply no_entry_set|done].
Qed.

(** After a compare-and-set from [e] to another status, the row is not in [e]. *)
Lemma transition_leaves id e n db :
  db_wf db -> n <> e -> offramp_st id (SwapDb.transition_offramp_status id e n db).2 <> Some e.
Proof.
  intros Hwf Hn. rewrite transition_offramp_status_spec by done. case_decide as Hd; cbn.
  - unfold offramp_st. rewrite get_set_offramp_status, Z.eqb_refl.
    destruct (SwapDb.get_offramp_by_id id db); cbn; [|done]. by intros [= ?].
  - done.
Qed.

(** The rows with the status [s] are among [ms]. *)
Definition among (s : OfframpStatus.t) (ms : list OfframpMapping) (db : SwapDb.t) : Prop :=
  forall id, offramp_st id db = Some s -> id ∈ Offramp.offramp_id <$> ms.

Lemma among_all s db : db_wf db -> among s (SwapDb.get_offramps_by_status s db) db.
Proof.
  intros Hwf id. unfold offramp_st. intros (m & Hm & Hs)%fmap_Some. apply list_elem_of_fmap. exists m.
  destruct (get_offramp_elem _ _ _ Hm) as (_ & _ & _ & Hid). split; [done|].
  apply get_offramps_by_status_spec; [done|]. by rewrite Hid.
Qed.

Lemma among_stable s ms db db' : in_hand s -> no_entry db db' -> among s ms db -> among s ms db'.
Proof. intros Hs Hn Hm id E. apply Hm. by apply (Hn id s). Qed.

Lemma among_transition s ms m n db :
  db_wf db -> in_hand s -> ~ in_hand n -> among s (m :: ms) db ->
  among s ms (SwapDb.transition_offramp_status (Offramp.offramp_id m) s n db).2.
Proof.
  intros Hwf Hs Hn Hm id E. assert (n <> s) as Hne by (by intros ->).
  pose proof (no_entry_transition (Offramp.offramp_id m) s n db Hwf Hn id s Hs E) as E0.
  apply Hm in E0. cbn in E0. apply elem_of_cons in E0 as [->|]; [|done].
  by destruct (transition_leaves (Offramp.offramp_id m) s n db Hwf Hne).
Qed.

Lemma not_in_hand s : s <> OfframpStatus.PendingVerification -> s <> OfframpStatus.PayingLightning -> ~ in_hand s.
Proof. by intros ?? [?|?]. Qed.

Section recovery.
Context `{Externals}.

Lemma quiet_depositing m : quiet no_entry (recover_depositing m).
Proof.
  eapply quiet_mono; [apply calm_no_entry|]. unfold recover_depositing. quiet.
Qed.

Lemma quiet_recovery : quiet no_entry recover_depositing_offramps.
Proof.
  assert (forall id e n (k : bool -> relay_prog unit), ~ in_hand n -> (forall b, quiet no_entry (k b)) ->
    quiet no_entry (bind (db_op (SwapDb.transition_offramp_status id e n)) k)) as Ht.
  { intros id e n k Hn Hk. apply quiet_db_op; [|done]. intros db Hwf.
    split; [by eauto with swapdb|by apply no_entry_transition]. }
  unfold recover_depositing_offramps. quiet. apply quiet_bind.
  { apply quiet_for_each. intros m. by apply Ht; [apply not_in_hand|]. }
  intros _. quiet. apply quiet_bind.
  { apply quiet_for_each. intros m. apply Ht; [by apply not_in_hand|]. intros []; [|done].
    eapply quiet_mono; [apply calm_no_entry|]. quiet. }
  intros _. quiet. apply quiet_depositing.
Qed.

(** No offramp is in hand. *)
Definition cleared (db : SwapDb.t) : Prop := forall id s, in_hand s -> offramp_st id db <> Some s.

Lemma among_nil s db : among s [] db -> forall id, offramp_st id db <> Some s.
Proof. intros Hm id E. by apply Hm in E as ?%elem_of_nil. Qed.

(** The transition at the head of the two loops. *)
Lemma rwp_transition m ms s n db (k : bool -> relay_prog unit) (J : SwapDb.t -> Prop) :
  in_hand s -> ~ in_hand n -> (forall db db', no_entry db db' -> J db -> J db') ->
  (forall b, quiet no_entry (k b)) -> J db -> among s (m :: ms) db ->
  rwp no_entry (bind (db_op (SwapDb.transition_offramp_status (Offramp.offramp_id m) s n)) k) db
    (fun _ db' => J db' /\ among s ms db').
Proof.
  intros Hs Hn HJ Hk H0 Hm. apply rwp_db_op. intros db1 Hw1 HR1. split; [by eauto with swapdb|].
  eapply rwp_mono; [|apply rwp_quiet; [apply _|apply Hk]]. intros [] db2 HR2. split.
  - eapply HJ; [exact HR2|]. eapply HJ; [by apply no_entry_transition|]. by eapply HJ.
  - eapply among_stable; [done|exact HR2|]. apply among_transition; try done. by eapply among_stable.
Qed.

(** Recovery clears the database while others take no offramp in hand. *)
Lemma recovery_clears db :
  rwp no_entry recover_depositing_offramps db (fun _ => cleared).
Proof.
  assert (in_hand OfframpStatus.PendingVerification) as HV by (by left).
  assert (in_hand OfframpStatus.PayingLightning) as HP by (by right).
  unfold recover_depositing_offramps. apply (rwp_db_read no_entry). intros db1 Hw1 _. apply (rwp_bind no_entry).
  eapply (rwp_mono no_entry); cycle 1.
  { apply (rwp_for_each no_entry (among OfframpStatus.PendingVerification)).
    - intros m ms db0 Hm. eapply (rwp_mono no_entry); cycle 1.
      + apply (rwp_transition m ms _ OfframpStatus.AwaitingDeposit db0 _ (fun _ => True)); try done.
        by apply not_in_hand.
      + by intros [] db' [].
    - intros ????. by apply among_stable.
    - by apply among_all. }
  intros [] db2 HV2. apply (rwp_db_read no_entry). intros db3 Hw3 HR3. apply (rwp_bind no_entry).
  pose proof (among_stable _ _ _ _ HV HR3 HV2) as HV3.
  eapply (rwp_mono no_entry); cycle 1.
  { apply (rwp_for_each no_entry (fun ms db => among OfframpStatus.PendingVerification [] db /\
      among OfframpStatus.PayingLightning ms db)).
    - intros m ms db0 [HV0 Hm]. apply rwp_transition; try done; [by apply not_in_hand|..].
      + intros ???. by apply among_stable.
      + intros []; [|done]. eapply quiet_mono; [apply calm_no_entry|]. quiet.
    - intros ???? []. by split; eapply among_stable.
    - split; [done|by apply among_all]. }
  intros [] db4 [HV4 HP4]. apply (rwp_db_read no_entry). intros db5 Hw5 HR5.
  eapply (rwp_mono no_entry); [|apply rwp_quiet; [apply _|apply quiet_for_each; apply quiet_depositing]].
  intros [] db6 HR6 id s [->| ->] E; [apply (among_nil _ _ HV4 id)|apply (among_nil _ _ HP4 id)];
    apply HR5, HR6, E; done.
Qed.
End recovery.

(** ** The gate *)

Section gate.
Context `{Externals} (st : ApiState).

Definition opens_deposit (t : Task) : bool := match t with TDeposit _ _ => true | _ => false end.

(** A step between the start of the process and the first deposit request: any step of
    [Pool] but a restart and the start of a deposit request. *)
Inductive boot_step (P : pool) : pool -> Prop :=
| boot_start t :
    opens_deposit t = false -> may_start t (tasks P) ->
    boot_step P (mkPool (shared P) (tasks P ++ [(t, task_prog st t)]) (trace P))
| boot_local i t X (f : Relay -> X * Relay) k :
    tasks P !! i = Some (t, Local f k) ->
    boot_step P (mkPool (f (shared P)).2 (<[i := (t, k (f (shared P)).1)]> (tasks P)) (trace P))
| boot_call i t r k x :
    tasks P !! i = Some (t, Call r k) ->
    boot_step P (mkPool (shared P) (<[i := (t, k x)]> (tasks P) ++ spawned_tasks st r)
                   (trace P ++ [(i, existT r x)])).

Lemma boot_step_step P P' : boot_step P P' -> step st P P'.
Proof. intros []; econstructor; eauto. Qed.

(** What is left of each task takes no offramp in hand, deposit requests apart. *)
Definition entry_of (t : Task) : SwapDb.t -> SwapDb.t -> Prop :=
  if opens_deposit t then fun _ _ => True else no_entry.

Lemma task_entry t : quiet (entry_of t) (task_prog st t).
Proof.
  destruct t; try exact quiet_recovery;
    (eapply quiet_mono; [|apply task_effect]); cbn; try done; apply calm_no_entry.
Qed.

Record booting (n : nat) (P : pool) : Prop := {
  boot_wf : db_wf (swap_db (shared P));
  boot_tasks i t p : tasks P !! i = Some (t, p) -> quiet (entry_of t) p;
  boot_deposits i t p : tasks P !! i = Some (t, p) -> opens_deposit t = true -> finished p;
  boot_recovery : exists p, tasks P !! n = Some (TRecoverOfframps, p) /\
    rwp no_entry p (swap_db (shared P)) (fun _ => cleared);
}.

Lemma spawned_no_deposit r t p :
  (t, p) ∈ spawned_tasks st r -> opens_deposit t = false /\ p = task_prog st t.
Proof.
  destruct r; cbn; try (by intros ?%elem_of_nil).
  rewrite list_elem_of_singleton. intros [= -> ->].
  match goal with x : Spawned |- _ => by destruct x end.
Qed.

Lemma booting_step n P P' : booting n P -> boot_step P P' -> booting n P'.
Proof.
  intros [Hwf Ht Hd (pr & Hn & Hr)] Hstep.
  destruct Hstep as [t Hdep Hm|i t X f k Hi|i t r k x Hi].
  - split; cbn; [done|..].
    + intros j t' p' [[_ ?]|[_ [= <- <-]]]%lookup_snoc_Some; [eauto|apply task_entry].
    + intros j t' p' [[_ ?]|[_ [= <- <-]]]%lookup_snoc_Some; [eauto|congruence].
    + exists pr. split; [by apply lookup_app_l_Some|done].
  - assert (opens_deposit t = false) as Hdep.
    { destruct (opens_deposit t) eqn:E; [|done]. by destruct (Hd _ _ _ Hi E). }
    pose proof (Ht _ _ _ Hi) as Hq. unfold entry_of in Hq. rewrite Hdep in Hq.
    destruct (Hq (shared P) Hwf) as (Hwf' & [] & Hno & Hk). split; cbn; [done|..].
    + intros j t' p'. rewrite list_lookup_insert. case_decide; [|eauto]. intros [= <- <-].
      unfold entry_of. by rewrite Hdep.
    + intros j t' p'. rewrite list_lookup_insert. case_decide; [|eauto]. intros [= <- <-]. congruence.
    + destruct (decide (i = n)) as [->|Hne].
      * pose proof (eq_trans (eq_sym Hn) Hi) as E. injection E as <- ->. eexists.
        rewrite list_lookup_insert_eq by (by eapply lookup_lt_Some). split; [done|].
        by destruct (Hr (swap_db (shared P)) Hwf (reflexivity _) (shared P) eq_refl).
      * exists pr. rewrite list_lookup_insert_ne by done. split; [done|]. by apply (rwp_rely no_entry _ _ _ _ Hno).
  - assert (forall j t' p', (<[i := (t, k x)]> (tasks P) ++ spawned_tasks st r) !! j = Some (t', p') ->
      tasks P !! j = Some (t', p') \/ (t', p') = (t, k x) \/ (opens_deposit t' = false /\ p' = task_prog st t')) as Hcase.
    { intros j t' p' [Hj|[_ Hj]]%lookup_app_Some.
      - rewrite list_lookup_insert in Hj. case_decide; [|auto]. injection Hj as <- <-. auto.
      - right; right. apply list_elem_of_lookup_2 in Hj. by apply (spawned_no_deposit r). }
    split; cbn; [done|..].
    + intros j t' p' [?|[[= -> ->]|[_ ->]]]%Hcase; [eauto| |apply task_entry].
      destruct (Ht _ _ _ Hi) as [_ Hk]. apply Hk.
    + intros j t' p' [?|[[= -> ->]|[Hf _]]]%Hcase Hdep; [eauto| |congruence].
      by destruct (Hd _ _ _ Hi Hdep).
    + destruct (decide (i = n)) as [->|Hne].
      * pose proof (eq_trans (eq_sym Hn) Hi) as E. injection E as <- ->. eexists.
        split; [apply lookup_app_l_Some, list_lookup_insert_eq; by eapply lookup_lt_Some|].
        by apply (Hr (swap_db (shared P)) Hwf (reflexivity _) x).
      * exists pr. split; [|done]. apply lookup_app_l_Some. by rewrite list_lookup_insert_ne by done.
Qed.

Lemma booting_steps n P P' : rtc boot_step P P' -> booting n P -> booting n P'.
Proof. induction 1; eauto using booting_step. Qed.

(** C14: the API is never offered an offramp in hand.  Let the process start, from any state an
    execution may have left with no deposit request in flight, and run the recovery of
    offramps, while in any interleaving the events of LDK, what they spawn, the monitors, the
    shell and every other handler but deposit requests take their steps, with any answers.
    Whenever recovery has returned, and as long as no deposit request has been started, no
    offramp is being verified or paid. *)
Theorem recovery_opens_gate P P' :
  reachable st P ->
  (forall i ip req p, tasks P !! i = Some (TDeposit ip req, p) -> finished p) ->
  rtc boot_step
    (mkPool (shared P) (tasks P ++ [(TRecoverOfframps, recover_depositing_offramps)]) (trace P)) P' ->
  tasks P' !! length (tasks P) = Some (TRecoverOfframps, Ret tt) ->
  forall id m, SwapDb.get_offramp_by_id id (swap_db (shared P')) = Some m ->
    Offramp.status m <> OfframpStatus.PendingVerification /\
    Offramp.status m <> OfframpStatus.PayingLightning.
Proof.
  intros HP Hd Hsteps Hend.
  assert (PreOrder (fun _ _ : SwapDb.t => True)) by (by split).
  destruct (reachable_settled st entry_of (fun _ _ => True) task_entry ltac:(done) P HP) as [Hwf Ht].
  assert (booting (length (tasks P)) P') as [Hwf' _ _ (p & Hp & Hr)].
  { apply (booting_steps _ _ _ Hsteps). split; cbn; [done|..].
    - intros i t p [[_ ?]|[_ [= <- <-]]]%lookup_snoc_Some; [eauto|exact quiet_recovery].
    - intros i t p [[_ Hi]|[_ [= <- <-]]]%lookup_snoc_Some; [|done]. destruct t; try done. eauto.
    - eexists. split; [by apply list_lookup_middle|apply recovery_clears]. }
  pose proof (eq_trans (eq_sym Hp) Hend) as E. injection E as ->. pose proof (Hr _ Hwf' (reflexivity _)) as Hc.
  intros id m Hm. split; intros Es; apply (Hc id (Offramp.status m)); unfold offramp_st, in_hand;
    rewrite ?Hm; cbn; auto.
Qed.
End gate.
