(* ===== verification/Validity.v ===== *)
(** * Every row has passed validation

    The rows of both tables are written by two requests only, after all of their
    checks.  [db_valid] says what those checks and the types of the columns promise
    of a row, for as long as it is in the table; it is an invariant of every
    interleaving of [Pool].  [process_offramp_deposit] parses the stored invoice and
    converts the stored amount again after it has taken the offramp for payment;
    because rows are valid, neither can fail there. *)

From stdpp Require Import relations.
From S2P Require Import Prelude Effects Amounts Mapping MappingFacts MappingSpec Types RateLimiter World.
From S2P Require Import Helpers Rows CardanoSwap Payments CardanoOfframp Recovery Background Api.
From S2P Require Import Peers Shell ShellSafety Events Pool PoolSafety Persistence.
Open Scope prog_scope.

Section validity.
Context `{Externals} (st : ApiState).

(** What [handle_swap_request] has checked of a row of [swap_mappings]. *)
Record swap_valid {S} (m : Swap.t_of S) : Prop := {
  sv_amount : 0 < Swap.amount_cbtc m <= 10000000000;
  sv_address_len : (String.length (Swap.cardano_address m) <= MAX_CARDANO_ADDR_LEN)%nat;
  sv_address : exists pkh, validate_address (Swap.cardano_address m) expected_prefix = Ok pkh;
  sv_hash : exists h, Swap.payment_hash m = payment_hash_display h;
  sv_created : in_i64 (Swap.created_at m);
  sv_expires : in_i64 (Swap.expires_at m);
  sv_create_tx : is_Some (Swap.create_tx_hash m);
}.

(** What [handle_offramp_request] has checked of a row of [offramp_mappings]. *)
Record offramp_valid {S} (m : Offramp.t_of S) : Prop := {
  ov_amount : 0 < Offramp.amount_cbtc m <= 10000000000;
  ov_bolt11_len : (String.length (Offramp.bolt11 m) <= MAX_BOLT11_LEN)%nat;
  ov_invoice : exists invoice,
    bolt11_from_str (Offramp.bolt11 m) = Ok invoice /\
    Offramp.payment_hash m = sha256_display (invoice_payment_hash invoice) /\
    network_ok (invoice_currency invoice) (starts_with operator_address "addr_test") = true /\
    amount_mismatch (amount_milli_satoshis invoice) (Offramp.amount_cbtc m * 1000) = None;
  ov_refund : exists address, address_to_pkh address = Ok (Offramp.refund_address m);
  ov_created : in_i64 (Offramp.created_at m);
  ov_expires : in_i64 (Offramp.expires_at m);
  ov_create_tx : is_Some (Offramp.cardano_offramp_tx_hash m);
}.

Definition db_valid (db : SwapDb.t) : Prop :=
  Forall swap_valid (SwapDb.swap_mappings db) /\ Forall offramp_valid (SwapDb.offramp_mappings db).

Definition keeps_valid (db db' : SwapDb.t) : Prop := db_valid db -> db_valid db'.

#[global] Instance keeps_valid_preorder : PreOrder keeps_valid.
Proof. split; unfold keeps_valid; [by intros db|by intros db1 db2 db3; auto]. Qed.

(** ** The statements *)

Lemma Forall_sql_update {R} (V : R -> Prop) P f (rows : list R) :
  (forall r, V r -> V (f r)) -> Forall V rows -> Forall V (sql_update P f rows).2.
Proof.
  intros Hf HV. unfold sql_update. cbn. apply Forall_fmap. eapply Forall_impl; [exact HV|].
  intros r Hr. cbn. destruct (P r); auto.
Qed.

(** An [UPDATE] of statuses, transaction hashes, preimages or error messages. *)
Lemma valid_on_swaps P f db :
  (forall r, swap_valid r -> swap_valid (f r)) -> keeps_valid db (SwapDb.on_swaps (sql_update P f) db).2.
Proof. intros Hf [Hs Ho]. split; [|done]. by apply Forall_sql_update. Qed.
Lemma valid_on_offramps P f db :
  (forall r, offramp_valid r -> offramp_valid (f r)) ->
  keeps_valid db (SwapDb.on_offramps (sql_update P f) db).2.
Proof. intros Hf [Hs Ho]. split; [done|]. by apply Forall_sql_update. Qed.

Lemma swap_valid_status {S S'} (s : S') tx (m : Swap.t_of S) :
  swap_valid m -> swap_valid (Swap.set_status s tx m).
Proof. by intros []. Qed.
Lemma offramp_valid_set {S S'} tx (s : S') pre dep err (m : Offramp.t_of S) :
  offramp_valid m -> offramp_valid (Offramp.set tx s pre dep err m).
Proof. by intros []. Qed.

Lemma valid_update_status h s tx db : keeps_valid db (SwapDb.update_status h s tx db).
Proof. apply valid_on_swaps. intros r. apply swap_valid_status. Qed.
Lemma valid_transition_status h e n tx db : keeps_valid db (SwapDb.transition_status h e n tx db).2.
Proof. apply valid_on_swaps. intros r. apply swap_valid_status. Qed.
Lemma valid_update_offramp id s pre dep err db :
  keeps_valid db (SwapDb.update_offramp_status id s pre dep err db).
Proof. apply valid_on_offramps. intros r. apply offramp_valid_set. Qed.
Lemma valid_transition_offramp id e n db : keeps_valid db (SwapDb.transition_offramp_status id e n db).2.
Proof. apply valid_on_offramps. intros r. apply offramp_valid_set. Qed.
Lemma valid_transition_cbtc id tx e n db :
  keeps_valid db (SwapDb.transition_offramp_with_cbtc_tx id tx e n db).2.
Proof. apply valid_on_offramps. intros r Hr. by apply offramp_valid_set, offramp_valid_set. Qed.

Lemma valid_insert m db : swap_valid m -> keeps_valid db (SwapDb.insert m db).2.
Proof.
  intros Hm [Hs Ho]. unfold SwapDb.insert. destruct (existsb _ _); [done|]. split; [|done].
  apply Forall_app. split; [done|]. constructor; [|constructor]. by apply swap_valid_status.
Qed.

Lemma Forall_insert_by {R} (V : R -> Prop) key (r : R) rows :
  V r -> Forall V rows -> Forall V (insert_by key r rows).
Proof.
  intros Hr. induction 1 as [|x xs Hx Hxs IH]; cbn; [by repeat constructor|].
  destruct (_ <? _); by repeat constructor.
Qed.

Lemma valid_insert_offramp m db : offramp_valid m -> keeps_valid db (SwapDb.insert_offramp m db).2.
Proof.
  intros Hm [Hs Ho]. unfold SwapDb.insert_offramp. destruct (existsb _ _); [done|]. split; [done|].
  apply Forall_insert_by; [|done]. by apply offramp_valid_set.
Qed.

#[local] Hint Resolve valid_update_status valid_transition_status valid_update_offramp
  valid_transition_offramp valid_transition_cbtc valid_insert valid_insert_offramp : calm.

#[global] Instance keeps_valid_tame : Tame keeps_valid.
Proof. split; [apply _|eauto with calm..]. Qed.

(** ** The two requests that insert *)

Lemma amount_range a : amount_in_range a = true -> 0 < a <= 10000000000.
Proof. unfold amount_in_range. lia. Qed.

Lemma range_msat a : 0 < a <= 10000000000 -> cbtc_to_msat a = Some (a * 1000).
Proof. intros Ha. apply cbtc_to_msat_Some; unfold_ints; lia. Qed.

(** The clock, whose cast keeps it in the range of the column. *)
Lemma quiet_clock C {A} (k : Z -> relay_prog A) :
  (forall now, in_i64 now -> quiet C (k now)) -> quiet C (bind current_timestamp_ms k).
Proof. intros Hk. split; [done|]. intros t. apply Hk, wrap_i64_range. Qed.

Lemma create_swap_valid amount address :
  0 < amount <= 10000000000 -> (String.length address <= MAX_CARDANO_ADDR_LEN)%nat ->
  quiet keeps_valid (create_swap st amount address).
Proof.
  intros Ha Hl. unfold create_swap.
  destruct (validate_address address expected_prefix) as [pkh|e] eqn:Ev.
  2: { unfold request_swap. rewrite Ev. done. }
  apply quiet_bind; [unfold request_swap; rewrite Ev; unfold bind_try; cbn [bind]; quiet; calls|].
  intros [[[invoice_id description] create_tx]|e]; [|done].
  unfold create_invoice_for_swap. rewrite (range_msat _ Ha).
  destruct (negb (description_fits description)); [done|].
  split; [done|]. intros [invoice|e]; [|done].
  apply (quiet_local keeps_valid _ (fun _ => _)); [done|intros _].
  apply quiet_clock. intros now Hnow. unfold store_swap_mapping. apply quiet_bind; [|done].
  apply quiet_clock. intros created Hcreated. apply quiet_db_op; [|by intros []].
  intros db Hdb. split; [auto with swapdb|]. apply valid_insert.
  split; cbn; eauto. apply wrap_i64_range.
Qed.

Lemma swap_request_valid ip req : quiet keeps_valid (handle_swap_request st ip req).
Proof.
  unfold handle_swap_request. apply quiet_rate_check; [apply _|]. intros ok.
  destruct (negb ok); [done|]. destruct (amount_in_range _) eqn:Ea; [cbn [negb]|done].
  destruct (MAX_CARDANO_ADDR_LEN <? _)%nat eqn:El; [done|]. apply Nat.ltb_ge in El.
  quiet; apply create_swap_valid; auto using amount_range.
Qed.

Lemma request_offramp_valid bolt11 amount address expiry :
  0 < amount <= 10000000000 -> (String.length bolt11 <= MAX_BOLT11_LEN)%nat ->
  quiet keeps_valid (request_offramp bolt11 amount address expiry).
Proof.
  intros Ha Hl. unfold request_offramp.
  destruct (bolt11_from_str bolt11) as [invoice|e] eqn:Eb; [|done]. cbn [map_err bind_try bind].
  apply quiet_read; [apply _|]. intros [m|]; [done|].
  destruct (network_ok _ _) eqn:En; [cbn [negb]|done].
  rewrite (range_msat _ Ha). cbn [ok_or bind_try bind].
  destruct (amount_mismatch _ _) eqn:Em; [done|].
  destruct (address_to_pkh address) as [pkh|e] eqn:Ep; [|done]. cbn [bind_try bind].
  apply quiet_clock. intros now Hnow. apply quiet_submit; [calls|]. intros [[id tx]|e]; [|done].
  cbn [map_err bind_try bind]. apply quiet_bind; [|done]. apply quiet_db_op; [|by intros []].
  intros db Hdb. split; [auto with swapdb|]. apply valid_insert_offramp.
  split; cbn; eauto. apply wrap_i64_range.
Qed.

Lemma offramp_request_valid ip req : quiet keeps_valid (handle_offramp_request st ip req).
Proof.
  unfold handle_offramp_request. apply quiet_rate_check; [apply _|]. intros ok.
  destruct (negb ok); [done|]. destruct (amount_in_range _) eqn:Ea; [cbn [negb]|done].
  destruct (MAX_BOLT11_LEN <? _)%nat eqn:El; [done|]. apply Nat.ltb_ge in El.
  quiet. apply quiet_bind; [|intros ?; quiet]. apply request_offramp_valid; auto using amount_range.
Qed.

(** What validity is for: of a valid offramp, the part of [process_offramp_deposit] after
    the offramp was taken for payment is the payment itself; neither of its early returns,
    which would leave the offramp in [PayingLightning] with no payment, can be taken, and
    [send_payment] does not refuse the amount. *)
Lemma valid_offramp_is_paid id m :
  offramp_valid m -> exists invoice,
    bolt11_from_str (Offramp.bolt11 m) = Ok invoice /\
    Offramp.payment_hash m = sha256_display (invoice_payment_hash invoice) /\
    payment_amount (amount_milli_satoshis invoice) (Some (Offramp.amount_cbtc m * 1000))
      = Ok (Offramp.amount_cbtc m * 1000) /\
    pay_offramp id m =
      let* r := send_payment invoice (Some (Offramp.amount_cbtc m * 1000)) in
      match r with
      | Ok _ => Ret (Ok tt)
      | Err e =>
          let msg := "Lightning payment initiation failed: " +:+ e in
          set_error id OfframpStatus.Failed (Some msg) ;; Ret (Err msg)
      end.
Proof.
  intros Hm. destruct (ov_invoice _ Hm) as (invoice & Hb & Hh & _ & Ha). exists invoice.
  split; [done|]. split; [done|]. split.
  - unfold amount_mismatch in Ha. unfold payment_amount.
    destruct (amount_milli_satoshis invoice) as [a|]; [|done].
    destruct (a =? _) eqn:E; [|done]. apply Z.eqb_eq in E. cbn. by f_equal.
  - unfold pay_offramp. by rewrite Hb, (range_msat _ (ov_amount _ Hm)).
Qed.

(** ** All tasks *)

Lemma task_valid t : quiet keeps_valid (task_prog st t).
Proof.
  destruct t; cbn [task_prog]; try apply quiet_ignore;
    [apply swap_request_valid|apply offramp_request_valid| |apply quiet_event
    |apply quiet_fulfill_swap|apply quiet_complete_offramp|apply quiet_payment_failed
    |apply quiet_connection_needed|apply quiet_reconnect|apply quiet_announce|apply quiet_shell
    |apply quiet_pool_deposit|apply quiet_pool_withdraw
    |apply quiet_swaps_tick|apply quiet_offramps_tick|apply quiet_recover_swaps| ]; try apply _.
  - unfold handle_offramp_deposit. apply quiet_rate_check; [apply _|]. intros ok. quiet.
    apply quiet_bind; [|intros ?; quiet]. unfold process_offramp_deposit. quiet.
    apply (quiet_pay_offramp keeps_valid).
  - unfold recover_depositing_offramps, recover_verifying, recover_paying, recover_depositing. quiet.
    apply quiet_bind; [quiet|intros _]. quiet. apply quiet_bind; [quiet|intros _]. quiet.
Qed.

(** C5: every row of the database is well typed and has passed validation, in every
    interleaving of handlers, monitors, shell sessions, restarts and recoveries that
    starts from such a database (an empty one, say): the amount of a swap or an offramp
    is between 1 and 10,000,000,000, its texts are within their length limits, its
    timestamps are 64-bit integers, a swap's address is one that [validate_address] accepts
    for the operator's prefix (["addr_test"] for a testnet operator, else ["addr"], which the
    addresses of a testnet also begin with), and an offramp's invoice parses, is for the relay's network, has the stored
    payment hash and asks for the amount of the offramp, if it names one. *)
Theorem rows_stay_valid P P' :
  reachable st P -> rtc (step st) P P' ->
  db_valid (swap_db (shared P)) -> db_valid (swap_db (shared P')).
Proof.
  intros HP Hs. apply (settled_steps st (fun _ => keeps_valid) keeps_valid); [apply task_valid|done..].
Qed.
End validity.
