(* ===== verification/EndToEnd.v ===== *)
(** * A swap and an offramp from request to settlement

    The handlers of one swap run at different times, on a state that everything else may
    have changed in between.  [later] is that in-between: any interleaving of [Pool],
    restarts included.  Each theorem follows one swap through the API, the Lightning event
    and the settling task; the stages are joined by what [Persistence] says of rows. *)

From stdpp Require Import relations.
From S2P Require Import Prelude Effects Amounts Mapping MappingFacts MappingSpec Types RateLimiter World.
From S2P Require Import Helpers Rows CardanoSwap Payments CardanoOfframp Recovery Background Api.
From S2P Require Import Peers Shell ShellSafety Events Pool PoolSafety Persistence.

Section end_to_end.
Context `{Externals} {W : Type} `{!Env W} (st : ApiState).
Implicit Types (s : Relay) (w : W).

(** Any number of steps of any tasks lead from the shared state [s] to [s']. *)
Definition later (s s' : Relay) : Prop :=
  exists P P', reachable st P /\ shared P = s /\ rtc (step st) P P' /\ shared P' = s'.

Lemma later_lasts s s' : later s s' -> db_wf (swap_db s') /\ lasts (swap_db s) (swap_db s').
Proof.
  intros (P & P' & HP & <- & Hs & <-).
  apply (settled_steps st effect lasts); [apply task_effect|apply effect_lasts|done|done].
Qed.

(** Terms that survive. *)
Lemma later_swap s s' h m :
  later s s' -> SwapDb.get_by_payment_hash h (swap_db s) = Some m ->
  exists m', SwapDb.get_by_payment_hash h (swap_db s') = Some m' /\ swap_terms m' = swap_terms m.
Proof. intros [_ [_ [Hk _]]]%later_lasts Hm. exact (Hk h m Hm). Qed.

Lemma later_offramp s s' id m :
  later s s' -> SwapDb.get_offramp_by_id id (swap_db s) = Some m ->
  exists m', SwapDb.get_offramp_by_id id (swap_db s') = Some m' /\ offramp_terms m' = offramp_terms m.
Proof. intros [_ [_ [_ Hk]]]%later_lasts Hm. exact (Hk id m Hm). Qed.

(** ** Onramp *)

(** C6: a swap from the request to the payout, whatever happens in between.  If a swap was
    granted, is still pending when LDK reports its payment as claimed (and the report is
    recorded), and is still pending when the task that this starts gets to run before the
    expiry, against an operator that shows the invoice and accepts transactions, then: the
    report has started [fulfill_swap] for the hash given to the client, exactly once; the
    task makes one query, one build, for the invoice of the request and to the address of the
    request, and one submission; the status endpoint then answers [Completed] with the hash of
    a Cardano transaction; and the payment is recorded as succeeded. *)
Theorem onramp_end_to_end G ip req s w resp s2 hash purpose amt w2 s3 w3 deadline w4 :
  let h := sp_payment_hash resp in
  let r1 := exec (handle_swap_request st ip req) s w in
  let r2 := exec (handle_ldk_events true (PaymentClaimed hash purpose amt)) s2 w2 in
  let r3 := exec (fulfill_swap h) s3 w3 in
  out r1 = Done (Ok resp) ->
  later (fin r1) s2 -> payment_hash_display hash = h -> out r2 = Done tt ->
  later (fin r2) s3 ->
  Swap.status <$> SwapDb.get_by_payment_hash h (swap_db s3) = Some SwapStatus.Pending ->
  Swap.expires_at <$> SwapDb.get_by_payment_hash h (swap_db (fin r1)) = Some deadline ->
  responsive G (sp_invoice_id resp) deadline -> G w3 ->
  omap spawned (log r2) = [SpawnFulfillSwap h] /\
  (exists p, inbound_payments (fin r2) !! hash = Some p /\ status p = HTLCStatus.Succeeded) /\
  exists i tx paid_by created_by,
    op_log (log r3) = [QueryState; FulfillInvoice i (sr_cardano_address req); SubmitTx tx] /\
    Invoice.invoice_id i = sp_invoice_id resp /\
    out (exec (handle_swap_status h) (fin r3) w4)
    = Done (Ok (mkSwapStatus h (sp_invoice_id resp) "Completed" (Some paid_by) (Some created_by))).
Proof.
  cbn zeta. intros Ho1 H12 Hh Ho2 H23 Hst Hexp HG Hw.
  destruct (swap_granted st ip req s w resp Ho1) as (now & v & l & lim & _ & Hc).
  destruct Hc as (inv & msat & pkh & t & created & create_tx & _ & _ & _ & _ & _ & _ & [Hrow _] & _).
  destruct (later_swap _ _ _ _ H12 Hrow) as (m2 & Hm2 & Ht2).
  destruct (wp_exec _ s2 w2 _ (wp_payment_claimed true hash purpose amt s2)) as [Hf2 (v2 & l2 & El & Hv2)].
  cbn [handle_ldk_events] in *. rewrite El. rewrite Ho2 in Hv2.
  destruct v2 as [[]|e]; [|by destruct Hv2]. destruct Hv2 as [_ Hsp]. rewrite Hh, Hm2 in Hsp.
  split; [exact Hsp|]. split.
  { rewrite Hf2. cbn. destruct (claim_inbound_entry hash purpose amt (inbound_payments s2)) as (p & ? & ? & _). eauto. }
  rewrite Hrow in Hexp. injection Hexp as <-.
  assert (SwapDb.get_by_payment_hash (sp_payment_hash resp)
    (swap_db (fin (exec (on_payment_claimed true hash purpose amt) s2 w2))) = Some m2) as Hm2'
    by (rewrite Hf2; exact Hm2).
  destruct (later_swap _ _ _ _ H23 Hm2') as (m3 & Hm3 & Ht3). rewrite Ht2 in Ht3.
  rewrite Hm3 in Hst. injection Hst as Hst.
  pose proof (f_equal Swap.invoice_id Ht3) as Ei. pose proof (f_equal Swap.expires_at Ht3) as Ee.
  pose proof (f_equal Swap.cardano_address Ht3) as Ea. pose proof (f_equal Swap.create_tx_hash Ht3) as Ec.
  pose proof (f_equal Swap.payment_hash Ht3) as Eh. cbn in Ei, Ee, Ea, Ec, Eh.
  destruct (fulfill_swap_completes G (sp_payment_hash resp) s3 w3 m3)
    as (i & tx & paid_by & Hops & Hi & _ & Hrow3); [by apply (later_lasts _ _ H23)|done|done|rewrite <- Hh; apply log_prefix_hex| |done|].
  { by rewrite Ei, Ee. }
  exists i, tx, paid_by, create_tx. rewrite Hops, Ea, Hi, Ei. split_and!; [done|done|].
  unfold handle_swap_status. rewrite exec_db_read, Hrow3, exec_ret. cbn. unfold to_swap_status. cbn.
  by rewrite Eh, Ei, Ec.
Qed.

(** ** Offramp *)

(** A row with a hash makes the lookup by hash succeed, with this row or another. *)
Lemma get_by_hash_some db id m :
  SwapDb.get_offramp_by_id id db = Some m ->
  is_Some (SwapDb.get_offramp_by_payment_hash (Offramp.payment_hash m) db).
Proof.
  intros (r & Hr & ->)%fmap_Some. apply find_Some_elem in Hr as [Hr _].
  unfold SwapDb.get_offramp_by_payment_hash. rewrite fmap_is_Some. apply not_eq_None_Some.
  intros Hn. pose proof (find_none _ _ Hn r) as E. cbn in E. rewrite String.eqb_refl in E.
  discriminate E. by apply list_elem_of_In.
Qed.

(** The first half: a granted offramp whose deposit was accepted is being paid, and its
    terms are those of the request. *)
Lemma offramp_paid_stage ip req s w resp s2 tx w2 u :
  let id := op_offramp_id resp in
  let r1 := exec (handle_offramp_request st ip req) s w in
  let r2 := exec (process_offramp_deposit id tx) s2 w2 in
  out r1 = Done (Ok resp) -> later (fin r1) s2 -> out r2 = Done (Ok u) ->
  exists inv pkh now create_tx m,
    bolt11_from_str (or_bolt11 req) = Ok inv /\ omap paid (log r2) = [invoice_payment_hash inv] /\
    (forall i pay_id amount x, existT (RPayBolt11 i pay_id amount) x ∈ log r2 ->
       i = inv /\ exists msat, amount = Some msat /\ cbtc_to_msat (or_amount_cbtc req) = Some msat) /\
    op_payment_hash resp = sha256_display (invoice_payment_hash inv) /\
    SwapDb.get_offramp_by_id id (swap_db (fin r2)) = Some m /\
    offramp_terms m = offramp_terms (new_offramp id (or_bolt11 req) inv (or_amount_cbtc req) now
                                       (swap_expiry_ms st) create_tx pkh).
Proof.
  cbn zeta. intros Ho1 H12 Ho2.
  destruct (offramp_granted st ip req s w resp Ho1)
    as (lim & l & inv & pkh & now & create_tx & Hadm & _ & Hh & _ & _ & _ & _ & _ & [Hrow _]).
  destruct (later_offramp _ _ _ _ H12 Hrow) as (m2 & Hm2 & Ht2).
  destruct (deposit_accepted _ _ _ _ _ (proj1 (later_lasts _ _ H12)) Ho2)
    as (m2' & inv2 & msat & Hm2' & _ & Hb & Hmsat & Hreq & Hpaid & [Hrow2 _]).
  rewrite Hm2 in Hm2'. injection Hm2' as <-.
  pose proof (f_equal Offramp.bolt11 Ht2) as Eb. pose proof (f_equal Offramp.amount_cbtc Ht2) as Ea.
  cbn in Eb, Ea. rewrite Eb in Hb. rewrite Ea in Hmsat.
  assert (inv2 = inv) as -> by (destruct Hadm; congruence).
  exists inv, pkh, now, create_tx. eexists. split_and!; [done|done| |done|exact Hrow2|exact Ht2].
  intros i pay_id amount x Hin. rewrite Forall_forall in Hreq. specialize (Hreq _ Hin) as (-> & _ & ->). eauto.
Qed.

End end_to_end.
