(* ===== verification/Sweep.v ===== *)
(** * Migration of old spendable outputs ([src/src/sweep.rs])

    [migrate_deprecated_spendable_outputs] runs once at start-up, on three directories
    below the data directory.  A directory that exists is a map from file names to
    contents; the order in which [read_dir] lists it is the map's.  Every operation that the
    code unwraps may fail, as the oracle [io] says; a removal that fails leaves the directory
    as it was.  The reader of LDK's
    descriptors is a class with the laws of a stream decoder. *)

From S2P Require Import Prelude HexUtils Types RateLimiter Mapping Effects World.

(** [Readable::read]: a descriptor and the rest of the input, or an error.  A successful
    read consumes something, and does not look past what it consumes. *)
Class DescriptorReader := {
  read_descriptor : bytes -> option (SpendableOutputDescriptor * bytes);
  read_consumes b d rest : read_descriptor b = Some (d, rest) -> (length rest < length b)%nat;
  read_app b d rest b' : read_descriptor b = Some (d, rest) -> read_descriptor (b ++ b') = Some (d, rest ++ b');
}.

Abbreviation dir := (gmap string bytes).

Record Dirs := mkDirs {
  pending_spendables : option dir;
  processing_spendables : option dir;
  spendables : option dir;
}.

(** What the migration asks of the file system, of LDK's store and of the sweeper; each of
    them may fail, and the migration unwraps the answer. *)
Inductive IoOp :=
| ListPending (name : string)         (** the next entry of [read_dir] *)
| CreateProcessing (name : string)    (** [create_dir_all], before each file is moved *)
| Rename (name : string)
| ReadProcessing (name : string)
| WriteOutputs                        (** [persister.write] *)
| RemoveProcessing
| OpenSpendable (name : string)
| TrackOutputs                        (** [sweeper.track_spendable_outputs] *)
| RemoveSpendables
| RemovePending.

(** How the migration ends: nothing to migrate, the descriptors handed to the sweeper,
    or a panic, with the directories as they are then and the descriptors that the sweeper
    has accepted before it, if it got that far. *)
Inductive migration :=
| NothingToMigrate
| Migrated (outputs : list SpendableOutputDescriptor) (dirs : Dirs)
| MigrationPanicked (tracked : option (list SpendableOutputDescriptor)) (dirs : Dirs).

Section sweep.
Context `{!DescriptorReader}.

(** The descriptors of one file; each takes at least one byte. *)
Fixpoint read_file (fuel : nat) (b : bytes) : option (list SpendableOutputDescriptor) :=
  match b with
  | [] => Some []
  | _ =>
      match fuel with
      | O => None
      | S fuel =>
          match read_descriptor b with
          | Some (d, rest) => cons d <$> read_file fuel rest
          | None => None
          end
      end
  end.

Definition read_outputs (b : bytes) : option (list SpendableOutputDescriptor) :=
  read_file (length b) b.

Definition read_all (files : list bytes) : option (list SpendableOutputDescriptor) :=
  (fun dss => concat dss) <$> mapM read_outputs files.

Section migration.
Context (io : IoOp -> bool).

(** One entry of the pending folder: a file whose name is 32 bytes in hexadecimal is moved. *)
Definition move_file (d : Dirs) (file : string * bytes) : result Dirs Dirs :=
  if negb (io (ListPending file.1)) then Err d
  else if (String.length file.1 =? 64)%nat then
    if negb (io (CreateProcessing file.1)) then Err d
    else
      let d := mkDirs (pending_spendables d) (Some (default ∅ (processing_spendables d))) (spendables d) in
      if negb (io (Rename file.1)) then Err d
      else Ok (mkDirs (delete file.1 <$> pending_spendables d)
                 (Some (<[file.1 := file.2]> (default ∅ (processing_spendables d)))) (spendables d))
  else Ok d.

Fixpoint move_files (d : Dirs) (files : list (string * bytes)) : result Dirs Dirs :=
  match files with
  | [] => Ok d
  | f :: files => match move_file d f with Ok d => move_files d files | Err d => Err d end
  end.

(** The contents of the files of a folder, one after the other; a folder that is not there
    has none. *)
Definition read_dir (op : string -> IoOp) (d : option dir) : option (list bytes) :=
  let files := map_to_list (default ∅ d) in
  if forallb (fun f => io (op f.1)) files then Some (snd <$> files) else None.

(** [key] is the random name of the new file. *)
Definition collect (d : Dirs) (key : bytes) : result Dirs Dirs :=
  match pending_spendables d with
  | None => Ok d
  | Some p =>
      match move_files d (map_to_list p) with
      | Err d => Err d
      | Ok d =>
          match read_dir ReadProcessing (processing_spendables d) with
          | None => Err d
          | Some files =>
              match concat files with
              | [] => Ok d
              | outputs =>
                  if negb (io WriteOutputs) then Err d
                  else
                    let d := mkDirs (pending_spendables d) (processing_spendables d)
                      (Some (<[hex_str key := outputs]> (default ∅ (spendables d)))) in
                    if negb (io RemoveProcessing) then Err d
                    else Ok (mkDirs (pending_spendables d) None (spendables d))
              end
          end
      end
  end.

(** What is left once the outputs are collected. *)
Definition track_collected (d : Dirs) : migration :=
  match read_dir OpenSpendable (spendables d) ≫= read_all with
  | None => MigrationPanicked None d
  | Some outputs =>
      if negb (io TrackOutputs) then MigrationPanicked None d
      else
        match spendables d with
        | None => MigrationPanicked (Some outputs) d
        | Some _ =>
            if negb (io RemoveSpendables) then MigrationPanicked (Some outputs) d
            else
              let d := mkDirs (pending_spendables d) (processing_spendables d) None in
              match pending_spendables d with
              | None => MigrationPanicked (Some outputs) d
              | Some _ =>
                  if negb (io RemovePending) then MigrationPanicked (Some outputs) d
                  else Migrated outputs (mkDirs None (processing_spendables d) None)
              end
        end
  end.

Definition migrate_deprecated_spendable_outputs (d : Dirs) (key : bytes) : migration :=
  match pending_spendables d, processing_spendables d, spendables d with
  | None, None, None => NothingToMigrate
  | _, _, _ =>
      match collect d key with
      | Err d => MigrationPanicked None d
      | Ok d => track_collected d
      end
  end.
End migration.

(** ** Lemmas *)

(** Enough fuel is the length; more changes nothing. *)
Lemma read_file_fuel n m b :
  (length b <= n)%nat -> (length b <= m)%nat -> read_file n b = read_file m b.
Proof.
  revert m b. induction n as [|n IH]; intros m b Hn Hm.
  - destruct b; [by destruct m|cbn in Hn; lia].
  - destruct b as [|x b]; [by destruct m|]. destruct m as [|m]; [cbn in Hm; lia|]. cbn.
    destruct (read_descriptor (x :: b)) as [[d rest]|] eqn:E; [|done].
    apply read_consumes in E. cbn in *. f_equal. apply IH; lia.
Qed.

Lemma read_outputs_step b d rest :
  read_descriptor b = Some (d, rest) -> read_outputs b = cons d <$> read_outputs rest.
Proof.
  intros E. pose proof (read_consumes _ _ _ E) as Hlt. unfold read_outputs.
  destruct b as [|x b]; [cbn in Hlt; lia|]. cbn [length read_file]. rewrite E. f_equal.
  apply read_file_fuel; cbn in *; lia.
Qed.

(** Concatenating files concatenates their descriptors. *)
Lemma read_outputs_app b b' ds ds' :
  read_outputs b = Some ds -> read_outputs b' = Some ds' -> read_outputs (b ++ b') = Some (ds ++ ds').
Proof.
  intros Hb Hb'. remember (length b) as n eqn:En. revert b ds En Hb.
  induction (lt_wf n) as [n _ IH]. intros b ds -> Hb. destruct b as [|x b].
  { cbn in Hb. injection Hb as <-. done. }
  destruct (read_descriptor (x :: b)) as [[d rest]|] eqn:E.
  - rewrite (read_outputs_step _ _ _ E) in Hb.
    destruct (read_outputs rest) as [ds1|] eqn:Er; cbn in Hb; [|done]. injection Hb as <-.
    rewrite (read_outputs_step _ _ _ (read_app _ _ _ b' E)).
    rewrite (IH (length rest) (read_consumes _ _ _ E) rest ds1) by done. done.
  - unfold read_outputs in Hb. cbn in Hb. by rewrite E in Hb.
Qed.

Lemma read_outputs_concat files dss :
  Forall2 (fun b ds => read_outputs b = Some ds) files dss ->
  read_outputs (concat files) = Some (concat dss).
Proof. induction 1 as [|b ds files dss Hb _ IH]; cbn; [done|]. by apply read_outputs_app. Qed.

Lemma read_all_cons b files :
  read_all (b :: files)
  = match read_outputs b, read_all files with Some ds, Some rest => Some (ds ++ rest) | _, _ => None end.
Proof.
  unfold read_all. cbn. destruct (read_outputs b); cbn; [|done]. by destruct (mapM read_outputs files).
Qed.

Lemma read_all_concat files ds : read_all files = Some ds -> read_outputs (concat files) = Some ds.
Proof.
  revert ds. induction files as [|b files IH]; intros ds; [by intros [= <-]|]. rewrite read_all_cons.
  destruct (read_outputs b) as [d|] eqn:Eb; [|done]. destruct (read_all files) as [rest|]; [|done].
  intros [= <-]. cbn. apply read_outputs_app; auto.
Qed.

(** The order in which files are listed does not matter. *)
Lemma read_all_perm files files' ds :
  files ≡ₚ files' -> read_all files = Some ds -> exists ds', read_all files' = Some ds' /\ ds' ≡ₚ ds.
Proof.
  intros Hp. revert ds. induction Hp as [|b l l' _ IH|a b l|l1 l2 l3 _ IH1 _ IH2]; intros ds.
  - eauto.
  - rewrite !read_all_cons. destruct (read_outputs b); [|done].
    destruct (read_all l) as [r|]; [|done]. intros [= <-].
    destruct (IH r eq_refl) as (r' & -> & Hr). eexists. split; [done|]. by rewrite Hr.
  - rewrite !read_all_cons. destruct (read_outputs a) as [x|], (read_outputs b) as [y|]; try done;
      destruct (read_all l) as [r|]; try done. intros [= <-]. eexists. split; [done|].
    rewrite !(assoc_L (++)). apply Permutation_app_tail, Permutation_app_comm.
  - intros Hd. destruct (IH1 _ Hd) as (d2 & H2 & P2). destruct (IH2 _ H2) as (d3 & H3 & P3).
    exists d3. split; [done|]. by rewrite P3.
Qed.

(** The files that are moved. *)
Definition is_output (file : string * bytes) : Prop := String.length file.1 = 64%nat.
#[global] Instance is_output_dec file : Decision (is_output file).
Proof. unfold is_output. apply _. Defined.
Definition moved (p : dir) : list (string * bytes) := filter is_output (map_to_list p).

(** A move that succeeds. *)
Definition moved_file (d : Dirs) (file : string * bytes) : Dirs :=
  if decide (is_output file)
  then mkDirs (delete file.1 <$> pending_spendables d)
         (Some (<[file.1 := file.2]> (default ∅ (processing_spendables d)))) (spendables d)
  else d.

Lemma move_files_ok io d l :
  (forall o, io o = true) -> move_files io d l = Ok (foldl moved_file d l).
Proof.
  intros Hio. revert d. induction l as [|f l IH]; intros d; cbn [move_files foldl]; [done|].
  assert (move_file io d f = Ok (moved_file d f)) as ->; [|apply IH].
  unfold move_file, moved_file, is_output. rewrite !Hio. cbn.
  by destruct (Nat.eqb_spec (String.length f.1) 64); case_decide.
Qed.

Lemma read_dir_ok io op d :
  (forall o, io o = true) -> read_dir io op d = Some (snd <$> map_to_list (default ∅ d)).
Proof.
  intros Hio. unfold read_dir. rewrite (proj2 (forallb_forall _ _)); [done|]. intros. apply Hio.
Qed.

Lemma moved_files_spec l d :
  NoDup l.*1 ->
  (forall f, f ∈ l -> default ∅ (processing_spendables d) !! f.1 = None) ->
  let d' := foldl moved_file d l in
  spendables d' = spendables d /\
  (is_Some (pending_spendables d) -> is_Some (pending_spendables d')) /\
  map_to_list (default ∅ (processing_spendables d'))
    ≡ₚ map_to_list (default ∅ (processing_spendables d)) ++ filter is_output l /\
  (filter is_output l = [] -> d' = d).
Proof.
  revert d. induction l as [|f l IH]; intros d Hnd Hf; cbn [foldl].
  { split_and!; [done|done|by rewrite app_nil_r|done]. }
  cbn in Hnd. apply NoDup_cons in Hnd as [Hfl Hnd]. unfold moved_file at 2 4 6 8.
  destruct (decide (is_output f)) as [Ho|Ho].
  - rewrite filter_cons_True by done.
    destruct (IH (mkDirs (delete f.1 <$> pending_spendables d)
      (Some (<[f.1 := f.2]> (default ∅ (processing_spendables d)))) (spendables d))) as (H1 & H2 & H3 & _).
    + done.
    + intros g Hg. cbn. rewrite lookup_insert_ne; [apply Hf; set_solver|].
      intros E. apply Hfl. rewrite E. by apply list_elem_of_fmap_2.
    + split_and!; [done| | |done].
      * intros [p Hp]. apply H2. cbn. by rewrite Hp.
      * rewrite H3. cbn. rewrite map_to_list_insert by (apply Hf; set_solver).
        destruct f. cbn. by rewrite Permutation_middle.
  - rewrite filter_cons_False by done. apply IH; [done|]. intros g Hg. apply Hf. set_solver.
Qed.

Lemma moved_pending_spec d p :
  pending_spendables d = Some p -> processing_spendables d = None ->
  let d' := foldl moved_file d (map_to_list p) in
  spendables d' = spendables d /\ is_Some (pending_spendables d') /\
  map_to_list (default ∅ (processing_spendables d')) ≡ₚ moved p /\ (moved p = [] -> d' = d).
Proof.
  intros Hp Hq. destruct (moved_files_spec (map_to_list p) d) as (H1 & H2 & H3 & H4).
  - apply NoDup_fst_map_to_list.
  - intros f _. by rewrite Hq.
  - split_and!; [done|apply H2; by rewrite Hp| |done]. by rewrite H3, Hq.
Qed.

(** The contents of a directory. *)
Definition contents (d : option dir) : list bytes := snd <$> map_to_list (default ∅ d).

(** Reading the directory after the new file has been added. *)
Lemma read_all_insert (sp : dir) key b ds ss :
  sp !! key = None -> read_outputs b = Some ds -> read_all (contents (Some sp)) = Some ss ->
  exists outs, read_all (contents (Some (<[key := b]> sp))) = Some outs /\ outs ≡ₚ ds ++ ss.
Proof.
  intros Hk Hb Hs. unfold contents in *. cbn in *.
  destruct (read_all_perm (b :: (snd <$> map_to_list sp)) (snd <$> map_to_list (<[key := b]> sp)) (ds ++ ss))
    as (outs & Ho & Hp); [|by rewrite read_all_cons, Hb, Hs|by exists outs].
  by rewrite map_to_list_insert.
Qed.

(** C38: the migration hands every old output to the sweeper, once.  When the pending folder
    exists and no earlier attempt was interrupted, the new file's name is not taken, every file
    decodes, there is something to migrate (a folder of collected files, or a pending output
    that is not empty), and the file system, the store and the sweeper accept what they are
    asked, the descriptors tracked are, up to order, exactly those of the pending files that
    carry a full name and of the files already collected, and neither directory is left. *)
Theorem migration_complete io d p key ps ss :
  (forall o, io o = true) ->
  pending_spendables d = Some p -> processing_spendables d = None ->
  default ∅ (spendables d) !! hex_str key = None ->
  read_all (snd <$> moved p) = Some ps -> read_all (contents (spendables d)) = Some ss ->
  is_Some (spendables d) \/ concat (snd <$> moved p) <> [] ->
  exists outs d', migrate_deprecated_spendable_outputs io d key = Migrated outs d' /\
    outs ≡ₚ ps ++ ss /\ pending_spendables d' = None /\ spendables d' = None.
Proof.
  intros Hio Hp Hq Hk Hps Hss Hsome. unfold migrate_deprecated_spendable_outputs, collect, track_collected.
  rewrite Hp, move_files_ok by done.
  destruct (moved_pending_spec d p Hp Hq) as (Hs & [p' Hp'] & Hmv & _).
  set (d1 := foldl moved_file d (map_to_list p)) in *. rewrite (read_dir_ok io ReadProcessing) by done.
  assert (snd <$> moved p ≡ₚ contents (processing_spendables d1)) as Hperm
    by (unfold contents; by rewrite Hmv).
  destruct (read_all_perm _ _ _ Hperm Hps) as (ps' & Hps' & Pps).
  apply read_all_concat in Hps'. fold (contents (processing_spendables d1)).
  destruct (concat (contents (processing_spendables d1))) as [|x b] eqn:Ec.
  - injection Hps' as <-. apply Permutation_nil in Pps. subst ps.
    rewrite read_dir_ok, Hs by done. destruct Hsome as [[sp Hsp]|Hne].
    + fold (contents (spendables d)). cbn [mbind option_bind]. rewrite Hss, Hsp, !Hio. cbn. rewrite Hp'. eauto 10.
    + destruct Hne. apply length_zero_iff_nil. apply (f_equal (@length Z)) in Ec.
      by rewrite Hperm.
  - rewrite !Hio. cbn [negb spendables pending_spendables processing_spendables]. rewrite Hs.
    assert (read_all (contents (Some (default ∅ (spendables d)))) = Some ss) as Hss'
      by (unfold contents in *; by destruct (spendables d)).
    destruct (read_all_insert _ (hex_str key) _ _ _ Hk Hps' Hss') as (outs & Ho & Po).
    rewrite read_dir_ok by done. cbn [mbind option_bind].
    fold (contents (Some (<[hex_str key := x :: b]> (default ∅ (spendables d))))).
    rewrite Ho, Hp', ?Hio. cbn. eexists _, _. split; [done|]. by rewrite Po, Pps.
Qed.

(** A data directory whose pending folder holds no output, with nothing collected yet:
    removing the folder that was never created panics, and the next start finds the
    same directories. *)
Lemma migration_panics_forever io d p key :
  pending_spendables d = Some p -> processing_spendables d = None -> spendables d = None ->
  moved p = [] -> (forall o, io o = true) ->
  migrate_deprecated_spendable_outputs io d key = MigrationPanicked (Some []) d.
Proof.
  intros Hp Hq Hs Hm Hio. unfold migrate_deprecated_spendable_outputs, collect.
  rewrite Hp, move_files_ok by done.
  destruct (moved_pending_spec d p Hp Hq) as (_ & _ & _ & Heq). rewrite (Heq Hm), Hq.
  rewrite read_dir_ok by done. change (concat (snd <$> map_to_list (default ∅ (@None dir)))) with (@nil Z).
  cbn. unfold track_collected. rewrite read_dir_ok, Hs, Hio by done. done.
Qed.

(** ** No output is lost *)

(** The bytes [b] are part of a collected file. *)
Definition kept (b : bytes) (sp : option dir) : Prop :=
  exists name x y, default ∅ sp !! name = Some (x ++ b ++ y).

(** The bytes [b] of an output file are on the disk. *)
Definition stored (b : bytes) (d : Dirs) : Prop :=
  (exists name, default ∅ (pending_spendables d) !! name = Some b /\ String.length name = 64%nat) \/
  (exists name, default ∅ (processing_spendables d) !! name = Some b) \/ kept b (spendables d).

(** While files are moved, with [l] left. *)
Definition moving (b : bytes) (l : list (string * bytes)) (d : Dirs) : Prop :=
  (exists name, (name, b) ∈ l /\ String.length name = 64%nat) \/
  (exists name, default ∅ (processing_spendables d) !! name = Some b) \/ kept b (spendables d).

Definition to_move (l : list (string * bytes)) (d : Dirs) : Prop :=
  NoDup l.*1 /\ forall f, f ∈ l -> default ∅ (pending_spendables d) !! f.1 = Some f.2 /\
    default ∅ (processing_spendables d) !! f.1 = None.

Lemma moving_stored b l d : to_move l d -> moving b l d -> stored b d.
Proof.
  intros [_ Hl] [(n & Hn & Hlen)|[?|?]]; [|by right; left|by right; right].
  left. exists n. split; [|done]. by apply (Hl (n, b)).
Qed.

(** One file: whatever fails, nothing is lost. *)
Lemma move_file_keeps io b f l d :
  to_move (f :: l) d -> moving b (f :: l) d ->
  match move_file io d f with
  | Ok d' => to_move l d' /\ moving b l d' /\ spendables d' = spendables d
  | Err d' => stored b d'
  end.
Proof.
  intros Hl Hb. pose proof (moving_stored _ _ _ Hl Hb) as Hst. destruct Hl as [Hnd Hl].
  cbn in Hnd. apply NoDup_cons in Hnd as [Hf Hnd]. unfold move_file.
  destruct (io (ListPending f.1)); [|done]. cbn.
  destruct (Nat.eqb_spec (String.length f.1) 64) as [Hlen|Hlen].
  - destruct (io (CreateProcessing f.1)); [|done]. cbn. destruct (io (Rename f.1)); [|exact Hst]. cbn.
    split; [split; [done|]|split; [|done]].
    + intros g Hg. destruct (Hl g) as [Hp Hq]; [set_solver|].
      assert (f.1 <> g.1) by (intros E; apply Hf; rewrite E; by apply list_elem_of_fmap_2). cbn.
      destruct (pending_spendables d); cbn in *; [|done]. by rewrite lookup_delete_ne, lookup_insert_ne.
    + destruct Hb as [(n & [<-|Hn]%elem_of_cons & Hlen')|[(n & Hn)|Hk]]; [| | |by right; right].
      * right; left. exists n. cbn. by rewrite lookup_insert_eq.
      * left. eauto.
      * right; left. exists n. cbn. rewrite lookup_insert_ne; [done|]. intros <-.
        destruct (Hl f) as [_ Hq]; [set_solver|]. by rewrite Hq in Hn.
  - split; [split; [done|]|split; [|done]]; [intros g Hg; apply Hl; set_solver|].
    destruct Hb as [(n & [<-|Hn]%elem_of_cons & Hlen')|Hb]; [done|left; eauto|by right].
Qed.

Lemma move_files_keep io b l d :
  to_move l d -> moving b l d ->
  match move_files io d l with
  | Ok d' => moving b [] d' /\ spendables d' = spendables d
  | Err d' => stored b d'
  end.
Proof.
  revert d. induction l as [|f l IH]; intros d Hl Hb; cbn [move_files]; [done|].
  pose proof (move_file_keeps io b f l d Hl Hb) as Hf. destruct (move_file io d f) as [d1|d1]; [|done].
  destruct Hf as (Hl1 & Hb1 & Es). rewrite <- Es. by apply IH.
Qed.

(** The names the migration may take over are free. *)
Definition names_free (key : bytes) (d : Dirs) : Prop :=
  default ∅ (spendables d) !! hex_str key = None /\
  forall name, is_Some (default ∅ (pending_spendables d) !! name) ->
    default ∅ (processing_spendables d) !! name = None.

Lemma kept_insert b sp key f :
  default ∅ sp !! key = None -> kept b sp -> kept b (Some (<[key := f]> (default ∅ sp))).
Proof.
  intros Hk (n & x & y & Hn). exists n, x, y. cbn. rewrite lookup_insert_ne; [done|]. congruence.
Qed.

Lemma collect_keeps io b d key :
  names_free key d -> stored b d ->
  match collect io d key with
  | Ok d' => (exists name, default ∅ (processing_spendables d') !! name = Some b) \/ kept b (spendables d')
  | Err d' => stored b d'
  end.
Proof.
  intros [Hkey Hfree] Hb. unfold collect. destruct (pending_spendables d) as [p|] eqn:Ep.
  2: { destruct Hb as [(n & Hn & _)|Hb]; [|done]. by rewrite Ep in Hn. }
  assert (to_move (map_to_list p) d) as Hl.
  { split; [apply NoDup_fst_map_to_list|]. intros [n c] Hn%elem_of_map_to_list. rewrite Ep in *. cbn.
    split; [done|]. apply Hfree. by exists c. }
  assert (moving b (map_to_list p) d) as Hm.
  { destruct Hb as [(n & Hn & Hlen)|Hb]; [left|by right]. exists n. rewrite Ep in Hn. cbn in Hn.
    by rewrite elem_of_map_to_list. }
  pose proof (move_files_keep io b _ d Hl Hm) as Hd.
  destruct (move_files io d (map_to_list p)) as [d1|d1]; [|done]. destruct Hd as [Hd Es].
  destruct Hd as [(n & []%elem_of_nil & _)|Hd]. rewrite <- Es in Hkey.
  assert (stored b d1) as Hst by (by right).
  destruct (read_dir io ReadProcessing (processing_spendables d1)) as [files|] eqn:Ef; [|done].
  destruct (concat files) as [|x bs] eqn:Ec; [done|]. destruct (io WriteOutputs); [|done]. cbn.
  assert (kept b (Some (<[hex_str key := x :: bs]> (default ∅ (spendables d1))))) as Hk.
  { destruct Hd as [(n & Hn)|?]; [|by apply kept_insert]. unfold read_dir in Ef.
    destruct (forallb _ _); [|done]. injection Ef as <-.
    apply elem_of_map_to_list, list_elem_of_split in Hn as (l1 & l2 & Hn). rewrite Hn, fmap_app in Ec.
    exists (hex_str key), (concat (snd <$> l1)), (concat (snd <$> l2)). cbn. rewrite lookup_insert_eq, <- Ec.
    by rewrite concat_app. }
  destruct (io RemoveProcessing); cbn; [by right|]. by right; right.
Qed.

(** Where the bytes of an output are when the migration has ended. *)
Definition accounted (b : bytes) (m : migration) : Prop :=
  match m with
  | NothingToMigrate => False
  | MigrationPanicked None d => stored b d
  | MigrationPanicked (Some outs) d | Migrated outs d =>
      stored b d \/ exists sp, kept b sp /\ read_all (contents sp) = Some outs
  end.

Lemma track_accounts io b d :
  (exists name, default ∅ (processing_spendables d) !! name = Some b) \/ kept b (spendables d) ->
  accounted b (track_collected io d).
Proof.
  intros Hc. unfold track_collected.
  destruct (read_dir io OpenSpendable (spendables d) ≫= read_all) as [outs|] eqn:E; [|by right].
  assert (forall d', processing_spendables d' = processing_spendables d ->
    stored b d' \/ exists sp, kept b sp /\ read_all (contents sp) = Some outs) as Hgone.
  { intros d' Ed. destruct Hc as [Hc|Hc]; [left; right; left; by rewrite Ed|right].
    exists (spendables d). split; [done|]. revert E. unfold read_dir. by destruct (forallb _ _). }
  destruct (io TrackOutputs); [|by right]. cbn. destruct (spendables d) eqn:Es; [|by apply Hgone].
  destruct (io RemoveSpendables); [|by apply Hgone]. cbn.
  destruct (pending_spendables d); [|by apply Hgone]. by destruct (io RemovePending); apply Hgone.
Qed.

End sweep.

(** ** A reader: a descriptor is one byte, its value *)

Definition demo_reader : DescriptorReader.
Proof.
  refine {| read_descriptor b := match b with x :: rest => Some (StaticOutput x, rest) | [] => None end |}.
  - intros [|x b] d rest; [done|]. intros [= _ <-]. cbn. lia.
  - intros [|x b] d rest b'; [done|]. by intros [= <- <-].
Defined.

Definition demo_name : string := hex_str (replicate 32 171).
Definition demo_dirs : Dirs :=
  mkDirs (Some (<[demo_name := [5; 6]]> (<["tmp"%string := [9]]> ∅))) None
    (Some (<["old"%string := [7]]> ∅)).

Lemma migration_complete_witness :
  exists outs d', migrate_deprecated_spendable_outputs (H := demo_reader) (fun _ => true) demo_dirs [1; 2]
    = Migrated outs d' /\ outs ≡ₚ [StaticOutput 5; StaticOutput 6; StaticOutput 7] /\
    pending_spendables d' = None /\ spendables d' = None.
Proof.
  apply (migration_complete (H := demo_reader) (fun _ => true) demo_dirs
    (<[demo_name := [5; 6]]> (<["tmp"%string := [9]]> ∅)) [1; 2] [StaticOutput 5; StaticOutput 6]
    [StaticOutput 7]); [reflexivity|reflexivity|reflexivity|vm_compute; reflexivity..|].
  left. by eexists.
Defined.

