(* ===== verification/Mock.v ===== *)
(** * A concrete world ([src/src/integration_tests.rs])

    The test suite's [MockOperator], with clock, LDK and disk answers around it: an
    instance of [CardanoOperator] and [Env] on which the handlers can be evaluated.
    The methods that only [OperatorAgent] has (the last four of [mock_operate]) succeed.
    The mock's [query_delay] lets the clock advance.
    The third-party functions of [Externals] are instantiated by simple functions
    with their documented behaviour (invoices are strings, hashes are hexadecimal). *)

From S2P Require Import Prelude Effects HexUtils Mapping Types RateLimiter World.

(** ** Third-party functions *)

Lemma hex_digit_ascii d : 0 <= d < 16 -> (Ascii.N_of_ascii (hex_digit d) <? 128)%N = true.
Proof.
  intros Hd. assert (d ∈ seqZ 0 16) as Hin by (apply elem_of_seqZ; lia). clear Hd. revert d Hin.
  apply Forall_forall. vm_compute. by repeat constructor.
Qed.

Lemma hex_str_ascii h : is_ascii (hex_str (map wrap_u8 h)) = true.
Proof.
  induction h as [|b h IH]; [done|]. cbn [map hex_str is_ascii].
  assert (0 <= wrap_u8 b < 256) by (unfold wrap_u8; apply Z.mod_pos_bound; lia).
  rewrite IH, !hex_digit_ascii; [done|apply Z.mod_pos_bound; lia|].
  split; [apply Z.div_pos; lia|apply Z.div_lt_upper_bound; lia].
Qed.

(** An invoice of the mock: its text, hash, and optional amount. *)
Record MockInvoice := mkMockInvoice {
  mi_text : string;
  mi_hash : bytes;
  mi_amount : option Z;
}.

Definition bytes_of (s : string) : bytes := map byte_of (String.list_ascii_of_string s).

(** Regtest invoices start with [lnbcrt] and mainnet invoices with [lnbc1]; the mock's carry
    4,000,000 millisatoshi, or 50,000,000 when an [m] follows [lnbcrt] or [lnbc1]. *)
Definition mock_parse (s : string) : result MockInvoice string :=
  if starts_with s "lnbcrtm" || starts_with s "lnbc1m"
  then Ok (mkMockInvoice s (bytes_of s) (Some 50000000))
  else if starts_with s "lnbcrt" then Ok (mkMockInvoice s (bytes_of s) (Some 4000000))
  else Err "ParseError"%string.
Definition mock_currency (i : MockInvoice) : Currency :=
  if starts_with (mi_text i) "lnbcrt" then Regtest else Bitcoin.

(** Offers start with [lno1]; [lno1fix] carries 5000 millisatoshi. *)
Record MockOffer := mkMockOffer { mo_text : string; mo_amount : option Z }.
Definition mock_offer (s : string) : option MockOffer :=
  if starts_with s "lno1fix" then Some (mkMockOffer s (Some 5000))
  else if starts_with s "lno1" then Some (mkMockOffer s None)
  else None.

Definition mock_externals (op_addr : string) : Externals := {|
  CardanoError := string;
  error_display := id;
  available s := ChainState.total_liquidity s - ChainState.reserved s;
  operator_address := op_addr;
  Bolt11Invoice := MockInvoice;
  bolt11_from_str := mock_parse;
  bolt11_to_string := mi_text;
  invoice_payment_hash := mi_hash;
  invoice_payment_secret _ := [1; 2; 3];
  invoice_currency := mock_currency;
  currency_debug c := match c with Bitcoin => "Bitcoin"%string | _ => "Regtest"%string end;
  amount_milli_satoshis := mi_amount;
  payment_hash_display h := hex_str (map wrap_u8 h);
  payment_hash_hex h := hex_str_ascii h;
  sha256_display := hex_str;
  preimage_display := hex_str;
  bech32_decode s :=
    if starts_with s "addr_test1" then Ok ("addr_test"%string, replicate 57 1)
    else if starts_with s "addr1" then Ok ("addr"%string, replicate 57 1)
    else Err "MissingSeparator"%string;
  from_base32 := Ok;
  hex_encode := hex_str;
  sha256 := id;
  description_fits s := (String.length s <=? 639)%nat;
  pubkey_from_slice b := if (length b =? 33)%nat then Some b else None;
  pubkey_from_str s :=
    if (String.length s =? 66)%nat then to_vec s else None;
  Offer := MockOffer;
  offer_from_str := mock_offer;
  offer_amount o := BitcoinAmount <$> mo_amount o;
  HumanReadableName := string;
  hrn_from_encoded s := if str_contains s "@" then Some s else None;
|}.

#[global] Instance testnet : Externals := mock_externals "addr_test1_mock_operator".

(** ** [MockOperator] *)

Record MockOperator := mkMock {
  invoices : list Invoice.t;
  offramps : list ChainOfframp.t;
  next_invoice_id : Z;
  next_offramp_id : Z;
  fail_submit : bool;
  fail_fulfill_offramp : bool;
  fail_query_state : bool;
  fail_send_cbtc : bool;
  fail_cancel_offramp : bool;
  query_delay : option Z;       (** milliseconds *)
  submit_count : Z;
}.

Definition mock_new : MockOperator := mkMock [] [] 1 1 false false false false false None 0.

Definition with_invoices (l : list Invoice.t) (m : MockOperator) : MockOperator :=
  mkMock l (offramps m) (next_invoice_id m) (next_offramp_id m) (fail_submit m)
    (fail_fulfill_offramp m) (fail_query_state m) (fail_send_cbtc m) (fail_cancel_offramp m) (query_delay m)
    (submit_count m).
Definition with_offramps (l : list ChainOfframp.t) (m : MockOperator) : MockOperator :=
  mkMock (invoices m) l (next_invoice_id m) (next_offramp_id m) (fail_submit m)
    (fail_fulfill_offramp m) (fail_query_state m) (fail_send_cbtc m) (fail_cancel_offramp m) (query_delay m)
    (submit_count m).
Definition with_fail_submit (m : MockOperator) : MockOperator :=
  mkMock (invoices m) (offramps m) (next_invoice_id m) (next_offramp_id m) true
    (fail_fulfill_offramp m) (fail_query_state m) (fail_send_cbtc m) (fail_cancel_offramp m) (query_delay m)
    (submit_count m).
Definition with_fail_fulfill_offramp (m : MockOperator) : MockOperator :=
  mkMock (invoices m) (offramps m) (next_invoice_id m) (next_offramp_id m) (fail_submit m)
    true (fail_query_state m) (fail_send_cbtc m) (fail_cancel_offramp m) (query_delay m)
    (submit_count m).
Definition with_fail_send_cbtc (m : MockOperator) : MockOperator :=
  mkMock (invoices m) (offramps m) (next_invoice_id m) (next_offramp_id m) (fail_submit m)
    (fail_fulfill_offramp m) (fail_query_state m) true (fail_cancel_offramp m) (query_delay m)
    (submit_count m).
Definition with_fail_cancel_offramp (m : MockOperator) : MockOperator :=
  mkMock (invoices m) (offramps m) (next_invoice_id m) (next_offramp_id m) (fail_submit m)
    (fail_fulfill_offramp m) (fail_query_state m) (fail_send_cbtc m) true (query_delay m)
    (submit_count m).
Definition with_fail_query_state (m : MockOperator) : MockOperator :=
  mkMock (invoices m) (offramps m) (next_invoice_id m) (next_offramp_id m) (fail_submit m)
    (fail_fulfill_offramp m) true (fail_send_cbtc m) (fail_cancel_offramp m) (query_delay m)
    (submit_count m).
Definition with_query_delay (delay : Z) (m : MockOperator) : MockOperator :=
  mkMock (invoices m) (offramps m) (next_invoice_id m) (next_offramp_id m) (fail_submit m)
    (fail_fulfill_offramp m) (fail_query_state m) (fail_send_cbtc m) (fail_cancel_offramp m)
    (Some delay) (submit_count m).

Definition add_invoice (i : Invoice.t) (m : MockOperator) : MockOperator :=
  with_invoices (invoices m ++ [i]) m.
Definition add_offramp (o : ChainOfframp.t) (m : MockOperator) : MockOperator :=
  with_offramps (offramps m ++ [o]) m.

(** [retain(|i| i.invoice_id != invoice_id)]: as if fulfilled on-chain. *)
Definition remove_invoice (id : Z) (m : MockOperator) : MockOperator :=
  with_invoices (List.filter (fun i => negb (Invoice.invoice_id i =? id)) (invoices m)) m.
Definition remove_offramp (id : Z) (m : MockOperator) : MockOperator :=
  with_offramps (List.filter (fun o => negb (ChainOfframp.offramp_id o =? id)) (offramps m)) m.

Definition mock_state (m : MockOperator) : ChainState.t :=
  ChainState.mk 1000000 0
    (default 0 (Invoice.invoice_id <$> last (invoices m))) (invoices m)
    (default 0 (ChainOfframp.offramp_id <$> last (offramps m))) (offramps m).

Definition mock_create_invoice (amount : Z) (owner : string) (ts exp : Z) (m : MockOperator) :
  (Z * string) * MockOperator :=
  let id := next_invoice_id m in
  ((id, "mock_create_invoice_signed_tx"%string),
   mkMock (invoices m ++ [Invoice.mk id amount owner ts exp]) (offramps m) (id + 1)
     (next_offramp_id m) (fail_submit m) (fail_fulfill_offramp m) (fail_query_state m)
     (fail_send_cbtc m) (fail_cancel_offramp m) (query_delay m) (submit_count m)).

Definition mock_create_offramp (amount : Z) (h refund : string) (exp : Z) (m : MockOperator) :
  (Z * string) * MockOperator :=
  let id := next_offramp_id m in
  ((id, "mock_create_offramp_signed_tx"%string),
   mkMock (invoices m) (offramps m ++ [ChainOfframp.mk id amount h refund exp])
     (next_invoice_id m) (id + 1) (fail_submit m) (fail_fulfill_offramp m) (fail_query_state m)
     (fail_send_cbtc m) (fail_cancel_offramp m) (query_delay m) (submit_count m)).

Definition count_submit (m : MockOperator) : MockOperator :=
  mkMock (invoices m) (offramps m) (next_invoice_id m) (next_offramp_id m) (fail_submit m)
    (fail_fulfill_offramp m) (fail_query_state m) (fail_send_cbtc m) (fail_cancel_offramp m) (query_delay m)
    (submit_count m + 1).

Definition mock_operate (r : OpReq) (m : MockOperator) : op_resp r * MockOperator :=
  match r with
  | QueryState =>
      if fail_query_state m then (Err "mock query_state failure"%string, m)
      else (Ok (mock_state m), m)
  | CreateInvoice a o t e => let '(x, m) := mock_create_invoice a o t e m in (Ok x, m)
  | FulfillInvoice _ _ => (Ok "mock_fulfill_invoice_signed_tx"%string, m)
  | CreateOfframp a h r e => let '(x, m) := mock_create_offramp a h r e m in (Ok x, m)
  | FulfillOfframp _ =>
      if fail_fulfill_offramp m then (Err "mock fulfill_offramp failure"%string, m)
      else (Ok "mock_fulfill_offramp_signed_tx"%string, m)
  | CancelOfframp _ =>
      if fail_cancel_offramp m then (Err "mock cancel_offramp failure"%string, m)
      else (Ok "mock_cancel_offramp_signed_tx"%string, m)
  | SendCbtc _ _ =>
      if fail_send_cbtc m then (Err "mock send_cbtc failure"%string, m)
      else (Ok "mock_send_cbtc_signed_tx"%string, m)
  | SubmitTx _ =>
      if fail_submit m then (Err "mock submit_tx failure"%string, m)
      else (Ok "mock_tx_hash_abc123"%string, count_submit m)
  | CancelInvoice _ => (Ok "mock_cancel_invoice_signed_tx"%string, m)
  | VerifyCbtcReceived _ _ => (Ok true, m)
  | Deposit _ => (Ok "mock_deposit_signed_tx"%string, m)
  | Withdraw _ => (Ok "mock_withdraw_signed_tx"%string, m)
  end.

(** How long the answer takes: a state query that does not fail first sleeps. *)
Definition mock_delay (r : OpReq) (m : MockOperator) : Z :=
  match r with
  | QueryState => if fail_query_state m then 0 else default 0 (query_delay m)
  | _ => 0
  end.

#[global] Instance mock_operator : CardanoOperator MockOperator := {| operate := mock_operate |}.

(** ** The environment around it *)

Record World := mkWorld { clock : Z; operator : MockOperator }.

Definition mock_answer (r : Req) (w : World) : resp r * World :=
  match r with
  | ROp r =>
      let '(x, m) := operate r (operator w) in (x, mkWorld (clock w + mock_delay r (operator w)) m)
  | RCreateBolt11 a _ _ => (Ok (mkMockInvoice "lnbcrt1swap" (bytes_of "swap") (Some a)), w)
  | RPayBolt11 _ _ _ => (Ok tt, w)
  | RSendSpontaneous _ _ _ _ => (Ok tt, w)
  | RRandomBytes => (replicate 32 7, w)
  | RListChannels => ([], w)
  | RTrackedOutputs => ([], w)
  | RWalletBalance => (0, w)
  | RCreateFundingTx _ _ => (Ok [0], w)
  | RFundingGenerated _ _ _ => (Ok tt, w)
  | RAcceptChannel _ _ _ => (Ok tt, w)
  | RTrackOutputs _ => (Ok tt, w)
  | RHandleBump _ => (tt, w)
  | RClaimFunds _ => (tt, w)
  | RWriteInbound _ => (Ok tt, w)
  | RWriteOutbound _ => (Ok tt, w)
  | RNow => (Z.to_N (clock w), w)
  | RInstant => (clock w * 1000000, w)
  | RSleep secs => (tt, mkWorld (clock w + secs * 1000) (operator w))
  | RTimeout _ => (None, w)
  | RSpawn _ => (tt, w)
  | RPeerByNodeId _ => (true, w)
  | RDisconnect _ => (tt, w)
  | RBroadcastAnnouncement _ _ => (tt, w)
  | RStopped => (false, w)
  | RConnectOutbound _ _ => (Some 100%nat, w)
  | RSleepMs _ => (tt, w)
  | RResolve a => (match a with Clearnet a => Ok [a] | _ => Err "onion address"%string end, w)
  | RCreateChannel _ _ _ _ _ => (Ok tt, w)
  | RCloseChannel _ _ => (Ok tt, w)
  | RForceClose _ _ _ => (Ok tt, w)
  | RCreateOfferBuilder => (Ok tt, w)
  | RBuildOffer _ => (Ok "lno1built"%string, w)
  | RPayForOffer _ _ _ => (Ok tt, w)
  | RPayForHrn _ _ _ _ => (Ok tt, w)
  | RGraphNodes => ([GraphNode.mk (Some (replicate 33 2)) true true true], w)
  | RNodeAddresses _ => (None, w)
  | RSignMessage _ => ("signature"%string, w)
  end.

#[global] Instance mock_env : Env World := {| answer := mock_answer |}.
