(* ===== verification/Scenarios.v ===== *)
(** * Executions in the test suite's world

    The handlers evaluated against [MockOperator]: instances of the theorems about
    single handlers, an executable scheduler for the interleaving semantics of
    [Pool], and three interleavings that show what the per-row compare-and-set does
    not protect: one cBTC transaction that pays two offramps, a cancellation that
    overtakes a payment, and one invoice in two offramps of which the paid one is
    not completed. *)

From stdpp Require Import relations.
From S2P Require Import Prelude Effects Amounts HexUtils Mapping MappingFacts MappingSpec Types.
From S2P Require Import RateLimiter World Helpers Rows CardanoSwap Payments CardanoOfframp.
From S2P Require Import Recovery Background Api Shell Startup Metrics Events Disk Pool PoolSafety.
From S2P Require Import Persistence Gate Validity EndToEnd Mock.

(** ** A relay and its world *)

Definition demo_relay (db : SwapDb.t) : Relay := mkRelay db ∅ ∅ (limiter_new 10 60).

Definition demo_invoice : Invoice.t := Invoice.mk 7 5000 "pkh" 1000 9000.
Definition demo_chain_offramp : ChainOfframp.t := ChainOfframp.mk 3 4000 "bb" "pkh" 9000.
Definition demo_operator : MockOperator :=
  add_offramp demo_chain_offramp (add_invoice demo_invoice mock_new).
Definition at_time (t : Z) : World := mkWorld t demo_operator.

(** The demo database after the given operations. *)
Definition after (ops : list DbOp) : Relay := demo_relay (apply_ops ops demo_db).2.

Lemma after_wf ops : db_wf (swap_db (after ops)).
Proof. apply apply_ops_wf, demo_db_wf. Qed.

(** ** Swaps *)

Lemma fulfill_swap_correct_witness :
  let r := exec (fulfill_swap "aa") (after []) (at_time 5000) in
  out r = Done tt /\ omap submitted (log r) = ["mock_tx_hash_abc123"%string] /\
  swap_ended "aa" demo_swap (swap_db (after [])) (swap_db (fin r)) (log r).
Proof.
  cbn zeta.
  assert (out (exec (fulfill_swap "aa") (after []) (at_time 5000)) = Done tt) as Ho by (vm_compute; reflexivity).
  split; [exact Ho|]. split; [vm_compute; reflexivity|].
  destruct (fulfill_swap_correct "aa" (after []) (at_time 5000) (after_wf [])) as [Hc _].
  assert (SwapDb.get_by_payment_hash "aa" (swap_db (after [])) = Some demo_swap) as E
    by (vm_compute; reflexivity).
  rewrite E in Hc. destruct (decide (Swap.status demo_swap = SwapStatus.Pending)) as [_|Hn];
    [|by destruct Hn]. rewrite Ho in Hc. exact (proj2 Hc).
Defined.

Lemma fulfill_swap_expired_witness :
  op_log (log (exec (fulfill_swap "aa") (after []) (at_time 9001))) = [].
Proof.
  apply (fulfill_swap_expired "aa" (after []) (at_time 9001) demo_swap (after_wf []));
    [vm_compute; reflexivity|reflexivity|vm_compute; reflexivity].
Defined.

(** The mock shows the invoice at once, does not fail, and its clock is before the expiry. *)
Definition mock_good (i : Invoice.t) (w : World) : Prop :=
  fail_query_state (operator w) = false /\ fail_submit (operator w) = false /\
  clock w = 5000 /\ query_delay (operator w) = None /\ exists l, invoices (operator w) = i :: l.

Lemma mock_responsive i deadline :
  5000 <= deadline -> responsive (mock_good i) (Invoice.invoice_id i) deadline.
Proof.
  intros Hd. split.
  - intros w (Hq & _ & _ & _ & l & Hl). eexists. cbn. rewrite Hq. split; [done|].
    unfold find_invoice. cbn. rewrite Hl. cbn. by rewrite Z.eqb_refl.
  - by eexists.
  - intros w tx (_ & Hs & _). eexists. cbn. by rewrite Hs.
  - intros w (_ & _ & Hc & _). cbn. by rewrite Hc.
  - intros w r (Hq & Hs & Hc & Hd' & l & Hl) Hr. unfold mock_good.
    destruct r; try by edestruct Hr.
    1: destruct r; cbn; repeat case_match; cbn in *; simplify_eq; rewrite ?Hl, ?Hd', ?Z.add_0_r; cbn; eauto 6.
    all: by eauto 6.
Qed.

Lemma fulfill_swap_completes_witness :
  exists hash, SwapDb.get_by_payment_hash "aa"
    (swap_db (fin (exec (fulfill_swap "aa") (after []) (at_time 5000))))
  = Some (Swap.set_status SwapStatus.Completed (Some hash) demo_swap).
Proof.
  destruct (fulfill_swap_completes (mock_good demo_invoice) "aa" (after []) (at_time 5000) demo_swap)
    as (i & tx & hash & _ & _ & _ & E);
    [apply after_wf|vm_compute; reflexivity|reflexivity|by vm_compute; eexists
    |by apply (mock_responsive demo_invoice)|repeat split; by eexists|].
  exists hash. exact E.
Defined.

Lemma mainnet_accepts_test_address_witness :
  validate_address (H := mock_externals "addr1_mock_operator") "addr_test1_user"
    (expected_prefix (H := mock_externals "addr1_mock_operator"))
  = Ok (hex_str (replicate 28 1)).
Proof.
  apply (mainnet_accepts_test_address (H := mock_externals "addr1_mock_operator")
    "addr_test1_user" (replicate 57 1) (replicate 57 1)); reflexivity.
Defined.

(** ** Offramps *)

(** The demo offramp while its invoice is being paid. *)
Definition paying : list DbOp :=
  [OpTransitionOfframp 3 OfframpStatus.AwaitingDeposit OfframpStatus.PendingVerification;
   OpTransitionOfframpCbtcTx 3 "cc" OfframpStatus.PendingVerification OfframpStatus.PayingLightning].

Lemma complete_offramp_correct_witness :
  out (exec (complete_offramp "bb" "preimage") (after paying) (at_time 5000)) = Done tt /\
  Offramp.status <$> SwapDb.get_offramp_by_id 3
    (swap_db (fin (exec (complete_offramp "bb" "preimage") (after paying) (at_time 5000))))
  = Some OfframpStatus.Completed.
Proof.
  split; [|vm_compute; reflexivity].
  exact (proj1 (complete_offramp_correct "bb" "preimage" (after paying) (at_time 5000)
    (after_wf paying))).
Defined.

(** The answer to a verification. *)
Definition verification (e : event resp) : option (result bool string) :=
  match e with existT (ROp (VerifyCbtcReceived _ _)) v => Some v | _ => None end.

(** The deposit of the demo offramp is verified and paid. *)
Lemma process_offramp_deposit_correct_witness :
  let r := exec (process_offramp_deposit 3 "cc") (after []) (at_time 5000) in
  out r = Done (Ok tt) /\ exists m',
    offramp_row 3 m' (swap_db (after [])) (swap_db (fin r)) /\ Offramp.cbtc_tx_hash m' = "cc"%string /\
    Offramp.status m' = OfframpStatus.PayingLightning.
Proof.
  assert (out (exec (process_offramp_deposit 3 "cc") (after []) (at_time 5000)) = Done (Ok tt)) as Eo
    by (vm_compute; reflexivity).
  split; [exact Eo|].
  pose proof (process_offramp_deposit_correct 3 "cc" (after []) (at_time 5000) (after_wf [])) as Hr.
  cbn zeta in Hr. rewrite Eo in Hr.
  assert (SwapDb.get_offramp_by_id 3 (swap_db (after [])) = Some demo_offramp) as E
    by (vm_compute; reflexivity).
  rewrite E, decide_True in Hr by (split; vm_compute; reflexivity).
  destruct Hr as (v & l & m' & El & Hrow & Hv).
  apply (f_equal (fun l => head l ≫= verification)) in El. vm_compute in El.
  injection El as <-.
  exists m'. split; [exact Hrow|]. cbn in Hv. destruct Hv as (Htx & _ & _ & Hst). split; assumption.
Defined.

Lemma payment_failed_correct_witness :
  let r := exec (handle_offramp_payment_failed "bb") (after paying) (at_time 5000) in
  out r = Done tt /\ omap refunds (log r) = [4000].
Proof.
  split; [|vm_compute; reflexivity].
  apply (payment_failed_correct "bb" (after paying) (at_time 5000)), after_wf.
Defined.

(** ** Recovery *)

Definition fulfilling : list DbOp :=
  [OpTransitionStatus "aa" SwapStatus.Pending SwapStatus.Fulfilling None].

Lemma recover_swaps_correct_witness :
  let r := exec recover_fulfilling_swaps (after fulfilling) (at_time 5000) in
  out r = Done tt /\ omap submitted (log r) = ["mock_tx_hash_abc123"%string].
Proof.
  split; [|vm_compute; reflexivity].
  apply (recover_swaps_correct (after fulfilling) (at_time 5000)), after_wf.
Defined.

(** An operator whose queries fail throughout: the swap is marked completed with no
    transaction at all. *)
Lemma recovery_completes_blindly_witness :
  let w := mkWorld 5000 (with_fail_query_state demo_operator) in
  SwapDb.get_by_payment_hash "aa"
    (swap_db (fin (exec recover_fulfilling_swaps (after fulfilling) w)))
  = Some (Swap.set_status SwapStatus.Completed None
            (Swap.set_status SwapStatus.Fulfilling None demo_swap)).
Proof.
  apply (recovery_completes_blindly (after fulfilling)
    (mkWorld 5000 (with_fail_query_state demo_operator)) "aa"
    (Swap.set_status SwapStatus.Fulfilling None demo_swap) (after_wf _));
    vm_compute; reflexivity.
Defined.

(** The offramp of the demo, paid before the crash: the report of the payment does nothing,
    and the monitor finds the offramp when it has expired. *)
Lemma crash_forfeits_payment_witness :
  let r := exec recover_depositing_offramps (after paying) (at_time 5000) in
  exists m', SwapDb.get_offramp_by_id 3 (swap_db (fin r)) = Some m' /\
    log (exec (complete_offramp "bb" "preimage") (fin r) (at_time 6000)) = [] /\
    m' ∈ SwapDb.get_expired_offramps 9001 (swap_db (fin r)).
Proof.
  destruct (crash_forfeits_payment (after paying) (at_time 5000) 3
    (Offramp.with_cbtc_tx "cc" (Offramp.with_status OfframpStatus.PayingLightning demo_offramp)) (after_wf _))
    as (m' & Hm & _ & Hc & He); [vm_compute; reflexivity..|].
  exists m'. split; [exact Hm|]. split.
  - apply (Hc "bb"%string "preimage"%string (at_time 6000)). rewrite <- Hm. vm_compute. reflexivity.
  - apply (He 9001). vm_compute. done.
Defined.

Lemma recover_offramps_correct_witness :
  let r := exec recover_depositing_offramps (after paying) (at_time 5000) in
  out r = Done tt /\
  Offramp.status <$> SwapDb.get_offramp_by_id 3 (swap_db (fin r)) = Some OfframpStatus.Failed.
Proof.
  split; [|vm_compute; reflexivity].
  apply (recover_offramps_correct (after paying) (at_time 5000)), after_wf.
Defined.

(** ** Start-up

    A swap left in [Fulfilling] and an offramp left in [PayingLightning] by a crash. *)

Lemma startup_settles_witness :
  let r := exec (recover_and_reconcile true true) (after (fulfilling ++ paying)) (at_time 5000) in
  out r = Done tt /\
  Swap.status <$> SwapDb.get_by_payment_hash "aa" (swap_db (fin r)) = Some SwapStatus.Completed /\
  Offramp.status <$> SwapDb.get_offramp_by_id 3 (swap_db (fin r)) = Some OfframpStatus.Failed.
Proof.
  split; [|split; vm_compute; reflexivity].
  exact (proj1 (startup_settles true (after (fulfilling ++ paying)) (at_time 5000) (after_wf _))).
Defined.

(** A keysend payment, and a restart after which LDK does not know it any more. *)
Lemma tables_survive_restart_witness :
  let s := after [] in
  let r := exec (payment_prog (PayKeysend [2] 5000)) s (at_time 5000) in
  let fs' := disk_after (H0 := demo_codec) ".ldk" ∅ (log r) in
  synced (H0 := demo_codec) ".ldk" fs' (fin r) /\
  size (outbound_payments (fin r)) = 1%nat.
Proof.
  split; [|vm_compute; reflexivity].
  assert (synced (H0 := demo_codec) ".ldk" ∅ (after [])) as Hs by (split; reflexivity).
  assert (out (exec (payment_prog (PayKeysend [2] 5000)) (after []) (at_time 5000)) = Done tt) as Ho
    by (vm_compute; reflexivity).
  exact (proj1 (tables_survive_restart (H0 := demo_codec) ".ldk" (PayKeysend [2] 5000) []
    (after []) (at_time 5000) ∅ Hs Ho)).
Defined.

(** ** Monitors *)

Lemma swaps_tick_correct_witness :
  let r := exec monitor_expired_swaps_tick (after []) (at_time 9001) in
  out r = Done tt /\
  Swap.status <$> SwapDb.get_by_payment_hash "aa" (swap_db (fin r)) = Some SwapStatus.Expired.
Proof.
  split; [|vm_compute; reflexivity].
  apply (swaps_tick_correct (after []) (at_time 9001)), after_wf.
Defined.

Lemma offramps_tick_correct_witness :
  let r := exec monitor_expired_offramps_tick (after []) (at_time 9001) in
  out r = Done tt /\
  Offramp.status <$> SwapDb.get_offramp_by_id 3 (swap_db (fin r)) = Some OfframpStatus.Failed.
Proof.
  split; [|vm_compute; reflexivity].
  apply (offramps_tick_correct (after []) (at_time 9001)), after_wf.
Defined.

(** ** The API *)

Definition demo_api : ApiState :=
  mkApi (Some "token"%string) 100 100 3600000 "script" "policy" "name".
Definition demo_request : SwapRequest := mkSwapRequest 5000 "addr_test1_user".

Lemma swap_request_then_status_witness :
  exists hash, out (exec (handle_swap_status (hex_str (bytes_of "swap")))
    (fin (exec (handle_swap_request demo_api (V4 1) demo_request) (after []) (at_time 5000)))
    (at_time 6000))
  = Done (Ok (mkSwapStatus (hex_str (bytes_of "swap")) 1 "Pending" None (Some hash))).
Proof.
  destruct (swap_request_then_status demo_api (V4 1) demo_request (after []) (at_time 5000)
    (at_time 6000) (mkSwapResponse 1 "lnbcrt1swap" (hex_str (bytes_of "swap")))) as (hash & E & _);
    [vm_compute; reflexivity|].
  exists hash. exact E.
Defined.

Lemma metrics_correct_witness :
  exec handle_metrics (after []) (at_time 5000)
  = RunResult (Done (mkMetrics (mkCounts 0 1 0 1) (mkCounts 0 1 0 1))) (after []) (at_time 5000) [].
Proof.
  destruct (metrics_correct (after []) (at_time 5000)) as [E _]; [vm_compute; congruence..|].
  replace (table_counts Swap.status _) with (mkCounts 0 1 0 1) in E by (vm_compute; reflexivity).
  replace (table_counts Offramp.status _) with (mkCounts 0 1 0 1) in E by (vm_compute; reflexivity).
  exact E.
Defined.

(** ** An executable scheduler

    A schedule starts handlers and lets them take steps; requests are answered by
    the mock world.  Everything it reaches is reachable in [Pool]. *)

Inductive Choice :=
| Start (t : Task)
| Steps (i n : nat)         (** task [i] takes up to [n] steps *)
| Crash.                    (** the process restarts *)

Definition finishedb (p : relay_prog unit) : bool :=
  match p with Ret _ | Panic _ => true | _ => false end.

Definition may_startb (t : Task) (ts : list (Task * relay_prog unit)) : bool :=
  match t with
  | TDeposit _ _ =>
      forallb (fun tp => match tp.1 with TRecoverOfframps => finishedb tp.2 | _ => true end) ts
  | TRecoverOfframps =>
      forallb (fun tp => match tp.1 with TDeposit _ _ => finishedb tp.2 | _ => true end) ts
  | _ => true
  end.

Section scheduler.
Context (st : ApiState).

Definition one_step (i : nat) (P : pool) (w : World) : pool * World :=
  match tasks P !! i with
  | Some (t, Local f k) =>
      (mkPool (f (shared P)).2 (<[i := (t, k (f (shared P)).1)]> (tasks P)) (trace P), w)
  | Some (t, Call r k) =>
      (mkPool (shared P) (<[i := (t, k (answer r w).1)]> (tasks P) ++ spawned_tasks st r)
         (trace P ++ [(i, existT r (answer r w).1)]), (answer r w).2)
  | _ => (P, w)
  end.

Fixpoint steps (i n : nat) (P : pool) (w : World) : pool * World :=
  match n with
  | O => (P, w)
  | S n => let '(P, w) := one_step i P w in steps i n P w
  end.

Definition choose (c : Choice) (P : pool) (w : World) : pool * World :=
  match c with
  | Start t =>
      if may_startb t (tasks P)
      then (mkPool (shared P) (tasks P ++ [(t, task_prog st t)]) (trace P), w) else (P, w)
  | Steps i n => steps i n P w
  | Crash => (mkPool (shared P) ((fun tp => (tp.1, Ret tt)) <$> tasks P) (trace P), w)
  end.

Fixpoint schedule (cs : list Choice) (P : pool) (w : World) : pool * World :=
  match cs with
  | [] => (P, w)
  | c :: cs => let '(P, w) := choose c P w in schedule cs P w
  end.

Lemma finishedb_finished p : finishedb p = true -> finished p.
Proof. by destruct p. Qed.

Lemma may_startb_may_start t ts : may_startb t ts = true -> may_start t ts.
Proof.
  destruct t; cbn; try done; rewrite forallb_forall; intros Hall.
  - intros p Hp%list_elem_of_In. apply finishedb_finished, (Hall _ Hp).
  - intros ip req p Hp%list_elem_of_In. apply finishedb_finished, (Hall _ Hp).
Qed.

Lemma one_step_steps i P w : rtc (step st) P (one_step i P w).1.
Proof.
  unfold one_step. destruct (tasks P !! i) as [[t [| X f k | r k |]]|] eqn:E; try done.
  - apply rtc_once. by eapply step_local.
  - apply rtc_once. by eapply step_call.
Qed.

Lemma steps_steps i n P w : rtc (step st) P (steps i n P w).1.
Proof.
  revert P w. induction n as [|n IH]; intros P w; cbn; [done|].
  pose proof (one_step_steps i P w) as H1. destruct (one_step i P w). by etrans.
Qed.

Lemma schedule_steps cs P w : rtc (step st) P (schedule cs P w).1.
Proof.
  revert P w. induction cs as [|c cs IH]; intros P w; cbn; [done|].
  assert (rtc (step st) P (choose c P w).1) as H1.
  { destruct c as [t|i n|]; cbn.
    - destruct (may_startb t (tasks P)) eqn:E; [|done].
      apply rtc_once, step_start. by apply may_startb_may_start.
    - apply steps_steps.
    - by apply rtc_once, step_restart. }
  destruct (choose c P w). by etrans.
Qed.

Lemma steps_reachable P P' : reachable st P -> rtc (step st) P P' -> reachable st P'.
Proof. intros HP Hsteps. induction Hsteps; [done|]. eauto using reach_step. Qed.

(** A schedule with no restart that starts no deposit request is one of the start-up. *)
Definition boot_choice (c : Choice) : bool :=
  match c with Start t => negb (opens_deposit t) | Steps _ _ => true | Crash => false end.

Lemma one_step_boots i P w : rtc (boot_step st) P (one_step i P w).1.
Proof.
  unfold one_step. destruct (tasks P !! i) as [[t [| X f k | r k |]]|] eqn:E; try done.
  - apply rtc_once. by eapply boot_local.
  - apply rtc_once. by eapply boot_call.
Qed.

Lemma steps_boot i n P w : rtc (boot_step st) P (steps i n P w).1.
Proof.
  revert P w. induction n as [|n IH]; intros P w; cbn; [done|].
  pose proof (one_step_boots i P w) as H1. destruct (one_step i P w). by etrans.
Qed.

Lemma schedule_boots cs P w :
  forallb boot_choice cs = true -> rtc (boot_step st) P (schedule cs P w).1.
Proof.
  revert P w. induction cs as [|c cs IH]; intros P w; cbn; [done|]. intros [Hc Hcs]%andb_true_iff.
  assert (rtc (boot_step st) P (choose c P w).1) as H1.
  { destruct c as [t|i n|]; cbn in *; [|apply steps_boot|done].
    destruct (may_startb t (tasks P)) eqn:E; [|done]. apply negb_true_iff in Hc.
    apply rtc_once, boot_start; [done|]. by apply may_startb_may_start. }
  specialize (IH (choose c P w).1 (choose c P w).2 Hcs). destruct (choose c P w). by etrans.
Qed.

(** The pool a schedule reaches from a relay with no task in flight. *)
Definition played (cs : list Choice) (s : Relay) (w : World) : pool :=
  (schedule cs (mkPool s [] []) w).1.

Lemma played_reachable cs s w : db_wf (swap_db s) -> reachable st (played cs s w).
Proof.
  intros Hs. eapply steps_reachable; [by apply reach_init|]. apply schedule_steps.
Qed.
End scheduler.

Definition didb (q : Req -> bool) (P : pool) (i : nat) : bool :=
  existsb (fun ie => (ie.1 =? i)%nat && q (projT1 ie.2)) (trace P).

Lemma didb_did (q : Req -> bool) (Q : Req -> Prop) P i :
  (forall r, q r = true -> Q r) -> didb q P i = true -> did P i Q.
Proof.
  intros Hq H. apply existsb_exists in H as ([j e] & Hin & Hb).
  apply andb_true_iff in Hb as [Hj He]. apply Nat.eqb_eq in Hj. cbn in Hj. subst j.
  exists e. split; [by apply list_elem_of_In|]. auto.
Qed.

Definition is_opb (r : Req) : bool := match r with ROp _ => true | _ => false end.
Definition is_payb (r : Req) : bool := match r with RPayBolt11 _ _ _ => true | _ => false end.

Lemma did_op P i : didb is_opb P i = true -> did P i is_op.
Proof. apply didb_did. by intros []. Qed.
Lemma did_pay P i : didb is_payb P i = true -> did P i is_pay.
Proof. apply didb_did. by intros []. Qed.

(** The program a task has left need not be computed to know that the task is there. *)
Lemma task_at P i t :
  (tasks P !! i) ≫= (fun tp => Some tp.1) = Some t -> exists p, tasks P !! i = Some (t, p).
Proof. destruct (tasks P !! i) as [[t' p]|]; cbn; [|done]. intros [= ->]. by exists p. Qed.

(** Two [fulfill_swap] tasks for one payment read the pending row before either of
    them has won it. *)
Definition two_fulfills : list Choice :=
  [Start (TFulfillSwap "aa"); Start (TFulfillSwap "aa"); Steps 0 1; Steps 1 1; Steps 0 50;
   Steps 1 50].

Lemma fulfill_at_most_once_witness :
  let P := played demo_api two_fulfills (after []) (at_time 5000) in
  reachable demo_api P /\ did P 0 is_op /\ ~ did P 1 is_op.
Proof.
  assert (reachable demo_api (played demo_api two_fulfills (after []) (at_time 5000))) as HP
    by apply played_reachable, after_wf.
  assert (did (played demo_api two_fulfills (after []) (at_time 5000)) 0 is_op) as H0
    by (apply did_op; vm_compute; reflexivity).
  split; [exact HP|]. split; [exact H0|]. intros H1.
  assert (0 = 1)%nat; [|discriminate].
  destruct (task_at (played demo_api two_fulfills (after []) (at_time 5000)) 0 (TFulfillSwap "aa"))
    as [p Hp]; [vm_compute; reflexivity|].
  destruct (task_at (played demo_api two_fulfills (after []) (at_time 5000)) 1 (TFulfillSwap "aa"))
    as [q Hq]; [vm_compute; reflexivity|].
  exact (fulfill_at_most_once demo_api "aa" _ 0 1 p q HP Hp Hq H0 H1).
Defined.

(** The same two tasks, a restart in between: the row of the swap is still there. *)
Lemma rows_are_permanent_witness :
  let P' := played demo_api [Start (TFulfillSwap "aa"); Steps 0 3; Crash; Start TRecoverSwaps;
    Steps 1 50] (after []) (at_time 5000) in
  Swap.status <$> SwapDb.get_by_payment_hash "aa" (swap_db (shared P')) = Some SwapStatus.Completed /\
  lasts (swap_db (after [])) (swap_db (shared P')).
Proof.
  split; [vm_compute; reflexivity|].
  refine (proj2 (rows_are_permanent demo_api (mkPool (after []) [] []) _ _ _)).
  - apply reach_init, after_wf.
  - apply schedule_steps.
Defined.

(** From an empty database: a swap request and an offramp request interleave, and after a
    restart the database holds one valid row of each. *)
Definition two_requests : list Choice :=
  [Start (TSwapRequest (V4 1) demo_request);
   Start (TOfframpRequest (V4 2) (mkOfframpRequest "lnbcrt1" 4000 "addr_test1_user"));
   Steps 0 3; Steps 1 50; Steps 0 50; Crash].

Lemma rows_stay_valid_witness :
  let P' := played demo_api two_requests (demo_relay (SwapDb.mk [] [])) (at_time 5000) in
  (length (SwapDb.swap_mappings (swap_db (shared P'))),
   length (SwapDb.offramp_mappings (swap_db (shared P')))) = (1, 1)%nat /\
  db_valid (swap_db (shared P')).
Proof.
  split; [vm_compute; reflexivity|].
  refine (rows_stay_valid demo_api (mkPool (demo_relay (SwapDb.mk [] [])) [] []) _ _ _ _).
  - apply reach_init. repeat constructor.
  - apply schedule_steps.
  - repeat constructor.
Defined.

(** Two requests for the deposit of the demo offramp. *)
Definition demo_deposit (id : Z) : Task := TDeposit (V4 1) (mkDepositRequest id "cc").
Definition two_deposits : list Choice :=
  [Start (demo_deposit 3); Start (demo_deposit 3); Steps 0 4; Steps 1 4; Steps 0 50; Steps 1 50].

Lemma pay_at_most_once_witness :
  let P := played demo_api two_deposits (after []) (at_time 5000) in
  reachable demo_api P /\ did P 0 is_pay /\ ~ did P 1 is_pay.
Proof.
  assert (reachable demo_api (played demo_api two_deposits (after []) (at_time 5000))) as HP
    by apply played_reachable, after_wf.
  assert (did (played demo_api two_deposits (after []) (at_time 5000)) 0 is_pay) as H0
    by (apply did_pay; vm_compute; reflexivity).
  split; [exact HP|]. split; [exact H0|]. intros H1.
  assert (0 = 1)%nat; [|discriminate].
  destruct (task_at (played demo_api two_deposits (after []) (at_time 5000)) 0 (demo_deposit 3))
    as [p Hp]; [vm_compute; reflexivity|].
  destruct (task_at (played demo_api two_deposits (after []) (at_time 5000)) 1 (demo_deposit 3))
    as [q Hq]; [vm_compute; reflexivity|].
  exact (pay_at_most_once demo_api 3 _ 0 1 _ _ _ _ p q HP Hp Hq eq_refl eq_refl H0 H1).
Defined.

Lemma deposits_ended P :
  forallb (fun tp => negb (opens_deposit tp.1) || finishedb tp.2) (tasks P) = true ->
  forall i ip req p, tasks P !! i = Some (TDeposit ip req, p) -> finished p.
Proof.
  rewrite forallb_forall. intros Hall i ip req p Hi%list_elem_of_lookup_2%list_elem_of_In.
  apply finishedb_finished, (Hall _ Hi).
Qed.

Definition returnedb (p : relay_prog unit) : bool := match p with Ret _ => true | _ => false end.

Lemma returned_at P i t :
  (tasks P !! i) ≫= (fun tp => if returnedb tp.2 then Some tp.1 else None) = Some t ->
  tasks P !! i = Some (t, Ret tt).
Proof.
  destruct (tasks P !! i) as [[t' [[]| | |]]|]; cbn; try done. by intros [= ->].
Qed.

(** The process is lost between a deposit request and the report of its payment; after the
    restart, the report is handled while recovery runs. *)
Definition crashed_deposit : pool :=
  played demo_api [Start (demo_deposit 3); Steps 0 12; Crash] (after []) (at_time 5000).
Definition recovering : pool :=
  mkPool (shared crashed_deposit)
    (tasks crashed_deposit ++ [(TRecoverOfframps, recover_depositing_offramps)]) (trace crashed_deposit).
Definition recovered : pool :=
  (schedule demo_api [Steps 1 1; Start (TCompleteOfframp "bb" "09"); Steps 2 1; Steps 1 2; Steps 2 50;
     Steps 1 50] recovering (at_time 6000)).1.

Lemma recovery_opens_gate_witness :
  Offramp.status <$> SwapDb.get_offramp_by_id 3 (swap_db (shared recovering))
    = Some OfframpStatus.PayingLightning /\
  exists m, SwapDb.get_offramp_by_id 3 (swap_db (shared recovered)) = Some m /\
    Offramp.status m <> OfframpStatus.PendingVerification /\
    Offramp.status m <> OfframpStatus.PayingLightning.
Proof.
  split; [vm_compute; reflexivity|].
  destruct (SwapDb.get_offramp_by_id 3 (swap_db (shared recovered))) as [m|] eqn:E;
    [|exfalso; revert E; vm_compute; discriminate].
  exists m. split; [reflexivity|].
  refine (recovery_opens_gate demo_api crashed_deposit recovered _ _ _ _ 3 m E).
  - apply played_reachable, after_wf.
  - apply deposits_ended. vm_compute. reflexivity.
  - apply schedule_boots. reflexivity.
  - apply returned_at. vm_compute. reflexivity.
Defined.

(** ** What the compare-and-set does not protect *)

(** A second offramp over the same amount. *)
Definition demo_offramp' : OfframpMapping :=
  Offramp.mk 4 "lnbcrt2" "cc" 4000 "" OfframpStatus.AwaitingDeposit 1000 None None None
    (Some "create") "pkh" 9000.

(** Both requests pass the reuse check before either has recorded the transaction. *)
Definition reused_deposit : list Choice :=
  [Start (demo_deposit 3); Start (demo_deposit 4); Steps 0 4; Steps 1 4; Steps 0 50; Steps 1 50].

(** C29: the reuse check of [process_offramp_deposit] is made before the transaction is
    recorded, in a separate database statement.  An interleaving of two deposit
    requests, for two offramps of the same amount, presents one cBTC transaction for
    both: both rows record it, and a Lightning payment is made for each. *)
Theorem one_deposit_pays_two_offramps :
  exists P i j p q ip id id' tx,
    reachable demo_api P /\ id <> id' /\
    tasks P !! i = Some (TDeposit ip (mkDepositRequest id tx), p) /\
    tasks P !! j = Some (TDeposit ip (mkDepositRequest id' tx), q) /\
    did P i is_pay /\ did P j is_pay /\
    (forall k, k = id \/ k = id' ->
       (fun m => (Offramp.status m, Offramp.cbtc_tx_hash m))
         <$> SwapDb.get_offramp_by_id k (swap_db (shared P))
       = Some (OfframpStatus.PayingLightning, tx)).
Proof.
  pose (P := played demo_api reused_deposit (after [OpInsertOfframp demo_offramp']) (at_time 5000)).
  destruct (task_at P 0 (demo_deposit 3)) as [p Hp]; [vm_compute; reflexivity|].
  destruct (task_at P 1 (demo_deposit 4)) as [q Hq]; [vm_compute; reflexivity|].
  exists P, 0%nat, 1%nat, p, q, (V4 1), 3, 4, "cc"%string.
  split; [apply played_reachable, after_wf|]. split; [done|].
  split; [exact Hp|]. split; [exact Hq|].
  split; [apply did_pay; vm_compute; reflexivity|].
  split; [apply did_pay; vm_compute; reflexivity|].
  intros k [->| ->]; vm_compute; reflexivity.
Qed.

(** What a schedule reaches from the end of another run is later. *)
Lemma later_played cs s w : db_wf (swap_db s) -> later demo_api s (shared (played demo_api cs s w)).
Proof.
  intros Hs. exists (mkPool s [] []), (played demo_api cs s w).
  split; [by apply reach_init|]. split; [done|]. split; [apply schedule_steps|done].
Qed.

(** *** From an empty database *)

Definition empty_relay : Relay := demo_relay (SwapDb.mk [] []).
Lemma empty_wf : db_wf (swap_db empty_relay).
Proof. repeat constructor. Qed.
Definition first_world : World := mkWorld 5000 mock_new.

Definition demo_offramp_request : OfframpRequest := mkOfframpRequest "lnbcrt1" 4000 "addr_test1_user".
Definition demo_bolt11 : Bolt11Invoice :=
  mkMockInvoice "lnbcrt1" (bytes_of "lnbcrt1") (Some 4000000).
Definition demo_hash : string := hex_str (bytes_of "lnbcrt1").

(** No request of a task satisfies [q]. *)
Lemma didb_not (q : Req -> bool) (Q : Req -> Prop) P i :
  (forall r, Q r -> q r = true) -> didb q P i = false -> ~ did P i Q.
Proof.
  intros Hq H (e & He & Qe). apply not_true_iff_false in H. apply H. apply existsb_exists.
  exists (i, e). split; [by apply list_elem_of_In|]. cbn. by rewrite Nat.eqb_refl, Hq.
Qed.

Lemma did_no_op P i : didb is_opb P i = false -> ~ did P i is_op.
Proof. apply didb_not. by intros []. Qed.

(** An offramp is requested; an hour later, when it has expired, the monitor lists it, its
    deposit arrives and is paid, and the monitor goes on. *)
Definition late_deposit : pool :=
  let P := played demo_api [Start (TOfframpRequest (V4 1) demo_offramp_request); Steps 0 50]
             empty_relay first_world in
  (schedule demo_api [Start TOfframpsTick; Steps 1 2; Start (demo_deposit 1); Steps 2 50; Steps 1 50]
     P (mkWorld 3605001 mock_new)).1.

Lemma late_deposit_steps : rtc (step demo_api) (mkPool empty_relay [] []) late_deposit.
Proof. etrans; apply schedule_steps. Qed.

(** C31: neither a deposit request nor the expiry monitor looks at what the other is doing.
    From an empty database, an execution has an offramp requested; the monitor reads a clock
    past its expiry; a deposit request for it returns after LDK has accepted the payment of its
    invoice; and then the monitor cancels it on-chain, the chain accepts the cancellation, and
    its row ends [Failed], with the deposited transaction recorded in it. *)
Theorem cancellation_overtakes_payment :
  exists P r i j ip ip' req id tx inv pid amount now cancel hash m a b c d,
    rtc (step demo_api) (mkPool empty_relay [] []) P /\
    tasks P !! r = Some (TOfframpRequest ip req, Ret tt) /\
    tasks P !! i = Some (TDeposit ip' (mkDepositRequest id tx), Ret tt) /\
    tasks P !! j = Some (TOfframpsTick, Ret tt) /\
    SwapDb.get_offramp_by_id id (swap_db (shared P)) = Some m /\
    Offramp.bolt11 m = or_bolt11 req /\ bolt11_from_str (or_bolt11 req) = Ok inv /\
    (a < b < c)%nat /\ (c < d)%nat /\
    trace P !! a = Some (j, existT RNow now) /\ Offramp.expires_at m < Z.of_N now /\
    trace P !! b = Some (i, existT (RPayBolt11 inv pid amount) (Ok tt)) /\
    trace P !! c = Some (j, existT (ROp (CancelOfframp id)) (Ok cancel)) /\
    trace P !! d = Some (j, existT (ROp (SubmitTx cancel)) (Ok hash)) /\
    Offramp.status m = OfframpStatus.Failed /\ Offramp.cbtc_tx_hash m = tx.
Proof.
  destruct (SwapDb.get_offramp_by_id 1 (swap_db (shared late_deposit))) as [m|] eqn:E;
    [|exfalso; revert E; vm_compute; discriminate].
  pose proof E as Em. vm_compute in Em. injection Em as Em.
  exists late_deposit, 0%nat, 2%nat, 1%nat, (V4 1), (V4 1), demo_offramp_request, 1, "cc"%string, demo_bolt11,
    (bytes_of "lnbcrt1"), (Some 4000000), 3605001%N, "mock_cancel_offramp_signed_tx"%string,
    "mock_tx_hash_abc123"%string, m, 4%nat, 8%nat, 9%nat, 10%nat.
  split; [apply late_deposit_steps|].
  do 3 (split; [apply returned_at; vm_compute; reflexivity|]).
  split; [exact E|]. rewrite <- Em. repeat split; vm_compute; reflexivity || lia.
Qed.

(** Two requests with one invoice pass the check for duplicates before either has inserted
    its row; the second offramp is deposited and paid; LDK reports the payment. *)
Definition duplicate_invoice : pool :=
  played demo_api
    [Start (TOfframpRequest (V4 1) demo_offramp_request);
     Start (TOfframpRequest (V4 2) demo_offramp_request);
     Steps 0 4; Steps 1 4; Steps 0 50; Steps 1 50;
     Start (demo_deposit 2); Steps 2 50;
     Start (TCompleteOfframp demo_hash "preimage"); Steps 3 50] empty_relay first_world.

Lemma duplicate_invoice_steps : rtc (step demo_api) (mkPool empty_relay [] []) duplicate_invoice.
Proof. apply schedule_steps. Qed.

Lemma duplicate_invoice_wf : db_wf (swap_db (shared duplicate_invoice)).
Proof. eapply later_lasts, later_played, empty_wf. Qed.

(** C30: the check of [request_offramp] that an invoice is not used twice and the insertion of
    the row are separate statements with requests in between.  From an empty database, an
    execution has two requests with one invoice return and create two offramps with its hash;
    a deposit request for the second returns after LDK has accepted its payment; the report
    of that payment is looked up by hash and finds the first offramp: [complete_offramp]
    returns without an on-chain request.  The second offramp is left being paid, and any
    further report of the payment, with any preimage and in any environment, asks for nothing
    and changes nothing. *)
Theorem paid_duplicate_not_completed :
  exists P i j k c req ip ip' ip'' id id' tx inv pid amount n preimage,
    let hash := payment_hash_display (invoice_payment_hash inv) in
    let row id st := (fun m => (Offramp.bolt11 m, Offramp.payment_hash m, Offramp.status m))
      <$> SwapDb.get_offramp_by_id id (swap_db (shared P)) = Some (or_bolt11 req, hash, st) in
    rtc (step demo_api) (mkPool empty_relay [] []) P /\
    i <> j /\ id <> id' /\ bolt11_from_str (or_bolt11 req) = Ok inv /\
    tasks P !! i = Some (TOfframpRequest ip req, Ret tt) /\
    tasks P !! j = Some (TOfframpRequest ip' req, Ret tt) /\
    tasks P !! k = Some (TDeposit ip'' (mkDepositRequest id' tx), Ret tt) /\
    trace P !! n = Some (k, existT (RPayBolt11 inv pid amount) (Ok tt)) /\
    tasks P !! c = Some (TCompleteOfframp hash preimage, Ret tt) /\ ~ did P c is_op /\
    row id OfframpStatus.AwaitingDeposit /\ row id' OfframpStatus.PayingLightning /\
    (forall W (env : Env W) pre w,
       exec (complete_offramp hash pre) (shared P) w = RunResult (Done tt) (shared P) w []).
Proof.
  exists duplicate_invoice, 0%nat, 1%nat, 2%nat, 3%nat, demo_offramp_request, (V4 1), (V4 2), (V4 1), 1, 2,
    "cc"%string, demo_bolt11, (bytes_of "lnbcrt1"), (Some 4000000), 11%nat, "preimage"%string. cbn zeta.
  split; [apply duplicate_invoice_steps|]. do 3 (split; [done|]).
  do 3 (split; [apply returned_at; vm_compute; reflexivity|]).
  split; [vm_compute; reflexivity|]. split; [apply returned_at; vm_compute; reflexivity|].
  split; [apply did_no_op; vm_compute; reflexivity|].
  split; [vm_compute; reflexivity|]. split; [vm_compute; reflexivity|]. intros W env pre w.
  destruct (SwapDb.get_offramp_by_payment_hash demo_hash (swap_db (shared duplicate_invoice))) as [m|] eqn:E;
    [|exfalso; revert E; vm_compute; discriminate].
  eapply complete_offramp_ignored; [apply duplicate_invoice_wf|exact E|].
  vm_compute in E. injection E as <-. discriminate.
Qed.

(** ** From request to settlement *)

(** A swap, with both monitors running between the payment and the payout. *)
Definition demo_swap_run := exec (handle_swap_request demo_api (V4 1) demo_request) empty_relay first_world.
Lemma demo_swap_run_wf : db_wf (swap_db (fin demo_swap_run)).
Proof. apply (quiet_exec_wf calm); [apply quiet_swap_request|apply empty_wf]. Qed.
Definition demo_swap_response : SwapResponse :=
  mkSwapResponse 1 "lnbcrt1swap" (hex_str (bytes_of "swap")).
Definition demo_claim : PaymentPurpose := Bolt11InvoicePayment (Some [9]) [1; 2; 3].
Definition demo_claimed_run :=
  exec (handle_ldk_events true (PaymentClaimed (bytes_of "swap") demo_claim 5000000))
    (fin demo_swap_run) (world demo_swap_run).
Definition monitors : list Choice := [Start TSwapsTick; Start TOfframpsTick; Steps 0 9; Steps 1 9; Crash].

Lemma onramp_end_to_end_witness :
  let s3 := shared (played demo_api monitors (fin demo_claimed_run) first_world) in
  let r3 := exec (fulfill_swap (hex_str (bytes_of "swap"))) s3 (world demo_swap_run) in
  omap spawned (log demo_claimed_run) = [SpawnFulfillSwap (hex_str (bytes_of "swap"))] /\
  exists i tx, op_log (log r3) = [QueryState; FulfillInvoice i "addr_test1_user"; SubmitTx tx].
Proof.
  cbn zeta. set (s3 := shared _).
  destruct (onramp_end_to_end demo_api (mock_good (Invoice.mk 1 5000 (hex_str (replicate 28 1)) 5000 3605000))
    (V4 1) demo_request empty_relay first_world demo_swap_response (fin demo_swap_run) (bytes_of "swap")
    demo_claim 5000000 (world demo_swap_run) s3 (world demo_swap_run) 3605000 first_world)
    as (Hsp & _ & i & tx & _ & _ & Hops & _).
  - vm_compute. reflexivity.
  - apply (later_played [] _ first_world), demo_swap_run_wf.
  - reflexivity.
  - vm_compute. reflexivity.
  - apply (later_played monitors _ first_world).
    apply (quiet_exec_wf calm); [apply quiet_event; apply _|apply demo_swap_run_wf].
  - vm_compute. reflexivity.
  - vm_compute. reflexivity.
  - by apply (mock_responsive (Invoice.mk 1 5000 (hex_str (replicate 28 1)) 5000 3605000)).
  - vm_compute. repeat split. by eexists.
  - split; [exact Hsp|]. exists i, tx. exact Hops.
Defined.

(** An offramp, with both monitors running between the payment and its report. *)
Definition mock_good_offramp (o : ChainOfframp.t) (w : World) : Prop :=
  fail_query_state (operator w) = false /\ fail_submit (operator w) = false /\
  fail_fulfill_offramp (operator w) = false /\ exists l, offramps (operator w) = o :: l.

Lemma mock_responsive_offramp o : responsive_offramp (mock_good_offramp o) (ChainOfframp.offramp_id o).
Proof.
  split.
  - intros w (Hq & _ & _ & l & Hl). eexists. cbn. rewrite Hq. split; [done|].
    unfold find_offramp. cbn. rewrite Hl. cbn. by rewrite Z.eqb_refl.
  - intros w o' (_ & _ & Hf & _). eexists. cbn. by rewrite Hf.
  - intros w tx (_ & Hs & _). eexists. cbn. by rewrite Hs.
  - intros w r (Hq & Hs & Hf & l & Hl) Hr. unfold mock_good_offramp.
    destruct r; try by edestruct Hr.
    1: destruct r; cbn; repeat case_match; cbn in *; simplify_eq; rewrite ?Hl; cbn; eauto.
    all: by eauto.
Qed.

Definition demo_offramp_run :=
  exec (handle_offramp_request demo_api (V4 1) demo_offramp_request) empty_relay first_world.
Definition demo_deposit_run :=
  exec (process_offramp_deposit 1 "cc") (fin demo_offramp_run) (world demo_offramp_run).
Definition demo_chain_offramp' : ChainOfframp.t :=
  ChainOfframp.mk 1 4000 demo_hash (hex_str (replicate 28 1)) 3605000.

Lemma demo_offramp_run_wf : db_wf (swap_db (fin demo_offramp_run)).
Proof. apply (quiet_exec_wf calm); [apply quiet_offramp_request|apply empty_wf]. Qed.
Lemma demo_deposit_run_wf : db_wf (swap_db (fin demo_deposit_run)).
Proof. apply (quiet_exec_wf (deposits 1)); [apply quiet_process_deposit|apply demo_offramp_run_wf]. Qed.

