(* ===== verification/Boots.v ===== *)
(** * Start-ups evaluated

    [start_ldk] run in a small concrete world: a restart after a crash with an offramp being
    paid, a start whose [manager] file is gone, a bitcoind on another chain, a monitor that
    LDK does not accept. *)

From S2P Require Import Prelude Effects Compose HexUtils Text Fees Args Mapping MappingFacts MappingSpec.
From S2P Require Import Types Convert RateLimiter World Helpers Rows Payments CardanoSwap CardanoOfframp.
From S2P Require Import Recovery Background Api Startup Wallet WalletSafety Events Disk Node Mock Scenarios.

#[local] Existing Instances demo_bitcoin demo_wallet demo_codec.

(** A monitor is the number of its channel, a block its hash. *)
#[local] Instance demo_node : NodeLib := {|
  ChannelMonitor := Z;
  monitor_channel_id m := [m];
  ValidatedBlockHeader := bytes;
  to_best_block := id;
  ChannelManager := bytes;
  current_best_block := id;
  OutputSweeper := unit;
|}.

#[local] Instance demo_graph : GraphLib := {|
  NetworkGraph := unit;
  graph_read _ := None;
  graph_new _ := tt;
  ProbabilisticScorer := unit;
  scorer_read _ _ := None;
  scorer_new _ := tt;
|}.

Record BootWorld := mkBoot {
  manager_file : option bytes;
  monitors_on_disk : list (bytes * Z);
  accepted : Z -> UpdateStatus;
  database : option SwapDb.t;
  chain_world : DemoFiles;
  relay_world : World;
}.

Definition demo_boot (b : BootWorld) (r : BootReq) : boot_resp r :=
  match r with
  | CreateDirAll _ => Ok tt
  | ReadFile path => if String.eqb path "/data/.ldk/manager" then manager_file b else None
  | RandomKey => replicate 32 5
  | StoreSeed _ _ => Stored
  | ReadMonitors => Ok (monitors_on_disk b)
  | BestBlockHeader => Ok [9]
  | ReadManager f _ => Ok ([8], f)
  | NewManager _ tip _ => tip
  | ReadSweeper => Err None
  | NewSweeper _ => tt
  | DecodeSweeper _ => Ok ([8], tt)
  | SynchronizeListeners _ _ => Ok [9]
  | LoadMonitor m => Ok (accepted b m)
  | ResolveDns => Ok (Some "8.8.8.8:53"%string)
  | ListRecentPayments => []
  | AgentInit _ => true
  | OpenDatabase _ => Ok (database b)
  | BindApi _ => true
  | Spawn _ => tt
  | Select => None
  | ExitClosed => false
  | Stop (StopListening | DisconnectAllPeers | PanicExit _) => tt
  | Stop _ => Ok tt
  end.

Definition boot_env (r : BootReq + (WReq + Req)) (b : BootWorld) :
  both_resp (resp1 := both_resp (resp1 := resp) (resp2 := wresp)) (resp2 := boot_resp) r * BootWorld :=
  match r with
  | inl r => (demo_boot b r, b)
  | inr (inl r) =>
      let '(x, f) := demo_env r (chain_world b) in
      (x, mkBoot (manager_file b) (monitors_on_disk b) (accepted b) (database b) f (relay_world b))
  | inr (inr r) =>
      let '(x, w) := mock_answer r (relay_world b) in
      (x, mkBoot (manager_file b) (monitors_on_disk b) (accepted b) (database b) (chain_world b) w)
  end.

(** A relay on the given network with Cardano enabled. *)
Definition cardano_process (net : string) : Process :=
  mkProcess ["ldk"; "user:pass@localhost:18443"; "/data"; "9736"; net; "relay"; "1.2.3.4:9736"]%string
    (fun v => if String.eqb v "CARDANO_ENABLED" then Some "true"%string
              else if starts_with v "CARDANO_SKEY_PATH" then Some "skey"%string
              else if starts_with v "CARDANO_SCRIPT_CBOR_PATH" then Some "script"%string
              else if starts_with v "CARDANO_API" || starts_with v "CARDANO_MAX" ||
                      starts_with v "CARDANO_SWAP" || starts_with v "CARDANO_RECONCILE"
                      || starts_with v "LDK" || starts_with v "BITCOIN" then None
              else Some "configured"%string) None
    (fun f => Some "abcd"%string).

Definition booted (net : string) (b : BootWorld) :=
  run boot_env (start_ldk (SocketAddress := string) Some (fun _ => None) (cardano_process net))
    (demo_relay (SwapDb.open_ None), demo_client false) b.
(** Two channels on disk, and the database as a crash during a payment left it. *)
Definition demo_world : BootWorld :=
  mkBoot (Some [7]) [([6], 1); ([6], 2)] (fun _ => Completed) (Some (swap_db (after paying)))
    (mkDemoFiles ∅ 0) (at_time 5000).
Definition lost_manager : BootWorld :=
  mkBoot None (monitors_on_disk demo_world) (accepted demo_world) (database demo_world)
    (chain_world demo_world) (relay_world demo_world).
Definition second_refused : BootWorld :=
  mkBoot (manager_file demo_world) (monitors_on_disk demo_world)
    (fun m => if m =? 2 then InProgress else Completed) (database demo_world)
    (chain_world demo_world) (relay_world demo_world).

(** The channels handed to the chain monitor, and the port of the API. *)
Definition load_of (e : event (both_resp (resp1 := both_resp (resp1 := resp) (resp2 := wresp)) (resp2 := boot_resp))) :
  option Z :=
  match e with existT (inl (LoadMonitor m)) _ => Some m | _ => None end.
Definition bound_port (e : event (both_resp (resp1 := both_resp (resp1 := resp) (resp2 := wresp)) (resp2 := boot_resp))) :
  option Z :=
  match e with existT (inl (BindApi port)) _ => Some port | _ => None end.

(** The restart: both channels are watched, the API listens, and the offramp that was being
    paid has failed. *)
Lemma restart_runs :
  let r := booted "regtest" demo_world in
  out r = Done (Started tt) /\ omap load_of (log r) = [1; 2] /\ omap bound_port (log r) = [3000] /\
  Offramp.status <$> SwapDb.get_offramp_by_id 3 (swap_db (fin r).1) = Some OfframpStatus.Failed.
Proof. vm_compute. done. Qed.

(** Without the [manager] file the node starts as a fresh one: it serves, and watches none
    of the two channels whose monitors it has read. *)
Lemma lost_manager_watches_nothing :
  let r := booted "regtest" lost_manager in
  out r = Done (Started tt) /\ omap load_of (log r) = [] /\ omap bound_port (log r) = [3000].
Proof. vm_compute. done. Qed.

(** A monitor whose status is not [Completed] stops the process before it serves. *)
Lemma refused_monitor_stops :
  let r := booted "regtest" second_refused in
  out r = Panicked "assertion `left == right` failed" /\ omap load_of (log r) = [1; 2] /\
  omap bound_port (log r) = [].
Proof. vm_compute. done. Qed.

(** bitcoind is on regtest: a node for signet returns before it has read its keys. *)
Lemma wrong_chain_returns :
  let r := booted "signet" demo_world in
  out r = Done Refused /\ length (log r) = 5%nat /\ (fin r).1 = demo_relay (SwapDb.open_ None).
Proof. vm_compute. done. Qed.
