(* ===== verification/UnitTests.v ===== *)
(** * The repository's unit tests

    The [#[cfg(test)]] modules of [mapping.rs], [api.rs], [args.rs], [esplora.rs],
    [bitcoind_client.rs], [cardano_swap.rs] and [amounts.rs], each assertion evaluated on the
    model.  The tests that need the network or the machine's clock are in
    [NetworkTests].  The addresses of the tests of
    [cardano_swap.rs] are real ones: bech32 is that of BIP 173. *)

From S2P Require Import Prelude Effects Amounts HexUtils Text Fees Args Mapping MappingFacts MappingSpec.
From S2P Require Import Types Convert RateLimiter World Helpers Startup Wallet WalletSafety CardanoSwap Api Mock.
From Stdlib Require Import SpecFloat.

Abbreviation eqb x y := (bool_decide (x = y)).

(** ** [mapping.rs] *)

Definition swap_status_roundtrip : bool :=
  forallb (fun v => eqb (SwapStatus.from_str (SwapStatus.as_str v)) v)
    [SwapStatus.Pending; SwapStatus.Fulfilling; SwapStatus.Completed; SwapStatus.Failed; SwapStatus.Expired].
Definition swap_status_unknown_falls_back_to_failed : bool :=
  eqb (SwapStatus.from_str "garbage") SwapStatus.Failed && eqb (SwapStatus.from_str "") SwapStatus.Failed.
Definition offramp_status_roundtrip : bool :=
  forallb (fun v => eqb (OfframpStatus.from_str (OfframpStatus.as_str v)) v)
    [OfframpStatus.AwaitingDeposit; OfframpStatus.PendingVerification; OfframpStatus.PayingLightning;
     OfframpStatus.DepositingToPool; OfframpStatus.Completed; OfframpStatus.Failed].
Definition offramp_status_unknown_falls_back_to_failed : bool :=
  eqb (OfframpStatus.from_str "xyz") OfframpStatus.Failed && eqb (OfframpStatus.from_str "") OfframpStatus.Failed.

Definition test_db : SwapDb.t := SwapDb.open_ None.

Definition make_swap (hash : string) (expires_at : Z) : SwapMapping :=
  Swap.mk hash 1 100000 "addr_test1qz..." SwapStatus.Pending 1000000 expires_at None None.

Definition make_offramp (id : Z) (hash : string) : OfframpMapping :=
  Offramp.mk id "lnbc1..." hash 50000 "" OfframpStatus.AwaitingDeposit 1000000 None None None None
    "addr_test1qz..." 2000000.

(** The database after some inserts; a failed insert panics. *)
Definition inserted (ms : list SwapMapping) (db : option SwapDb.t) : option SwapDb.t :=
  foldl (fun db m => db ← db; let '(ok, db) := SwapDb.insert m db in if ok : bool then Some db else None) db ms.
Definition inserted_offramps (ms : list OfframpMapping) (db : option SwapDb.t) : option SwapDb.t :=
  foldl (fun db m => db ← db; let '(ok, db) := SwapDb.insert_offramp m db in if ok : bool then Some db else None) db ms.
(** The assertions about a database. *)
Definition on_db (db : option SwapDb.t) (f : SwapDb.t -> bool) : bool :=
  match db with Some db => f db | None => false end.
Definition on_row {M} (m : option M) (f : M -> bool) : bool :=
  match m with Some m => f m | None => false end.

Definition insert_and_get_by_payment_hash : bool :=
  on_db (inserted [make_swap "aabb01" 9999999] (Some test_db)) (fun db =>
    on_row (SwapDb.get_by_payment_hash "aabb01" db) (fun got =>
      String.eqb (Swap.payment_hash got) "aabb01" && (Swap.invoice_id got =? 1) &&
      (Swap.amount_cbtc got =? 100000) && eqb (Swap.status got) SwapStatus.Pending &&
      eqb (Swap.cardano_tx_hash got) None)).

Definition get_nonexistent_returns_none : bool :=
  eqb (SwapDb.get_by_payment_hash "does_not_exist" test_db) None.

Definition update_status_changes_status_and_tx_hash : bool :=
  on_db (inserted [make_swap "hash01" 9999999] (Some test_db)) (fun db =>
    let db := SwapDb.update_status "hash01" SwapStatus.Completed (Some "cardano_tx_abc"%string) db in
    on_row (SwapDb.get_by_payment_hash "hash01" db) (fun got =>
      eqb (Swap.status got) SwapStatus.Completed &&
      eqb (Swap.cardano_tx_hash got) (Some "cardano_tx_abc"%string))).

Definition get_expired_pending_filters_correctly : bool :=
  let now := 5000000 in
  on_db (inserted [make_swap "expired_pending" (now - 1); make_swap "future_pending" (now + 1000);
                   make_swap "expired_completed" (now - 1)] (Some test_db)) (fun db =>
    let db := SwapDb.update_status "expired_completed" SwapStatus.Completed None db in
    eqb (Swap.payment_hash <$> SwapDb.get_expired_pending now db) ["expired_pending"%string]).

Definition get_expired_pending_empty_when_none : bool :=
  on_db (inserted [make_swap "future" 99999999] (Some test_db)) (fun db =>
    eqb (SwapDb.get_expired_pending 1000000 db) []).

Definition insert_offramp_and_get_by_id : bool :=
  on_db (inserted_offramps [make_offramp 1 "off_hash_01"] (Some test_db)) (fun db =>
    on_row (SwapDb.get_offramp_by_id 1 db) (fun got =>
      (Offramp.offramp_id got =? 1) && String.eqb (Offramp.payment_hash got) "off_hash_01" &&
      (Offramp.amount_cbtc got =? 50000) && eqb (Offramp.status got) OfframpStatus.AwaitingDeposit &&
      eqb (Offramp.lightning_preimage got) None)).

Definition get_offramp_by_payment_hash_test : bool :=
  on_db (inserted_offramps [make_offramp 1 "hash_lookup"] (Some test_db)) (fun db =>
    on_row (SwapDb.get_offramp_by_payment_hash "hash_lookup" db) (fun got => Offramp.offramp_id got =? 1)).

Definition get_offramp_nonexistent_returns_none : bool := eqb (SwapDb.get_offramp_by_id 999 test_db) None.

Definition update_offramp_status_with_preimage : bool :=
  on_db (inserted_offramps [make_offramp 1 "off01"] (Some test_db)) (fun db =>
    let db := SwapDb.update_offramp_status 1 OfframpStatus.Completed (Some "preimage_hex"%string) None None db in
    on_row (SwapDb.get_offramp_by_id 1 db) (fun got =>
      eqb (Offramp.status got) OfframpStatus.Completed &&
      eqb (Offramp.lightning_preimage got) (Some "preimage_hex"%string))).

Definition update_offramp_status_coalesce_preserves_existing : bool :=
  on_db (inserted_offramps [make_offramp 1 "off02"] (Some test_db)) (fun db =>
    let db := SwapDb.update_offramp_status 1 OfframpStatus.PayingLightning (Some "pre_img"%string) None None db in
    let db := SwapDb.update_offramp_status 1 OfframpStatus.Completed None (Some "dep_tx"%string) None db in
    on_row (SwapDb.get_offramp_by_id 1 db) (fun got =>
      eqb (Offramp.status got) OfframpStatus.Completed &&
      eqb (Offramp.lightning_preimage got) (Some "pre_img"%string) &&
      eqb (Offramp.deposit_tx_hash got) (Some "dep_tx"%string))).

Definition update_offramp_cbtc_tx_test : bool :=
  on_db (inserted_offramps [make_offramp 1 "off03"] (Some test_db)) (fun db =>
    on_row (SwapDb.get_offramp_by_id 1 (SwapDb.update_offramp_cbtc_tx 1 "cbtc_tx_hash_xyz" db)) (fun got =>
      String.eqb (Offramp.cbtc_tx_hash got) "cbtc_tx_hash_xyz")).

Definition get_offramp_by_cbtc_tx_finds_match : bool :=
  on_db (inserted_offramps [make_offramp 1 "off_tx_reuse"] (Some test_db)) (fun db =>
    on_row (SwapDb.get_offramp_by_cbtc_tx "cbtc_tx_abc123" (SwapDb.update_offramp_cbtc_tx 1 "cbtc_tx_abc123" db))
      (fun got => Offramp.offramp_id got =? 1)).

Definition get_offramp_by_cbtc_tx_ignores_empty : bool :=
  on_db (inserted_offramps [make_offramp 1 "off_empty"] (Some test_db)) (fun db =>
    eqb (SwapDb.get_offramp_by_cbtc_tx "" db) None).

Definition get_offramp_by_cbtc_tx_returns_none_for_unknown : bool :=
  on_db (inserted_offramps [make_offramp 1 "off_unknown"] (Some test_db)) (fun db =>
    eqb (SwapDb.get_offramp_by_cbtc_tx "nonexistent_tx" db) None).

Definition count_active_swaps_counts_pending_and_fulfilling : bool :=
  on_db (inserted [make_swap "s1" 9999999; make_swap "s2" 9999999; make_swap "s3" 9999999] (Some test_db)) (fun db =>
    let db := SwapDb.update_status "s2" SwapStatus.Fulfilling None db in
    let db := SwapDb.update_status "s3" SwapStatus.Completed None db in
    eqb (res_ok (SwapDb.count_active_swaps db)) (Some 2)).

Definition count_active_offramps_counts_non_terminal : bool :=
  on_db (inserted_offramps [make_offramp 1 "o1"; make_offramp 2 "o2"; make_offramp 3 "o3"] (Some test_db)) (fun db =>
    let db := SwapDb.update_offramp_status 2 OfframpStatus.PayingLightning None None None db in
    let db := SwapDb.update_offramp_status 3 OfframpStatus.Completed None None None db in
    eqb (res_ok (SwapDb.count_active_offramps db)) (Some 2)).

Definition next_offramp_id_starts_at_1 : bool := SwapDb.next_offramp_id test_db =? 1.
Definition next_offramp_id_increments : bool :=
  on_db (inserted_offramps [make_offramp 1 "a"; make_offramp 2 "b"] (Some test_db)) (fun db =>
    SwapDb.next_offramp_id db =? 3).

(** ** [api.rs] *)

Definition ms : Z := 1000000.

(** The answers to requests at the given times. *)
Fixpoint checks (reqs : list (IpAddr * Z)) (l : RateLimiter) : list bool :=
  match reqs with
  | [] => []
  | (ip, t) :: reqs => let '(ok, l) := check ip t l in ok :: checks reqs l
  end.

Definition localhost : IpAddr := V4 2130706433.
Definition rate_limiter_allows_up_to_max : bool :=
  eqb (checks [(localhost, 0); (localhost, 1); (localhost, 2); (localhost, 3)] (limiter_new 3 60))
    [true; true; true; false].
Definition rate_limiter_isolates_ips : bool :=
  let ip1 := V4 167772161 in let ip2 := V4 167772162 in
  eqb (checks [(ip1, 0); (ip1, 1); (ip2, 2)] (limiter_new 1 60)) [true; false; true].
Definition rate_limiter_resets_after_window : bool :=
  eqb (checks [(localhost, 0); (localhost, 5 * ms)] (limiter_new 1 0)) [true; true].

Definition make_headers (auth : option string) : HeaderMap :=
  match auth with Some v => {["authorization"%string := Some v]} | None => ∅ end.
Definition unauthorized (r : result unit HttpError) : bool :=
  match r with Err (UNAUTHORIZED, _) => true | _ => false end.

Definition secret : option string := Some "secret123"%string.
Definition auth_disabled_when_no_token_configured : bool := is_ok (verify_operator_auth (make_headers None) None).
Definition auth_succeeds_with_correct_token : bool :=
  is_ok (verify_operator_auth (make_headers (Some "Bearer secret123"%string)) secret).
Definition auth_fails_with_wrong_token : bool :=
  unauthorized (verify_operator_auth (make_headers (Some "Bearer wrong_token"%string)) secret).
Definition auth_fails_with_missing_header : bool := unauthorized (verify_operator_auth (make_headers None) secret).
Definition auth_fails_with_non_bearer_scheme : bool :=
  negb (is_ok (verify_operator_auth (make_headers (Some "Basic secret123"%string)) secret)).

Definition status_counts_aggregation : bool :=
  let r := to_status_counts [("completed", 10); ("pending", 3); ("fulfilling", 2); ("failed", 5); ("expired", 1)]%string in
  (completed r =? 10) && (pending r =? 5) && (failed r =? 6) && (total r =? 21).
Definition status_counts_empty : bool :=
  let r := to_status_counts [] in
  (completed r =? 0) && (pending r =? 0) && (failed r =? 0) && (total r =? 0).
Definition status_counts_unknown_status_counted_as_pending : bool :=
  let r := to_status_counts [("some_new_status"%string, 7)] in (pending r =? 7) && (total r =? 7).

(** ** [args.rs] *)

(** The files of [test_data/]. *)
Definition test_file (path : string) : option string :=
  if String.eqb path "test_data/test_cookie" then Some "testuser:testpassword"%string
  else if String.eqb path "test_data/test_cookie_bad" then Some "testuser"%string
  else if String.eqb path "test_data/test_env_file"
  then Some ("RPC_USER=testuser" +:+ String LF ("RPC_PASSWORD=testpassword" +:+ String LF EmptyString))
  else if String.eqb path "test_data/test_env_file_bad"
  then Some ("RPC_USER=testuser" +:+ String LF "RPC_PASSWORD")
  else None.
Definition test_env_var (v : string) : option string :=
  if String.eqb v "RPC_USER" then Some "testuser"%string
  else if String.eqb v "RPC_PASSWORD" then Some "testpassword"%string else None.
Definition test_process : Process := mkProcess [] test_env_var (Some "/home/user"%string) test_file.

Definition expected : option (string * string) := Some ("testuser", "testpassword")%string.

Definition test_parse_rpc_auth_success : bool := eqb (parse_rpc_auth "testuser:testpassword") expected.
Definition test_parse_rpc_auth_fail : bool := eqb (parse_rpc_auth "testuser") None.

Definition test_get_cookie_path_success : bool :=
  let path d n c := default ""%string (get_cookie_path test_process d n c) in
  String.eqb (path None None None) "/home/user/.bitcoin/.cookie" &&
  String.eqb (path (Some ("test_data"%string, true)) (Some Testnet) None) "/home/user/test_data/testnet3/.cookie" &&
  String.eqb (path (Some ("test_data"%string, false)) (Some RegtestNet) (Some "test_cookie"%string))
    "test_data/regtest/test_cookie" &&
  String.eqb (path (Some ("test_data"%string, false)) (Some SignetNet) None) "test_data/signet/.cookie" &&
  String.eqb (path (Some ("test_data"%string, false)) (Some Mainnet) None) "test_data/.cookie".

Definition test_get_rpc_auth_from_cookie_success : bool :=
  eqb (get_rpc_auth_from_cookie test_process (Some ("test_data"%string, false)) (Some Mainnet)
         (Some "test_cookie"%string)) expected.
Definition test_get_rpc_auth_from_cookie_fail : bool :=
  eqb (get_rpc_auth_from_cookie test_process (Some ("test_data"%string, false)) (Some Mainnet)
         (Some "test_cookie_bad"%string)) None.
Definition test_parse_env_file_success : bool :=
  match parse_env_file test_process (Some "test_data/test_env_file"%string) with
  | Some m => eqb (m !! BITCOIND_RPC_USER_KEY) (Some "testuser"%string) &&
              eqb (m !! BITCOIND_RPC_PASSWORD_KEY) (Some "testpassword"%string)
  | None => false
  end.
Definition test_parse_env_file_fail : bool :=
  eqb (parse_env_file test_process (Some "test_data/test_env_file_bad"%string)) None &&
  eqb (parse_env_file test_process (Some "nonexistent_file"%string)) None.
Definition test_get_rpc_auth_from_env_file_success : bool :=
  eqb (get_rpc_auth_from_env_file test_process (Some "test_data/test_env_file"%string)) expected.
Definition test_get_rpc_auth_from_env_file_fail : bool :=
  eqb (get_rpc_auth_from_env_file test_process (Some "nonexistent_file"%string)) None.
Definition test_get_rpc_auth_from_env_vars_success : bool :=
  eqb (get_rpc_auth_from_env_vars test_process) expected.

(** ** [esplora.rs] *)

(** A decimal literal: the quotient of two exact integers is correctly rounded. *)
Definition dec (n d : Z) : f64 := f64_div (f64_of_Z n) (f64_of_Z d).

Definition test_fee_map : FeeTable :=
  list_to_map [(MaximumFeeEstimate, 50000); (UrgentOnChainSweep, 5000);
    (MinAllowedAnchorChannelRemoteFee, MIN_FEERATE); (MinAllowedNonAnchorChannelRemoteFee, MIN_FEERATE);
    (AnchorChannelFee, MIN_FEERATE); (NonAnchorChannelFee, 2000); (ChannelCloseMinimum, MIN_FEERATE);
    (OutputSpendingFee, MIN_FEERATE)].

Definition get_fee (fees : FeeTable) (target : ConfirmationTarget) : Z := default (-1) (fees !! target).

Definition sat_vb_to_sat_kwu_uses_ldk_min_feerate : bool :=
  (sat_vb_to_sat_kwu_clamped (dec 974 1000) 5000 =? MIN_FEERATE) &&
  (sat_vb_to_sat_kwu_clamped (dec 0 1) 5000 =? MIN_FEERATE) &&
  (sat_vb_to_sat_kwu_clamped (dec (-1) 1) 5000 =? MIN_FEERATE) &&
  (sat_vb_to_sat_kwu_clamped S754_nan 5000 =? MIN_FEERATE).
Definition sat_vb_to_sat_kwu_clamps_extreme_values : bool :=
  sat_vb_to_sat_kwu_clamped (dec 100000 1) 5000 =? 5000.
Definition sat_vb_to_sat_kwu_rounds_fractional_estimates_up : bool :=
  sat_vb_to_sat_kwu_clamped (dec 4001 1000) 5000 =? 1001.
Definition max_feerate_cap_uses_valid_env_value_or_safe_default : bool :=
  (max_feerate_sat_per_kwu_from_value (Some "10000"%string) =? 10000) &&
  (max_feerate_sat_per_kwu_from_value (Some "not-a-number"%string) =? DEFAULT_NORMAL_MAX_FEERATE_SAT_PER_KWU) &&
  (max_feerate_sat_per_kwu_from_value (Some "252"%string) =? DEFAULT_NORMAL_MAX_FEERATE_SAT_PER_KWU) &&
  (max_feerate_sat_per_kwu_from_value None =? DEFAULT_NORMAL_MAX_FEERATE_SAT_PER_KWU).

(** The table after estimates were applied. *)
Definition applied (estimates : list (string * f64)) (f : FeeTable -> bool) : bool :=
  match apply_fee_estimates test_fee_map (list_to_map estimates) 5000 with
  | Some (fees, _) => f fees
  | None => false
  end.

Definition fee_estimates_update_maximum_and_non_anchor_targets : bool :=
  applied [("1"%string, dec 974 1000); ("6"%string, dec 974 1000)] (fun fees =>
    (get_fee fees MaximumFeeEstimate =? MIN_FEERATE) && (get_fee fees UrgentOnChainSweep =? MIN_FEERATE) &&
    (get_fee fees NonAnchorChannelFee =? MIN_FEERATE) && (get_fee fees ChannelCloseMinimum =? MIN_FEERATE)).
Definition high_priority_targets_are_not_limited_by_normal_fee_cap : bool :=
  applied [("1"%string, dec 30 1); ("6"%string, dec 30 1)] (fun fees =>
    (get_fee fees MaximumFeeEstimate =? 7500) && (get_fee fees UrgentOnChainSweep =? 7500) &&
    (get_fee fees NonAnchorChannelFee =? 5000) && (get_fee fees ChannelCloseMinimum =? 5000)).
Definition anchor_channel_fee_stays_at_mempool_floor : bool :=
  applied [("6"%string, dec 30 1)] (fun fees => get_fee fees AnchorChannelFee =? MIN_FEERATE).
Definition high_priority_fee_estimates_are_clamped_by_high_priority_cap : bool :=
  applied [("1"%string, dec 100000 1)] (fun fees =>
    (get_fee fees MaximumFeeEstimate =? 50000) && (get_fee fees UrgentOnChainSweep =? 50000)).

(** ** [amounts.rs] *)

Definition converts_cbtc_base_units_to_lightning_msats : bool :=
  eqb (cbtc_to_msat 1) (Some 1000) && eqb (cbtc_to_msat 100000000) (Some 100000000000).
Definition rejects_non_positive_cbtc_amounts : bool :=
  eqb (cbtc_to_msat 0) None && eqb (cbtc_to_msat (-1)) None.

(** ** [cardano_swap.rs], with bech32 of BIP 173 *)

Definition CHARSET : string := "qpzry9x8gf2tvdw0s3jn54khce6mua7l".

Definition bech32_char (d : Z) : Ascii.ascii := default (chr 0) (String.get (Z.to_nat d) CHARSET).
Fixpoint index_of (c : Ascii.ascii) (s : string) (i : Z) : option Z :=
  match s with
  | EmptyString => None
  | String a s => if Ascii.eqb a c then Some i else index_of c s (i + 1)
  end.

(** The checksum: a polynomial remainder over five-bit groups. *)
Definition generator : list Z := [0x3b6a57b2; 0x26508e6d; 0x1ea119fa; 0x3d4233dd; 0x2a1462b3].
Definition polymod_step (chk v : Z) : Z :=
  let b := Z.shiftr chk 25 in
  let chk := Z.lxor (Z.shiftl (Z.land chk 0x1ffffff) 5) v in
  foldl (fun chk ig => if Z.testbit b ig.1 then Z.lxor chk ig.2 else chk) chk
    (zip [0; 1; 2; 3; 4] generator).
Definition polymod (vs : list Z) : Z := foldl polymod_step 1 vs.

Definition codes (s : string) : list Z := map byte_of (String.list_ascii_of_string s).
Definition hrp_expand (hrp : string) : list Z :=
  map (fun c => Z.shiftr c 5) (codes hrp) ++ [0] ++ map (fun c => Z.land c 31) (codes hrp).
Definition checksum (hrp : string) (data : list Z) : list Z :=
  let m := Z.lxor (polymod (hrp_expand hrp ++ data ++ replicate 6 0)) 1 in
  map (fun i => Z.land (Z.shiftr m (5 * (5 - i))) 31) [0; 1; 2; 3; 4; 5].

(** [bech32::encode], and [decode] of a lower-case text: the last [1] separates. *)
Definition encode (hrp : string) (data : list Z) : string :=
  hrp +:+ "1" +:+ String.string_of_list_ascii (map bech32_char (data ++ checksum hrp data)).
Definition decode (s : string) : result (string * list Z) string :=
  match rsplit_once (chr 49) s with
  | None => Err "MissingSeparator"%string
  | Some (hrp, rest) =>
      match mapM (fun c => index_of c CHARSET 0) (String.list_ascii_of_string rest) with
      | None => Err "InvalidChar"%string
      | Some ds =>
          if (length ds <? 6)%nat then Err "InvalidLength"%string
          else if polymod (hrp_expand hrp ++ ds) =? 1 then Ok (hrp, take (length ds - 6) ds)
          else Err "InvalidChecksum"%string
      end
  end.

(** Regrouping of bits, most significant first. *)
Fixpoint bits_of (n : nat) (v : Z) : list bool :=
  match n with O => [] | S n => Z.testbit v (Z.of_nat n) :: bits_of n v end.
Definition of_bits (bs : list bool) : Z := foldl (fun acc b => 2 * acc + (if b : bool then 1 else 0)) 0 bs.
Fixpoint groups (fuel n : nat) (bs : list bool) : list (list bool) :=
  match fuel, bs with
  | S fuel, _ :: _ => take n bs :: groups fuel n (drop n bs)
  | _, _ => []
  end.
Definition to_base32 (b : bytes) : list Z :=
  let bs := b ≫= bits_of 8 in
  map (fun g => of_bits (g ++ replicate (5 - length g) false)) (groups (length bs) 5 bs).
Definition from_base32_bits (ds : list Z) : result bytes string :=
  let bs := ds ≫= bits_of 5 in
  let gs := groups (length bs) 8 bs in
  if forallb (fun g => (length g =? 8)%nat || ((length g <? 5)%nat && forallb negb g)) gs
  then Ok (map of_bits (List.filter (fun g => (length g =? 8)%nat) gs))
  else Err "InvalidPadding"%string.

Definition bech32_externals : Externals := {|
  CardanoError := string; error_display := id; available _ := 0; operator_address := ""%string;
  Bolt11Invoice := unit; bolt11_from_str _ := Err ""%string; bolt11_to_string _ := ""%string;
  invoice_payment_hash _ := []; invoice_payment_secret _ := []; invoice_currency _ := Regtest;
  currency_debug _ := ""%string; amount_milli_satoshis _ := None; payment_hash_display _ := ""%string;
  payment_hash_hex _ := eq_refl;
  sha256_display := hex_str; preimage_display := hex_str; bech32_decode := decode;
  from_base32 := from_base32_bits; hex_encode := hex_str; sha256 := id; description_fits _ := true;
  pubkey_from_slice := Some; pubkey_from_str _ := None; Offer := unit; offer_from_str _ := None;
  offer_amount _ := None; HumanReadableName := unit; hrn_from_encoded _ := None;
|}.

Definition encode_addr (hrp : string) (header : Z) (pkh stake : bytes) : string :=
  encode hrp (to_base32 ([header] ++ pkh ++ stake)).
Definition pkh_of (address : string) : result string string := @address_to_pkh bech32_externals address.
Definition fails_with (text : string) (r : result string string) : bool :=
  match r with Err e => str_contains e text | Ok _ => false end.

Definition address_to_pkh_valid_testnet : bool :=
  eqb (pkh_of (encode_addr "addr_test" 0 (replicate 28 0xab) (replicate 28 0xcd)))
    (Ok (hex_str (replicate 28 0xab))).
Definition address_to_pkh_valid_mainnet : bool :=
  eqb (pkh_of (encode_addr "addr" 1 (replicate 28 1) (replicate 28 2))) (Ok (hex_str (replicate 28 1))).
Definition address_to_pkh_invalid_bech32 : bool := fails_with "invalid bech32" (pkh_of "not-a-valid-address!!!").
Definition address_to_pkh_wrong_prefix : bool :=
  fails_with "not a Cardano address" (pkh_of (encode "bc" (to_base32 (replicate 57 0)))).
Definition extract_swap_address_with_prefix : bool :=
  eqb (extract_swap_address "cBTC_SWAP:addr_test1qz_something") (Some "addr_test1qz_something"%string).
Definition extract_swap_address_no_prefix : bool := eqb (extract_swap_address "random description") None.

(** ** [bitcoind_client.rs] *)

(** Addresses of the wallet's examples: a script with an address, and one without. *)
Definition with_op_return : BitcoinLib := {|
  Address := bytes; address_from_str := to_vec; require_network _ _ := true;
  address_from_script s _ := if eqb s [106] then Err "UnrecognizedScript"%string else Ok s;
  address_display a := "tb1" +:+ hex_str a; script_pubkey a := a; witness_program _ := None;
  wpubkey_hash := Some; xonly_public_key := Some; script_is_p2wpkh _ := true; script_is_p2tr _ := false;
  txid_from_str := to_vec; block_hash_from_str := to_vec; amount_from_btc _ := Ok 0;
  Transaction := bytes; serialize := id; deserialize := Ok; consensus_decode := Some;
  Psbt := bytes; unsigned_tx := id; extract_tx := Ok;
|}.

Definition bitcoind_funding_outputs_convert_witness_script_to_btc_amount : bool :=
  match @bitcoind_funding_outputs with_op_return (0 :: 20 :: replicate 20 9) SignetNet 1000000 with
  | Ok [[(address, btc_amount)]] =>
      starts_with address "tb1" && match SFcompare btc_amount (dec 1 100) with Some Eq => true | _ => false end
  | _ => false
  end.
Definition bitcoind_funding_outputs_reject_non_address_script_without_rpc : bool :=
  match @bitcoind_funding_outputs with_op_return [106] SignetNet 1000000 with
  | Err e => str_contains e "valid address"
  | Ok _ => false
  end.

(** ** The suite *)

Definition unit_suite : list (string * bool) :=
  [("swap_status_roundtrip", swap_status_roundtrip);
   ("swap_status_unknown_falls_back_to_failed", swap_status_unknown_falls_back_to_failed);
   ("offramp_status_roundtrip", offramp_status_roundtrip);
   ("offramp_status_unknown_falls_back_to_failed", offramp_status_unknown_falls_back_to_failed);
   ("insert_and_get_by_payment_hash", insert_and_get_by_payment_hash);
   ("get_nonexistent_returns_none", get_nonexistent_returns_none);
   ("update_status_changes_status_and_tx_hash", update_status_changes_status_and_tx_hash);
   ("get_expired_pending_filters_correctly", get_expired_pending_filters_correctly);
   ("get_expired_pending_empty_when_none", get_expired_pending_empty_when_none);
   ("insert_offramp_and_get_by_id", insert_offramp_and_get_by_id);
   ("get_offramp_by_payment_hash", get_offramp_by_payment_hash_test);
   ("get_offramp_nonexistent_returns_none", get_offramp_nonexistent_returns_none);
   ("update_offramp_status_with_preimage", update_offramp_status_with_preimage);
   ("update_offramp_status_coalesce_preserves_existing", update_offramp_status_coalesce_preserves_existing);
   ("update_offramp_cbtc_tx", update_offramp_cbtc_tx_test);
   ("get_offramp_by_cbtc_tx_finds_match", get_offramp_by_cbtc_tx_finds_match);
   ("get_offramp_by_cbtc_tx_ignores_empty", get_offramp_by_cbtc_tx_ignores_empty);
   ("get_offramp_by_cbtc_tx_returns_none_for_unknown", get_offramp_by_cbtc_tx_returns_none_for_unknown);
   ("count_active_swaps_counts_pending_and_fulfilling", count_active_swaps_counts_pending_and_fulfilling);
   ("count_active_offramps_counts_non_terminal", count_active_offramps_counts_non_terminal);
   ("next_offramp_id_starts_at_1", next_offramp_id_starts_at_1);
   ("next_offramp_id_increments", next_offramp_id_increments);
   ("rate_limiter_allows_up_to_max", rate_limiter_allows_up_to_max);
   ("rate_limiter_isolates_ips", rate_limiter_isolates_ips);
   ("rate_limiter_resets_after_window", rate_limiter_resets_after_window);
   ("auth_disabled_when_no_token_configured", auth_disabled_when_no_token_configured);
   ("auth_succeeds_with_correct_token", auth_succeeds_with_correct_token);
   ("auth_fails_with_wrong_token", auth_fails_with_wrong_token);
   ("auth_fails_with_missing_header", auth_fails_with_missing_header);
   ("auth_fails_with_non_bearer_scheme", auth_fails_with_non_bearer_scheme);
   ("status_counts_aggregation", status_counts_aggregation);
   ("status_counts_empty", status_counts_empty);
   ("status_counts_unknown_status_counted_as_pending", status_counts_unknown_status_counted_as_pending);
   ("test_parse_rpc_auth_success", test_parse_rpc_auth_success);
   ("test_parse_rpc_auth_fail", test_parse_rpc_auth_fail);
   ("test_get_cookie_path_success", test_get_cookie_path_success);
   ("test_get_rpc_auth_from_cookie_success", test_get_rpc_auth_from_cookie_success);
   ("test_get_rpc_auth_from_cookie_fail", test_get_rpc_auth_from_cookie_fail);
   ("test_parse_env_file_success", test_parse_env_file_success);
   ("test_parse_env_file_fail", test_parse_env_file_fail);
   ("test_get_rpc_auth_from_env_file_success", test_get_rpc_auth_from_env_file_success);
   ("test_get_rpc_auth_from_env_file_fail", test_get_rpc_auth_from_env_file_fail);
   ("test_get_rpc_auth_from_env_vars_success", test_get_rpc_auth_from_env_vars_success);
   ("sat_vb_to_sat_kwu_uses_ldk_min_feerate", sat_vb_to_sat_kwu_uses_ldk_min_feerate);
   ("sat_vb_to_sat_kwu_clamps_extreme_values", sat_vb_to_sat_kwu_clamps_extreme_values);
   ("sat_vb_to_sat_kwu_rounds_fractional_estimates_up", sat_vb_to_sat_kwu_rounds_fractional_estimates_up);
   ("max_feerate_cap_uses_valid_env_value_or_safe_default", max_feerate_cap_uses_valid_env_value_or_safe_default);
   ("fee_estimates_update_maximum_and_non_anchor_targets", fee_estimates_update_maximum_and_non_anchor_targets);
   ("high_priority_targets_are_not_limited_by_normal_fee_cap", high_priority_targets_are_not_limited_by_normal_fee_cap);
   ("anchor_channel_fee_stays_at_mempool_floor", anchor_channel_fee_stays_at_mempool_floor);
   ("high_priority_fee_estimates_are_clamped_by_high_priority_cap", high_priority_fee_estimates_are_clamped_by_high_priority_cap);
   ("converts_cbtc_base_units_to_lightning_msats", converts_cbtc_base_units_to_lightning_msats);
   ("rejects_non_positive_cbtc_amounts", rejects_non_positive_cbtc_amounts);
   ("address_to_pkh_valid_testnet", address_to_pkh_valid_testnet);
   ("address_to_pkh_valid_mainnet", address_to_pkh_valid_mainnet);
   ("address_to_pkh_invalid_bech32", address_to_pkh_invalid_bech32);
   ("address_to_pkh_wrong_prefix", address_to_pkh_wrong_prefix);
   ("extract_swap_address_with_prefix", extract_swap_address_with_prefix);
   ("extract_swap_address_no_prefix", extract_swap_address_no_prefix);
   ("bitcoind_funding_outputs_convert_witness_script_to_btc_amount", bitcoind_funding_outputs_convert_witness_script_to_btc_amount);
   ("bitcoind_funding_outputs_reject_non_address_script_without_rpc", bitcoind_funding_outputs_reject_non_address_script_without_rpc)]%string.

(** The model passes the tests. *)
Lemma unit_suite_passes : Forall (fun t => t.2 = true) unit_suite.
Proof. repeat constructor; vm_compute; reflexivity. Qed.
