(* ===== verification/NetworkTests.v ===== *)
(** * The tests that reach out to Signet

    [bdk_wallet.rs] and [esplora.rs] have three tests that talk to a public Esplora server and
    [helpers.rs] one that reads the clock.  What they assert depends on the answers, so each
    is a program of the model and comes with a theorem: in every environment that behaves as
    stated, whatever else it answers, the test passes.  The directories of the log files are
    left out, as all logging is. *)

From S2P Require Import Prelude Effects HexUtils Text Fees Args Mapping Types Convert RateLimiter World.
From S2P Require Import Startup Wallet WalletSafety Mock.
Open Scope prog_scope.

Abbreviation wprog := (Prog (St := BitcoindClient) wresp).

Section network_tests.
Context `{HB : BitcoinLib} `{HW : WalletLib}.

(** [.expect(msg)] *)
Definition expect {A} (p : wprog (result A string)) (msg : string) : wprog A :=
  let* r := p in
  match r with Ok a => Ret a | Err e => Panic (msg +:+ ": " +:+ e) end.
Definition assert (b : bool) (msg : string) : wprog unit := if b then Ret tt else Panic msg.

Definition seed_path : string := "/tmp/test_bdk_seed.txt".
Definition signet_api : string := "https://mempool.space/signet/api".

Definition test_bdk_wallet_funded_on_signet : wprog unit :=
  let* present := (call (FileExists seed_path) : wprog bool) in
  if negb present then Ret tt
  else
    let* _ := expect (bdk_new seed_path SignetNet signet_api) "should load wallet" in
    let* _ := expect bdk_sync "sync should succeed" in
    let* balance := bdk_balance_sats in
    if 0 <? balance then
      let* utxos := bdk_list_confirmed_utxos in
      assert (negb (length utxos =? 0)%nat) "should have at least one UTXO"
    else let* _ := bdk_new_address in Ret tt.

(** The test removes the seed file first: it starts from a world without it. *)
Definition test_bdk_wallet_creation : wprog unit :=
  let* _ := expect (bdk_new seed_path SignetNet signet_api) "should create wallet" in
  let* present := (call (FileExists seed_path) : wprog bool) in
  let* _ := assert present "assertion failed: Path::new(seed_path).exists()" in
  let* addr := bdk_new_address in
  let* _ := assert (starts_with (address_display addr) "tb1") "assertion failed: starts_with(tb1)" in
  let* _ := expect bdk_sync "sync should succeed" in
  let* balance := bdk_balance_sats in
  let* _ := assert (balance =? 0) "assertion failed: left == right" in
  let* _ := expect (bdk_new seed_path SignetNet signet_api) "should reload wallet" in
  Ret tt.

(** [client.get_est_sat_per_1000_weight] of the Esplora client itself. *)
Definition esplora_feerate (c : EsploraClient) (t : ConfirmationTarget) : wprog Z :=
  match get_est_sat_per_1000_weight (Some (esplora_fees c)) ∅ t with
  | Some fee => Ret fee
  | None => Panic unwrap_panic
  end.

Definition test_esplora_signet_connectivity (p : Process) : wprog unit :=
  let url := default signet_api (env_var p "ESPLORA_URL") in
  let* client := expect (let* c := esplora_new p url in
                         Ret (ok_or c "esplora"%string)) "should connect" in
  let* height := expect (get_tip_height (base_url client)) "should get tip" in
  let* _ := assert (200000 <? height) "Signet tip should be > 200K" in
  let* _ := expect (get_tip_hash (base_url client)) "should get hash" in
  let* _ := get_address_balance_sats (base_url client) "tb1qyjw7zj6xctmf4qsk0a2e08y7d3uue05yq6fjun" in
  let* fee := esplora_feerate client NonAnchorChannelFee in
  assert (MIN_FEERATE <=? fee) "fee should be >= MIN_FEERATE".

Context {W : Type} (env : forall r : WReq, W -> wresp r * W).

(** ** Total correctness

    From the world [w], whatever the client's state, the program returns without a panic,
    with a result and a world in [Q]. *)
Definition ends {A} (p : wprog A) (w : W) (Q : A -> W -> Prop) : Prop :=
  forall c, exists a, out (run env p c w) = Done a /\ Q a (world (run env p c w)).

Lemma ends_ret {A} (a : A) w (Q : A -> W -> Prop) : Q a w -> ends (Ret a) w Q.
Proof. intros HQ c. by exists a. Qed.

Lemma ends_mono {A} (p : wprog A) w (Q Q' : A -> W -> Prop) :
  ends p w Q -> (forall a w', Q a w' -> Q' a w') -> ends p w Q'.
Proof. intros Hp HQ c. destruct (Hp c) as (a & ? & ?). exists a. eauto. Qed.

Lemma ends_bind {A B} (p : wprog A) w (f : A -> wprog B) Q :
  ends p w (fun a w' => ends (f a) w' Q) -> ends (bind p f) w Q.
Proof.
  intros Hp c. destruct (Hp c) as (a & Ha & Hf). rewrite run_bind. unfold run_then. rewrite Ha. cbn.
  apply Hf.
Qed.

Lemma ends_call {A} r (k : wresp r -> wprog A) w Q :
  ends (k (env r w).1) (env r w).2 Q -> ends (bind (call r) k) w Q.
Proof. intros Hk c. cbn. apply Hk. Qed.

Lemma ends_expect {A} (p : wprog (result A string)) msg w Q :
  ends p w (fun r w' => exists a, r = Ok a /\ Q a w') -> ends (expect p msg) w Q.
Proof.
  intros Hp. apply ends_bind. eapply ends_mono; [exact Hp|]. intros r w' (a & -> & HQ). by apply ends_ret.
Qed.

Lemma ends_assert b msg w (Q : unit -> W -> Prop) : b = true -> Q tt w -> ends (assert b msg) w Q.
Proof. intros -> HQ. by apply ends_ret. Qed.

(** ** Esplora *)

(** A server whose chain is longer than 200,000 blocks and that names its tip. *)
Class SignetServer (url : string) := {
  http_client secs w : @fst (result unit string) W (env (HttpClientBuild secs) w) = Ok tt;
  tip_height w : exists body n,
    @fst (result Response string) W (env (HttpGet (url +:+ "/blocks/tip/height")) w)
    = Ok (mkResponse true (Ok body)) /\ parse_uint u64_max (trim body) = Some n /\ 200000 < n;
  tip_hash w : exists success body h,
    @fst (result Response string) W (env (HttpGet (url +:+ "/blocks/tip/hash")) w)
    = Ok (mkResponse success (Ok body)) /\ block_hash_from_str (trim body) = Some h;
}.

(** The configured cap is a 32-bit feerate. *)
Lemma max_feerate_range v : 0 <= max_feerate_sat_per_kwu_from_value v <= u32_max.
Proof.
  unfold max_feerate_sat_per_kwu_from_value. destruct v as [v|]; cbn; [|by vm_compute].
  destruct (parse_uint u32_max v) as [n|] eqn:E; [|by vm_compute].
  apply parse_uint_bounds in E; [|done]. destruct (MIN_FEERATE <=? n); [done|by vm_compute].
Qed.

(** Whatever estimates the server returned, the table is complete. *)
Lemma updated_fees_complete url max est :
  0 <= max <= u32_max ->
  exists c, updated_fees (mkEsplora url initial_fees max) est = Some c /\
    base_url c = url /\ complete MIN_FEERATE (esplora_fees c).
Proof.
  intros Hm. destruct est as [est|]; cbn.
  - destruct (esplora_estimates_applied initial_fees est max initial_complete Hm)
      as (fees' & ups & -> & Hc & _). cbn. by eexists.
  - eexists. split; [done|]. split; [done|]. apply initial_complete.
Qed.

Lemma fetch_ends url w Q : (forall est w', Q est w') -> ends (fetch_fee_estimates url) w Q.
Proof.
  intros HQ. apply ends_call. destruct (env (HttpGet _) w) as [[r|e] w']; cbn; [|by apply ends_ret].
  destruct (text r); by apply ends_ret.
Qed.

Lemma balance_ends url addr w Q : (forall v w', Q v w') -> ends (get_address_balance_sats url addr) w Q.
Proof.
  intros HQ. apply ends_call. destruct (env (HttpGet _) w) as [[r|e] w']; cbn; [|by apply ends_ret].
  destruct (text r); [|by apply ends_ret]. destruct (values_from_json _); by apply ends_ret.
Qed.

Section esplora.
Context (p : Process) (url : string) {HS : SignetServer (trim_end_matches (chr 47) url)}.
Abbreviation base := (trim_end_matches (chr 47) url).

Lemma esplora_new_connects w :
  ends (esplora_new p url) w (fun r _ => exists c, r = Some c /\ base_url c = base /\
    complete MIN_FEERATE (esplora_fees c)).
Proof.
  unfold esplora_new. apply ends_call. rewrite http_client. cbn [is_ok negb]. apply ends_call.
  set (w1 := (env (HttpClientBuild 30) w).2). destruct (tip_height w1) as (body & n & Hr & Hn & _).
  destruct (env (HttpGet _) w1) as [r w2]. cbn in Hr |- *. subst r. cbn [is_success text negb]. rewrite Hn. apply ends_bind, fetch_ends. intros est w'.
  destruct (updated_fees_complete base _ est (max_feerate_range (env_var p MAX_FEERATE_ENV_VAR)))
    as (c & -> & Hc). apply ends_ret. by exists c.
Qed.

Lemma tip_height_ends w :
  ends (get_tip_height base) w (fun r _ => exists n, r = Ok n /\ 200000 < n).
Proof.
  unfold get_tip_height, get_text, bind_try. apply ends_bind, ends_call.
  destruct (tip_height w) as (body & n & Hr & Hn & Hlt).
  destruct (env (HttpGet _) w) as [r w1]. cbn in Hr |- *. subst r. apply ends_ret. cbn [text map_err].
  rewrite Hn. apply ends_ret. by exists n.
Qed.

Lemma tip_hash_ends w : ends (get_tip_hash base) w (fun r _ => exists h, r = Ok h /\ True).
Proof.
  unfold get_tip_hash, get_text, bind_try. apply ends_bind, ends_call.
  destruct (tip_hash w) as (b & body & h & Hr & Hh).
  destruct (env (HttpGet _) w) as [r w1]. cbn in Hr |- *. subst r. apply ends_ret. cbn [text map_err].
  rewrite Hh. apply ends_ret. by exists h.
Qed.
End esplora.

(** Against such a server the test passes, whatever fee estimates it returns, and whatever it
    says of the address. *)
Lemma esplora_connectivity_passes p w :
  SignetServer (trim_end_matches (chr 47) (default signet_api (env_var p "ESPLORA_URL"))) ->
  ends (test_esplora_signet_connectivity p) w (fun _ _ => True).
Proof.
  intros HS. unfold test_esplora_signet_connectivity. cbn zeta.
  apply ends_bind, ends_expect, ends_bind. eapply ends_mono; [by apply esplora_new_connects|].
  intros r w1 (client & -> & Hb & Hc). apply ends_ret. exists client. split; [done|]. rewrite Hb.
  apply ends_bind, ends_expect. eapply ends_mono; [by apply tip_height_ends|].
  intros r w2 (n & -> & Hn). exists n. split; [done|].
  apply ends_bind, ends_assert; [by apply Z.ltb_lt|].
  apply ends_bind, ends_expect. eapply ends_mono; [by apply tip_hash_ends|].
  intros r w3 (h & -> & _). exists h. split; [done|].
  apply ends_bind, balance_ends. intros v w4.
  destruct (Hc NonAnchorChannelFee) as (fee & Hf & Hle & _). unfold esplora_feerate. cbn. rewrite Hf.
  apply ends_assert; [by apply Z.leb_le|done].
Qed.

(** ** The wallet *)

Definition is_write (r : WReq) : bool := match r with FileWrite _ _ => true | _ => false end.

Section wallet_tests.
Context (files : W -> gmap string string) {HF : FileEnv env files} {HM : MnemonicLaws}.

(** Files are writable and only writes change them, BDK and the server answer, and addresses
    are those of Signet. *)
Class SignetWallet := {
  keeps r w : is_write r = false -> files (env r w).2 = files w;
  writes path content w : is_ok (@fst (result unit string) W (env (FileWrite path content) w)) = true;
  entropy_ok w : is_ok (mnemonic_from_entropy (@fst bytes W (env Entropy16 w))) = true;
  master_ok m : is_ok (new_master SignetNet m) = true;
  create_ok e i w : is_ok (@fst (result unit string) W (env (BdkCreate e i SignetNet) w)) = true;
  build_ok u w : is_ok (@fst (result unit string) W (env (BdkEsploraBuild u) w)) = true;
  scan_ok g n w : is_ok (@fst (result Update string) W (env (BdkFullScan g n) w)) = true;
  apply_ok u w : is_ok (@fst (result unit string) W (env (BdkApplyUpdate u) w)) = true;
  reveal_ok w : starts_with (address_display (@fst Address W (env (BdkReveal External) w))) "tb1" = true;
}.
Context {HSW : SignetWallet}.

(** The seed file is missing or has a mnemonic. *)
Definition seed_usable (w : W) : Prop :=
  files w !! seed_path = None \/ is_Some (seed_of files seed_path w).

Lemma mnemonic_ends w :
  seed_usable w ->
  ends (wallet_mnemonic seed_path) w (fun r w' => exists m, r = Ok m /\ seed_of files seed_path w' = Some m).
Proof.
  intros Hu c. enough (exists m, out (run env (wallet_mnemonic seed_path) c w) = Done (Ok m)) as (m & Ho).
  { exists (Ok m). split; [done|]. exists m. split; [done|]. by apply (wallet_mnemonic_seed env). }
  destruct Hu as [Hn|[m Hs]].
  - unfold wallet_mnemonic. cbn. rewrite (file_exists env), Hn, bool_decide_eq_false_2 by (by intros [? [=]]).
    cbn. match goal with |- context [env Entropy16 ?x] => pose proof (entropy_ok x) as He end.
    destruct (mnemonic_from_entropy _) as [m|e]; [|done]. cbn.
    match goal with |- context [env (FileWrite ?p ?t) ?x] =>
      pose proof (writes p t x) as Hw; destruct (env (FileWrite p t) x) as [[u|e] w2] end; [|done].
    by exists m.
  - unfold seed_of in Hs. destruct (files w !! seed_path) as [words|] eqn:Ew; [|done]. cbn in Hs.
    destruct (mnemonic_parse (trim words)) as [m'|e] eqn:Em; [|done].
    destruct (wallet_mnemonic_read env files seed_path c w words m' Ew Em) as [-> _]. by exists m'.
Qed.

(** The next request, answered; [H] says that the answer is a success. *)
Ltac answered H :=
  match goal with |- ends (bind (call ?r) _) ?w _ =>
    apply ends_call; let Hok := fresh "Hok" in let Hk := fresh "Hk" in
    pose proof H as Hok; pose proof (keeps r w eq_refl) as Hk;
    destruct (env r w) as [[?x|?e] ?w'] in Hok, Hk |- *; cbn [fst snd is_ok] in Hok, Hk |- *; [clear Hok|done]
  end.

Lemma bdk_new_ends w :
  seed_usable w ->
  ends (bdk_new seed_path SignetNet signet_api) w
    (fun r w' => exists d, r = Ok d /\ is_Some (seed_of files seed_path w')).
Proof.
  intros Hu. unfold bdk_new, bind_try. apply ends_bind. eapply ends_mono; [by apply mnemonic_ends|].
  intros r w1 (m & -> & Hs). cbn [bind]. pose proof (master_ok m) as Hm.
  destruct (new_master SignetNet m) as [xprv|e]; [|done].
  answered (create_ok (descriptor xprv SignetNet "0") (descriptor xprv SignetNet "1") w1).
  answered (build_ok signet_api w').
  apply ends_ret. eexists. split; [done|]. unfold seed_of in *. rewrite Hk0, Hk, Hs. eauto.
Qed.

Lemma bdk_sync_ends w : ends bdk_sync w (fun r w' => r = Ok tt /\ files w' = files w).
Proof.
  unfold bdk_sync, bind_try.
  answered (scan_ok BDK_CLIENT_STOP_GAP BDK_CLIENT_CONCURRENCY w). answered (apply_ok x w').
  apply ends_call, ends_ret. split; [done|]. by rewrite keeps, Hk0, Hk.
Qed.

(** From a machine without the seed file, or with a readable one, the creation test passes if
    the wallet is empty. *)
Lemma bdk_creation_passes w :
  seed_usable w -> (forall w', (env BdkBalance w').1 = 0) ->
  ends test_bdk_wallet_creation w (fun _ _ => True).
Proof.
  intros Hu Hb. unfold test_bdk_wallet_creation.
  apply ends_bind, ends_expect. eapply ends_mono; [by apply bdk_new_ends|].
  intros r w1 (d & -> & Hs). exists d. split; [done|].
  apply ends_call. apply ends_bind, ends_assert.
  { rewrite (file_exists env). apply bool_decide_eq_true_2.
    unfold seed_of in Hs. destruct (files w1 !! seed_path); [eauto|by destruct Hs]. }
  unfold bdk_new_address. apply ends_call, ends_bind, ends_assert; [apply reveal_ok|].
  apply ends_bind, ends_expect. eapply ends_mono; [apply bdk_sync_ends|].
  intros r w2 [-> Hf]. exists tt. split; [done|]. rewrite !keeps in Hf by done.
  apply ends_call, ends_bind, ends_assert; [rewrite Hb; done|].
  apply ends_bind, ends_expect. eapply ends_mono.
  { apply bdk_new_ends. right. unfold seed_of in *. by rewrite keeps, Hf. }
  intros r w3 (d' & -> & _). exists d'. split; [done|]. by apply ends_ret.
Qed.

(** A wallet of pay-to-witness-public-key-hash outputs, as its descriptors are, whose balance
    is the value of its confirmed outputs. *)
Class SegwitBalance := {
  balance_confirmed w :
    @fst Z W (env BdkBalance w)
    = foldr (fun u acc => LocalOutput.value u + acc) 0
        (List.filter LocalOutput.is_confirmed
           (@fst (list LocalOutput.t) W (env BdkListUnspent (env BdkBalance w).2)));
  unspent_segwit w :
    Forall (fun u => script_is_p2wpkh (LocalOutput.script u) = true)
      (@fst (list LocalOutput.t) W (env BdkListUnspent w));
}.

Lemma spendable_confirmed l :
  Forall (fun u => script_is_p2wpkh (LocalOutput.script u) = true) l ->
  List.filter local_spendable l = List.filter LocalOutput.is_confirmed l.
Proof.
  intros Hl. induction Hl as [|u l Hu _ IH]; [done|]. cbn. unfold local_spendable at 1. rewrite Hu, andb_true_r, IH.
  done.
Qed.

(** A positive balance is listed. *)
Lemma utxos_listed w `{!WalletLaws} `{!SegwitBalance} :
  0 < (env BdkBalance w).1 ->
  ends bdk_list_confirmed_utxos (env BdkBalance w).2 (fun us _ => us <> []).
Proof.
  intros Hb. apply ends_call. pose proof (balance_confirmed w) as E.
  pose proof (unspent_segwit (env BdkBalance w).2) as Hs.
  destruct (env BdkListUnspent _) as [l w']. cbn [fst snd] in E, Hs |- *.
  destruct (bdk_utxos_spec l) as (us & -> & Hv). apply ends_ret. rewrite spendable_confirmed in Hv by done.
  intros Hn. rewrite Hn in Hv. destruct (List.filter LocalOutput.is_confirmed l); [|done]. cbn in *. lia.
Qed.

(** On such a wallet the funded test passes, with funds and without. *)
Lemma bdk_funded_passes w `{!WalletLaws} `{!SegwitBalance} :
  seed_usable w -> ends test_bdk_wallet_funded_on_signet w (fun _ _ => True).
Proof.
  intros Hu. unfold test_bdk_wallet_funded_on_signet. apply ends_call.
  destruct (negb _); [by apply ends_ret|].
  apply ends_bind, ends_expect. eapply ends_mono.
  { apply bdk_new_ends. unfold seed_usable, seed_of in *. by rewrite keeps. }
  intros r w1 (d & -> & _). exists d. split; [done|].
  apply ends_bind, ends_expect. eapply ends_mono; [apply bdk_sync_ends|].
  intros r w2 [-> _]. exists tt. split; [done|]. apply ends_call.
  destruct (Z.ltb_spec 0 (env BdkBalance w2).1) as [Hb|_].
  - apply ends_bind. eapply ends_mono; [by apply utxos_listed|].
    intros us w3 Hus. apply ends_assert; [by destruct us|done].
  - apply ends_call. by apply ends_ret.
Qed.
End wallet_tests.
End network_tests.

(** ** The clock ([helpers.rs]) *)

Definition timestamp_is_reasonable : relay_prog bool :=
  let* ts := current_timestamp_ms in
  Ret ((1706745600000 <? ts) && (ts <? 4102444800000)).

(** The test passes exactly between February 2024 and the year 2100. *)
Lemma timestamp_passes s w :
  0 <= clock w <= i64_max ->
  out (exec timestamp_is_reasonable s w) = Done true <-> 1706745600000 < clock w < 4102444800000.
Proof.
  intros Hi. cbn. rewrite Z2N.id, wrap_i64_id by (unfold_ints; lia).
  destruct (Z.ltb_spec 1706745600000 (clock w)), (Z.ltb_spec (clock w) 4102444800000); cbn; split;
    intros E; try done; try lia.
Qed.

(** ** A Signet on which the tests run *)

Definition signet_bitcoin : BitcoinLib := {|
  Address := bytes;
  address_from_str s := to_vec s;
  require_network _ _ := true;
  address_from_script s _ := Ok s;
  address_display a := "tb1" +:+ hex_str a;
  script_pubkey a := a;
  witness_program := @witness_program demo_bitcoin;
  wpubkey_hash := @wpubkey_hash demo_bitcoin;
  xonly_public_key := @xonly_public_key demo_bitcoin;
  script_is_p2wpkh := is_script 0 20;
  script_is_p2tr := is_script 81 32;
  txid_from_str := to_vec;
  block_hash_from_str := to_vec;
  amount_from_btc _ := Ok 1000;
  Transaction := bytes;
  serialize := id;
  deserialize := Ok;
  consensus_decode := Some;
  Psbt := bytes;
  unsigned_tx := id;
  extract_tx := Ok;
|}.
#[local] Existing Instances signet_bitcoin demo_wallet.

(** The wallet holds [funds], and the server answers a state query with the tip. *)
Definition signet_env (funds : list LocalOutput.t) (r : WReq) (w : DemoFiles) : wresp r * DemoFiles :=
  match r return wresp r * DemoFiles with
  | Rpc _ _ => (Ok JNull, w)
  | HttpGet url =>
      (Ok (mkResponse true (Ok (if String.eqb url (signet_api +:+ "/blocks/tip/height") then "250000"
                                else "00"%string))), w)
  | HttpPost _ _ => (Ok (mkResponse true (Ok "00"%string)), w)
  | BdkFullScan _ _ | BdkApplyUpdate _ => (Ok tt, w)
  | BdkBalance =>
      (foldr (fun u acc => LocalOutput.value u + acc) 0 (List.filter LocalOutput.is_confirmed funds), w)
  | BdkReveal _ => ([0; 20], w)
  | BdkBuildTx _ _ _ => (Ok [], w)
  | BdkSign b => (Ok (true, b), w)
  | BdkListUnspent => (funds, w)
  | BdkCreate _ _ _ | BdkEsploraBuild _ | HttpClientBuild _ => (Ok tt, w)
  | FileExists p => (bool_decide (is_Some (demo_files w !! p)), w)
  | FileRead p => (match demo_files w !! p with Some c => Ok c | None => Err "not found"%string end, w)
  | FileWrite p c => (Ok tt, mkDemoFiles (<[p := c]> (demo_files w)) (draws w))
  | Entropy16 => ([draws w], mkDemoFiles (demo_files w) (draws w + 1))
  | SpawnFeePoll => (tt, w)
  end.

#[local] Instance signet_server funds : SignetServer (signet_env funds) signet_api.
Proof.
  split; [done|..]; intros w.
  - exists "250000"%string, 250000. split; [vm_compute; reflexivity|]. by split; [vm_compute|].
  - exists true, "00"%string, [0]. split; vm_compute; reflexivity.
Qed.
#[local] Instance signet_files funds : FileEnv (signet_env funds) demo_files.
Proof. split; cbn; try done. by intros path w c ->. Qed.
#[local] Instance signet_words : MnemonicLaws.
Proof. split. by intros []. Qed.
#[local] Instance signet_wallet funds : SignetWallet (signet_env funds) demo_files.
Proof. split; try done. by intros []. Qed.
#[local] Instance signet_balance w : SegwitBalance (signet_env [LocalOutput.mk (mkOutPoint [1] 0) 700 (0 :: 20 :: replicate 20 w) true]).
Proof. split; [done|]. intros ?. cbn. by repeat constructor. Qed.
#[local] Instance signet_laws : WalletLaws.
Proof. destruct demo_wallet_laws. by split. Qed.

(** The hypotheses of the theorems hold here, and the tests run to their end. *)
Lemma signet_tests_pass :
  let p := mkProcess [] (fun _ => None) None (fun _ => None) in
  let funds := [LocalOutput.mk (mkOutPoint [1] 0) 700 (0 :: 20 :: replicate 20 9) true] in
  ends (signet_env []) (test_esplora_signet_connectivity p) (mkDemoFiles ∅ 0) (fun _ _ => True) /\
  ends (signet_env []) test_bdk_wallet_creation (mkDemoFiles ∅ 0) (fun _ _ => True) /\
  ends (signet_env funds) test_bdk_wallet_funded_on_signet
    (mkDemoFiles {[seed_path := "abandon"%string]} 0) (fun _ _ => True).
Proof.
  cbn zeta. split_and!.
  - apply esplora_connectivity_passes. exact (signet_server []).
  - apply (bdk_creation_passes _ demo_files); [by left|done].
  - apply (bdk_funded_passes _ demo_files); [apply _..|]. right. exists false. by vm_compute.
Qed.
