(* ===== verification/IntegrationTests.v ===== *)
(** * The repository's integration tests ([src/src/integration_tests.rs])

    The tests as programs of the model, run against [MockOperator] from an empty database.
    A test is a sequence of handler calls, database calls and assertions; it fails on a
    panic or a false assertion.  The clock stands at [now] and moves with the sleeps.

    The two tests that race two threads pass if every interleaving of the two tasks does. *)

From S2P Require Import Prelude Effects Amounts HexUtils Text Mapping MappingFacts MappingSpec Types.
From S2P Require Import RateLimiter World Helpers Rows CardanoSwap Payments CardanoOfframp Recovery Mock.
Open Scope prog_scope.

(** ** Helpers of the test suite *)

Definition now : Z := 1750000000000.

Definition test_db : SwapDb.t := SwapDb.open_ None.

Definition test_cardano_address : string := "addr_test1qabab".

Fixpoint repeat_str (n : nat) (s : string) : string :=
  match n with O => EmptyString | S n => s +:+ repeat_str n s end.

Definition make_swap (hash : string) (invoice_id : Z) (addr : string) : SwapMapping :=
  Swap.mk hash invoice_id 100000 addr SwapStatus.Pending now (now + 3600000) None None.

Definition make_offramp_mapping (id : Z) (hash : string) (status : OfframpStatus.t) : OfframpMapping :=
  Offramp.mk id "lnbc1_test_bolt11" hash 50000 "" status now None None None None
    (repeat_str 28 "ab") (now + 3600000).

Definition test_invoice (id : Z) : Invoice.t :=
  Invoice.mk id 100000 (repeat_str 28 "ab") now (now + 3600000).
Definition test_offramp (id : Z) (amount : Z) (hash : string) : ChainOfframp.t :=
  ChainOfframp.mk id amount hash (repeat_str 28 "ab") (now + 3600000).

(** An invoice for 50,000 base units; the last characters make it unique. *)
Definition build_test_bolt11 (tag : string) : string := "lnbcrtm" +:+ tag.

Abbreviation test_prog := (relay_prog bool).

(** Does the test pass? *)
Definition passes (mock : MockOperator) (t : test_prog) : bool :=
  match out (exec t (mkRelay test_db ∅ ∅ (limiter_new 10 60)) (mkWorld now mock)) with
  | Done b => b
  | Panicked _ => false
  end.
(** How often the mock has submitted afterwards. *)
Definition submits (mock : MockOperator) (t : test_prog) : Z :=
  submit_count (operator (world (exec t (mkRelay test_db ∅ ∅ (limiter_new 10 60)) (mkWorld now mock)))).

Definition assert_swap (hash : string) (f : SwapMapping -> bool) : test_prog :=
  let* m := db_read (SwapDb.get_by_payment_hash hash) in
  match m with Some m => Ret (f m) | None => Panic "called `Option::unwrap()` on a `None` value" end.
Definition assert_offramp (hash : string) (f : OfframpMapping -> bool) : test_prog :=
  let* m := db_read (SwapDb.get_offramp_by_payment_hash hash) in
  match m with Some m => Ret (f m) | None => Panic "called `Option::unwrap()` on a `None` value" end.
Definition insert_swap (m : SwapMapping) : relay_prog unit :=
  db_expect (SwapDb.insert m) "failed to insert swap mapping".
Definition insert_offramp (m : OfframpMapping) : relay_prog unit :=
  db_expect (SwapDb.insert_offramp m) "failed to insert offramp mapping".
Definition swap_is (s : SwapStatus.t) (m : SwapMapping) : bool := bool_decide (Swap.status m = s).
Definition offramp_is (s : OfframpStatus.t) (m : OfframpMapping) : bool := bool_decide (Offramp.status m = s).
Definition error_has (text : string) (m : OfframpMapping) : bool :=
  match Offramp.error_message m with Some e => str_contains e text | None => false end.
Definition is_err_with {A} (text : string) (r : result A string) : bool :=
  match r with Ok _ => false | Err e => str_contains e text end.

(** ** Onramp tests *)

Definition test_request_swap_happy_path : bool :=
  passes mock_new (
    let* r := request_swap 100000 test_cardano_address 3600000 in
    match r with
    | Err _ => Ret false
    | Ok (invoice_id, description, create_tx) =>
        Ret ((invoice_id =? 1) && starts_with description "cBTC_SWAP:" &&
             str_contains description test_cardano_address && String.eqb create_tx "mock_tx_hash_abc123")
    end).

Definition test_request_swap_bad_address : bool :=
  passes mock_new (
    let* r := request_swap 100000 "not-a-valid-address!!!" 3600000 in
    Ret (is_err_with "invalid bech32" r)).

Definition test_fulfill_swap_happy_path : bool :=
  passes (add_invoice (test_invoice 1) mock_new) (
    let* _ := insert_swap (make_swap "payment_hash_001" 1 test_cardano_address) in
    let* _ := fulfill_swap "payment_hash_001" in
    assert_swap "payment_hash_001" (fun m => swap_is SwapStatus.Completed m &&
      bool_decide (Swap.cardano_tx_hash m = Some "mock_tx_hash_abc123"%string))).

Definition test_fulfill_swap_not_in_state : bool :=
  passes mock_new (
    let* _ := insert_swap (make_swap "hash_not_found" 99 test_cardano_address) in
    let* _ := fulfill_swap "hash_not_found" in
    assert_swap "hash_not_found" (swap_is SwapStatus.Failed)).

Definition test_fulfill_swap_submit_fails : bool :=
  passes (add_invoice (test_invoice 1) (with_fail_submit mock_new)) (
    let* _ := insert_swap (make_swap "hash_submit_fail" 1 test_cardano_address) in
    let* _ := fulfill_swap "hash_submit_fail" in
    assert_swap "hash_submit_fail" (swap_is SwapStatus.Failed)).

Definition test_fulfill_swap_skips_non_pending : bool :=
  passes mock_new (
    let* _ := insert_swap (Swap.set_status SwapStatus.Completed (Some "existing_tx"%string)
                             (make_swap "hash_completed" 1 test_cardano_address)) in
    let* _ := db_write (SwapDb.update_status "hash_completed" SwapStatus.Completed (Some "existing_tx"%string)) in
    let* _ := fulfill_swap "hash_completed" in
    assert_swap "hash_completed" (fun m => swap_is SwapStatus.Completed m &&
      bool_decide (Swap.cardano_tx_hash m = Some "existing_tx"%string))).

Definition test_fulfill_swap_rejects_expired_invoice : bool :=
  let mock := add_invoice (test_invoice 20) mock_new in
  let test :=
    let* _ := insert_swap (Swap.mk "expired_swap" 20 100000 test_cardano_address SwapStatus.Pending now
                             (now - 1000) None None) in
    let* _ := fulfill_swap "expired_swap" in
    assert_swap "expired_swap" (swap_is SwapStatus.Failed) in
  passes mock test && (submits mock test =? 0).

(** ** Offramp tests *)

Definition test_complete_offramp_happy_path : bool :=
  passes (add_offramp (test_offramp 1 50000 "off_hash_001") mock_new) (
    let* _ := insert_offramp (make_offramp_mapping 1 "off_hash_001" OfframpStatus.PayingLightning) in
    let* _ := complete_offramp "off_hash_001" "preimage_hex_001" in
    assert_offramp "off_hash_001" (fun m => offramp_is OfframpStatus.Completed m &&
      bool_decide (Offramp.lightning_preimage m = Some "preimage_hex_001"%string) &&
      bool_decide (Offramp.deposit_tx_hash m = Some "mock_tx_hash_abc123"%string))).

Definition test_complete_offramp_fulfill_fails : bool :=
  passes (add_offramp (test_offramp 1 50000 "off_fail_001") (with_fail_fulfill_offramp mock_new)) (
    let* _ := insert_offramp (make_offramp_mapping 1 "off_fail_001" OfframpStatus.PayingLightning) in
    let* _ := complete_offramp "off_fail_001" "preimage_hex" in
    assert_offramp "off_fail_001" (fun m => offramp_is OfframpStatus.Failed m && error_has "fulfill_offramp" m)).

Definition test_complete_offramp_skips_non_paying : bool :=
  passes mock_new (
    let* _ := insert_offramp (make_offramp_mapping 1 "off_skip_001" OfframpStatus.AwaitingDeposit) in
    let* _ := complete_offramp "off_skip_001" "preimage_hex" in
    assert_offramp "off_skip_001" (offramp_is OfframpStatus.AwaitingDeposit)).

Definition test_handle_offramp_payment_failed : bool :=
  passes mock_new (
    let* _ := insert_offramp (make_offramp_mapping 1 "off_pay_fail_001" OfframpStatus.PayingLightning) in
    let* _ := handle_offramp_payment_failed "off_pay_fail_001" in
    assert_offramp "off_pay_fail_001" (fun m => offramp_is OfframpStatus.Failed m &&
      bool_decide (is_Some (Offramp.error_message m)))).

(** ** End-to-end tests *)

Definition test_onramp_end_to_end : bool :=
  passes mock_new (
    let* r := request_swap 100000 test_cardano_address 3600000 in
    match r with
    | Err _ => Ret false
    | Ok (invoice_id, description, create_tx) =>
        let* t := current_timestamp_ms in
        let* _ := store_swap_mapping "e2e_hash_001" invoice_id 100000 test_cardano_address
                    (t + 3600000) create_tx in
        let* stored := assert_swap "e2e_hash_001" (fun m => swap_is SwapStatus.Pending m &&
          (Swap.invoice_id m =? invoice_id)) in
        let* _ := fulfill_swap "e2e_hash_001" in
        let* done := assert_swap "e2e_hash_001" (fun m => swap_is SwapStatus.Completed m &&
          bool_decide (is_Some (Swap.cardano_tx_hash m))) in
        Ret (stored && done && starts_with description "cBTC_SWAP:")
    end).

Definition test_offramp_end_to_end : bool :=
  passes (add_offramp (test_offramp 1 50000 "e2e_off_hash") mock_new) (
    let* _ := insert_offramp (make_offramp_mapping 1 "e2e_off_hash" OfframpStatus.PayingLightning) in
    let* _ := complete_offramp "e2e_off_hash" "e2e_preimage" in
    assert_offramp "e2e_off_hash" (fun m => offramp_is OfframpStatus.Completed m &&
      bool_decide (Offramp.lightning_preimage m = Some "e2e_preimage"%string) &&
      bool_decide (is_Some (Offramp.deposit_tx_hash m)))).

(** Loops of the test: all the bodies run, and all must pass. *)
Fixpoint each (ids : list Z) (body : Z -> test_prog) : test_prog :=
  match ids with
  | [] => Ret true
  | i :: ids => let* a := body i in let* b := each ids body in Ret (a && b)
  end.

Definition test_multiple_concurrent_swaps : bool :=
  let hash i := "multi_hash_" +:+ pretty i in
  let off i := "multi_off_" +:+ pretty i in
  passes (add_offramp (test_offramp 2 100000 (off 2)) (add_offramp (test_offramp 1 50000 (off 1)) mock_new)) (
    let* requested := each [1; 2; 3] (fun i =>
      let* r := request_swap (100000 * i) test_cardano_address 3600000 in
      match r with
      | Err _ => Ret false
      | Ok (invoice_id, _, create_tx) =>
          let* t := current_timestamp_ms in
          let* _ := store_swap_mapping (hash i) invoice_id (100000 * i) test_cardano_address
                      (t + 3600000) create_tx in
          Ret true
      end) in
    let* _ := each [1; 2] (fun i =>
      let* _ := insert_offramp (make_offramp_mapping i (off i) OfframpStatus.PayingLightning) in Ret true) in
    let* _ := each [1; 2; 3] (fun i => let* _ := fulfill_swap (hash i) in Ret true) in
    let* _ := each [1; 2] (fun i => let* _ := complete_offramp (off i) ("preimage_" +:+ pretty i) in Ret true) in
    let* swaps := each [1; 2; 3] (fun i => assert_swap (hash i) (swap_is SwapStatus.Completed)) in
    let* offramps := each [1; 2] (fun i => assert_offramp (off i) (offramp_is OfframpStatus.Completed)) in
    Ret (requested && swaps && offramps)).

(** ** Recovery tests *)

Definition insert_fulfilling (hash : string) (invoice_id : Z) : relay_prog unit :=
  let* _ := insert_swap (Swap.set_status SwapStatus.Fulfilling None (make_swap hash invoice_id test_cardano_address)) in
  db_write (SwapDb.update_status hash SwapStatus.Fulfilling None).

Definition test_recover_fulfilling_swap_already_fulfilled_on_chain : bool :=
  passes mock_new (
    let* _ := insert_fulfilling "recovery_hash_001" 1 in
    let* _ := recover_fulfilling_swaps in
    assert_swap "recovery_hash_001" (swap_is SwapStatus.Completed)).

Definition test_recover_fulfilling_swap_retry_succeeds : bool :=
  passes (add_invoice (test_invoice 5) mock_new) (
    let* _ := insert_fulfilling "recovery_hash_002" 5 in
    let* _ := recover_fulfilling_swaps in
    assert_swap "recovery_hash_002" (fun m => swap_is SwapStatus.Completed m &&
      bool_decide (Swap.cardano_tx_hash m = Some "mock_tx_hash_abc123"%string))).

Definition test_recover_fulfilling_swap_submit_fails_stays_fulfilling : bool :=
  passes (add_invoice (test_invoice 6) (with_fail_submit mock_new)) (
    let* _ := insert_fulfilling "recovery_hash_003" 6 in
    let* _ := recover_fulfilling_swaps in
    assert_swap "recovery_hash_003" (swap_is SwapStatus.Fulfilling)).

(** [transition_offramp_status] does not fire: the row was inserted in its status. *)
Definition insert_in (id : Z) (hash : string) (s : OfframpStatus.t) : relay_prog unit :=
  let* _ := insert_offramp (make_offramp_mapping id hash s) in
  let* _ := db_op (SwapDb.transition_offramp_status id OfframpStatus.AwaitingDeposit s) in
  Ret tt.

Definition test_recover_depositing_offramp_already_fulfilled : bool :=
  passes mock_new (
    let* _ := insert_in 1 "rec_off_001" OfframpStatus.DepositingToPool in
    let* _ := recover_depositing_offramps in
    assert_offramp "rec_off_001" (offramp_is OfframpStatus.Completed)).

Definition test_recover_depositing_offramp_retry_succeeds : bool :=
  passes (add_offramp (test_offramp 2 50000 "rec_off_002") mock_new) (
    let* _ := insert_in 2 "rec_off_002" OfframpStatus.DepositingToPool in
    let* _ := recover_depositing_offramps in
    assert_offramp "rec_off_002" (offramp_is OfframpStatus.Completed)).

Definition test_recover_paying_lightning_marks_failed : bool :=
  passes mock_new (
    let* _ := insert_in 3 "rec_off_003" OfframpStatus.PayingLightning in
    let* _ := recover_depositing_offramps in
    assert_offramp "rec_off_003" (fun m => offramp_is OfframpStatus.Failed m && error_has "crashed" m)).

(** ** Requests for offramps *)

Definition request (bolt11 : string) (amount : Z) : relay_prog (result (Z * string * string) string) :=
  request_offramp bolt11 amount test_cardano_address 3600000.

Definition test_request_offramp_rejects_duplicate_bolt11_invoice : bool :=
  passes mock_new (
    let* first := request (build_test_bolt11 "aa") 50000 in
    let* second := request (build_test_bolt11 "aa") 50000 in
    Ret (is_ok first && is_err_with "already used" second)).

Definition test_request_offramp_rejects_amount_mismatch : bool :=
  passes mock_new (
    let* r := request (build_test_bolt11 "bb") 99999 in Ret (is_err_with "does not match" r)).

Definition test_request_offramp_rejects_mainnet_invoice_on_testnet_relay : bool :=
  passes mock_new (
    let* r := request "lnbc1mcc" 50000 in Ret (is_err_with "network" r)).

Definition test_request_offramp_happy_path : bool :=
  passes mock_new (
    let* r := request (build_test_bolt11 "dd") 50000 in
    match r with
    | Err _ => Ret false
    | Ok (offramp_id, operator_address, payment_hash) =>
        let* m := db_read (SwapDb.get_offramp_by_id 1) in
        Ret ((offramp_id =? 1) && String.eqb operator_address "addr_test1_mock_operator" &&
             negb (str_is_empty payment_hash) &&
             match m with
             | Some m => offramp_is OfframpStatus.AwaitingDeposit m && (Offramp.amount_cbtc m =? 50000)
             | None => false
             end)
    end).

Definition test_request_offramp_fills_active_cap : bool :=
  passes mock_new (
    let* requested := each [0; 1; 2] (fun i =>
      let* r := request (build_test_bolt11 (pretty i)) 50000 in Ret (is_ok r)) in
    let* three := db_read SwapDb.count_active_offramps in
    let* _ := db_write (SwapDb.update_offramp_status 1 OfframpStatus.Completed None None None) in
    let* two := db_read SwapDb.count_active_offramps in
    Ret (requested && bool_decide (res_ok three = Some 3) && bool_decide (res_ok two = Some 2))).

(** ** Refunds and cancellation *)

Definition refund_test (mock : MockOperator) (hash refund_address : string) (f : OfframpMapping -> bool) : bool :=
  let m := make_offramp_mapping 1 hash OfframpStatus.PayingLightning in
  passes mock (
    let* _ := insert_offramp (Offramp.mk 1 (Offramp.bolt11 m) hash 50000 "" OfframpStatus.PayingLightning now
                                None None None None refund_address (now + 3600000)) in
    let* _ := handle_offramp_payment_failed hash in
    assert_offramp hash (fun m => offramp_is OfframpStatus.Failed m && f m)).

Definition test_offramp_payment_failed_refund_and_cancel_succeed : bool :=
  refund_test mock_new "refund_hash_001" (repeat_str 28 "ab")
    (fun m => error_has "refunded" m && error_has "cancelled on-chain" m).

Definition test_offramp_payment_failed_refund_fails_cancel_fails : bool :=
  refund_test (with_fail_cancel_offramp (with_fail_send_cbtc mock_new)) "refund_fail_001" (repeat_str 28 "ab")
    (fun m => error_has "refund" m && error_has "failed" m).

Definition test_offramp_payment_failed_no_refund_address : bool :=
  refund_test (with_fail_cancel_offramp mock_new) "no_refund_addr" "" (error_has "no refund address").

Definition test_offramp_payment_failed_refund_ok_cancel_fails : bool :=
  refund_test (with_fail_cancel_offramp mock_new) "refund_ok_cancel_fail" (repeat_str 28 "ab")
    (error_has "refunded").

Definition cancel_test (mock : MockOperator) (hash : string) (f : string -> bool) : bool :=
  passes mock (
    let* _ := insert_offramp (make_offramp_mapping 1 hash OfframpStatus.Failed) in
    let* m := db_read (SwapDb.get_offramp_by_id 1) in
    match m with
    | None => Panic "called `Option::unwrap()` on a `None` value"
    | Some m =>
        let* _ := cancel_offramp_on_chain m in
        let* r := db_read (SwapDb.get_offramp_by_id 1) in
        Ret (match r with Some r => f (default ""%string (Offramp.error_message r)) | None => false end)
    end).

Definition test_cancel_offramp_on_chain_success : bool :=
  cancel_test mock_new "cancel_hash" (fun msg => str_contains msg "cancelled on-chain").

Definition test_cancel_offramp_on_chain_fails_gracefully : bool :=
  cancel_test (with_fail_cancel_offramp mock_new) "cancel_fail_hash"
    (fun msg => negb (str_contains msg "cancelled on-chain")).

(** ** Two threads

    The race tests run two tasks on two threads.  [race] is true if every interleaving of
    their steps ends without a panic in a state that passes the assertions. *)

(** The next step of a thread; none when it has returned or panicked. *)
Definition turn (p : relay_prog unit) (s : Relay) (w : World) : option (relay_prog unit * Relay * World) :=
  match p with
  | Local f k => Some (k (f s).1, (f s).2, w)
  | Call r k => Some (k (answer r w).1, s, (answer r w).2)
  | _ => None
  end.

Definition returned (p : relay_prog unit) : bool := match p with Ret _ => true | _ => false end.

Fixpoint race (fuel : nat) (check : Relay -> World -> bool) (p q : relay_prog unit) (s : Relay) (w : World) :
  bool :=
  match fuel with
  | O => false
  | S fuel =>
      match turn p s w, turn q s w with
      | None, None => returned p && returned q && check s w
      | tp, tq =>
          (if tp is Some (p, s, w) then race fuel check p q s w else true) &&
          (if tq is Some (q, s, w) then race fuel check p q s w else true)
      end
  end.

(** [raced p q s w p' q' s' w']: some interleaving leads from the first to the second. *)
Inductive raced : relay_prog unit -> relay_prog unit -> Relay -> World ->
  relay_prog unit -> relay_prog unit -> Relay -> World -> Prop :=
  | raced_refl p q s w : raced p q s w p q s w
  | raced_left p q s w p1 s1 w1 p' q' s' w' :
      turn p s w = Some (p1, s1, w1) -> raced p1 q s1 w1 p' q' s' w' -> raced p q s w p' q' s' w'
  | raced_right p q s w q1 s1 w1 p' q' s' w' :
      turn q s w = Some (q1, s1, w1) -> raced p q1 s1 w1 p' q' s' w' -> raced p q s w p' q' s' w'.

(** [race] looks at every interleaving. *)
Lemma race_sound fuel check p q s w p' q' s' w' :
  race fuel check p q s w = true -> raced p q s w p' q' s' w' ->
  turn p' s' w' = None -> turn q' s' w' = None ->
  returned p' = true /\ returned q' = true /\ check s' w' = true.
Proof.
  intros Hr Hi. revert fuel Hr.
  induction Hi as [p q s w|p q s w p1 s1 w1 p' q' s' w' Ht _ IH|p q s w q1 s1 w1 p' q' s' w' Ht _ IH];
    intros [|fuel] Hr Hp Hq; try done; cbn in Hr.
  - rewrite Hp, Hq in Hr. repeat apply andb_true_iff in Hr as [Hr ?]. done.
  - rewrite Ht in Hr. apply andb_true_iff in Hr as [Hr _]. by apply (IH fuel).
  - rewrite Ht in Hr. apply (IH fuel); [|done..].
    destruct (turn p s w) as [[[??]?]|]; [by apply andb_true_iff in Hr as [_ Hr]|done].
Qed.

(** The database and the mock a test has prepared, then the two threads. *)
Definition race_passes (mock : MockOperator) (prepare p q : relay_prog unit) (check : SwapDb.t -> bool)
  (expected_submits : Z) : bool :=
  let r := exec prepare (mkRelay test_db ∅ ∅ (limiter_new 10 60)) (mkWorld now mock) in
  race 64 (fun s w => check (swap_db s) && (submit_count (operator w) =? expected_submits))
    p q (fin r) (world r).

Definition test_fulfill_swap_atomic_transition_prevents_double_fulfill : bool :=
  race_passes (add_invoice (test_invoice 10) (with_query_delay 50 mock_new))
    (insert_swap (make_swap "double_fulfill_hash" 10 test_cardano_address))
    (fulfill_swap "double_fulfill_hash") (fulfill_swap "double_fulfill_hash")
    (fun db => match SwapDb.get_by_payment_hash "double_fulfill_hash" db with
               | Some m => swap_is SwapStatus.Completed m
               | None => false
               end) 1.

Definition test_complete_offramp_atomic_transition_prevents_double_complete : bool :=
  race_passes (add_offramp (test_offramp 10 50000 "double_complete_hash") (with_query_delay 50 mock_new))
    (insert_offramp (make_offramp_mapping 10 "double_complete_hash" OfframpStatus.PayingLightning))
    (complete_offramp "double_complete_hash" "preimage_a") (complete_offramp "double_complete_hash" "preimage_b")
    (fun db => match SwapDb.get_offramp_by_payment_hash "double_complete_hash" db with
               | Some m => offramp_is OfframpStatus.Completed m
               | None => false
               end) 1.

(** ** The suite *)

Definition integration_suite : list (string * bool) :=
  [("request_swap_happy_path", test_request_swap_happy_path);
   ("request_swap_bad_address", test_request_swap_bad_address);
   ("fulfill_swap_happy_path", test_fulfill_swap_happy_path);
   ("fulfill_swap_not_in_state", test_fulfill_swap_not_in_state);
   ("fulfill_swap_submit_fails", test_fulfill_swap_submit_fails);
   ("fulfill_swap_skips_non_pending", test_fulfill_swap_skips_non_pending);
   ("fulfill_swap_rejects_expired_invoice", test_fulfill_swap_rejects_expired_invoice);
   ("complete_offramp_happy_path", test_complete_offramp_happy_path);
   ("complete_offramp_fulfill_fails", test_complete_offramp_fulfill_fails);
   ("complete_offramp_skips_non_paying", test_complete_offramp_skips_non_paying);
   ("handle_offramp_payment_failed", test_handle_offramp_payment_failed);
   ("onramp_end_to_end", test_onramp_end_to_end);
   ("offramp_end_to_end", test_offramp_end_to_end);
   ("multiple_concurrent_swaps", test_multiple_concurrent_swaps);
   ("recover_already_fulfilled", test_recover_fulfilling_swap_already_fulfilled_on_chain);
   ("recover_retry_succeeds", test_recover_fulfilling_swap_retry_succeeds);
   ("recover_submit_fails", test_recover_fulfilling_swap_submit_fails_stays_fulfilling);
   ("recover_depositing_already_fulfilled", test_recover_depositing_offramp_already_fulfilled);
   ("recover_depositing_retry_succeeds", test_recover_depositing_offramp_retry_succeeds);
   ("recover_paying_lightning", test_recover_paying_lightning_marks_failed);
   ("duplicate_bolt11", test_request_offramp_rejects_duplicate_bolt11_invoice);
   ("amount_mismatch", test_request_offramp_rejects_amount_mismatch);
   ("mainnet_invoice", test_request_offramp_rejects_mainnet_invoice_on_testnet_relay);
   ("request_offramp_happy_path", test_request_offramp_happy_path);
   ("active_cap", test_request_offramp_fills_active_cap);
   ("refund_and_cancel_succeed", test_offramp_payment_failed_refund_and_cancel_succeed);
   ("refund_fails_cancel_fails", test_offramp_payment_failed_refund_fails_cancel_fails);
   ("no_refund_address", test_offramp_payment_failed_no_refund_address);
   ("refund_ok_cancel_fails", test_offramp_payment_failed_refund_ok_cancel_fails);
   ("cancel_success", test_cancel_offramp_on_chain_success);
   ("cancel_fails_gracefully", test_cancel_offramp_on_chain_fails_gracefully);
   ("double_fulfill", test_fulfill_swap_atomic_transition_prevents_double_fulfill);
   ("double_complete", test_complete_offramp_atomic_transition_prevents_double_complete)]%string.

(** The model passes the tests. *)
Lemma integration_suite_passes : Forall (fun t => t.2 = true) integration_suite.
Proof. repeat constructor; vm_compute; reflexivity. Qed.
